(* ===== verification/_CoqProject ===== *)
-Q . S2P
Prelude.v
Strconv.v
Utf8.v
Json.v
JsonFacts.v
JsonLocal.v
Protocol.v
Broker.v
MemoryBroker.v
RedisBroker.v
Subscription.v
Store.v
Postgres.v
Persistence.v
Ledger.v
Durable.v
Metrics.v
Board.v
Conn.v
Client.v
Pump.v
Typing.v
Delivery.v
Stream.v
Relay.v
Hub.v
System.v
PumpHub.v
Sessions.v
Identity.v
Lifecycle.v
Liveness.v
Schedule.v
Fleet.v
Coordinator.v
Url.v
Server.v
JsMap.v
Browser.v
JsJson.v
Roster.v
Page.v
LoadClient.v
LoadRun.v
Examples.v
BrokerTheorems.v
ProtocolTheorems.v
StoreTheorems.v
DurableTheorems.v
BoardTheorems.v
ClientTheorems.v
HubTheorems.v
PumpTheorems.v
CoordinatorTheorems.v
DeliveryTheorems.v
ServerTheorems.v
BrowserTheorems.v
PageTheorems.v
LoadTheorems.v
