(* ===== verification/Prelude.v ===== *)
(** * A verification library of the collaborative whiteboard backend

    The program (Go, under [src/]) lets any number of browsers draw on shared
    boards.  A connection speaks JSON envelopes over a WebSocket; a hub keeps one
    actor per board; a broker, in process or Redis, holds the shapes, numbers
    every operation and fans messages out; a store, in process or Postgres, keeps
    a snapshot of every board so that it survives the loss of the broker.

    ** Parts, files and correspondence

    - [Prelude]: errors and results, machine integers ([u64], [s64]), byte
      strings, sorting, sums over maps, [inevitably] (what a system comes to
      however it is scheduled), generic lemmas, tactics, the hint database [wb].
    - [Strconv], [Utf8], [Json]: the parts of Go's [strconv], [unicode/utf8] and
      [encoding/json] the program uses (parser with its nesting limit, string
      quoting and unquoting, compaction with HTML escaping, decoding into struct
      fields by exact and folded name, [omitempty], [json.RawMessage]).
      [JsonFacts] proves the codec (enough fuel, parse/print, compaction,
      quoting), [JsonLocal] that the slice kept for a raw message parses alone.
    - [Protocol] ([internal/protocol/protocol.go]): message types, payload
      records, [DecodePayload], [Marshal]; the class [Codec] states what a payload
      type promises, one instance per payload type discharges it.
    - [Broker] ([internal/broker/broker.go]): the abstract board ([view]:
      sequence, shapes, roster), last-write-wins as a function of a log
      ([replay]), the interface [Broker] and its contract [BrokerLaws], in which
      every call meets a [fault]: it may be lost, or take effect and lose its
      answer.
    - [MemoryBroker] ([internal/broker/memory.go]) and [RedisBroker]
      ([internal/broker/redis.go]: keys, both Lua scripts, the Go methods): two
      implementations of that interface and the proofs of its contract;
      [Subscription]: the goroutine of the Redis [Subscribe] as a step relation
      between the client library's channel and the board's.
    - [Store] ([internal/store/store.go], [memory.go]), [Postgres]
      ([internal/store/postgres.go]): the durable tier, its interface, its
      contract [StoreLaws], two implementations.
    - [Persistence] ([internal/hub/persistence.go]): [hydrate] and [save], proved
      against the two interfaces.
    - [Ledger]: the specification of the durable tier, per board: an append-only
      log and the part of it that is safe.  [Durable]: the two calls of [hydrate]
      and of [save] as separate steps, interleaved over the boards of any number
      of instances with lost requests, deaths and the loss of the broker; proved
      to implement [Ledger] for every broker and store that meets its contract.
      [Fleet]: any number of whole server processes ([System]) on one broker and
      one store, every run of which is one of [Durable].
    - [Metrics] ([internal/hub/metrics.go], [internal/metrics/prometheus.go]): the
      interface, the no-op and the Prometheus instance, its registration, what
      the handler of [/metrics] exposes of it, and the event trace.
    - [Board] ([internal/hub/board.go]): the handlers of the board goroutine on its
      client set and the heap of clients; a panic is [None]; Go's map iteration
      order is an argument.
    - [Conn] (the interface [Conn] of [internal/hub/client.go], the type [conn] of
      [internal/ws/websocket.go]): the transport with contexts, deadlines and its
      laws, and the adapter that discharges them over the WebSocket package.
    - [Client] ([internal/hub/client.go]): identity, and the code of a connection's
      goroutine as programs of broker and board requests ([prog]); [Typing]: the
      messages such a program may publish, as a predicate on their bytes.
    - [Pump] ([writePump] of [internal/hub/client.go]): its loop in time, between
      queue, ticker and context, on any [Conn]; [PumpHub]: every turn of it is a
      step of [System].
    - [Delivery]: from a publish over the in-process broker and any number of
      boards' instances to the sockets of their clients ([Publish] and [Subscribe]
      of [memory.go], the loop of [board.go], the write pump), interleaved.
    - [Stream] ([Subscribe] of [internal/broker/broker.go]): what a board may rely
      on of its subscription, as a class, an instance for each broker; [Relay]
      ([run] of [internal/hub/board.go]): the board's loop against that class.
    - [Hub] ([internal/hub/hub.go], [Serve] of [client.go]): the process state (the
      registry, the heap, every goroutine's program counter, the services) and
      its critical sections; [System]: one step relation for all interleavings,
      its invariant, no panic, with three degrees of help from the [surroundings];
      [Sessions]: what a step can change, seen from one session; [Identity]:
      identifiers over a whole run; [Lifecycle]: progress, ageing of boards,
      Shutdown; [Liveness]: the measure of the work left, and where it ends;
      [Schedule]: an executable scheduler, sound for [step], for concrete runs.
    - [Coordinator] ([internal/hub/hub.go]): the options of [New], the snapshot
      loop, and [Close] with its [sync.Once] and wait group, run together with
      [System].
    - [Url]: the parts of [net/url] and of the router the server uses, and the
      URLs of the browser ([web/src/App.tsx], [wsURL]); [Server]
      ([cmd/server/main.go], [internal/ws/websocket.go], [NewPostgres]):
      configuration, wiring and the life of the process as a list of effects, and
      the upgrade handler in front of [Hub.serve].
    - [JsMap]: JavaScript's [Map]; [Browser] ([web/src/App.tsx], [handleMessage]):
      the browser's stores, because the server's comments promise that its
      replica of the shapes converges; [Roster]: the page in step with clients
      that come, speak and go.  [JsJson]: numbers, strings and [JSON.stringify],
      read back by [Json]; [Page]: the page as one system of events, with its
      sockets and reconnect timer and the pointer handlers.
    - [LoadClient], [LoadRun] ([cmd/loadtest/main.go]): a client of the load
      generator (URL, updates, recognition of its own operations, percentiles),
      and a whole run with its semaphore, readers, window and join, as a step
      relation with an executable schedule.
    - [Examples]: concrete instances of every parameter, on which the witnesses
      evaluate.

    ** Theorems

    The files named [...Theorems] hold the properties, the main ones numbered
    [C1], [C2], ... in their order of importance over all files, each with a
    witness where it has hypotheses.
    - [BrokerTheorems]: last-write-wins of a log; Redis refines the in-process
      broker; atomicity of an operation under faults; hydration by many
      instances; fan-out; a torn Redis snapshot and the empty shape.
    - [ProtocolTheorems]: two-stage round trip, relaying of whatever decodes.
    - [StoreTheorems]: saves never go backwards, save and load, cold start,
      idempotent hydration, the signed sequence column.
    - [DurableTheorems]: boards survive the loss of processes and of the broker;
      the durable tier refines its ledger; an acknowledged checkpoint is never
      lost; what a failed hydration costs.
    - [BoardTheorems]: fan-out by kind of message, independence of the iteration
      order, removal exactly once, draining.
    - [ClientTheorems]: sequencing of shape operations, containment of everything
      else, well-typed publications, unforgeable cursors, the welcome of a newcomer, leaving, identity,
      the nesting limit.
    - [CoordinatorTheorems]: the coordinator refines the hub, Close returns and
      stops it for good, a pass checkpoints every board.
    - [DeliveryTheorems]: the Redis subscription is faithful and ends; delivery
      to every client exactly once, over several instances; in-order relaying on
      any subscription that keeps the contract.
    - [ServerTheorems]: nothing the process opens outlives it, its exit status,
      a browser's URL reaches its board, what the upgrade handler refuses, what
      an upgraded connection carries.
    - [BrowserTheorems]: a replica that gets its messages in order converges; a
      newcomer follows shapes, participants and cursors, from the bytes; two
      interleavings after which it does not; what the browser does not keep.
    - [PageTheorems]: a stroke of the pointer comes to every canvas; one
      connection at a time, which comes back; the same rectangle from whichever
      corner; what is lost off line and what an unmounted page leaves behind.
    - [LoadTheorems]: what a client measures is its own round trip, exact
      percentiles, a run ends and accounts for everybody; two settings that
      crash or hang it.
    - [HubTheorems]: no panic in any interleaving, reference counts, joins and
      leaves that complete, no leaked boards, cursors reach everybody else;
      without new input every session comes to be served and Shutdown
      returns; two races Shutdown does not exclude, a session whose write pump
      has failed, the metrics endpoint.
    - [PumpTheorems]: the write pump sends in order and completely, notices a
      silent peer in time, ends with its queue, and refines the hub's.

    ** Modelling decisions and bounds

    - The parser takes fuel [S (2 * length)]: a value costs at most two calls per
      character ([JsonFacts.pvalue_fuel]); decimal conversion and tokenising loops
      likewise have fuel proved sufficient.  Nothing else needs fuel.
    - Sequence numbers are [Z] with the [uint64] wrap-around written out; the laws
      of a broker hold below [br_limit]: 2^64 - 1 in process, 10^14 for Redis,
      whose Lua script prints the number as a float with 14 digits.
    - Code outside [src/] is a parameter with laws: the Redis server
      ([RedisServer], [RedisLaws]), the JSONB column ([Jsonb]), float64
      formatting ([Float64]), the Prometheus client ([PromClient]), the WebSocket
      package ([Websocket], whose calls return by their deadline).  How Redis,
      Postgres, the HTTP server and [websocket.Accept] answer the server process
      are arguments ([world], [request]).
    - The float arithmetic of the percentiles is 53-bit rounding to nearest even,
      checked against [SpecFloat] on samples, and exact for fewer than 2^45
      samples ([LoadClient.float_index_exact]).
    - Termination of goroutines is stated by a measure that every step of their own
      decreases, together with a next step while they have not ended
      ([Coordinator.work], [Subscription.pump_work], [LoadRun.work]), or as
      [inevitably], which says both at once: however the steps are chosen they
      lead there, and until then there is one that needs no help from outside
      ([Liveness], where the measure is [weighs]).
    - A step is a critical section, a channel operation or a broker or store call;
      timeouts, disconnects, write errors and cancelled contexts may strike at
      any step where the code allows for them.  The subscription delivers
      arbitrary bytes: what the board does must hold whatever arrives.
    - The durable tier is proved for runs in which hydrations come through and the
      broker is lost only while no process runs; [failed_hydration_forks] says what
      happens otherwise.  What a store can hold ([StoreDomain]: all of it in
      process, documents and sequences below 2^63 in Postgres) bounds the boards.
      Blobs are kept up to what the store does to them ([same_blob]).
    - The browser's numbers are IEEE doubles ([SpecFloat]), their text a parameter
      ([JsNumber]); its strings are their UTF-8 text.
    - Two entries of a roster with the same decoded identifier, and only those,
      are ordered by our stable sort where Go's [sort.Slice] leaves it open.

    ** Not modelled

    Logging, command-line flags and printed reports; the handler of [/healthz]
    and the text format of [/metrics]; when timers fire in the hub, which is left
    to the scheduler (a rate of the load generator is only zero or positive, the
    write pump's heartbeat is timed in [Pump]); path cleaning in the router, so
    boards called [.] and [..] are left out; the painting and layout of the
    browser, which only read its state.  [Close] is not part of the class
    [Broker]: it does nothing in process and closes the client of Redis, which
    [Server] has as an effect.  That a stream stops when its context is cancelled
    is stated for Redis only; in process a publisher that has taken the
    subscribers may still send.  The load generator's dials and windows are not
    timed, and neither are the coordinator's intervals: what is proved of them
    holds for any timing. *)

From stdpp Require Export base gmap strings list sorting fin_maps pretty.
From Stdlib Require Export ZArith Lia Ascii.

Declare Scope wb_scope.
Delimit Scope wb_scope with wb.
#[export] Set Default Goal Selector "!".

(** ** Hint databases *)

Create HintDb wb discriminated.
Create Rewrite HintDb wb.
Create Rewrite HintDb wb_str.

(** ** Errors and fallible results

    A Go function of type [(T, error)] returns a [result T]; the constructors
    of [error] name where the error came from, which is all the program looks
    at (it only ever compares an error with [nil]). *)

Inductive error :=
  | ErrSyntax       (* encoding/json: malformed text *)
  | ErrType         (* encoding/json: a value of the wrong type *)
  | ErrTransport    (* a request or its reply was lost *)
  | ErrRange        (* a number does not fit *)
  | ErrContext.     (* the context expired or was cancelled *)

Inductive result (A : Type) :=
  | Ok (a : A)
  | Err (e : error).
Arguments Ok {_} _.
Arguments Err {_} _.

#[export] Instance error_eq_dec : EqDecision error.
Proof. solve_decision. Defined.
#[export] Instance result_eq_dec `{EqDecision A} : EqDecision (result A).
Proof. solve_decision. Defined.

#[export] Instance result_ret : MRet result := fun A a => Ok a.
#[export] Instance result_bind : MBind result := fun A B f r =>
  match r with Ok a => f a | Err e => Err e end.
#[export] Instance result_fmap : FMap result := fun A B f r =>
  match r with Ok a => Ok (f a) | Err e => Err e end.

Definition is_ok {A} (r : result A) : bool :=
  match r with Ok _ => true | Err _ => false end.

(** The results of a list of calls, or the first error. *)
Fixpoint all_ok {A} (l : list (result A)) : result (list A) :=
  match l with
  | [] => Ok []
  | r :: l' => x ← r; xs ← all_ok l'; Ok (x :: xs)
  end.

Lemma all_ok_fmap_Ok {A B} (f : A -> B) (l : list A) :
  all_ok (map (fun x => Ok (f x)) l) = Ok (map f l).
Proof. induction l as [|x l IH]; simpl; [done|]. by rewrite IH. Qed.

Lemma all_ok_map {A B} (g : A -> result B) (f : A -> B) (l : list A) :
  (forall x, x ∈ l -> g x = Ok (f x)) -> all_ok (map g l) = Ok (map f l).
Proof.
  induction l as [|x l IH]; intros H; simpl; [done|].
  rewrite (H x) by set_solver. simpl. rewrite IH; [done|]. set_solver.
Qed.

Lemma all_ok_Err {A} (l : list (result A)) e :
  Err e ∈ l -> exists e', all_ok l = Err e'.
Proof.
  induction l as [|r l IH]; [set_solver|].
  intros [<-|Hin]%elem_of_cons; simpl; [by eexists|].
  destruct (IH Hin) as [e' ->]. destruct r; simpl; by eexists.
Qed.

(** ** Machine-width integers *)

Local Open Scope Z_scope.

Definition two64 : Z := 2 ^ 64.
Definition two63 : Z := 2 ^ 63.

(** The conversions and the increment of a Go [uint64] and [int64]. *)
Definition u64 (z : Z) : Z := z mod two64.
Definition s64 (z : Z) : Z :=
  let w := z mod two64 in if w <? two63 then w else w - two64.
Definition u64_inc (z : Z) : Z := u64 (z + 1).

Definition is_u64 (z : Z) : Prop := 0 <= z < two64.

Lemma u64_range z : is_u64 (u64 z).
Proof. apply Z.mod_pos_bound. done. Qed.

Lemma u64_small z : is_u64 z -> u64 z = z.
Proof. apply Z.mod_small. Qed.

Lemma s64_small z : 0 <= z < two63 -> s64 z = z.
Proof.
  intros H. unfold s64. rewrite Z.mod_small.
  - destruct (Z.ltb_spec z two63); lia.
  - unfold two63, two64 in *. lia.
Qed.

(** A [uint64] survives the trip through [int64]. *)
Lemma u64_s64 z : is_u64 z -> u64 (s64 z) = z.
Proof.
  intros H. unfold s64, u64. rewrite (Z.mod_small z) by done.
  unfold is_u64, two63, two64 in *.
  destruct (Z.ltb_spec z (2 ^ 63)).
  - apply Z.mod_small. lia.
  - rewrite <-(Z_mod_plus_full _ 1).
    replace (z - 2 ^ 64 + 1 * 2 ^ 64) with z by lia. apply Z.mod_small. lia.
Qed.

#[export] Hint Resolve u64_range : wb.
#[export] Hint Rewrite u64_small s64_small using (unfold is_u64, two63, two64 in *; lia) : wb.

(** ** Bytes and strings

    A Go string or byte slice is a [string], one [ascii] per byte. *)

Definition ord (c : ascii) : Z := Z.of_N (N_of_ascii c).
Definition chr (z : Z) : ascii := ascii_of_N (Z.to_N z).
Definition str1 (c : ascii) : string := String c "".

Lemma ord_range c : 0 <= ord c < 256.
Proof. unfold ord. pose proof (N_ascii_bounded c). lia. Qed.

Lemma chr_ord c : chr (ord c) = c.
Proof. unfold chr, ord. rewrite N2Z.id. apply ascii_N_embedding. Qed.

Lemma ord_chr z : 0 <= z < 256 -> ord (chr z) = z.
Proof. intros H. unfold chr, ord. rewrite N_ascii_embedding; lia. Qed.

Lemma ord_inj c d : ord c = ord d -> c = d.
Proof. intros H. rewrite <-(chr_ord c), <-(chr_ord d). by rewrite H. Qed.

Lemma app_cons c s t : String c s +:+ t = String c (s +:+ t).
Proof. done. Qed.

Lemma app_nil_l s : "" +:+ s = s.
Proof. done. Qed.

Lemma app_nil_r' s : s +:+ "" = s.
Proof. induction s as [|c s IH]; [done|]. by rewrite app_cons, IH. Qed.

Lemma app_assoc' s t u : (s +:+ t) +:+ u = s +:+ (t +:+ u).
Proof. induction s as [|c s IH]; [done|]. by rewrite !app_cons, IH. Qed.

Lemma length_app' s t : String.length (s +:+ t) = (String.length s + String.length t)%nat.
Proof. induction s as [|c s IH]; [done|]. rewrite app_cons. simpl. by rewrite IH. Qed.

#[export] Hint Rewrite app_cons app_nil_l app_nil_r' app_assoc' : wb_str.

(** Right-nests every append of the goal and pushes it under [String]. *)
Ltac str_norm := autorewrite with wb_str.
Tactic Notation "str_norm" "in" hyp(H) := autorewrite with wb_str in H.

Lemma app_eq_inv_tail_length s1 s2 t1 t2 :
  s1 +:+ t1 = s2 +:+ t2 -> String.length t1 = String.length t2 -> s1 = s2 /\ t1 = t2.
Proof.
  revert s2; induction s1 as [|c s1 IH]; intros [|d s2] H Hl; str_norm in H.
  - done.
  - subst t1. simpl in Hl. rewrite length_app' in Hl. lia.
  - subst t2. simpl in Hl. rewrite length_app' in Hl. lia.
  - injection H as -> H. destruct (IH s2 H Hl) as [-> ->]. done.
Qed.

Lemma app_inv_tail' s1 s2 t : s1 +:+ t = s2 +:+ t -> s1 = s2.
Proof. intros H. by apply app_eq_inv_tail_length in H as [-> _]. Qed.

(** The prefix of [s] that is left when the suffix of length [n] is dropped:
    the slice a scanner has consumed. *)
Fixpoint str_take (n : nat) (s : string) : string :=
  match n, s with
  | S n', String c s' => String c (str_take n' s')
  | _, _ => ""
  end.

Definition consumed (s rest : string) : string :=
  str_take (String.length s - String.length rest) s.

Lemma consumed_app s t : consumed (s +:+ t) t = s.
Proof.
  unfold consumed. rewrite length_app'. replace (_ + _ - _)%nat with (String.length s) by lia.
  induction s as [|c s IH]; [done|]. rewrite app_cons. simpl. by rewrite IH.
Qed.

(** [strings.Join]. *)
Fixpoint join (sep : string) (l : list string) : string :=
  match l with
  | [] => ""
  | [x] => x
  | x :: l' => x +:+ sep +:+ join sep l'
  end.

(** [strings.IndexByte] with the two halves it separates. *)
Fixpoint cut (c : ascii) (s : string) : option (string * string) :=
  match s with
  | "" => None
  | String d s' =>
      if decide (d = c) then Some ("", s')
      else '(a, b) ← cut c s'; Some (String d a, b)
  end.

Fixpoint str_forall (p : ascii -> bool) (s : string) : bool :=
  match s with "" => true | String c s' => p c && str_forall p s' end.

Lemma str_forall_app p s t : str_forall p (s +:+ t) = str_forall p s && str_forall p t.
Proof. induction s as [|c s IH]; [done|]. rewrite app_cons. simpl. by rewrite IH, andb_assoc. Qed.

Lemma str_forall_impl (P Q : ascii -> bool) s : (forall c, P c = true -> Q c = true) ->
  str_forall P s = true -> str_forall Q s = true.
Proof.
  intros HPQ. induction s as [|c s IH]; [done|]. cbn [str_forall]. intros [Hc Hs]%andb_true_iff. by rewrite HPQ, IH.
Qed.

(** The first separator is found whatever follows it. *)
Lemma cut_app c s t :
  str_forall (fun d => negb (bool_decide (d = c))) s = true ->
  cut c (s +:+ String c t) = Some (s, t).
Proof.
  induction s as [|d s IH]; intros H; str_norm; simpl.
  - by rewrite decide_True.
  - simpl in H. apply andb_true_iff in H as [Hd H].
    case_decide as Hc; [by rewrite bool_decide_true in Hd|]. by rewrite IH.
Qed.

(** ** Sorting

    [sort.Slice] with a strict order on keys: some permutation of the slice in
    nondecreasing key order.  The model computes one with a merge sort; when the
    keys are distinct there is only one ([sorted_by_unique]). *)

Section sort_by.
Context {A B : Type} (le : relation B) `{!RelDecision le, !Transitive le, !Total le}.
Context (key : A -> B).

Definition by_key (x y : A) : Prop := le (key x) (key y).

#[global] Instance by_key_dec : RelDecision by_key.
Proof. intros x y. unfold by_key. apply _. Defined.
#[global] Instance by_key_trans : Transitive by_key.
Proof. intros x y z. unfold by_key. by etrans. Qed.
#[global] Instance by_key_total : Total by_key.
Proof. intros x y. apply (total le). Qed.

Definition sort_by (l : list A) : list A := merge_sort by_key l.

Definition sorted_by (l : list A) : Prop := StronglySorted by_key l.

Lemma sort_by_sorted l : sorted_by (sort_by l).
Proof using All. apply StronglySorted_merge_sort; apply _. Qed.

Lemma sort_by_perm l : sort_by l ≡ₚ l.
Proof using Type. apply merge_sort_Permutation. Qed.

Lemma sorted_by_unique `{!AntiSymm (=) le} l1 l2 :
  (forall x y, x ∈ l1 -> y ∈ l1 -> key x = key y -> x = y) ->
  sorted_by l1 -> sorted_by l2 -> l1 ≡ₚ l2 -> l1 = l2.
Proof using Type.
  intros Hinj H1 H2 Hp. apply (StronglySorted_unique_strong by_key); [|done..].
  intros x y Hx Hy Hxy Hyx. apply Hinj; [done|by rewrite Hp|]. by apply (anti_symm le).
Qed.
End sort_by.

#[export] Hint Resolve sort_by_sorted sort_by_perm : wb.

(** ** Lists *)

Lemma filter_elem_ext {A} (P Q : A -> Prop) `{forall x, Decision (P x), forall x, Decision (Q x)} (l : list A) :
  (forall x, x ∈ l -> P x <-> Q x) -> filter P l = filter Q l.
Proof.
  induction l as [|x l IH]; intros Hl; [done|]. rewrite !filter_cons.
  rewrite IH by (intros; apply Hl; by right). pose proof (Hl x ltac:(left)).
  by repeat case_decide; try tauto.
Qed.

(** ** Maps *)

Lemma omap_map_to_list_elem {A B} (f : A -> option B) (m : gmap string A) k y :
  (k, y) ∈ omap (fun kv : string * A => (fun y => (kv.1, y)) <$> f kv.2) (map_to_list m)
  <-> omap f m !! k = Some y.
Proof.
  rewrite list_elem_of_omap, lookup_omap. split.
  - intros ([k' x] & Hx%elem_of_map_to_list & E). simpl in E.
    destruct (f x) eqn:Ef; simplify_eq/=. by rewrite Hx.
  - intros (x & Hx & Hf)%bind_Some. exists (k, x). simpl. rewrite Hf.
    split; [by apply elem_of_map_to_list|done].
Qed.

Lemma map_to_list_omap {A B} (f : A -> option B) (m : gmap string A) :
  omap (fun kv : string * A => (fun y => (kv.1, y)) <$> f kv.2) (map_to_list m)
  ≡ₚ map_to_list (omap f m).
Proof.
  apply NoDup_Permutation.
  - assert (forall l : list (string * A), NoDup (map fst l) ->
      NoDup (map fst (omap (fun kv : string * A => (fun y => (kv.1, y)) <$> f kv.2) l))) as Hn.
    { induction l as [|[k x] l IH]; [done|]. csimpl. intros [Hk Hl]%NoDup_cons.
      destruct (f x); simpl; [|by apply IH]. apply NoDup_cons. split; [|by apply IH].
      intros ([k' y] & E & Hin)%list_elem_of_fmap. simpl in E. subst k'. apply Hk.
      apply list_elem_of_omap in Hin as ([k' x'] & Hin & E). simpl in E.
      destruct (f x'); simplify_eq/=. apply list_elem_of_fmap. by exists (k, x'). }
    eapply (NoDup_fmap_1 fst), Hn, (NoDup_fst_map_to_list m).
  - apply NoDup_map_to_list.
  - intros [k y]. by rewrite omap_map_to_list_elem, elem_of_map_to_list.
Qed.

(** Sums over the entries of a map. *)
Section msum.
Context {A : Type}.
Implicit Types (f g : nat -> A -> Z) (m : gmap nat A).
Local Open Scope Z_scope.

Definition msum f m : Z := map_fold (fun k x n => f k x + n) 0 m.

Lemma msum_empty f : msum f ∅ = 0.
Proof using Type. apply map_fold_empty. Qed.

Lemma msum_insert_new f k x m : m !! k = None -> msum f (<[k := x]> m) = f k x + msum f m.
Proof using Type. intros H. unfold msum. rewrite map_fold_insert_L; [done| |done]. intros. lia. Qed.

Lemma msum_delete f k x m : m !! k = Some x -> msum f (delete k m) = msum f m - f k x.
Proof using Type.
  intros H. rewrite <-(insert_delete_id m k x H) at 2. rewrite msum_insert_new by apply lookup_delete_eq. lia.
Qed.

Lemma msum_insert f k x y m : m !! k = Some x -> msum f (<[k := y]> m) = msum f m - f k x + f k y.
Proof using Type.
  intros H. rewrite <-(insert_delete_eq m k y), msum_insert_new by apply lookup_delete_eq.
  rewrite (msum_delete f k x) by done. lia.
Qed.

Lemma msum_nonneg f m : (forall k x, 0 <= f k x) -> 0 <= msum f m.
Proof using Type.
  intros Hf. induction m as [|k x m Hk IH] using map_ind; [by rewrite msum_empty|].
  rewrite msum_insert_new by done. pose proof (Hf k x). lia.
Qed.

Lemma msum_ext f g m : (forall k x, m !! k = Some x -> f k x = g k x) -> msum f m = msum g m.
Proof using Type.
  induction m as [|k x m Hk IH] using map_ind; intros H; [by rewrite !msum_empty|].
  rewrite !msum_insert_new by done. rewrite (H k x) by apply lookup_insert_eq. rewrite IH; [done|].
  intros k' x' Hk'. apply H. rewrite lookup_insert_ne; [done|]. intros ->. congruence.
Qed.

(** The weight of one entry changes, and its value. *)
Lemma msum_update f g k x y m : m !! k = Some x -> (forall k' x', k' <> k -> f k' x' = g k' x') ->
  msum g (<[k := y]> m) = msum f m - f k x + g k y.
Proof using Type.
  intros Hk Hfg. rewrite <-(insert_delete_eq m k y), msum_insert_new by apply lookup_delete_eq.
  rewrite (msum_ext g f), (msum_delete f k x); [lia|done|].
  intros k' x' [Hne _]%lookup_delete_Some. symmetry. by apply Hfg.
Qed.

Lemma msum_fmap f g m m' : (forall k, m' !! k = None <-> m !! k = None) ->
  (forall k x x', m !! k = Some x -> m' !! k = Some x' -> g k x' = f k x) -> msum g m' = msum f m.
Proof using Type.
  revert m'. induction m as [|k x m Hk IH] using map_ind; intros m' Hd He.
  - assert (m' = ∅) as ->; [|by rewrite !msum_empty].
    apply map_eq. intros k. rewrite lookup_empty. apply Hd. by rewrite lookup_empty.
  - destruct (m' !! k) as [x'|] eqn:Hk'; [|apply Hd in Hk'; by rewrite lookup_insert_eq in Hk'].
    rewrite <-(insert_delete_id m' k x' Hk'), !msum_insert_new by (done || apply lookup_delete_eq).
    rewrite (He k x x') by (done || apply lookup_insert_eq). rewrite (IH (delete k m')); [done|..].
    + intros j. destruct (decide (j = k)) as [->|Hne]; [by rewrite lookup_delete_eq|].
      rewrite lookup_delete_ne by done. rewrite Hd. by rewrite lookup_insert_ne.
    + intros j y y' Hj [Hne Hj']%lookup_delete_Some. apply He; [by rewrite lookup_insert_ne|done].
Qed.
End msum.

(** Counting the entries of a map that satisfy a predicate. *)
Section mcount.
Context {A : Type} (P : A -> bool).
Local Open Scope Z_scope.

Definition b2z (b : bool) : Z := if b then 1 else 0.

Definition mcount (m : gmap nat A) : Z := msum (fun _ x => b2z (P x)) m.

Lemma mcount_empty : mcount ∅ = 0.
Proof using Type. apply msum_empty. Qed.

Lemma mcount_insert_new k x m : m !! k = None -> mcount (<[k := x]> m) = b2z (P x) + mcount m.
Proof using Type. intros H. by apply (msum_insert_new (fun _ x => b2z (P x))). Qed.

Lemma mcount_delete k x m : m !! k = Some x -> mcount (delete k m) = mcount m - b2z (P x).
Proof using Type. intros H. by apply (msum_delete (fun _ x => b2z (P x))). Qed.

Lemma mcount_insert k x y m : m !! k = Some x -> mcount (<[k := y]> m) = mcount m - b2z (P x) + b2z (P y).
Proof using Type. intros H. by apply (msum_insert (fun _ x => b2z (P x))). Qed.

Lemma mcount_nonneg m : 0 <= mcount m.
Proof using Type. apply msum_nonneg. intros k x. unfold b2z. by destruct (P x). Qed.

Lemma mcount_pos m k x : m !! k = Some x -> P x = true -> 0 < mcount m.
Proof using Type.
  intros Hk Hx. rewrite <-(insert_delete_id m k x Hk), mcount_insert_new by apply lookup_delete_eq.
  rewrite Hx. pose proof (mcount_nonneg (delete k m)). unfold b2z. lia.
Qed.

Lemma mcount_zero m : (forall k x, m !! k = Some x -> P x = false) -> mcount m = 0.
Proof using Type.
  induction m as [|k x m Hk IH] using map_ind; intros H; [apply mcount_empty|].
  rewrite mcount_insert_new by done. rewrite IH, (H k x); [done|apply lookup_insert_eq|].
  intros k' x' Hk'. apply (H k'). rewrite lookup_insert_ne; [done|]. intros ->. congruence.
Qed.
End mcount.

(** Counts of all entries, of some, of all but some. *)
Lemma mcount_all {A} (m : gmap nat A) (P : A -> bool) : mcount P m <= mcount (fun _ => true) m.
Proof.
  induction m as [|k x m Hk IH] using map_ind; [by rewrite !mcount_empty|].
  rewrite !mcount_insert_new by done. unfold b2z in *. destruct (P x); lia.
Qed.

Lemma mcount_full {A} (m : gmap nat A) (P : A -> bool) k x :
  mcount P m = mcount (fun _ => true) m -> m !! k = Some x -> P x = true.
Proof.
  intros He Hk. destruct (P x) eqn:HP; [done|]. pose proof (mcount_all (delete k m) P) as Hle.
  rewrite !(mcount_delete _ k x m Hk), HP in Hle. simpl in Hle. lia.
Qed.

Lemma mcount_exists {A} (m : gmap nat A) (P : A -> bool) : 0 < mcount P m -> exists k x, m !! k = Some x /\ P x = true.
Proof.
  induction m as [|k x m Hk IH] using map_ind; [rewrite mcount_empty; lia|]. rewrite mcount_insert_new by done.
  destruct (P x) eqn:HP; [intros _; exists k, x; by rewrite lookup_insert_eq|]. simpl. intros Hp.
  destruct (IH Hp) as (k' & x' & H1 & H2). exists k', x'. rewrite lookup_insert_ne; [done|]. intros <-. congruence.
Qed.

Lemma mcount_lacks {A} (m : gmap nat A) (P : A -> bool) : mcount P m < mcount (fun _ => true) m ->
  exists k x, m !! k = Some x /\ P x = false.
Proof.
  induction m as [|k x m Hk IH] using map_ind; [rewrite !mcount_empty; lia|]. rewrite !mcount_insert_new by done.
  destruct (P x) eqn:HP; [|intros _; exists k, x; by rewrite lookup_insert_eq]. simpl. intros Hp.
  destruct (IH ltac:(lia)) as (k' & x' & H1 & H2). exists k', x'. rewrite lookup_insert_ne; [done|]. intros <-. congruence.
Qed.

(** A map filled from a list. *)
Lemma fold_insert_lookup {X A} (key : X -> string) (val : X -> A) (l : list X) (m : gmap string A) k a :
  NoDup (key <$> l) ->
  fold_left (fun m x => <[key x := val x]> m) l m !! k = Some a <->
  (exists x, x ∈ l /\ key x = k /\ val x = a) \/ (k ∉ key <$> l) /\ m !! k = Some a.
Proof.
  revert m. induction l as [|x l IH]; intros m Hn; simpl.
  { split; [by right; split; [apply not_elem_of_nil|]|]. intros [(x & ?%not_elem_of_nil & _)|[_ ?]]; done. }
  apply NoDup_cons in Hn as [Hx Hn]. rewrite IH by done. setoid_rewrite elem_of_cons. split.
  - intros [(y & Hy & ? & ?)|[H1 H2]]; [left; by exists y; auto|].
    apply lookup_insert_Some in H2 as [[<- <-]|[Hne H2]]; [left; by exists x; auto|].
    right. split; [|done]. intros [?|?]; [congruence|done].
  - intros [(y & [->|Hy] & <- & <-)|[H1 H2]]; [right|left; by exists y|right].
    + split; [done|]. by rewrite lookup_insert_eq.
    + split; [naive_solver|]. rewrite lookup_insert_ne; [done|]. naive_solver.
Qed.

(** Either every entry of a map is of one kind, or some entry is of another. *)
Lemma map_Forall_or_exists {A} (P Q : nat -> A -> Prop) (m : gmap nat A) :
  (forall k x, m !! k = Some x -> P k x \/ Q k x) ->
  (forall k x, m !! k = Some x -> P k x) \/ exists k x, m !! k = Some x /\ Q k x.
Proof.
  induction m as [|k x m Hk IH] using map_ind; intros H; [left; intros k x; by rewrite lookup_empty|].
  destruct (H k x) as [Hp|Hq]; [apply lookup_insert_eq| |right; exists k, x; by rewrite lookup_insert_eq].
  destruct IH as [IH|(k' & x' & Hk' & Hq)].
  - intros k' x' Hk'. apply H. rewrite lookup_insert_ne; [done|]. intros ->. congruence.
  - left. intros k' x'. rewrite lookup_insert. case_decide as E; [subst; by intros [= <-]|apply IH].
  - right. exists k', x'. rewrite lookup_insert_ne; [done|]. intros ->. congruence.
Qed.

(** ** Inevitability

    [inevitably must may P x]: however the system moves from [x], in steps of
    [may], it gets to a state of [P]; until then it can move by itself, in a
    step of [must]. *)

Section inevitably.
Context {A : Type} (must may : A -> A -> Prop).

Inductive inevitably (P : A -> Prop) (x : A) : Prop :=
  | inevitably_now : P x -> inevitably P x
  | inevitably_later : (exists y, must x y) -> (forall y, may x y -> inevitably P y) -> inevitably P x.

Lemma inevitably_mono (P Q : A -> Prop) x : (forall y, P y -> Q y) -> inevitably P x -> inevitably Q x.
Proof using Type. intros H. induction 1; [left; by apply H|by right]. Qed.

Context (I : A -> Prop) (inv : forall x y, I x -> may x y -> I y).

(** An invariant that holds all the way may be used at the end. *)
Lemma inevitably_inv P x : I x -> inevitably P x -> inevitably (fun y => I y /\ P y) x.
Proof using inv. intros Hi H. induction H as [|x Hm _ IH]; [by left|]. right; [done|]. intros y Hy. eauto. Qed.

(** A measure that every step decreases, and a step while the goal is not
    reached. *)
Lemma inevitably_measure (P : A -> Prop) (weighs : nat -> A -> Prop) x :
  (forall x n y, I x -> weighs n x -> may x y -> exists m, (m < n)%nat /\ weighs m y) ->
  (forall x, I x -> P x \/ exists y, must x y) -> (exists n, weighs n x) -> I x -> inevitably P x.
Proof using inv.
  intros Hdec Hprog [n Hn]. revert x Hn. induction n as [n IH] using lt_wf_ind. intros x Hn Hi.
  destruct (Hprog x Hi) as [Hp|Hm]; [by left|]. right; [done|]. intros y Hy.
  destruct (Hdec x n y Hi Hn Hy) as (m & Hlt & Hw). apply (IH m); [done|done|by eapply inv].
Qed.
End inevitably.
