(* ===== verification/Strconv.v ===== *)
(** Decimal conversion of unsigned 64-bit integers, as the Go standard
    library's [strconv.FormatUint] and [strconv.ParseUint] (base 10) do it;
    the Redis broker and the JSON codec both rely on it. *)

From S2P Require Import Prelude.
Local Open Scope Z_scope.

Definition max_u64 : Z := two64 - 1.

Definition is_digit (c : ascii) : bool := (48 <=? ord c) && (ord c <=? 57).

(** Least significant digit last; 20 digits are enough for [2^64]. *)
Fixpoint format_fuel (n : nat) (z : Z) (acc : string) : string :=
  match n with
  | O => acc
  | S n' =>
      let acc' := String (chr (48 + z mod 10)) acc in
      if z <? 10 then acc' else format_fuel n' (z / 10) acc'
  end.

Definition FormatUint (z : Z) : string := format_fuel 20 z "".

(** The accumulator loop of [ParseUint]: a non-digit is a syntax error (value
    0), a value past [2^64-1] a range error (value [2^64-1]). *)
Fixpoint parse_digits (acc : Z) (s : string) : Z * option error :=
  match s with
  | "" => (acc, None)
  | String c s' =>
      if is_digit c then
        let acc' := acc * 10 + (ord c - 48) in
        if max_u64 <? acc' then (max_u64, Some ErrRange) else parse_digits acc' s'
      else (0, Some ErrSyntax)
  end.

Definition ParseUint (s : string) : Z * option error :=
  match s with "" => (0, Some ErrSyntax) | _ => parse_digits 0 s end.

#[global] Arguments FormatUint : simpl never.
#[global] Arguments ParseUint : simpl never.

(** ** Correctness *)

Lemma digit_chr d : 0 <= d < 10 -> is_digit (chr (48 + d)) = true /\ ord (chr (48 + d)) - 48 = d.
Proof.
  intros H. unfold is_digit. rewrite ord_chr by lia. split; [|lia].
  apply andb_true_iff. split; apply Z.leb_le; lia.
Qed.

Lemma parse_format_fuel n z acc :
  0 <= z < 10 ^ Z.of_nat n -> z <= max_u64 ->
  parse_digits 0 (format_fuel n z acc) = parse_digits z acc.
Proof.
  revert z acc; induction n as [|n IH]; intros z acc Hz Hm; simpl.
  - change (10 ^ Z.of_nat 0) with 1 in Hz. by replace z with 0 by lia.
  - destruct (digit_chr (z mod 10)) as [Hd Hv]; [by apply Z.mod_pos_bound|].
    destruct (Z.ltb_spec z 10).
    + simpl. rewrite Hd, Hv, Z.mod_small by lia.
      destruct (Z.ltb_spec max_u64 (0 * 10 + z)); [lia|]. done.
    + assert (z / 10 * 10 + z mod 10 = z) as Hz10.
      { pose proof (Z.div_mod z 10). lia. }
      rewrite Nat2Z.inj_succ, Z.pow_succ_r in Hz by lia.
      rewrite IH.
      * simpl. rewrite Hd, Hv, Hz10. destruct (Z.ltb_spec max_u64 z); [lia|]. done.
      * split; [apply Z.div_pos; lia|]. apply Z.div_lt_upper_bound; lia.
      * pose proof (Z.mod_pos_bound z 10). lia.
Qed.

(** The digits: a nonzero leading one and then digits only. *)
Lemma format_fuel_shape n z acc :
  0 < z < 10 ^ Z.of_nat n ->
  exists c ds, format_fuel n z acc = String c (ds +:+ acc) /\
    is_digit c = true /\ ord c <> 48 /\ str_forall is_digit ds = true.
Proof.
  revert z acc; induction n as [|n IH]; intros z acc Hz; simpl.
  - change (10 ^ Z.of_nat 0) with 1 in Hz. lia.
  - destruct (digit_chr (z mod 10)) as [Hd Hv]; [by apply Z.mod_pos_bound|].
    destruct (Z.ltb_spec z 10).
    + exists (chr (48 + z mod 10)), "". split_and!; [done|done| |done].
      rewrite Z.mod_small by lia. rewrite ord_chr; lia.
    + rewrite Nat2Z.inj_succ, Z.pow_succ_r in Hz by lia.
      destruct (IH (z / 10) (String (chr (48 + z mod 10)) acc)) as (c & ds & -> & Hc & Hc0 & Hds).
      * split; [apply Z.div_str_pos; lia|]. apply Z.div_lt_upper_bound; lia.
      * exists c, (ds +:+ str1 (chr (48 + z mod 10))). unfold str1. str_norm.
        repeat split; [done..|]. rewrite str_forall_app. simpl. by rewrite Hds, Hd.
Qed.

Lemma FormatUint_shape z : is_u64 z ->
  (z = 0 /\ FormatUint z = "0") \/
  exists c ds, FormatUint z = String c ds /\
    is_digit c = true /\ ord c <> 48 /\ str_forall is_digit ds = true.
Proof.
  intros [H0 H1]. destruct (decide (z = 0)) as [->|Hz]; [by left|right].
  destruct (format_fuel_shape 20 z "") as (c & ds & E & H).
  { split; [lia|]. change (10 ^ Z.of_nat 20) with 100000000000000000000. unfold two64 in H1. lia. }
  exists c, ds. unfold FormatUint. rewrite E, app_nil_r'. done.
Qed.

Lemma FormatUint_digits z : is_u64 z -> str_forall is_digit (FormatUint z) = true.
Proof.
  intros H. destruct (FormatUint_shape z H) as [[-> ->]|(c & ds & -> & Hc & _ & Hds)]; [done|].
  simpl. by rewrite Hc, Hds.
Qed.

Lemma ParseUint_FormatUint z : is_u64 z -> ParseUint (FormatUint z) = (z, None).
Proof.
  intros H. destruct (FormatUint_shape z H) as [[-> ->]|(c & ds & E & _)]; [done|].
  unfold ParseUint. rewrite E, <-E. unfold FormatUint.
  rewrite parse_format_fuel; [done| |].
  - destruct H as [H0 H1]. change (10 ^ Z.of_nat 20) with 100000000000000000000.
    unfold two64 in H1. lia.
  - unfold max_u64. destruct H. lia.
Qed.

Lemma FormatUint_inj z z' : is_u64 z -> is_u64 z' -> FormatUint z = FormatUint z' -> z = z'.
Proof.
  intros Hz Hz' E. apply ParseUint_FormatUint in Hz, Hz'. congruence.
Qed.

Lemma parse_digits_range acc s : is_u64 acc -> is_u64 (parse_digits acc s).1.
Proof.
  revert acc; induction s as [|c s IH]; intros acc H; simpl; [done|].
  destruct (is_digit c) eqn:Hc; [|done].
  destruct (Z.ltb_spec max_u64 (acc * 10 + (ord c - 48))); [done|].
  apply IH. apply andb_true_iff in Hc as [Hc _]. apply Z.leb_le in Hc.
  unfold is_u64, max_u64 in *. lia.
Qed.

Lemma ParseUint_range s : is_u64 (ParseUint s).1.
Proof. destruct s; [done|]. by apply parse_digits_range. Qed.

#[export] Hint Resolve ParseUint_range : wb.
