(* ===== verification/Utf8.v ===== *)
(** UTF-8 and the UTF-16 surrogates of [\u] escapes, as Go's [unicode/utf8]
    and [unicode/utf16] implement them, and a generic tokenising loop the JSON
    string codec is written with. *)

From S2P Require Import Prelude.
Local Open Scope Z_scope.

Definition RuneError : Z := 65533.          (* U+FFFD *)
Definition MaxRune : Z := 1114111.          (* U+10FFFF *)

Definition between (lo hi z : Z) : bool := (lo <=? z) && (z <=? hi).

Lemma between_spec lo hi z : between lo hi z = true <-> lo <= z <= hi.
Proof. unfold between. rewrite andb_true_iff, !Z.leb_le. done. Qed.

Lemma between_true lo hi z : lo <= z <= hi -> between lo hi z = true.
Proof. apply between_spec. Qed.

Lemma between_false lo hi z : z < lo \/ hi < z -> between lo hi z = false.
Proof. intros H. apply not_true_iff_false. rewrite between_spec. lia. Qed.

Fixpoint str_drop (n : nat) (s : string) : string :=
  match n, s with
  | S n', String _ s' => str_drop n' s'
  | _, _ => s
  end.

Lemma str_drop_app s t : str_drop (String.length s) (s +:+ t) = t.
Proof. induction s as [|c s IH]; [done|]. rewrite app_cons. done. Qed.

Lemma str_take_app s t : str_take (String.length s) (s +:+ t) = s.
Proof. induction s as [|c s IH]; [by destruct t|]. rewrite app_cons. simpl. by rewrite IH. Qed.

Lemma length_str_drop n s : String.length (str_drop n s) = (String.length s - n)%nat.
Proof. revert s; induction n as [|n IH]; intros [|c s]; simpl; [done..|]. by rewrite IH. Qed.

Lemma str_take_drop n s : str_take n s +:+ str_drop n s = s.
Proof. revert s; induction n as [|n IH]; intros [|c s]; simpl; [done..|]. by rewrite app_cons, IH. Qed.

(** ** Runes *)

(** [utf8.DecodeRuneInString]: the first rune of [s] and its width; an invalid
    encoding gives [RuneError] and width 1. *)
Definition DecodeRune (s : string) : Z * nat :=
  match s with
  | "" => (RuneError, 0%nat)
  | String c0 s1 =>
      let b0 := ord c0 in
      if b0 <? 128 then (b0, 1%nat)
      else if between 194 223 b0 then
        match s1 with
        | String c1 _ =>
            if between 128 191 (ord c1)
            then ((b0 - 192) * 64 + (ord c1 - 128), 2%nat) else (RuneError, 1%nat)
        | _ => (RuneError, 1%nat)
        end
      else if between 224 239 b0 then
        match s1 with
        | String c1 (String c2 _) =>
            if between (if b0 =? 224 then 160 else 128) (if b0 =? 237 then 159 else 191) (ord c1)
               && between 128 191 (ord c2)
            then ((b0 - 224) * 4096 + (ord c1 - 128) * 64 + (ord c2 - 128), 3%nat)
            else (RuneError, 1%nat)
        | _ => (RuneError, 1%nat)
        end
      else if between 240 244 b0 then
        match s1 with
        | String c1 (String c2 (String c3 _)) =>
            if between (if b0 =? 240 then 144 else 128) (if b0 =? 244 then 143 else 191) (ord c1)
               && between 128 191 (ord c2) && between 128 191 (ord c3)
            then ((b0 - 240) * 262144 + (ord c1 - 128) * 4096 + (ord c2 - 128) * 64
                  + (ord c3 - 128), 4%nat)
            else (RuneError, 1%nat)
        | _ => (RuneError, 1%nat)
        end
      else (RuneError, 1%nat)
  end.

Definition IsSurrogate (r : Z) : bool := between 55296 57343 r.

(** [utf8.AppendRune] on an empty slice: surrogates and out-of-range values are
    encoded as [RuneError]. *)
Definition EncodeRune (r : Z) : string :=
  let r := if IsSurrogate r || negb (between 0 MaxRune r) then RuneError else r in
  if r <? 128 then str1 (chr r)
  else if r <? 2048 then String (chr (192 + r / 64)) (str1 (chr (128 + r mod 64)))
  else if r <? 65536 then
    String (chr (224 + r / 4096))
      (String (chr (128 + (r / 64) mod 64)) (str1 (chr (128 + r mod 64))))
  else
    String (chr (240 + r / 262144))
      (String (chr (128 + (r / 4096) mod 64))
        (String (chr (128 + (r / 64) mod 64)) (str1 (chr (128 + r mod 64))))).

(** [utf16.DecodeRune]. *)
Definition utf16_DecodeRune (r1 r2 : Z) : Z :=
  if between 55296 56319 r1 && between 56320 57343 r2
  then (r1 - 55296) * 1024 + (r2 - 56320) + 65536
  else RuneError.

(** A Unicode scalar value: a code point that is not a surrogate. *)
Definition is_scalar (r : Z) : Prop := 0 <= r <= MaxRune /\ IsSurrogate r = false.

(** Well-formed UTF-8: a concatenation of encoded scalar values. *)
Inductive utf8 : string -> Prop :=
  | utf8_nil : utf8 ""
  | utf8_cons r s : is_scalar r -> utf8 s -> utf8 (EncodeRune r +:+ s).

Lemma scalar_RuneError : is_scalar RuneError.
Proof. done. Qed.

Lemma scalar_ascii r : 0 <= r < 128 -> is_scalar r.
Proof. intros H. split; [unfold MaxRune; lia|]. unfold IsSurrogate. apply between_false. lia. Qed.

Lemma scalar_spec r : is_scalar r <-> 0 <= r < 55296 \/ 57343 < r <= MaxRune.
Proof.
  unfold is_scalar, IsSurrogate, MaxRune. rewrite <-not_true_iff_false, between_spec. lia.
Qed.

#[export] Hint Resolve scalar_RuneError scalar_ascii : wb.

Lemma utf8_app s t : utf8 s -> utf8 t -> utf8 (s +:+ t).
Proof. intros Hs Ht. induction Hs; [done|]. rewrite app_assoc'. by constructor. Qed.

Lemma utf8_rune r : is_scalar r -> utf8 (EncodeRune r).
Proof. intros H. rewrite <-(app_nil_r' (EncodeRune r)). constructor; [done|constructor]. Qed.

Lemma EncodeRune_scalar r : is_scalar r ->
  EncodeRune r =
  if r <? 128 then str1 (chr r)
  else if r <? 2048 then String (chr (192 + r / 64)) (str1 (chr (128 + r mod 64)))
  else if r <? 65536 then
    String (chr (224 + r / 4096))
      (String (chr (128 + (r / 64) mod 64)) (str1 (chr (128 + r mod 64))))
  else
    String (chr (240 + r / 262144))
      (String (chr (128 + (r / 4096) mod 64))
        (String (chr (128 + (r / 64) mod 64)) (str1 (chr (128 + r mod 64))))).
Proof.
  intros [H1 H2]. unfold EncodeRune. rewrite H2, between_true by done. done.
Qed.

(** [lia] with the equations of division by constants. *)
Ltac zlia := Z.to_euclidean_division_equations; lia.

Ltac solve_between :=
  repeat match goal with
  | |- context [between ?lo ?hi ?z] =>
      first [ rewrite (between_true lo hi z) by zlia
            | rewrite (between_false lo hi z) by zlia ]
  end.

(** Decoding inverts encoding on every scalar value, whatever follows. *)
Lemma DecodeRune_EncodeRune r t : is_scalar r ->
  DecodeRune (EncodeRune r +:+ t) = (r, String.length (EncodeRune r)).
Proof.
  intros Hs. rewrite EncodeRune_scalar by done. apply scalar_spec in Hs. unfold MaxRune in Hs.
  assert (0 <= r) as H0 by lia.
  destruct (Z.ltb_spec r 128); [|destruct (Z.ltb_spec r 2048); [|destruct (Z.ltb_spec r 65536)]];
    unfold str1; str_norm; unfold DecodeRune.
  - rewrite ord_chr by zlia. destruct (Z.ltb_spec r 128); [done|lia].
  - rewrite !ord_chr by zlia. destruct (Z.ltb_spec (192 + r / 64) 128); [zlia|].
    solve_between. f_equal. zlia.
  - rewrite !ord_chr by zlia. destruct (Z.ltb_spec (224 + r / 4096) 128); [zlia|].
    solve_between.
    destruct (Z.eqb_spec (224 + r / 4096) 224), (Z.eqb_spec (224 + r / 4096) 237);
      solve_between; simpl; f_equal; zlia.
  - rewrite !ord_chr by zlia. destruct (Z.ltb_spec (240 + r / 262144) 128); [zlia|].
    solve_between.
    destruct (Z.eqb_spec (240 + r / 262144) 240), (Z.eqb_spec (240 + r / 262144) 244);
      solve_between; simpl; f_equal; zlia.
Qed.

(** Whatever the bytes, the decoded rune is a scalar value. *)
Lemma DecodeRune_scalar s : is_scalar (DecodeRune s).1.
Proof.
  destruct s as [|c0 s]; [done|]. simpl. pose proof (ord_range c0) as H0.
  destruct (Z.ltb_spec (ord c0) 128); [apply scalar_ascii; simpl; lia|].
  repeat (case_match; simplify_eq/=; try done).
  all: repeat match goal with H : _ && _ = true |- _ => apply andb_true_iff in H as [? ?] end.
  all: rewrite ?between_spec in *; apply scalar_spec; unfold MaxRune; simpl in *.
  all: repeat match goal with
  | H : context [if ?b then _ else _] |- _ => destruct b eqn:?; simpl in *
  end.
  all: rewrite ?Z.eqb_eq, ?Z.eqb_neq in *; lia.
Qed.

(** The shapes of a decoded multi-byte sequence. *)
Lemma DecodeRune_inv c s r n : 128 <= ord c -> DecodeRune (String c s) = (r, n) ->
  (r = RuneError /\ n = 1%nat) \/
  (exists c1 t, n = 2%nat /\ s = String c1 t /\ 194 <= ord c <= 223 /\ 128 <= ord c1 <= 191 /\
     r = (ord c - 192) * 64 + (ord c1 - 128)) \/
  (exists c1 c2 t, n = 3%nat /\ s = String c1 (String c2 t) /\ 224 <= ord c <= 239 /\
     128 <= ord c1 <= 191 /\ 128 <= ord c2 <= 191 /\
     r = (ord c - 224) * 4096 + (ord c1 - 128) * 64 + (ord c2 - 128)) \/
  (exists c1 c2 c3 t, n = 4%nat /\ s = String c1 (String c2 (String c3 t)) /\ 240 <= ord c <= 244 /\
     128 <= ord c1 <= 191 /\ 128 <= ord c2 <= 191 /\ 128 <= ord c3 <= 191).
Proof.
  intros Hc H. unfold DecodeRune in H. destruct (Z.ltb_spec (ord c) 128); [lia|].
  destruct (between 194 223 (ord c)) eqn:E2; [|destruct (between 224 239 (ord c)) eqn:E3;
    [|destruct (between 240 244 (ord c)) eqn:E4; [|left; by simplify_eq]]];
    rewrite ?between_spec in *.
  - destruct s as [|c1 s]; [left; by simplify_eq|].
    destruct (between 128 191 (ord c1)) eqn:F; [|left; by simplify_eq].
    apply between_spec in F. simplify_eq. right; left. by eexists _, _.
  - destruct s as [|c1 [|c2 s]]; [left; by simplify_eq..|].
    destruct (between _ _ (ord c1) && between _ _ (ord c2)) eqn:F; [|left; by simplify_eq].
    apply andb_true_iff in F as [F1 F2]. apply between_spec in F1, F2. simplify_eq.
    right; right; left. eexists _, _, _. split_and!; try done; try lia;
      destruct (ord c =? 224), (ord c =? 237); lia.
  - destruct s as [|c1 [|c2 [|c3 s]]]; [left; by simplify_eq..|].
    destruct (between _ _ (ord c1) && between _ _ (ord c2) && between _ _ (ord c3)) eqn:F;
      [|left; by simplify_eq].
    apply andb_true_iff in F as [F F3]. apply andb_true_iff in F as [F1 F2].
    apply between_spec in F1, F2, F3. right; right; right. simplify_eq.
    eexists _, _, _, _. split_and!; try done; try lia;
      destruct (ord c =? 240), (ord c =? 244); lia.
Qed.

(** The width is positive and within the string. *)
Lemma DecodeRune_width c s : (1 <= (DecodeRune (String c s)).2)%nat.
Proof. simpl. repeat case_match; simplify_eq/=; lia. Qed.

#[export] Hint Resolve DecodeRune_scalar DecodeRune_width utf8_rune utf8_app : wb.

(** ** Tokenising loops

    [tokens tok s] repeatedly asks [tok] for the output and the width of the
    next token; fuel [length s] is enough since a token is never empty. *)

Section tokens.
Context (tok : string -> option (string * nat)).

Fixpoint tokens_fuel (n : nat) (s : string) : option string :=
  match s, n with
  | "", _ => Some ""
  | _, O => None
  | _, S n' => '(o, k) ← tok s; o' ← tokens_fuel n' (str_drop k s); Some (o +:+ o')
  end.

Definition tokens (s : string) : option string := tokens_fuel (String.length s) s.

Hypothesis tok_width : forall s o k, tok s = Some (o, k) -> (1 <= k)%nat.

Lemma tokens_fuel_enough n m s :
  (String.length s <= n)%nat -> (String.length s <= m)%nat ->
  tokens_fuel n s = tokens_fuel m s.
Proof using tok_width.
  revert m s; induction n as [|n IH]; intros m s Hn Hm.
  - destruct s; [by destruct m|simpl in Hn; lia].
  - destruct s as [|c s]; [by destruct m|]. destruct m as [|m]; [simpl in Hm; lia|].
    change (('(o, k) ← tok (String c s); o' ← tokens_fuel n (str_drop k (String c s)); Some (o +:+ o'))
      = ('(o, k) ← tok (String c s); o' ← tokens_fuel m (str_drop k (String c s)); Some (o +:+ o'))).
    destruct (tok (String c s)) as [[o k]|] eqn:E; [|done]. simpl.
    rewrite (IH m); [done|..]; apply tok_width in E;
      (change (str_drop k (String c s)) with (str_drop k (String c s)));
      rewrite length_str_drop; simpl in *; lia.
Qed.

(** One turn of the loop on a nonempty string. *)
Lemma tokens_step s o k :
  s <> "" -> tok s = Some (o, k) ->
  tokens s = (fun o' => o +:+ o') <$> tokens (str_drop k s).
Proof using tok_width.
  intros Hs E. destruct s as [|c s]; [done|]. unfold tokens at 1. simpl.
  rewrite E. simpl. pose proof (tok_width _ _ _ E).
  unfold tokens. rewrite (tokens_fuel_enough _ (String.length (str_drop k (String c s)))).
  - by destruct (tokens_fuel _ _).
  - rewrite length_str_drop. simpl. lia.
  - done.
Qed.

Lemma tokens_app s t o :
  s <> "" -> tok (s +:+ t) = Some (o, String.length s) ->
  tokens (s +:+ t) = (fun o' => o +:+ o') <$> tokens t.
Proof using tok_width.
  intros Hs E. rewrite (tokens_step (s +:+ t) o (String.length s)); [|by destruct s|done].
  by rewrite str_drop_app.
Qed.

Lemma tokens_nil : tokens "" = Some "".
Proof using Type. done. Qed.
End tokens.

Lemma EncodeRune_ascii c : ord c < 128 -> EncodeRune (ord c) = str1 c.
Proof.
  intros H. pose proof (ord_range c). unfold EncodeRune.
  replace (IsSurrogate (ord c) || negb (between 0 MaxRune (ord c))) with false.
  - replace (ord c <? 128) with true by lia. by rewrite chr_ord.
  - unfold IsSurrogate, between, MaxRune. lia.
Qed.

(** Plain ASCII text is valid. *)
Lemma utf8_plain s : str_forall (fun c => ord c <? 128) s = true -> utf8 s.
Proof.
  induction s as [|c s IH]; [constructor|]. simpl. intros [Hc Hs]%andb_true_iff. apply Z.ltb_lt in Hc.
  pose proof (ord_range c). change (String c s) with (str1 c +:+ s). rewrite <-EncodeRune_ascii by done.
  constructor; [|auto]. apply scalar_ascii. lia.
Qed.

#[export] Hint Resolve utf8_plain : wb.
