(* ===== verification/Json.v ===== *)
(** The part of Go's [encoding/json] the program uses: the scanner and parser,
    string quoting and unquoting, compaction with HTML escaping, and the rules
    by which values are decoded into struct fields.  A [json.RawMessage] is its
    text, so the bytes a client sends are kept as they were sent. *)

From S2P Require Import Prelude Strconv Utf8.
#[local] Set Warnings "-register-all".
Local Open Scope Z_scope.

Definition dq : ascii := "034".
Definition bs : ascii := "092".
Definition ceq (a b : ascii) : bool := Ascii.eqb a b.
#[global] Arguments ceq !_ !_.

(** Parsed JSON text.  String tokens and object keys keep their escapes; each
    element and member carries the raw text of its value. *)
Inductive json :=
  | JNull
  | JBool (b : bool)
  | JNum (lit : string)
  | JStr (raw : string)
  | JArr (elems : list (string * json))
  | JObj (members : list (string * (string * json))).

(** ** Scanner *)

Definition is_ws (c : ascii) : bool :=
  ceq c " " || ceq c "009" || ceq c "010" || ceq c "013".

Fixpoint skip_ws (s : string) : string :=
  match s with
  | String c s' => if is_ws c then skip_ws s' else s
  | "" => s
  end.

Definition is_hex (c : ascii) : bool :=
  is_digit c || between 97 102 (ord c) || between 65 70 (ord c).

Definition hex_val (c : ascii) : Z :=
  if is_digit c then ord c - 48
  else if between 97 102 (ord c) then ord c - 87 else ord c - 55.

(** The characters that may follow a backslash, [u] apart. *)
Definition is_simple_escape (c : ascii) : bool :=
  ceq c "b" || ceq c "f" || ceq c "n" || ceq c "r" || ceq c "t"
  || ceq c bs || ceq c "/" || ceq c dq.

(** The body of a string token, up to and without its closing quote. *)
Fixpoint scan_str (s : string) : option (string * string) :=
  match s with
  | "" => None
  | String c s1 =>
      if ceq c dq then Some ("", s1)
      else if ceq c bs then
        match s1 with
        | "" => None
        | String e s2 =>
            if is_simple_escape e then
              '(raw, r) ← scan_str s2; Some (String c (String e raw), r)
            else if ceq e "u" then
              match s2 with
              | String h1 (String h2 (String h3 (String h4 s3))) =>
                  if is_hex h1 && is_hex h2 && is_hex h3 && is_hex h4 then
                    '(raw, r) ← scan_str s3;
                    Some (String c (String e (String h1 (String h2 (String h3 (String h4 raw))))), r)
                  else None
              | _ => None
              end
            else None
        end
      else if ord c <? 32 then None
      else '(raw, r) ← scan_str s1; Some (String c raw, r)
  end.

Fixpoint take_digits (s : string) : string * string :=
  match s with
  | String c s' =>
      if is_digit c then let '(ds, r) := take_digits s' in (String c ds, r) else ("", s)
  | "" => ("", "")
  end.

(** [-? (0 | [1-9][0-9]* )] *)
Definition scan_int (s : string) : option (string * string) :=
  let '(sign, s1) := match s with
    | String c s' => if ceq c "-" then ("-", s') else ("", s)
    | "" => ("", s) end in
  match s1 with
  | String c s2 =>
      if ceq c "0" then Some (sign +:+ "0", s2)
      else if is_digit c then
        let '(ds, r) := take_digits s2 in Some (sign +:+ String c ds, r)
      else None
  | "" => None
  end.

(** [(\. [0-9]+)?] *)
Definition scan_frac (s : string) : option (string * string) :=
  match s with
  | String c s' =>
      if ceq c "." then
        let '(ds, r) := take_digits s' in
        if bool_decide (ds = "") then None else Some (String c ds, r)
      else Some ("", s)
  | "" => Some ("", s)
  end.

(** [([eE] [+-]? [0-9]+)?] *)
Definition scan_exp (s : string) : option (string * string) :=
  match s with
  | String c s' =>
      if ceq c "e" || ceq c "E" then
        let '(sign, s1) := match s' with
          | String d s'' => if ceq d "+" || ceq d "-" then (str1 d, s'') else ("", s')
          | "" => ("", s') end in
        let '(ds, r) := take_digits s1 in
        if bool_decide (ds = "") then None else Some (String c (sign +:+ ds), r)
      else Some ("", s)
  | "" => Some ("", s)
  end.

Definition scan_number (s : string) : option (string * string) :=
  '(i, s1) ← scan_int s; '(f, s2) ← scan_frac s1; '(e, s3) ← scan_exp s2;
  Some (i +:+ f +:+ e, s3).

Definition strip_prefix (p s : string) : option string :=
  if bool_decide (str_take (String.length p) s = p) then Some (str_drop (String.length p) s) else None.

Definition scan_literal (s : string) : option (json * string) :=
  match strip_prefix "null" s with Some r => Some (JNull, r) | None =>
  match strip_prefix "true" s with Some r => Some (JBool true, r) | None =>
  match strip_prefix "false" s with Some r => Some (JBool false, r) | None => None
  end end end.

(** ** Parser

    [d] is the nesting depth, limited to [maxNestingDepth] as in the Go
    scanner.  A value costs at most two calls per character, so fuel
    [S (2 * length s)] is enough ([JsonFacts.pvalue_fuel]). *)

Definition maxNestingDepth : Z := 10000.

Fixpoint pvalue (n : nat) (d : Z) (s : string) {struct n} : option (json * string) :=
  match n, s with
  | O, _ | _, "" => None
  | S n', String c s1 =>
      if ceq c "{" then
        if maxNestingDepth <=? d then None else
        match skip_ws s1 with
        | String c2 r =>
            if ceq c2 "}" then Some (JObj [], r)
            else '(l, r') ← pmembers n' (d + 1) (String c2 r); Some (JObj l, r')
        | "" => None
        end
      else if ceq c "[" then
        if maxNestingDepth <=? d then None else
        match skip_ws s1 with
        | String c2 r =>
            if ceq c2 "]" then Some (JArr [], r)
            else '(l, r') ← pelems n' (d + 1) (String c2 r); Some (JArr l, r')
        | "" => None
        end
      else if ceq c dq then '(raw, r) ← scan_str s1; Some (JStr raw, r)
      else if ceq c "-" || is_digit c then '(lit, r) ← scan_number s; Some (JNum lit, r)
      else scan_literal s
  end
with pmembers (n : nat) (d : Z) (s : string) {struct n}
    : option (list (string * (string * json)) * string) :=
  match n, s with
  | O, _ | _, "" => None
  | S n', String c s1 =>
      if ceq c dq then
        '(k, s2) ← scan_str s1;
        match skip_ws s2 with
        | String c2 s3 =>
            if ceq c2 ":" then
              let s4 := skip_ws s3 in
              '(j, s5) ← pvalue n' d s4;
              let m := (k, (consumed s4 s5, j)) in
              match skip_ws s5 with
              | String c3 s6 =>
                  if ceq c3 "," then '(l, r) ← pmembers n' d (skip_ws s6); Some (m :: l, r)
                  else if ceq c3 "}" then Some ([m], s6) else None
              | "" => None
              end
            else None
        | "" => None
        end
      else None
  end
with pelems (n : nat) (d : Z) (s : string) {struct n}
    : option (list (string * json) * string) :=
  match n with
  | O => None
  | S n' =>
      '(j, s5) ← pvalue n' d s;
      let m := (consumed s s5, j) in
      match skip_ws s5 with
      | String c3 s6 =>
          if ceq c3 "," then '(l, r) ← pelems n' d (skip_ws s6); Some (m :: l, r)
          else if ceq c3 "]" then Some ([m], s6) else None
      | "" => None
      end
  end.

(** A whole document: one value between optional white space. *)
Definition parse (s : string) : option json :=
  let s0 := skip_ws s in
  match pvalue (S (2 * String.length s0)) 0 s0 with
  | Some (j, r) => if bool_decide (skip_ws r = "") then Some j else None
  | None => None
  end.

(** ** Printing and compaction *)

Definition quoted (raw : string) : string := String dq (raw +:+ str1 dq).

Fixpoint print (j : json) : string :=
  match j with
  | JNull => "null"
  | JBool true => "true"
  | JBool false => "false"
  | JNum lit => lit
  | JStr raw => quoted raw
  | JArr l => "[" +:+ join "," (map (fun p => print (snd p)) l) +:+ "]"
  | JObj l =>
      "{" +:+ join "," (map (fun m => quoted (fst m) +:+ ":" +:+ print (snd (snd m))) l) +:+ "}"
  end.

(** The same document with its raw texts replaced by printed ones. *)
Fixpoint canon (j : json) : json :=
  match j with
  | JArr l => JArr (map (fun p => (print (snd p), canon (snd p))) l)
  | JObj l => JObj (map (fun m => (fst m, (print (snd (snd m)), canon (snd (snd m))))) l)
  | _ => j
  end.

Definition hex_digit (z : Z) : ascii := chr (if z <? 10 then 48 + z else 87 + z).

Definition is_html (c : ascii) : bool := ceq c "<" || ceq c ">" || ceq c "&".

(** The escape [\u00XX] of a one-byte character. *)
Definition u00 (c : ascii) : string :=
  "\u00" +:+ String (hex_digit (ord c / 16)) (str1 (hex_digit (ord c mod 16))).

(** The HTML escaping [appendCompact] applies to the text inside strings. *)
Fixpoint html_raw (s : string) : string :=
  match s with
  | "" => ""
  | String c s1 =>
      if is_html c then u00 c +:+ html_raw s1
      else match s1 with
      | String c1 (String c2 s3) =>
          if (ord c =? 226) && (ord c1 =? 128) && between 168 169 (ord c2)
          then "\u202" +:+ String (hex_digit (ord c2 mod 16)) (html_raw s3)
          else String c (html_raw s1)
      | _ => String c (html_raw s1)
      end
  end.

Fixpoint html (j : json) : json :=
  match j with
  | JStr raw => JStr (html_raw raw)
  | JArr l => JArr (map (fun p => (fst p, html (snd p))) l)
  | JObj l => JObj (map (fun m => (html_raw (fst m), (fst (snd m), html (snd (snd m))))) l)
  | _ => j
  end.

(** [appendCompact(dst, src, escapeHTML = true)]: white space outside strings
    is dropped; malformed (so also empty) text is an error. *)
Definition compact (s : string) : result string :=
  match parse s with Some j => Ok (print (html j)) | None => Err ErrSyntax end.

(** ** Strings *)

(** One turn of [appendString] with [escapeHTML = true]. *)
Definition quote_tok (s : string) : option (string * nat) :=
  match s with
  | "" => None
  | String c _ =>
      if ord c <? 128 then
        if ceq c dq || ceq c bs then Some (String bs (str1 c), 1%nat)
        else if ceq c "008" then Some ("\b", 1%nat)
        else if ceq c "012" then Some ("\f", 1%nat)
        else if ceq c "010" then Some ("\n", 1%nat)
        else if ceq c "013" then Some ("\r", 1%nat)
        else if ceq c "009" then Some ("\t", 1%nat)
        else if (ord c <? 32) || is_html c then Some (u00 c, 1%nat)
        else Some (str1 c, 1%nat)
      else
        let '(r, k) := DecodeRune s in
        if (r =? RuneError) && Nat.eqb k 1 then Some ("\ufffd", 1%nat)
        else if between 8232 8233 r then Some ("\u202" +:+ str1 (hex_digit (r mod 16)), k)
        else Some (str_take k s, k)
  end.

Definition quote (s : string) : string := default "" (tokens quote_tok s).

(** [getu4]: the code unit of a [\uXXXX] escape at the start of [s]. *)
Definition getu4 (s : string) : option Z :=
  match s with
  | String c0 (String c1 (String h1 (String h2 (String h3 (String h4 _))))) =>
      if ceq c0 bs && ceq c1 "u" && is_hex h1 && is_hex h2 && is_hex h3 && is_hex h4
      then Some (hex_val h1 * 4096 + hex_val h2 * 256 + hex_val h3 * 16 + hex_val h4)
      else None
  | _ => None
  end.

(** One turn of [unquoteBytes]. *)
Definition unquote_tok (s : string) : option (string * nat) :=
  match s with
  | "" => None
  | String c s1 =>
      if ceq c bs then
        match s1 with
        | "" => None
        | String e _ =>
            if ceq e dq || ceq e bs || ceq e "/" || ceq e "'" then Some (str1 e, 2%nat)
            else if ceq e "b" then Some (str1 "008", 2%nat)
            else if ceq e "f" then Some (str1 "012", 2%nat)
            else if ceq e "n" then Some (str1 "010", 2%nat)
            else if ceq e "r" then Some (str1 "013", 2%nat)
            else if ceq e "t" then Some (str1 "009", 2%nat)
            else if ceq e "u" then
              rr ← getu4 s;
              if IsSurrogate rr then
                match getu4 (str_drop 6 s) with
                | Some rr1 =>
                    let dec := utf16_DecodeRune rr rr1 in
                    if dec =? RuneError then Some (EncodeRune RuneError, 6%nat)
                    else Some (EncodeRune dec, 12%nat)
                | None => Some (EncodeRune RuneError, 6%nat)
                end
              else Some (EncodeRune rr, 6%nat)
            else None
        end
      else if ceq c dq || (ord c <? 32) then None
      else if ord c <? 128 then Some (str1 c, 1%nat)
      else let '(r, k) := DecodeRune s in Some (EncodeRune r, k)
  end.

Definition unquote (raw : string) : option string := tokens unquote_tok raw.

(** The Go value of a string token; the scanner admits only tokens on which
    [unquote] succeeds ([JsonFacts.unquote_total]). *)
Definition string_value (raw : string) : string := default "" (unquote raw).

(** ** Encoding and decoding struct fields *)

(** A nil or non-nil byte slice; [RawMessage] is the same type with methods. *)
Abbreviation bytes := (option string).
Abbreviation RawMessage := (option string).

Definition bytes_text (b : bytes) : string := default "" b.

(** [len(b)]. *)
Definition bytes_empty (b : bytes) : bool := bool_decide (bytes_text b = "").

(** [append([]byte(nil), b...)]: appending nothing leaves the nil slice. *)
Definition bytes_copy (b : bytes) : bytes := if bytes_empty b then None else b.

(** [json.Marshal] of a raw message: [null] for nil, else its compacted text;
    an empty non-nil slice is malformed JSON and fails. *)
Definition enc_raw (m : RawMessage) : result string :=
  match m with None => Ok "null" | Some s => compact s end.

Definition enc_string (s : string) : string := quoted (quote s).

(** An object with the given fields, the omitted ones left out by the caller. *)
Definition enc_obj (fields : list (string * result string)) : result string :=
  vs ← all_ok (map (fun '(k, v) => (fun t => quoted k +:+ ":" +:+ t) <$> v) fields);
  Ok ("{" +:+ join "," vs +:+ "}").

Definition enc_arr (elems : list (result string)) : result string :=
  vs ← all_ok elems; Ok ("[" +:+ join "," vs +:+ "]").

(** Decoding into a variable holding [old]: the new value, and whether it was
    of the right type ([false] is an [UnmarshalTypeError]). *)
Definition dec_string (old : string) (j : json) : string * bool :=
  match j with
  | JStr raw => (string_value raw, true)
  | JNull => (old, true)
  | _ => (old, false)
  end.

Definition dec_uint64 (old : Z) (j : json) : Z * bool :=
  match j with
  | JNum lit => match ParseUint lit with (z, None) => (z, true) | _ => (old, false) end
  | JNull => (old, true)
  | _ => (old, false)
  end.

(** [foldName] restricted to what can equal an ASCII field name: ASCII letters
    are upper-cased and the two non-ASCII letters whose case folding is ASCII
    (the long s and the Kelvin sign) become S and K. *)
Fixpoint fold_name (s : string) : string :=
  match s with
  | "" => ""
  | String c s1 =>
      if between 97 122 (ord c) then String (chr (ord c - 32)) (fold_name s1)
      else match s1 with
      | String c1 s2 =>
          if (ord c =? 197) && (ord c1 =? 191) then String "S" (fold_name s2)
          else match s2 with
          | String c2 s3 =>
              if (ord c =? 226) && (ord c1 =? 132) && (ord c2 =? 170)
              then String "K" (fold_name s3) else String c (fold_name s1)
          | "" => String c (fold_name s1)
          end
      | "" => String c (fold_name s1)
      end
  end.

(** The struct field a key selects: by exact name, else by folded name. *)
Definition find_field (names : list string) (key : string) : option string :=
  if bool_decide (key ∈ names) then Some key
  else snd <$> list_find (fun f => fold_name f = fold_name key) names.

Section decode_struct.
Context {A : Type} (names : list string).
Context (set : A -> string -> string -> json -> A * bool).

Definition dec_member (st : A * bool) (m : string * (string * json)) : A * bool :=
  match find_field names (string_value m.1) with
  | Some f => let '(v', ok) := set st.1 f m.2.1 m.2.2 in (v', st.2 && ok)
  | None => st
  end.

(** Members in source order; unknown keys are skipped, an error is recorded
    and decoding goes on. *)
Definition dec_struct (v : A) (j : json) : A * bool :=
  match j with
  | JObj ms => fold_left dec_member ms (v, true)
  | JNull => (v, true)
  | _ => (v, false)
  end.
End decode_struct.

(** A JSON array into a fresh slice. *)
Fixpoint dec_elems {A} (zero : A) (dec : A -> json -> A * bool) (l : list (string * json))
    : list A * bool :=
  match l with
  | [] => ([], true)
  | (_, j) :: l' =>
      let '(v, ok) := dec zero j in
      let '(vs, ok') := dec_elems zero dec l' in (v :: vs, ok && ok')
  end.

Definition dec_slice {A} (zero : A) (dec : A -> json -> A * bool) (old : list A) (j : json)
    : list A * bool :=
  match j with
  | JArr l => dec_elems zero dec l
  | JNull => ([], true)
  | _ => (old, false)
  end.

(** [json.Unmarshal(data, &v)]: the variable afterwards and the error. *)
Definition Unmarshal {A} (dec : A -> json -> A * bool) (data : string) (v : A)
    : A * option error :=
  match parse data with
  | None => (v, Some ErrSyntax)
  | Some j => let '(v', ok) := dec v j in (v', if ok then None else Some ErrType)
  end.

#[global] Arguments quote : simpl never.
#[global] Arguments string_value : simpl never.
#[global] Arguments compact : simpl never.
#[global] Arguments parse : simpl never.
#[global] Arguments enc_string : simpl never.
#[global] Arguments bytes_text : simpl never.
#[global] Arguments bytes_copy : simpl never.
