(* ===== verification/JsonFacts.v ===== *)
(** Correctness of the JSON codec: enough fuel, what the parser accepts, the
    parse/print round trip, compaction and the string codec. *)

From S2P Require Import Prelude Strconv Utf8 Json.
Local Open Scope Z_scope.

Lemma ceq_true a b : ceq a b = true <-> a = b.
Proof. apply Ascii.eqb_eq. Qed.
Lemma ceq_refl a : ceq a a = true.
Proof. apply Ascii.eqb_refl. Qed.
Lemma ceq_false a b : ceq a b = false <-> a <> b.
Proof. apply Ascii.eqb_neq. Qed.

(** Splits the boolean connectives of the hypotheses. *)
Ltac bool_hyps :=
  repeat match goal with
  | H : _ && _ = true |- _ => apply andb_true_iff in H as [? ?]
  | H : _ || _ = false |- _ => apply orb_false_iff in H as [? ?]
  end.

Lemma string_len_ind (P : string -> Prop) :
  (forall s, (forall t, (String.length t < String.length s)%nat -> P t) -> P s) -> forall s, P s.
Proof.
  intros H s. induction (Nat.lt_wf_0_projected String.length s) as [s _ IH]. by apply H.
Qed.

(** Destructs the monadic binds and matches of hypothesis [H]. *)
Ltac bind_inv H :=
  repeat (case_match; simplify_option_eq; try done).

(** ** String tokens *)

Inductive raw_ok : string -> Prop :=
  | raw_nil : raw_ok ""
  | raw_char c s : ceq c dq = false -> ceq c bs = false -> (ord c <? 32) = false ->
      raw_ok s -> raw_ok (String c s)
  | raw_esc e s : is_simple_escape e = true -> raw_ok s -> raw_ok (String bs (String e s))
  | raw_u h1 h2 h3 h4 s :
      is_hex h1 && is_hex h2 && is_hex h3 && is_hex h4 = true -> raw_ok s ->
      raw_ok (String bs (String "u" (String h1 (String h2 (String h3 (String h4 s)))))).

#[export] Hint Constructors raw_ok : wb.

(** Proves [raw_ok] of a token made of literal and constrained characters. *)
Ltac raw_tok :=
  repeat first [ apply raw_nil | apply raw_esc; [done|] | apply raw_u; [done|]
               | apply raw_char; [done..|] ].

Lemma scan_raw raw r : raw_ok raw -> scan_str (raw +:+ String dq r) = Some (raw, r).
Proof.
  induction 1 as [|c s Hd Hb Hc _ IH|e s He _ IH|h1 h2 h3 h4 s Hh _ IH]; str_norm.
  - done.
  - simpl. by rewrite Hd, Hb, Hc, IH.
  - simpl. by rewrite He, IH.
  - simpl. by rewrite Hh, IH.
Qed.

Lemma scan_str_inv s raw r :
  scan_str s = Some (raw, r) -> s = raw +:+ String dq r /\ raw_ok raw.
Proof.
  revert raw r; induction s as [s IH] using string_len_ind; intros raw r H.
  destruct s as [|c s1]; [done|]. simpl in H.
  destruct (ceq c dq) eqn:Hd.
  { apply ceq_true in Hd as ->. simplify_eq. split; [done|constructor]. }
  destruct (ceq c bs) eqn:Hb.
  - apply ceq_true in Hb as ->. destruct s1 as [|e s2]; [done|].
    destruct (is_simple_escape e) eqn:He.
    + destruct (scan_str s2) as [[raw' r']|] eqn:E; simplify_eq/=.
      apply IH in E as [-> Hr]; [|simpl; lia]. split; [done|]. by constructor.
    + destruct (ceq e "u") eqn:Hu; [|done]. apply ceq_true in Hu as ->.
      destruct s2 as [|h1 [|h2 [|h3 [|h4 s3]]]]; try done.
      destruct (is_hex h1 && is_hex h2 && is_hex h3 && is_hex h4) eqn:Hh; [|done].
      destruct (scan_str s3) as [[raw' r']|] eqn:E; simplify_eq/=.
      apply IH in E as [-> Hr]; [|simpl; lia]. split; [done|]. by constructor.
  - destruct (ord c <? 32) eqn:Hc; [done|].
    destruct (scan_str s1) as [[raw' r']|] eqn:E; simplify_eq/=.
    apply IH in E as [-> Hr]; [|simpl; lia]. split; [done|]. by constructor.
Qed.

Lemma raw_ok_app s t : raw_ok s -> raw_ok t -> raw_ok (s +:+ t).
Proof. induction 1; intros Ht; str_norm; auto with wb. Qed.

(** ** Numbers *)

(** What may follow a number token: anything that cannot extend it. *)
Definition num_stop (s : string) : Prop :=
  match s with
  | "" => True
  | String c _ => is_digit c = false /\ ceq c "." = false /\ ceq c "e" || ceq c "E" = false
  end.

Definition num_ok (lit : string) : Prop :=
  (exists c t, lit = String c t /\ ceq c "-" || is_digit c = true) /\
  forall r, num_stop r -> scan_number (lit +:+ r) = Some (lit, r).

Definition no_digit (s : string) : Prop :=
  match s with "" => True | String c _ => is_digit c = false end.

Lemma num_stop_no_digit s : num_stop s -> no_digit s.
Proof. destruct s; [done|]. by intros [? _]. Qed.

Lemma take_digits_spec s ds r : take_digits s = (ds, r) ->
  s = ds +:+ r /\ str_forall is_digit ds = true /\ no_digit r.
Proof.
  revert ds r; induction s as [|c s IH]; intros ds r H; simpl in H; [by simplify_eq|].
  destruct (is_digit c) eqn:Hc.
  - destruct (take_digits s) as [ds' r'] eqn:E. simplify_eq.
    destruct (IH _ _ eq_refl) as (-> & Hd & Hn). split; [done|]. simpl. by rewrite Hc.
  - simplify_eq. done.
Qed.

Lemma take_digits_app ds r : str_forall is_digit ds = true -> no_digit r ->
  take_digits (ds +:+ r) = (ds, r).
Proof.
  induction ds as [|c ds IH]; intros Hd Hn; str_norm.
  - destruct r; simpl in *; [done|]. by rewrite Hn.
  - simpl in Hd |- *. apply andb_true_iff in Hd as [-> Hd]. by rewrite IH.
Qed.

Lemma digit_not c d : is_digit c = true -> is_digit d = false -> ceq c d = false.
Proof. intros H1 H2. apply ceq_false. congruence. Qed.

Lemma scan_int_inv s i s1 : scan_int s = Some (i, s1) ->
  s = i +:+ s1 /\ (exists c t, i = String c t /\ ceq c "-" || is_digit c = true) /\
  forall r, no_digit r -> scan_int (i +:+ r) = Some (i, r).
Proof.
  intros H. destruct s as [|c s]; [done|]. unfold scan_int in H.
  destruct (ceq c "-") eqn:Hm.
  - apply ceq_true in Hm as ->. destruct s as [|c s]; [done|].
    destruct (ceq c "0") eqn:H0; [|destruct (is_digit c) eqn:Hd; [|done]].
    + apply ceq_true in H0 as ->. simplify_eq. split_and!; [done|by eexists _, _|done].
    + destruct (take_digits s) as [ds r'] eqn:E. simplify_eq.
      apply take_digits_spec in E as (-> & Hds & _). split_and!; [done|by eexists _, _|].
      intros r Hr. str_norm. unfold scan_int. simpl. by rewrite H0, Hd, take_digits_app.
  - destruct (ceq c "0") eqn:H0; [|destruct (is_digit c) eqn:Hd; [|done]].
    + apply ceq_true in H0 as ->. simplify_eq. split_and!; [done|by eexists _, _|done].
    + destruct (take_digits s) as [ds r'] eqn:E. simplify_eq.
      apply take_digits_spec in E as (-> & Hds & _). split_and!; [done| |].
      * exists c, ds. by rewrite Hm.
      * intros r Hr. str_norm. unfold scan_int. by rewrite Hm, H0, Hd, take_digits_app.
Qed.

Lemma scan_frac_inv s f s2 : scan_frac s = Some (f, s2) ->
  s = f +:+ s2 /\ (f = "" \/ exists t, f = String "." t) /\
  forall r, no_digit r -> (forall t, r <> String "." t) -> scan_frac (f +:+ r) = Some (f, r).
Proof.
  intros H.
  assert (scan_frac "" = Some ("", "") /\ forall c t, ceq c "." = false ->
    scan_frac (String c t) = Some ("", String c t)) as [_ Hn].
  { split; [done|]. intros c t Hc. simpl. by rewrite Hc. }
  assert (forall r, no_digit r -> (forall t, r <> String "." t) -> scan_frac r = Some ("", r)) as Hnone.
  { intros [|c t] _ Hr; [done|]. apply Hn. apply ceq_false. intros ->. by eapply Hr. }
  destruct s as [|c s]; simpl in H.
  { simplify_eq. split_and!; [done|by left|done]. }
  destruct (ceq c ".") eqn:Hc.
  - apply ceq_true in Hc as ->. destruct (take_digits s) as [ds r'] eqn:E.
    case_bool_decide as Hds; [done|]. simplify_eq.
    apply take_digits_spec in E as (-> & Hd & _). split_and!; [done|right; by eexists|].
    intros r Hr _. str_norm. simpl. rewrite take_digits_app by done. by rewrite bool_decide_false.
  - simplify_eq. split_and!; [done|by left|done].
Qed.

Lemma scan_exp_inv s e s3 : scan_exp s = Some (e, s3) ->
  s = e +:+ s3 /\ (e = "" \/ exists c t, e = String c t /\ ceq c "e" || ceq c "E" = true) /\
  forall r, num_stop r -> scan_exp (e +:+ r) = Some (e, r).
Proof.
  intros H.
  assert (forall r, num_stop r -> scan_exp r = Some ("", r)) as Hnone.
  { intros [|c t] Hr; [done|]. destruct Hr as (_ & _ & Hr). simpl. by rewrite Hr. }
  destruct s as [|c s]; simpl in H.
  { simplify_eq. split_and!; [done|by left|done]. }
  destruct (ceq c "e" || ceq c "E") eqn:Hc.
  - destruct (match s with String d s'' => if ceq d "+" || ceq d "-" then (str1 d, s'') else ("", s)
      | "" => ("", s) end) as [sign s1] eqn:Es.
    destruct (take_digits s1) as [ds r'] eqn:E. case_bool_decide as Hds; [done|]. simplify_eq.
    apply take_digits_spec in E as (-> & Hd & _).
    assert (s = sign +:+ ds +:+ s3) as ->.
    { destruct s as [|d s]; [by simplify_eq|]. destruct (ceq d "+" || ceq d "-"); by simplify_eq. }
    split_and!; [by str_norm|right; by eexists _, _|].
    intros r Hr. str_norm. simpl. rewrite Hc.
    destruct ds as [|d ds]; [done|]. simpl in Hd. apply andb_true_iff in Hd as [Hd Hds'].
    assert (ceq d "+" || ceq d "-" = false) as Hnd.
    { apply orb_false_iff; split; by apply digit_not. }
    assert (take_digits (String d ds +:+ r) = (String d ds, r)) as Htd.
    { apply take_digits_app; [simpl; by rewrite Hd|by apply num_stop_no_digit]. }
    destruct sign as [|s0 sign]; str_norm; str_norm in Htd.
    + rewrite Hnd, Htd. by rewrite bool_decide_false.
    + str_norm in Es. destruct (ceq s0 "+" || ceq s0 "-") eqn:Hs0; [|done].
      injection Es as Esign. destruct sign; [|done]. str_norm. rewrite Htd.
      by rewrite bool_decide_false.
  - simplify_eq. split_and!; [done|by left|done].
Qed.

Lemma scan_number_inv s lit r : scan_number s = Some (lit, r) -> s = lit +:+ r /\ num_ok lit.
Proof.
  unfold scan_number. intros H.
  destruct (scan_int s) as [[i s1]|] eqn:Hi; [|done]; simpl in H.
  destruct (scan_frac s1) as [[f s2]|] eqn:Hf; [|done]; simpl in H.
  destruct (scan_exp s2) as [[e s3]|] eqn:He; [|done]; simpl in H. simplify_eq.
  apply scan_int_inv in Hi as (-> & (c & t & -> & Hc) & Hi).
  apply scan_frac_inv in Hf as (-> & Hf0 & Hf).
  apply scan_exp_inv in He as (-> & He0 & He).
  split; [by str_norm|]. split; [str_norm; by eexists _, _|].
  intros q Hq. unfold scan_number.
  assert (no_digit (e +:+ q) /\ forall t', e +:+ q <> String "." t') as [He1 He2].
  { destruct He0 as [->|(c' & t' & -> & Hc')].
    - rewrite app_nil_l. split; [by apply num_stop_no_digit|].
      intros t' ->. by destruct Hq as (_ & ? & _).
    - str_norm. apply orb_true_iff in Hc' as [Hc'|Hc']; apply ceq_true in Hc' as ->; done. }
  assert (no_digit (f +:+ e +:+ q)) as Hf1.
  { destruct Hf0 as [->|[t' ->]]; [by rewrite app_nil_l|done]. }
  rewrite !app_assoc', Hi by done. simpl. rewrite Hf by done. simpl. rewrite He by done. done.
Qed.

(** Decimal integers are number tokens. *)
Lemma num_ok_uint z : is_u64 z -> num_ok (FormatUint z).
Proof.
  intros H. destruct (FormatUint_shape z H) as [[-> ->]|(c & ds & -> & Hc & Hc0 & Hds)].
  - split; [by eexists _, _|]. intros r Hr. unfold scan_number. str_norm. simpl.
    destruct r as [|c r]; [done|]. destruct Hr as (Hd & Hp & He). simpl. rewrite Hp. simpl. by rewrite He.
  - split; [exists c, ds; by rewrite Hc, orb_true_r|]. intros r Hr. unfold scan_number, scan_int. str_norm.
    assert (ceq c "-" = false) as -> by (by apply digit_not).
    assert (ceq c "0" = false) as ->. { apply ceq_false. by intros ->. }
    rewrite Hc, take_digits_app by (done || by apply num_stop_no_digit). simpl.
    destruct r as [|d r]; [simpl; by str_norm|]. destruct Hr as (Hd & Hp & He). simpl. rewrite Hp. simpl.
    rewrite He. simpl. by str_norm.
Qed.

#[export] Hint Resolve num_ok_uint num_stop_no_digit : wb.

(** ** The string codec *)

Lemma is_hex_digit z : 0 <= z < 16 -> is_hex (hex_digit z) = true.
Proof.
  intros H. unfold is_hex, hex_digit, is_digit.
  destruct (Z.ltb_spec z 10); rewrite ord_chr by lia; solve_between.
  - replace (48 <=? 48 + z) with true by lia. replace (48 + z <=? 57) with true by lia. done.
  - apply orb_true_iff; left. apply orb_true_r.
Qed.

Lemma raw_ok_u00 c s : raw_ok s -> raw_ok (u00 c +:+ s).
Proof.
  intros H. pose proof (ord_range c) as Hc. unfold u00, str1. str_norm. constructor; [|done].
  rewrite !is_hex_digit by zlia. done.
Qed.

Lemma raw_ok_u202 z s : 0 <= z < 16 -> raw_ok s -> raw_ok ("\u202" +:+ String (hex_digit z) s).
Proof. intros Hz H. str_norm. constructor; [|done]. by rewrite is_hex_digit. Qed.

#[export] Hint Resolve raw_ok_u00 raw_ok_u202 : wb.

Lemma quote_tok_width s o k : quote_tok s = Some (o, k) -> (1 <= k)%nat.
Proof.
  destruct s as [|c s]; [done|]. unfold quote_tok. pose proof (DecodeRune_width c s).
  destruct (DecodeRune (String c s)) as [r n]. simpl in *.
  repeat case_match; intros; simplify_eq/=; lia.
Qed.

Lemma getu4_Some s v : getu4 s = Some v -> (6 <= String.length s)%nat.
Proof. unfold getu4. repeat case_match; try done. simpl. lia. Qed.

Lemma unquote_tok_width s o k : unquote_tok s = Some (o, k) -> (1 <= k)%nat.
Proof.
  destruct s as [|c s]; [done|]. unfold unquote_tok. pose proof (DecodeRune_width c s).
  destruct (DecodeRune (String c s)) as [r n]. cbn [snd] in *.
  destruct (getu4 (String c s)); simpl; repeat case_match; intros; simplify_eq/=; lia.
Qed.

#[export] Hint Resolve quote_tok_width unquote_tok_width : wb.

(** Every byte of a multi-byte rune is a plain string character. *)
Lemma raw_ok_take k s : (forall c, ord c < 128 -> ~ (c ∈ String.list_ascii_of_string (str_take k s))) ->
  raw_ok (str_take k s).
Proof.
  revert s; induction k as [|k IH]; intros [|c s] H; simpl in *; try constructor.
  - apply ceq_false. intros ->. apply (H dq); [done|]. set_solver.
  - apply ceq_false. intros ->. apply (H bs); [done|]. set_solver.
  - apply Z.ltb_ge. destruct (decide (ord c < 128)) as [Hc|]; [|lia].
    exfalso. apply (H c Hc). set_solver.
  - apply IH. intros d Hd Hin. apply (H d Hd). set_solver.
Qed.

Lemma DecodeRune_high c s : 128 <= ord c ->
  (DecodeRune (String c s)).1 <> RuneError \/ (DecodeRune (String c s)).2 <> 1%nat ->
  forall d, ord d < 128 -> d ∉ String.list_ascii_of_string (str_take (DecodeRune (String c s)).2 (String c s)).
Proof.
  intros Hc Hv d Hd. unfold DecodeRune in *. destruct (Z.ltb_spec (ord c) 128); [lia|].
  repeat (case_match; simplify_eq/=; try (by destruct Hv)).
  all: bool_hyps; rewrite ?between_spec in *.
  all: rewrite !elem_of_cons, elem_of_nil; intros Hin; destruct_or!; subst; try done; try lia.
  all: repeat match goal with
  | H : context [if ?b then _ else _] |- _ => destruct b eqn:?; simpl in *
  end; lia.
Qed.

Lemma quote_tok_ok c s : exists o k, quote_tok (String c s) = Some (o, k) /\ raw_ok o.
Proof.
  unfold quote_tok. destruct (Z.ltb_spec (ord c) 128).
  - destruct (ceq c dq || ceq c bs) eqn:E1.
    { eexists _, _. split; [done|]. apply orb_true_iff in E1 as [->%ceq_true| ->%ceq_true]; raw_tok. }
    bool_hyps. do 5 (case_match; [eexists _, _; split; [done|]; raw_tok|]).
    destruct ((ord c <? 32) || is_html c) eqn:E2; eexists _, _; (split; [done|]).
    + rewrite <-(app_nil_r' (u00 c)). auto with wb.
    + bool_hyps. by raw_tok.
  - destruct (DecodeRune (String c s)) as [r k] eqn:E.
    destruct ((r =? RuneError) && (k =? 1)%nat) eqn:E1; [|destruct (between 8232 8233 r)].
    + eexists _, _. split; [done|]. by raw_tok.
    + eexists _, _. split; [done|]. apply raw_ok_u202; [by apply Z.mod_pos_bound|constructor].
    + eexists _, _. split; [done|]. apply raw_ok_take. intros d Hd.
      pose proof (DecodeRune_high c s) as Hh. rewrite E in Hh. simpl in Hh. apply Hh; [lia| |done].
      apply andb_false_iff in E1 as [E1|E1]; [left|right].
      * by apply Z.eqb_neq.
      * by apply Nat.eqb_neq.
Qed.

Lemma quote_total s : exists q, tokens quote_tok s = Some q /\ raw_ok q.
Proof.
  induction s as [s IH] using string_len_ind. destruct s as [|c s].
  { exists "". split; [done|constructor]. }
  destruct (quote_tok_ok c s) as (o & k & E & Ho).
  rewrite (tokens_step _ quote_tok_width (String c s) o k) by done.
  destruct (IH (str_drop k (String c s))) as (q & -> & Hq).
  { apply quote_tok_width in E. rewrite length_str_drop. simpl. lia. }
  exists (o +:+ q). split; [done|]. by apply raw_ok_app.
Qed.

(** A quoted string is always a well-formed string token. *)
Lemma raw_ok_quote s : raw_ok (quote s).
Proof. unfold quote. by destruct (quote_total s) as (q & -> & Hq). Qed.

#[export] Hint Resolve raw_ok_quote : wb.

(** Unquoting succeeds on every string token and yields valid UTF-8. *)
Lemma getu4_range s v : getu4 s = Some v -> 0 <= v < 65536.
Proof.
  unfold getu4. repeat case_match; try done. intros [= <-]. bool_hyps.
  assert (forall h, is_hex h = true -> 0 <= hex_val h < 16) as Hh.
  { intros h. unfold is_hex, hex_val, is_digit. intros Hh.
    destruct ((48 <=? ord h) && (ord h <=? 57)) eqn:E1.
    - bool_hyps. lia.
    - destruct (between 97 102 (ord h)) eqn:E2; [apply between_spec in E2; lia|].
      simpl in Hh. apply between_spec in Hh. lia. }
  repeat match goal with H : is_hex ?h = true |- _ => apply Hh in H end. lia.
Qed.

Lemma utf16_scalar r1 r2 : is_scalar (utf16_DecodeRune r1 r2).
Proof.
  unfold utf16_DecodeRune.
  destruct (between 55296 56319 r1 && between 56320 57343 r2) eqn:E; [|done].
  bool_hyps. rewrite between_spec in *. apply scalar_spec. unfold MaxRune. lia.
Qed.

Lemma utf8_ascii c : ord c < 128 -> utf8 (str1 c).
Proof.
  intros H. pose proof (ord_range c).
  assert (str1 c = EncodeRune (ord c)) as ->.
  { rewrite EncodeRune_scalar by (apply scalar_ascii; lia). destruct (Z.ltb_spec (ord c) 128); [|lia].
    by rewrite chr_ord. }
  apply utf8_rune, scalar_ascii. lia.
Qed.

Lemma unquote_tok_utf8 s o k : unquote_tok s = Some (o, k) -> utf8 o.
Proof.
  destruct s as [|c s]; [done|]. unfold unquote_tok.
  pose proof (DecodeRune_scalar (String c s)) as Hr.
  destruct (DecodeRune (String c s)) as [r n]. simpl in Hr.
  destruct (ceq c bs) eqn:Hbs.
  - destruct s as [|e s]; [done|].
    destruct (ceq e dq || ceq e bs || ceq e "/" || ceq e "'") eqn:E1.
    { intros [= <- <-]. apply utf8_ascii. rewrite !orb_true_iff, !ceq_true in E1.
      by destruct_or!; subst. }
    do 5 (case_match; [intros [= <- <-]; by apply utf8_ascii|]). case_match; [|done].
    destruct (getu4 (String c (String e s))) as [rr|] eqn:E; [|done]. simpl.
    destruct (IsSurrogate rr) eqn:Hs.
    + repeat case_match; intros; simplify_eq; auto using utf16_scalar with wb.
    + intros [= <- <-]. apply utf8_rune. split; [|done].
      apply getu4_range in E. unfold MaxRune. lia.
  - repeat case_match; intros; simplify_eq; auto with wb. apply utf8_ascii. lia.
Qed.

Lemma tokens_utf8 tok s o :
  (forall s o k, tok s = Some (o, k) -> (1 <= k)%nat /\ utf8 o) ->
  tokens tok s = Some o -> utf8 o.
Proof.
  intros Htok. revert o; induction s as [s IH] using string_len_ind. intros o H.
  destruct s as [|c s]; [injection H as <-; constructor|].
  destruct (tok (String c s)) as [[o1 k]|] eqn:E; [|unfold tokens in H; simpl in H; by rewrite E in H].
  rewrite (tokens_step tok) with (o := o1) (k := k) in H; [|by intros ??? [??]%Htok|done..].
  destruct (Htok _ _ _ E) as [Hk Ho].
  destruct (tokens tok (str_drop k (String c s))) as [o2|] eqn:E2; [|done]. injection H as <-.
  apply utf8_app; [done|]. eapply IH, E2. rewrite length_str_drop. simpl. lia.
Qed.

Lemma unquote_utf8 raw s : unquote raw = Some s -> utf8 s.
Proof.
  apply tokens_utf8. intros t o k E. split; [by eapply unquote_tok_width|by eapply unquote_tok_utf8].
Qed.

Lemma raw_ok_drop k s : raw_ok s ->
  (forall c, ord c < 128 -> c ∉ String.list_ascii_of_string (str_take k s)) -> raw_ok (str_drop k s).
Proof.
  revert s; induction k as [|k IH]; intros s Hs H; [done|].
  destruct Hs as [|c s Hd Hb Hc Hs|e s He Hs|h1 h2 h3 h4 s Hh Hs]; simpl in *.
  - constructor.
  - apply IH; [done|]. intros d Hlt Hin. apply (H d Hlt). set_solver.
  - exfalso. apply (H bs); [done|]. set_solver.
  - exfalso. apply (H bs); [done|]. set_solver.
Qed.

Lemma getu4_raw s v : raw_ok s -> getu4 s = Some v -> raw_ok (str_drop 6 s).
Proof.
  intros Hs H. destruct Hs as [|c s Hd Hb Hc Hs|e s He Hs|h1 h2 h3 h4 s Hh Hs]; [done|..|done].
  - simpl in H. repeat case_match; try done. by rewrite Hb in *.
  - simpl in H. repeat case_match; try done. bool_hyps.
    match goal with H : ceq e "u" = true |- _ => apply ceq_true in H as -> end. done.
Qed.

Lemma unquote_tok_raw s : s <> "" -> raw_ok s ->
  exists o k, unquote_tok s = Some (o, k) /\ raw_ok (str_drop k s).
Proof.
  intros Hne Hs. pose proof Hs as Hraw.
  destruct Hs as [|c s Hd Hb Hc Hs|e s He Hs|h1 h2 h3 h4 s Hh Hs]; [done|..].
  - unfold unquote_tok. rewrite Hb, Hd, Hc. simpl orb. cbv iota.
    destruct (Z.ltb_spec (ord c) 128); [by eexists _, _|].
    pose proof (DecodeRune_high c s) as Hh. pose proof (DecodeRune_width c s) as Hw.
    destruct (DecodeRune (String c s)) as [r k]. simpl in Hh, Hw. eexists _, _. split; [done|].
    destruct (decide (r = RuneError /\ k = 1%nat)) as [[-> ->]|Hn]; [done|].
    apply raw_ok_drop; [done|]. apply Hh; [lia|]. destruct (decide (r = RuneError)); [right|left]; naive_solver.
  - unfold is_simple_escape in He. rewrite !orb_true_iff, !ceq_true in He.
    destruct_or!; subst; by eexists _, _.
  - unfold unquote_tok. simpl ceq. cbv iota. simpl orb. cbv iota.
    set (t := String bs _) in *.
    assert (exists v, getu4 t = Some v) as [v ->].
    { subst t. simpl. rewrite Hh. by eexists. }
    simpl. destruct (IsSurrogate v); [|by eexists _, _].
    destruct (getu4 s) as [v2|] eqn:E2; [|by eexists _, _].
    case_match; [by eexists _, _|]. eexists _, _. split; [done|]. by apply (getu4_raw s v2).
Qed.

Lemma unquote_total raw : raw_ok raw -> exists s, unquote raw = Some s.
Proof.
  unfold unquote. induction raw as [s IH] using string_len_ind. intros Hs.
  destruct (decide (s = "")) as [->|Hne]; [by eexists|].
  destruct (unquote_tok_raw s Hne Hs) as (o & k & E & Hr).
  rewrite (tokens_step _ unquote_tok_width s o k) by done.
  destruct (IH (str_drop k s)) as [s' ->]; [|done|by eexists].
  apply unquote_tok_width in E. rewrite length_str_drop. destruct s; [done|]. simpl. lia.
Qed.

Lemma string_value_utf8 raw : utf8 (string_value raw).
Proof.
  unfold string_value. destruct (unquote raw) as [s|] eqn:E; [|constructor].
  by eapply unquote_utf8.
Qed.

(** Beyond ASCII a rune stands for itself. *)
Lemma EncodeRune_high r : is_scalar r -> 128 <= r -> exists c e, EncodeRune r = String c e /\ 128 <= ord c /\ e <> "".
Proof.
  intros Hs Hr. rewrite EncodeRune_scalar by done. apply scalar_spec in Hs. unfold MaxRune in Hs.
  destruct (Z.ltb_spec r 128); [lia|]. unfold str1.
  repeat case_match; eexists _, _; (split_and!; [done| |done]); rewrite ord_chr by zlia; zlia.
Qed.

Lemma unquote_tok_high r t : is_scalar r -> 128 <= r ->
  unquote_tok (EncodeRune r +:+ t) = Some (EncodeRune r, String.length (EncodeRune r)).
Proof.
  intros Hs Hr. pose proof (DecodeRune_EncodeRune r t Hs) as Hdec. destruct (EncodeRune_high r Hs Hr) as (c & e & E & Hc & _).
  assert (ceq c dq = false /\ ceq c bs = false) as [Hcd Hcb] by (split; apply ceq_false; by intros ->).
  rewrite E in *. str_norm in Hdec. str_norm. unfold unquote_tok. rewrite Hcb, Hcd, Hdec.
  destruct (Z.ltb_spec (ord c) 32); [lia|]. destruct (Z.ltb_spec (ord c) 128); [lia|]. simpl. by rewrite E.
Qed.

(** The quoted form of one rune, and its way back. *)
Lemma quote_rune r : is_scalar r -> exists q : string, q <> "" /\
  (forall t, quote_tok (EncodeRune r +:+ t) = Some (q, String.length (EncodeRune r))) /\
  (forall t, unquote_tok (q +:+ t) = Some (EncodeRune r, String.length q)).
Proof.
  intros Hs. destruct (decide (r < 128)) as [Hr|Hr].
  - assert (EncodeRune r = str1 (chr r)) as ->.
    { rewrite EncodeRune_scalar by done. by destruct (Z.ltb_spec r 128); [|lia]. }
    apply scalar_spec in Hs. assert (ord (chr r) < 128) as Hc by (rewrite ord_chr; lia).
    generalize (chr r) Hc. clear. intros [b0 b1 b2 b3 b4 b5 b6 b7] Hc.
    destruct b7; [by destruct b0, b1, b2, b3, b4, b5, b6|].
    destruct b0, b1, b2, b3, b4, b5, b6; eexists; (split; [|split; intros t; reflexivity]); done.
  - pose proof (DecodeRune_EncodeRune r) as Hdec.
    destruct (EncodeRune_high r Hs ltac:(lia)) as (c & e & E & Hc & He).
    assert (forall t, unquote_tok (EncodeRune r +:+ t) = Some (EncodeRune r, String.length (EncodeRune r))) as Hun
      by (intros t; apply unquote_tok_high; [done|lia]).
    destruct (between 8232 8233 r) eqn:Hb.
    + apply between_spec in Hb. clear -Hb. assert (r = 8232 \/ r = 8233) as [->| ->] by lia;
        eexists; (split; [|split; intros t; reflexivity]); done.
    + exists (EncodeRune r). split_and!; [by rewrite E| |done]. intros t. specialize (Hdec t Hs).
      pose proof (str_take_app (EncodeRune r) t) as Htk. rewrite E in *. str_norm in Hdec. str_norm.
      str_norm in Htk. unfold quote_tok. rewrite Hdec. destruct (Z.ltb_spec (ord c) 128); [lia|].
      replace (Nat.eqb _ 1) with false by (by destruct e). rewrite andb_false_r, Hb, Htk. done.
Qed.

(** Every valid UTF-8 string survives quoting and unquoting. *)
Lemma unquote_quote s : utf8 s -> unquote (quote s) = Some s.
Proof.
  intros H. unfold unquote, quote. induction H as [|r s Hr Hs IH]; [done|].
  destruct (quote_rune r Hr) as (q & Hq & Hquote & Hunquote).
  assert (EncodeRune r <> "") as He.
  { intros E. specialize (Hquote ""). rewrite E in Hquote. apply quote_tok_width in Hquote. simpl in Hquote. lia. }
  rewrite (tokens_app _ quote_tok_width (EncodeRune r) s q) by done.
  destruct (quote_total s) as (qs & Eqs & _). rewrite Eqs in IH |- *. simpl in IH |- *.
  by rewrite (tokens_app _ unquote_tok_width q qs (EncodeRune r)), IH by done.
Qed.

Lemma string_value_quote s : utf8 s -> string_value (quote s) = s.
Proof. intros H. unfold string_value. by rewrite unquote_quote. Qed.

(** ** Fuel *)

Lemma length_skip_ws s : (String.length (skip_ws s) <= String.length s)%nat.
Proof. induction s as [|c s IH]; simpl; [lia|]. destruct (is_ws c); simpl; lia. Qed.

Lemma length_scan_str s raw r : scan_str s = Some (raw, r) -> (String.length r < String.length s)%nat.
Proof. intros H. apply scan_str_inv in H as [-> _]. rewrite length_app'. simpl. lia. Qed.

Lemma length_scan_number s lit r :
  scan_number s = Some (lit, r) -> (String.length r < String.length s)%nat.
Proof.
  intros H. apply scan_number_inv in H as [-> [(c & t & -> & _) _]]. rewrite length_app'. simpl. lia.
Qed.

Lemma strip_prefix_spec p s r : strip_prefix p s = Some r -> s = p +:+ r.
Proof.
  unfold strip_prefix. intros H. case_bool_decide as E; simplify_eq.
  rewrite <-(str_take_drop (String.length p) s) at 1. by rewrite E.
Qed.

Lemma strip_prefix_app p r : strip_prefix p (p +:+ r) = Some r.
Proof. unfold strip_prefix. by rewrite str_take_app, bool_decide_true, str_drop_app. Qed.

Lemma scan_literal_inv s j r : scan_literal s = Some (j, r) ->
  s = print j +:+ r /\ (j = JNull \/ exists b, j = JBool b).
Proof.
  unfold scan_literal. intros H.
  destruct (strip_prefix "null" s) eqn:E; [apply strip_prefix_spec in E as ->; simplify_eq; by eauto|].
  destruct (strip_prefix "true" s) eqn:E1; [apply strip_prefix_spec in E1 as ->; simplify_eq; by eauto|].
  destruct (strip_prefix "false" s) eqn:E2; [apply strip_prefix_spec in E2 as ->; simplify_eq; by eauto|].
  done.
Qed.

Lemma length_scan_literal s j r :
  scan_literal s = Some (j, r) -> (String.length r < String.length s)%nat.
Proof.
  intros H. apply scan_literal_inv in H as [-> [->|[b ->]]]; rewrite length_app'; [simpl; lia|].
  destruct b; simpl; lia.
Qed.

(** The cases of a successful parser step. *)
Lemma pvalue_inv n d s j r : pvalue n d s = Some (j, r) ->
  exists n' c s1, n = S n' /\ s = String c s1 /\
  ((d < maxNestingDepth /\ c = "{"%char /\
      (skip_ws s1 = String "}" r /\ j = JObj [] \/
       exists l, j = JObj l /\ pmembers n' (d + 1) (skip_ws s1) = Some (l, r))) \/
   (d < maxNestingDepth /\ c = "["%char /\
      (skip_ws s1 = String "]" r /\ j = JArr [] \/
       exists l, j = JArr l /\ pelems n' (d + 1) (skip_ws s1) = Some (l, r))) \/
   (c = dq /\ exists raw, j = JStr raw /\ scan_str s1 = Some (raw, r)) \/
   (exists lit, j = JNum lit /\ scan_number s = Some (lit, r)) \/
   scan_literal s = Some (j, r)).
Proof.
  intros H. destruct n as [|n]; [done|]. destruct s as [|c s]; [done|]. exists n, c, s.
  split; [done|]. split; [done|]. simpl in H.
  destruct (ceq c "{") eqn:E1; [|destruct (ceq c "[") eqn:E2; [|destruct (ceq c dq) eqn:E3]].
  - apply ceq_true in E1 as ->. left. destruct (Z.leb_spec maxNestingDepth d); [done|].
    destruct (skip_ws s) as [|c2 r2]; [done|].
    destruct (ceq c2 "}") eqn:E; [apply ceq_true in E as ->; simplify_eq; by eauto|].
    destruct (pmembers n (d + 1) (String c2 r2)) as [[l r']|] eqn:E'; simplify_eq/=. eauto 10.
  - apply ceq_true in E2 as ->. right; left. destruct (Z.leb_spec maxNestingDepth d); [done|].
    destruct (skip_ws s) as [|c2 r2]; [done|].
    destruct (ceq c2 "]") eqn:E; [apply ceq_true in E as ->; simplify_eq; by eauto|].
    destruct (pelems n (d + 1) (String c2 r2)) as [[l r']|] eqn:E'; simplify_eq/=. eauto 10.
  - apply ceq_true in E3 as ->. right; right; left.
    destruct (scan_str s) as [[raw r']|]; simplify_eq/=. eauto.
  - destruct (ceq c "-" || is_digit c); [right; right; right; left|by eauto 10].
    destruct (scan_number (String c s)) as [[lit r']|]; simplify_eq/=. eauto.
Qed.

Lemma pmembers_inv n d s l r : pmembers n d s = Some (l, r) ->
  exists n' s1 k s2 s3 j s5, n = S n' /\ s = String dq s1 /\ scan_str s1 = Some (k, s2) /\
  skip_ws s2 = String ":" s3 /\ pvalue n' d (skip_ws s3) = Some (j, s5) /\
  let m := (k, (consumed (skip_ws s3) s5, j)) in
  (skip_ws s5 = String "}" r /\ l = [m] \/
   exists s6 l', skip_ws s5 = String "," s6 /\ pmembers n' d (skip_ws s6) = Some (l', r) /\ l = m :: l').
Proof.
  intros H. destruct n as [|n]; [done|]. destruct s as [|c s]; [done|]. simpl in H.
  destruct (ceq c dq) eqn:E; [|done]. apply ceq_true in E as ->.
  destruct (scan_str s) as [[k s2]|] eqn:E1; [|done]; simpl in H.
  destruct (skip_ws s2) as [|c2 s3] eqn:E2; [done|].
  destruct (ceq c2 ":") eqn:E; [|done]. apply ceq_true in E as ->.
  destruct (pvalue n d (skip_ws s3)) as [[j s5]|] eqn:E3; [|done]; simpl in H.
  exists n, s, k, s2, s3, j, s5. split_and!; try done.
  destruct (skip_ws s5) as [|c3 s6]; [done|].
  destruct (ceq c3 ",") eqn:E; [apply ceq_true in E as ->; right|].
  - destruct (pmembers n d (skip_ws s6)) as [[l' r']|] eqn:E'; simplify_eq/=. by eexists _, _.
  - destruct (ceq c3 "}") eqn:E'; [|done]. apply ceq_true in E' as ->. simplify_eq. by left.
Qed.

Lemma pelems_inv n d s l r : pelems n d s = Some (l, r) ->
  exists n' j s5, n = S n' /\ pvalue n' d s = Some (j, s5) /\
  let m := (consumed s s5, j) in
  (skip_ws s5 = String "]" r /\ l = [m] \/
   exists s6 l', skip_ws s5 = String "," s6 /\ pelems n' d (skip_ws s6) = Some (l', r) /\ l = m :: l').
Proof.
  intros H. destruct n as [|n]; [done|]. simpl in H.
  destruct (pvalue n d s) as [[j s5]|] eqn:E3; [|done]; simpl in H.
  exists n, j, s5. split_and!; try done.
  destruct (skip_ws s5) as [|c3 s6]; [done|].
  destruct (ceq c3 ",") eqn:E; [apply ceq_true in E as ->; right|].
  - destruct (pelems n d (skip_ws s6)) as [[l' r']|] eqn:E'; simplify_eq/=. by eexists _, _.
  - destruct (ceq c3 "]") eqn:E'; [|done]. apply ceq_true in E' as ->. simplify_eq. by left.
Qed.

(** Turns an equation on [skip_ws] into an inequality of lengths. *)
Ltac ws_length :=
  repeat match goal with
  | H : skip_ws ?s = String _ _ |- _ =>
      let W := fresh in pose proof (length_skip_ws s) as W; rewrite H in W; simpl in W; clear H
  end.

Lemma parser_shrinks n :
  (forall d s j r, pvalue n d s = Some (j, r) -> (String.length r < String.length s)%nat) /\
  (forall d s l r, pmembers n d s = Some (l, r) -> (String.length r < String.length s)%nat) /\
  (forall d s l r, pelems n d s = Some (l, r) -> (String.length r < String.length s)%nat).
Proof.
  induction n as [|n (IHv & IHm & IHe)]; [by repeat split|]. split_and!; intros d s l r H.
  - apply pvalue_inv in H as (n' & c & s1 & [= <-] & -> & H).
    pose proof (length_skip_ws s1) as W1.
    destruct H as [(_ & -> & [[W ->]|(l' & -> & H)])|[(_ & -> & [[W ->]|(l' & -> & H)])
      |[(-> & raw & -> & H)|[(lit & -> & H)|H]]]].
    + ws_length. simpl. lia.
    + apply IHm in H. simpl. lia.
    + ws_length. simpl. lia.
    + apply IHe in H. simpl. lia.
    + apply length_scan_str in H. simpl. lia.
    + by apply length_scan_number in H.
    + by apply length_scan_literal in H.
  - apply pmembers_inv in H as (n' & s1 & k & s2 & s3 & j & s5 & [= <-] & -> & H1 & H2 & H3 & H).
    apply length_scan_str in H1. pose proof (length_skip_ws s3) as W3. apply IHv in H3.
    destruct H as [[H4 _]|(s6 & l' & H4 & H5 & _)]; [|apply IHm in H5; pose proof (length_skip_ws s6)];
      ws_length; simpl; lia.
  - apply pelems_inv in H as (n' & j & s5 & [= <-] & H3 & H). apply IHv in H3.
    destruct H as [[H4 _]|(s6 & l' & H4 & H5 & _)]; [|apply IHe in H5; pose proof (length_skip_ws s6)];
      ws_length; simpl; lia.
Qed.

Lemma parser_fuel n : forall m,
  (forall d s, (2 * String.length s < n)%nat -> (2 * String.length s < m)%nat ->
     pvalue n d s = pvalue m d s) /\
  (forall d s, (2 * String.length s < n)%nat -> (2 * String.length s < m)%nat ->
     pmembers n d s = pmembers m d s) /\
  (forall d s, (2 * String.length s + 1 < n)%nat -> (2 * String.length s + 1 < m)%nat ->
     pelems n d s = pelems m d s).
Proof.
  induction n as [|n IH]; intros [|m]; try (split_and!; intros; lia).
  destruct (IH m) as (IHv & IHm & IHe). split_and!; intros d s Hn Hm.
  - destruct s as [|c s]; [done|]. simpl. pose proof (length_skip_ws s) as Hws. simpl in *.
    destruct (skip_ws s) as [|c2 r]; simpl in *; [done|].
    rewrite (IHm (d + 1) (String c2 r)) by (simpl; lia).
    by rewrite (IHe (d + 1) (String c2 r)) by (simpl; lia).
  - destruct s as [|c s]; [done|]. simpl in *. destruct (ceq c dq); [|done].
    destruct (scan_str s) as [[k s2]|] eqn:E1; [|done]; simpl. apply length_scan_str in E1.
    pose proof (length_skip_ws s2) as W2. destruct (skip_ws s2) as [|c2 s3]; [done|].
    destruct (ceq c2 ":"); [|done]. pose proof (length_skip_ws s3) as W3. simpl in *.
    rewrite <-(IHv d (skip_ws s3)) by lia.
    destruct (pvalue n d (skip_ws s3)) as [[j s5]|] eqn:E2; [|done]; simpl.
    apply (parser_shrinks n) in E2.
    pose proof (length_skip_ws s5) as W5. destruct (skip_ws s5) as [|c3 s6]; [done|].
    pose proof (length_skip_ws s6) as W6. simpl in *. by rewrite (IHm d (skip_ws s6)) by lia.
  - simpl. rewrite <-(IHv d s) by lia.
    destruct (pvalue n d s) as [[j s5]|] eqn:E2; [|done]; simpl.
    apply (parser_shrinks n) in E2.
    pose proof (length_skip_ws s5) as W5. destruct (skip_ws s5) as [|c3 s6]; [done|].
    pose proof (length_skip_ws s6) as W6. simpl in *. by rewrite (IHe d (skip_ws s6)) by lia.
Qed.

(** The fuel [parse] supplies is enough: more fuel changes nothing. *)
Lemma pvalue_fuel n d s : (2 * String.length s < n)%nat ->
  pvalue n d s = pvalue (S (2 * String.length s)) d s.
Proof. intros H. apply (parser_fuel n); lia. Qed.

(** ** Well-formed documents *)

(** [wf b j]: the tokens of [j] are well formed and it nests at most [b] deep. *)
Inductive wf : Z -> json -> Prop :=
  | wf_null b : wf b JNull
  | wf_bool b x : wf b (JBool x)
  | wf_num b lit : num_ok lit -> wf b (JNum lit)
  | wf_str b raw : raw_ok raw -> wf b (JStr raw)
  | wf_arr b l : 0 < b -> (forall p, p ∈ l -> wf (b - 1) p.2) -> wf b (JArr l)
  | wf_obj b l : 0 < b -> (forall m, m ∈ l -> raw_ok m.1) ->
      (forall m, m ∈ l -> wf (b - 1) m.2.2) -> wf b (JObj l).

#[export] Hint Constructors wf : wb.

Lemma wf_mono b b' j : wf b j -> b <= b' -> wf b' j.
Proof.
  intros H; revert b'; induction H as [| | | |b l Hb _ IH|b l Hb Hk _ IH]; intros b' Hle;
    constructor; try done; try lia; intros m Hm; apply IH; (done || lia).
Qed.

(** How deep the arrays and objects of a document nest. *)
Fixpoint depth (j : json) : Z :=
  match j with
  | JArr l => 1 + fold_right (fun p m => Z.max (depth (snd p)) m) 0 l
  | JObj l => 1 + fold_right (fun p m => Z.max (depth (snd (snd p))) m) 0 l
  | _ => 0
  end.

Lemma fold_max_elem {A} (f : A -> Z) l x : x ∈ l -> f x <= fold_right (fun p m => Z.max (f p) m) 0 l.
Proof. induction 1 as [x l|x y l _ IH]; simpl; lia. Qed.

Lemma fold_max_nonneg {A} (f : A -> Z) l : 0 <= fold_right (fun p m => Z.max (f p) m) 0 l.
Proof. induction l as [|x l IH]; simpl; lia. Qed.

(** The bound of [wf] is that depth. *)
Lemma wf_depth b d j : wf b j -> depth j <= d -> wf d j.
Proof.
  intros H. revert d. induction H as [| | | |b l Hb _ IH|b l Hb Hk _ IH]; intros d; simpl; auto with wb; intros Hd.
  - pose proof (fold_max_nonneg (fun p : string * json => depth p.2) l).
    constructor; [lia|]. intros p Hp. apply IH; [done|].
    pose proof (fold_max_elem (fun p : string * json => depth p.2) l p Hp). simpl in *. lia.
  - pose proof (fold_max_nonneg (fun p : string * (string * json) => depth p.2.2) l).
    constructor; [lia|done|]. intros p Hp. apply IH; [done|].
    pose proof (fold_max_elem (fun p : string * (string * json) => depth p.2.2) l p Hp). simpl in *. lia.
Qed.

(** What the parser returns is well formed. *)
Lemma parser_wf n :
  (forall d s j r, pvalue n d s = Some (j, r) -> wf (maxNestingDepth - d) j) /\
  (forall d s l r, pmembers n d s = Some (l, r) ->
     forall m, m ∈ l -> raw_ok m.1 /\ wf (maxNestingDepth - d) m.2.2) /\
  (forall d s l r, pelems n d s = Some (l, r) ->
     forall p, p ∈ l -> wf (maxNestingDepth - d) p.2).
Proof.
  induction n as [|n (IHv & IHm & IHe)]; [by repeat split|]. split_and!; intros d s l r H.
  - apply pvalue_inv in H as (n' & c & s1 & [= <-] & -> & H).
    destruct H as [(Hd & -> & [[W ->]|(l' & -> & H)])|[(Hd & -> & [[W ->]|(l' & -> & H)])
      |[(-> & raw & -> & H)|[(lit & -> & H)|H]]]].
    + constructor; [lia|set_solver..].
    + constructor; [lia|by intros m [? _]%(IHm _ _ _ _ H)|].
      intros m [_ Hm]%(IHm _ _ _ _ H). by replace (_ - d - 1) with (maxNestingDepth - (d + 1)) by lia.
    + constructor; [lia|set_solver].
    + constructor; [lia|]. intros m Hm%(IHe _ _ _ _ H).
      by replace (_ - d - 1) with (maxNestingDepth - (d + 1)) by lia.
    + constructor. by apply scan_str_inv in H as [_ ?].
    + constructor. by apply scan_number_inv in H as [_ ?].
    + apply scan_literal_inv in H as [_ [->|[b ->]]]; constructor.
  - apply pmembers_inv in H as (n' & s1 & k & s2 & s3 & j & s5 & [= <-] & -> & H1 & H2 & H3 & H).
    apply scan_str_inv in H1 as [_ Hk]. apply IHv in H3.
    destruct H as [[_ ->]|(s6 & l' & H4 & H5 & ->)]; intros m Hm; apply elem_of_cons in Hm as [->|Hm].
    + done.
    + by apply elem_of_nil in Hm.
    + done.
    + by apply (IHm _ _ _ _ H5).
  - apply pelems_inv in H as (n' & j & s5 & [= <-] & H3 & H). apply IHv in H3.
    destruct H as [[_ ->]|(s6 & l' & H4 & H5 & ->)]; intros m Hm; apply elem_of_cons in Hm as [->|Hm].
    + done.
    + by apply elem_of_nil in Hm.
    + done.
    + by apply (IHe _ _ _ _ H5).
Qed.

Lemma parse_wf s j : parse s = Some j -> wf maxNestingDepth j.
Proof.
  unfold parse. destruct (pvalue _ 0 _) as [[j' r]|] eqn:E; [|done].
  case_bool_decide; [|done]. intros [= <-]. apply parser_wf in E. by rewrite Z.sub_0_r in E.
Qed.

(** ** Parsing what was printed *)

Lemma parse_wf_depth s j d : parse s = Some j -> depth j <= d -> wf d j.
Proof. intros H. by apply (wf_depth maxNestingDepth), (parse_wf s). Qed.

Lemma print_head b j : wf b j ->
  exists c t, print j = String c t /\ is_ws c = false /\ ceq c "]" = false /\ ceq c "}" = false.
Proof.
  destruct 1 as [|b []|b lit [(c & t & -> & Hc) _]| | |]; simpl; try by eexists _, _.
  eexists _, _. split; [done|]. apply orb_true_iff in Hc as [->%ceq_true|Hc]; [done|].
  unfold is_ws. by rewrite !digit_not.
Qed.

Lemma skip_ws_print b j r : wf b j -> skip_ws (print j +:+ r) = print j +:+ r.
Proof. intros (c & t & -> & Hc & _)%print_head. str_norm. simpl. by rewrite Hc. Qed.

Definition member_text (m : string * (string * json)) : string :=
  quoted (fst m) +:+ ":" +:+ print (snd (snd m)).

Definition parses (n : nat) (d : Z) (j : json) : Prop := forall r, num_stop r ->
  pvalue n d (print j +:+ r) = Some (canon j, r).

Lemma join_cons x y l : join "," (x :: y :: l) = x +:+ "," +:+ join "," (y :: l).
Proof. done. Qed.

Lemma pelems_print d (l : list (string * json)) : l <> [] ->
  (forall p, p ∈ l -> wf (maxNestingDepth - d) p.2) ->
  (forall p, p ∈ l -> forall n, (2 * String.length (print p.2) < n)%nat -> parses n d p.2) ->
  forall n r, (2 * String.length (join "," (map (fun p => print p.2) l)) + 1 < n)%nat ->
  pelems n d (join "," (map (fun p => print p.2) l) +:+ String "]" r)
    = Some (map (fun p => (print p.2, canon p.2)) l, r).
Proof.
  induction l as [|p l IH]; [done|]. intros _ Hwf Hp n r Hn. destruct n as [|n]; [lia|].
  pose proof (Hp p (list_elem_of_here _ _)) as Hpp.
  destruct l as [|p2 l].
  - simpl in *. rewrite (Hpp n) by (done || lia). simpl. by rewrite consumed_app.
  - simpl map in *. rewrite join_cons in *. rewrite !app_assoc', app_cons, app_nil_l.
    set (rest := join "," (print p2.2 :: map (fun p => print p.2) l)) in *.
    rewrite !length_app' in Hn. simpl in Hn. simpl pelems.
    rewrite (Hpp n) by (done || lia). simpl. rewrite consumed_app.
    pose proof (Hwf p2 ltac:(by right; left)) as Hwf2.
    assert (skip_ws (rest +:+ String "]" r) = rest +:+ String "]" r) as ->.
    { subst rest. destruct l; simpl; rewrite ?app_assoc'; by apply (skip_ws_print (maxNestingDepth - d)). }
    unfold rest in *. clear rest Hpp Hwf2.
    rewrite IH; [done|done|intros q Hq; apply Hwf; by right|intros q Hq; apply Hp; by right|lia].
Qed.

Lemma pmembers_print d (l : list (string * (string * json))) : l <> [] ->
  (forall m, m ∈ l -> raw_ok m.1) ->
  (forall m, m ∈ l -> wf (maxNestingDepth - d) m.2.2) ->
  (forall m, m ∈ l -> forall n, (2 * String.length (print m.2.2) < n)%nat -> parses n d m.2.2) ->
  forall n r, (2 * String.length (join "," (map member_text l)) < n)%nat ->
  pmembers n d (join "," (map member_text l) +:+ String "}" r)
    = Some (map (fun m => (m.1, (print m.2.2, canon m.2.2))) l, r).
Proof.
  induction l as [|m l IH]; [done|]. intros _ Hk Hwf Hp n r Hn. destruct n as [|n]; [lia|].
  pose proof (Hp m (list_elem_of_here _ _)) as Hpm.
  assert (forall t, scan_str (m.1 +:+ String dq t) = Some (m.1, t)) as Hscan.
  { intros t. apply scan_raw, Hk. left. }
  assert (forall t, skip_ws (print m.2.2 +:+ t) = print m.2.2 +:+ t) as Hws.
  { intros t. apply (skip_ws_print (maxNestingDepth - d)), Hwf. left. }
  assert (forall t, member_text m +:+ t = String dq (m.1 +:+ String dq (String ":" (print m.2.2 +:+ t)))) as Hm.
  { intros t. unfold member_text, quoted, str1. by str_norm. }
  assert (String.length (print m.2.2) + 2 <= String.length (member_text m))%nat as Hlen.
  { rewrite <-(app_nil_r' (member_text m)), Hm. simpl. rewrite length_app'. simpl. rewrite length_app'. lia. }
  destruct l as [|m2 l].
  - simpl join in *. rewrite Hm. simpl. rewrite Hscan. simpl. rewrite Hws, (Hpm n) by (done || lia). simpl.
    by rewrite consumed_app.
  - simpl map in *. rewrite join_cons in *. rewrite !app_assoc', app_cons, app_nil_l.
    set (rest := join "," (member_text m2 :: map member_text l)) in *.
    rewrite !length_app' in Hn. change (String.length ",") with 1%nat in Hn. rewrite Hm.
    simpl pmembers. rewrite Hscan. simpl. rewrite Hws, (Hpm n) by (done || lia). simpl.
    rewrite consumed_app.
    assert (skip_ws (rest +:+ String "}" r) = rest +:+ String "}" r) as ->.
    { subst rest. destruct l; simpl; unfold member_text, quoted; by rewrite ?app_cons. }
    unfold rest in *. clear rest Hpm Hm Hscan Hws Hlen.
    rewrite IH; [done|done|intros q Hq..|lia]; [apply Hk|apply Hwf|apply Hp]; by right.
Qed.

(** The parser inverts the printer on every well-formed document. *)
Lemma pvalue_print b j : wf b j -> forall n d, d + b <= maxNestingDepth ->
  (2 * String.length (print j) < n)%nat -> parses n d j.
Proof.
  induction 1 as [b|b x|b lit H|b raw H|b l Hb Hwf IH|b l Hb Hk Hwf IH];
    intros n d Hd Hn r Hr; (destruct n as [|n]; [lia|]).
  - simpl. by destruct r.
  - by destruct x.
  - destruct H as [(c & t & E & Hc) Hscan]. simpl print in *. specialize (Hscan r Hr).
    rewrite E in *. str_norm in Hscan. str_norm. simpl.
    assert (ceq c "{" = false /\ ceq c "[" = false /\ ceq c dq = false) as (-> & -> & ->).
    { apply orb_true_iff in Hc as [->%ceq_true|Hc]; [done|]. by rewrite !digit_not. }
    by rewrite Hc, Hscan.
  - simpl print in *. unfold quoted, str1. str_norm. simpl. by rewrite scan_raw.
  - assert (Hlt : (maxNestingDepth <=? d) = false) by lia.
    destruct l as [|p l]; [simpl; by rewrite Hlt|].
    destruct (print_head (b - 1) p.2) as (c & t & E & Hws & Hne & _); [apply Hwf; left|].
    set (texts := join "," (map (fun p => print p.2) (p :: l))) in *.
    assert (exists t', texts +:+ String "]" r = String c t') as [t' Ejoin].
    { subst texts. destruct l; simpl; rewrite E; str_norm; by eexists. }
    assert (print (JArr (p :: l)) = String "[" (texts +:+ "]")) as Ep by done.
    rewrite Ep in *. simpl String.length in Hn. rewrite length_app' in Hn. simpl String.length in Hn.
    rewrite app_cons, app_assoc', app_cons, app_nil_l. simpl pvalue.
    rewrite Hlt, Ejoin. simpl. rewrite Hws, Hne, <-Ejoin. unfold texts.
    rewrite (pelems_print (d + 1) (p :: l)); [done|done| | |fold texts; lia].
    + intros q Hq. apply (wf_mono (b - 1)); [by apply Hwf|lia].
    + intros q Hq m Hm. apply IH; [done|lia|done].
  - assert (Hlt : (maxNestingDepth <=? d) = false) by lia.
    destruct l as [|p l]; [simpl; by rewrite Hlt|].
    set (texts := join "," (map member_text (p :: l))) in *.
    assert (exists t, texts +:+ String "}" r = String dq t) as [t Ejoin].
    { subst texts. destruct l; simpl; unfold member_text, quoted; str_norm; by eexists. }
    assert (print (JObj (p :: l)) = String "{" (texts +:+ "}")) as Ep by done.
    rewrite Ep in *. simpl String.length in Hn. rewrite length_app' in Hn. simpl String.length in Hn.
    rewrite app_cons, app_assoc', app_cons, app_nil_l. simpl pvalue.
    rewrite Hlt, Ejoin. simpl. rewrite <-Ejoin. unfold texts.
    rewrite (pmembers_print (d + 1) (p :: l)); [done|done|done| | |fold texts; lia].
    + intros q Hq. apply (wf_mono (b - 1)); [by apply Hwf|lia].
    + intros q Hq m Hm. apply IH; [done|lia|done].
Qed.

Lemma parse_print j : wf maxNestingDepth j -> parse (print j) = Some (canon j).
Proof.
  intros H. unfold parse. pose proof (skip_ws_print _ _ "" H) as Hws. rewrite app_nil_r' in Hws.
  rewrite Hws. pose proof (pvalue_print _ _ H (S (2 * String.length (print j))) 0) as Hp.
  specialize (Hp ltac:(lia) ltac:(lia) "" I). rewrite app_nil_r' in Hp. by rewrite Hp.
Qed.

(** ** Compaction *)

Lemma html_raw_plain c s : is_html c = false -> ord c <> 226 ->
  html_raw (String c s) = String c (html_raw s).
Proof.
  intros H1 H2. simpl. rewrite H1. destruct s as [|c1 [|c2 s]]; [done..|].
  by replace (ord c =? 226) with false by lia.
Qed.

Lemma is_html_spec c : is_html c = true <-> c = "<"%char \/ c = ">"%char \/ c = "&"%char.
Proof. unfold is_html. rewrite !orb_true_iff, !ceq_true. tauto. Qed.

Lemma raw_ok_plain_inv c s : raw_ok (String c s) -> c <> bs -> raw_ok s.
Proof. inversion 1; by subst. Qed.

Lemma html_hex c : is_hex c = true -> is_html c = false /\ ord c <> 226.
Proof.
  intros H. split.
  - apply not_true_iff_false. by intros [->|[->| ->]]%is_html_spec.
  - unfold is_hex, is_digit in H. rewrite !orb_true_iff, andb_true_iff, !between_spec in H. lia.
Qed.

Lemma raw_ok_html raw : raw_ok raw -> raw_ok (html_raw raw).
Proof.
  induction raw as [s IH] using string_len_ind. intros Hs.
  destruct Hs as [|c s Hd Hb Hc Hs|e s He Hs|h1 h2 h3 h4 s Hh Hs].
  - constructor.
  - simpl in IH |- *. destruct (is_html c); [apply raw_ok_u00, IH; [lia|done]|].
    destruct s as [|c1 [|c2 s]]; try (constructor; [done..|]; apply IH; [simpl; lia|done]).
    destruct ((ord c =? 226) && (ord c1 =? 128) && between 168 169 (ord c2)) eqn:E;
      [|constructor; [done..|]; apply IH; [simpl; lia|done]].
    bool_hyps. rewrite between_spec, !Z.eqb_eq in *.
    apply raw_ok_u202; [by apply Z.mod_pos_bound|]. apply IH; [simpl; lia|].
    assert (forall d, 128 <= ord d -> d <> bs) as Hnb by (intros d Hle ->; change (ord bs) with 92 in Hle; lia).
    apply raw_ok_plain_inv in Hs; [|apply Hnb; lia]. apply raw_ok_plain_inv in Hs; [done|apply Hnb; lia].
  - assert (is_html e = false /\ ord e <> 226) as [He1 He2].
    { unfold is_simple_escape in He. rewrite !orb_true_iff, !ceq_true in He. destruct_or!; by subst. }
    rewrite !html_raw_plain by done. apply raw_esc; [done|]. apply IH; [simpl; lia|done].
  - pose proof Hh as Hq. rewrite !andb_true_iff in Hq. destruct Hq as [[[A1 A2] A3] A4].
    apply html_hex in A1 as [? ?], A2 as [? ?], A3 as [? ?], A4 as [? ?].
    rewrite !html_raw_plain by done. apply raw_u; [done|]. apply IH; [simpl; lia|done].
Qed.

Lemma wf_html b j : wf b j -> wf b (html j).
Proof.
  induction 1 as [| | | |b l Hb _ IH|b l Hb Hk _ IH]; simpl; auto using raw_ok_html with wb.
  - constructor; [done|]. intros p (q & -> & Hq)%list_elem_of_fmap. by apply IH.
  - constructor; [done|..]; intros p (q & -> & Hq)%list_elem_of_fmap; simpl; [by apply raw_ok_html, Hk|by apply IH].
Qed.

Lemma html_raw_head s c t : html_raw s = String c t -> 128 <= ord c ->
  exists s', s = String c s' /\ html_raw s' = t.
Proof.
  destruct s as [|d s]; [done|]. simpl. destruct (is_html d).
  { unfold u00. str_norm. intros [= <- _]. done. }
  destruct s as [|c1 [|c2 s]]; try (intros [= -> <-]; by eauto).
  destruct ((ord d =? 226) && (ord c1 =? 128) && between 168 169 (ord c2)).
  - str_norm. intros [= <- _]. done.
  - intros [= -> <-]. by eauto.
Qed.

Lemma html_raw_u00 c s : html_raw (u00 c +:+ s) = u00 c +:+ html_raw s.
Proof.
  pose proof (ord_range c). unfold u00, str1. str_norm.
  destruct (html_hex (hex_digit (ord c / 16))), (html_hex (hex_digit (ord c mod 16)));
    try (apply is_hex_digit; zlia).
  by rewrite !html_raw_plain by done.
Qed.

(** Escaping twice is escaping once. *)
Lemma html_raw_idem s : html_raw (html_raw s) = html_raw s.
Proof.
  induction s as [s IH] using string_len_ind. destruct s as [|c s]; [done|].
  simpl html_raw at 2 3. destruct (is_html c) eqn:Hc.
  { rewrite html_raw_u00. by rewrite IH by (simpl; lia). }
  assert (forall t, html_raw (html_raw t) = html_raw t ->
    (forall c1 c2 t', ord c = 226 -> t = String c1 (String c2 t') ->
       (ord c1 =? 128) && between 168 169 (ord c2) = false) ->
    html_raw (String c (html_raw t)) = String c (html_raw t)) as Hplain.
  { intros t Ht Hn. destruct (decide (ord c = 226)) as [E|E]; [|by rewrite html_raw_plain, Ht by done].
    simpl. rewrite Hc, Ht. destruct (html_raw t) as [|c1 [|c2 u]] eqn:Eu; [done..|].
    destruct ((ord c1 =? 128) && between 168 169 (ord c2)) eqn:E2; [|by rewrite <-andb_assoc, E2, andb_false_r].
    apply andb_true_iff in E2 as [E3 E4]. pose proof E4 as E5%between_spec.
    apply html_raw_head in Eu as (s' & -> & Eu); [|lia].
    apply html_raw_head in Eu as (s'' & -> & Eu); [|lia].
    specialize (Hn c1 c2 s'' E eq_refl). by rewrite E3, E4 in Hn. }
  destruct s as [|c1 [|c2 s]].
  - apply Hplain; [done|]. by intros.
  - apply Hplain; [apply IH; simpl; lia|]. by intros.
  - destruct ((ord c =? 226) && (ord c1 =? 128) && between 168 169 (ord c2)) eqn:E.
    + destruct (html_hex (hex_digit (ord c2 mod 16))); [apply is_hex_digit; zlia|].
      str_norm. rewrite !html_raw_plain by done. by rewrite IH by (simpl; lia).
    + apply Hplain; [apply IH; simpl; lia|]. intros ??? E1 [= <- <- <-].
      by rewrite E1, Z.eqb_refl, andb_true_l in E.
Qed.

Lemma canon_print b j : wf b j -> print (canon j) = print j.
Proof.
  induction 1 as [| | | |b l Hb _ IH|b l Hb Hk _ IH]; simpl; try done; do 3 f_equal;
    rewrite map_map; apply map_ext_in; intros p Hp%list_elem_of_In; simpl; by rewrite IH.
Qed.

Lemma wf_canon b j : wf b j -> wf b (canon j).
Proof.
  induction 1 as [| | | |b l Hb _ IH|b l Hb Hk _ IH]; simpl; auto with wb.
  - constructor; [done|]. intros p (q & -> & Hq)%list_elem_of_fmap. by apply IH.
  - constructor; [done| |]; intros m (q & -> & Hq)%list_elem_of_fmap; simpl; auto.
Qed.

Lemma print_html_idem b j : wf b j -> print (html (canon (html j))) = print (html j).
Proof.
  induction 1 as [| | |b raw|b l Hb _ IH|b l Hb Hk _ IH]; simpl; try done; [by rewrite html_raw_idem|..];
    do 3 f_equal; rewrite !map_map; apply map_ext_in; intros p Hp%list_elem_of_In; simpl; rewrite IH by done;
    [done|by rewrite html_raw_idem].
Qed.

(** Compacted text parses back to the document that was compacted. *)
Lemma compact_parse s t : compact s = Ok t ->
  exists j, parse s = Some j /\ t = print (html j) /\ parse t = Some (canon (html j)).
Proof.
  unfold compact. destruct (parse s) as [j|] eqn:E; [|done]. intros [= <-]. exists j. split_and!; [done..|].
  by apply parse_print, wf_html, (parse_wf s).
Qed.

Lemma compact_idem s t : compact s = Ok t -> compact t = Ok t.
Proof.
  intros (j & Hj & -> & Hp)%compact_parse. unfold compact. rewrite Hp. f_equal.
  by eapply print_html_idem, (parse_wf s).
Qed.

Lemma html_raw_cons3 c c1 c2 t : is_html c = false ->
  (ord c =? 226) && (ord c1 =? 128) && between 168 169 (ord c2) = false ->
  html_raw (String c (String c1 (String c2 t))) = String c (html_raw (String c1 (String c2 t))).
Proof. intros H1 H2. cbn [html_raw]. by rewrite H1, H2. Qed.

(** Quoted strings are already HTML-escaped. *)
Lemma html_raw_tok o k c s t : quote_tok (String c s) = Some (o, k) ->
  html_raw (o +:+ t) = o +:+ html_raw t.
Proof.
  unfold quote_tok. destruct (Z.ltb_spec (ord c) 128).
  - assert (forall e, is_html e = false -> ord e <> 226 ->
      html_raw (String bs (str1 e) +:+ t) = String bs (str1 e) +:+ html_raw t) as Hesc.
    { intros e H1 H2. unfold str1. str_norm. by rewrite !html_raw_plain by done. }
    destruct (ceq c dq || ceq c bs) eqn:E1.
    { intros [= <- <-]. rewrite orb_true_iff, !ceq_true in E1. destruct E1; subst; by apply Hesc. }
    do 5 (case_match; [intros [= <- <-]; by apply Hesc|]).
    case_match; intros [= <- <-]; [apply html_raw_u00|]. bool_hyps. unfold str1. str_norm.
    apply html_raw_plain; [done|lia].
  - destruct (DecodeRune (String c s)) as [r n] eqn:E.
    destruct ((r =? RuneError) && (n =? 1)%nat) eqn:E1; [intros [= <- <-]; str_norm; by rewrite !html_raw_plain by done|].
    destruct (between 8232 8233 r) eqn:E2.
    + intros [= <- <-]. unfold str1. str_norm.
      destruct (html_hex (hex_digit (r mod 16))); [apply is_hex_digit; by apply Z.mod_pos_bound|].
      by rewrite !html_raw_plain by done.
    + intros [= <- <-].
      assert (forall d, 128 <= ord d -> is_html d = false) as Hh.
      { intros d Hd. apply not_true_iff_false. intros [->|[->| ->]]%is_html_spec; by vm_compute in Hd. }
      apply DecodeRune_inv in E as [[-> ->]|[(c1 & u & -> & -> & ? & ? & ->)
        |[(c1 & c2 & u & -> & -> & ? & ? & ? & ->)|(c1 & c2 & c3 & u & -> & -> & ? & ? & ? & ?)]]]; [|..|lia].
      * done.
      * simpl str_take. str_norm. by rewrite !html_raw_plain by (try apply Hh; lia).
      * simpl str_take. str_norm.
        assert (html_raw (String c1 (String c2 t)) = String c1 (String c2 (html_raw t))) as Hrest.
        { by rewrite !html_raw_plain by (try apply Hh; lia). }
        destruct ((ord c =? 226) && (ord c1 =? 128) && between 168 169 (ord c2)) eqn:E3.
        -- bool_hyps. rewrite between_spec, Z.eqb_eq in *. rewrite between_true in E2 by lia. done.
        -- rewrite html_raw_cons3; [by rewrite Hrest|apply Hh; lia|done].
      * simpl str_take. str_norm. by rewrite !html_raw_plain by (try apply Hh; lia).
Qed.

Lemma html_raw_quote s : html_raw (quote s) = quote s.
Proof.
  unfold quote. destruct (quote_total s) as (q & Hq & _). rewrite Hq. simpl.
  revert q Hq; induction s as [s IH] using string_len_ind. intros q Hq.
  destruct s as [|c s]; [by injection Hq as <-|].
  destruct (quote_tok_ok c s) as (o & k & E & _).
  rewrite (tokens_step _ quote_tok_width (String c s) o k) in Hq by done.
  destruct (quote_total (str_drop k (String c s))) as (q' & Hq' & _). rewrite Hq' in Hq.
  injection Hq as <-. rewrite (html_raw_tok _ _ _ _ _ E). f_equal. eapply IH, Hq'.
  apply quote_tok_width in E. rewrite length_str_drop. simpl. lia.
Qed.

(** ** Documents written by the encoder *)

(** [doc b v j]: [v] is the printed form of [j], nested at most [b] deep and
    already compacted and HTML-escaped. *)
Definition doc (b : Z) (v : string) (j : json) : Prop :=
  wf b j /\ v = print j /\ print (html j) = v.

Lemma print_html_canon b j : wf b j -> print (html (canon j)) = print (html j).
Proof.
  induction 1 as [| | | |b l Hb _ IH|b l Hb Hk _ IH]; simpl; try done; do 3 f_equal;
    rewrite !map_map; apply map_ext_in; intros p Hp%list_elem_of_In; simpl; by rewrite IH.
Qed.

Lemma print_html_html b j : wf b j -> print (html (html j)) = print (html j).
Proof.
  induction 1 as [| | |b raw|b l Hb _ IH|b l Hb Hk _ IH]; simpl; try done; [by rewrite html_raw_idem|..];
    do 3 f_equal; rewrite !map_map; apply map_ext_in; intros p Hp%list_elem_of_In; simpl; rewrite IH by done;
    [done|by rewrite html_raw_idem].
Qed.

Lemma doc_parse v j : doc maxNestingDepth v j -> parse v = Some (canon j).
Proof. intros (H & -> & _). by apply parse_print. Qed.

(** Encoding an encoded document again changes nothing. *)
Lemma doc_compact v j : doc maxNestingDepth v j -> compact v = Ok v.
Proof.
  intros H. unfold compact. rewrite (doc_parse v j H). destruct H as (H & -> & E).
  by rewrite (print_html_canon _ _ H), E.
Qed.

Lemma doc_string b s : doc b (enc_string s) (JStr (quote s)).
Proof.
  split; [constructor; apply raw_ok_quote|]. split; [done|]. simpl. by rewrite html_raw_quote.
Qed.

Lemma doc_uint b z : is_u64 z -> doc b (FormatUint z) (JNum (FormatUint z)).
Proof. intros H. split; [|done]. constructor. by apply num_ok_uint. Qed.

Lemma doc_raw b s j : parse s = Some j -> wf b j -> doc b (print (html j)) (html j).
Proof. intros Hp H. split; [by apply wf_html|]. split; [done|]. by apply (print_html_html b). Qed.

Lemma doc_null b : doc b "null" JNull.
Proof. split; [constructor|done]. Qed.

Lemma doc_mono b b' v j : doc b v j -> b <= b' -> doc b' v j.
Proof. intros [H HH] Hb. split; [|done]. by apply (wf_mono b). Qed.

#[export] Hint Resolve doc_string doc_uint doc_null : wb.

Definition key_ok (k : string) : Prop := raw_ok k /\ html_raw k = k.

(** Fields [(key, text)] whose texts are the documents of the members. *)
Definition fields_doc (b : Z) (fs : list (string * string))
    (ms : list (string * (string * json))) : Prop :=
  Forall2 (fun f m => f.1 = m.1 /\ key_ok m.1 /\ doc b f.2 m.2.2) fs ms.

Lemma enc_obj_doc b fs ms : 0 <= b -> fields_doc b fs ms ->
  exists v, enc_obj (map (fun f => (f.1, Ok f.2)) fs) = Ok v /\ doc (b + 1) v (JObj ms).
Proof.
  intros Hb H. unfold enc_obj. exists (print (JObj ms)).
  rewrite map_map, (all_ok_map _ (fun f => quoted f.1 +:+ ":" +:+ f.2)) by done. unfold doc. simpl. split_and!.
  - do 4 f_equal. induction H as [|f m fs ms (E & _ & _ & E' & _) _ IH]; simpl; [done|]. by rewrite E, E', IH.
  - constructor; [lia|..]; intros m Hm; apply list_elem_of_lookup in Hm as [i Hi];
      destruct (Forall2_lookup_r _ _ _ _ _ H Hi) as (f & _ & _ & [Hk _] & Hw & _); [done|].
    by replace (b + 1 - 1) with b by lia.
  - done.
  - do 3 f_equal. rewrite map_map. induction H as [|f m fs ms (E & [_ Ek] & _ & E1 & E2) _ IH]; simpl; [done|].
    f_equal; [|apply IH]. by rewrite Ek, E2, E1.
Qed.

Lemma enc_arr_doc b vs (es : list (string * json)) : 0 <= b ->
  Forall2 (fun v e => doc b v e.2) vs es ->
  exists v, enc_arr (map Ok vs) = Ok v /\ doc (b + 1) v (JArr es).
Proof.
  intros Hb H. unfold enc_arr. exists (print (JArr es)).
  rewrite (all_ok_fmap_Ok (fun x => x)), map_id. unfold doc. simpl. split_and!.
  - do 4 f_equal. induction H as [|v e vs es (_ & E & _) _ IH]; simpl; [done|]. by rewrite E, IH.
  - constructor; [lia|]. intros e He. apply list_elem_of_lookup in He as [i Hi].
    destruct (Forall2_lookup_r _ _ _ _ _ H Hi) as (v & _ & Hw & _). by replace (b + 1 - 1) with b by lia.
  - done.
  - do 3 f_equal. rewrite map_map. induction H as [|v e vs es (_ & E1 & E2) _ IH]; simpl; [done|].
    f_equal; [|apply IH]. by rewrite E2, E1.
Qed.
