(* ===== verification/JsonLocal.v ===== *)
(** Parsing is local: the text a value was read from parses, on its own, to
    that value.  This is what makes two-stage decoding work: the slice an
    envelope keeps as its raw payload is a document in its own right. *)

From S2P Require Import Prelude Strconv Utf8 Json JsonFacts.
Local Open Scope Z_scope.

(** ** White space *)

Lemma skip_ws_split s : exists ws, str_forall is_ws ws = true /\ s = ws +:+ skip_ws s.
Proof.
  induction s as [|c s (ws & Hws & E)]; [by exists ""|]. simpl. destruct (is_ws c) eqn:Hc.
  - exists (String c ws). simpl. by rewrite Hc, Hws, app_cons, <-E.
  - by exists "".
Qed.

Lemma skip_ws_app ws t : str_forall is_ws ws = true -> skip_ws (ws +:+ t) = skip_ws t.
Proof.
  induction ws as [|c ws IH]; [done|]. simpl. intros [Hc Hws]%andb_true_iff.
  str_norm. simpl. by rewrite Hc, IH.
Qed.

(** A token after white space, and its replacement. *)
Lemma skip_ws_token s c r : skip_ws s = String c r -> is_ws c = false ->
  exists ws, str_forall is_ws ws = true /\ s = ws +:+ String c r /\
    forall t, skip_ws (ws +:+ String c t) = String c t.
Proof.
  intros E Hc. destruct (skip_ws_split s) as (ws & Hws & Es). rewrite E in Es.
  exists ws. split_and!; [done|done|]. intros t. rewrite skip_ws_app by done. simpl. by rewrite Hc.
Qed.

Lemma num_stop_ws ws c t : str_forall is_ws ws = true -> (c = "," \/ c = "}" \/ c = "]")%char ->
  num_stop (ws +:+ String c t).
Proof.
  intros Hws Hc. destruct ws as [|w ws]; [by destruct Hc as [->|[->| ->]]|].
  simpl in Hws. apply andb_true_iff in Hws as [Hw _]. rewrite app_cons. unfold is_ws in Hw.
  rewrite !orb_true_iff in Hw. destruct Hw as [[[Hw|Hw]|Hw]|Hw]; apply ceq_true in Hw as ->; done.
Qed.

(** ** Building successful runs *)

Lemma pvalue_obj n d s1 s0 l r : d < maxNestingDepth -> skip_ws s1 = s0 ->
  pmembers n (d + 1) s0 = Some (l, r) -> pvalue (S n) d (String "{" s1) = Some (JObj l, r).
Proof.
  intros Hd E H. simpl. rewrite E. replace (maxNestingDepth <=? d) with false by lia.
  pose proof H as (n' & s2 & k & s3 & s4 & j & s5 & -> & -> & _)%pmembers_inv. simpl ceq. cbv iota. by rewrite H.
Qed.

Lemma pvalue_head n d s j r : pvalue n d s = Some (j, r) ->
  exists c t, s = String c t /\ is_ws c = false /\ ceq c "]" = false.
Proof.
  intros (n' & c & s1 & -> & -> & H)%pvalue_inv.
  destruct H as [(_ & -> & _)|[(_ & -> & _)|[(-> & _)|[(lit & _ & H)|H]]]]; try by eexists _, _.
  - apply scan_number_inv in H as [E [(c' & t & -> & Hc) _]]. rewrite app_cons in E. injection E as -> _.
    eexists _, _. split; [done|]. apply orb_true_iff in Hc as [->%ceq_true|Hc]; [done|].
    unfold is_ws. by rewrite !digit_not.
  - apply scan_literal_inv in H as [E [->|[b ->]]]; [|destruct b]; injection E as -> _; by eexists _, _.
Qed.

Lemma pvalue_skip n d s j r : pvalue n d s = Some (j, r) -> skip_ws s = s.
Proof. intros (c & t & -> & Hc & _)%pvalue_head. simpl. by rewrite Hc. Qed.

Lemma pmembers_skip n d s l r : pmembers n d s = Some (l, r) -> skip_ws s = s.
Proof. by intros (n' & s1 & k & s2 & s3 & j & s5 & -> & -> & _)%pmembers_inv. Qed.

Lemma pelems_skip n d s l r : pelems n d s = Some (l, r) -> skip_ws s = s.
Proof. intros (n' & j & s5 & -> & H & _)%pelems_inv. by eapply pvalue_skip. Qed.

Lemma pvalue_arr n d s1 s0 l r : d < maxNestingDepth -> skip_ws s1 = s0 ->
  pelems n (d + 1) s0 = Some (l, r) -> pvalue (S n) d (String "[" s1) = Some (JArr l, r).
Proof.
  intros Hd E H. simpl. rewrite E. replace (maxNestingDepth <=? d) with false by lia.
  pose proof H as (n' & j & s5 & -> & Hv & _)%pelems_inv.
  apply pvalue_head in Hv as (c & t & -> & _ & Hc). rewrite Hc. by rewrite H.
Qed.

Lemma pmembers_last n d s1 k s2 s3 j s5 r : scan_str s1 = Some (k, s2) ->
  skip_ws s2 = String ":" s3 -> pvalue n d (skip_ws s3) = Some (j, s5) -> skip_ws s5 = String "}" r ->
  pmembers (S n) d (String dq s1) = Some ([(k, (consumed (skip_ws s3) s5, j))], r).
Proof. intros H1 H2 H3 H4. simpl. rewrite H1. simpl. rewrite H2. simpl. rewrite H3. simpl. by rewrite H4. Qed.

Lemma pmembers_more n d s1 k s2 s3 j s5 s6 l r : scan_str s1 = Some (k, s2) ->
  skip_ws s2 = String ":" s3 -> pvalue n d (skip_ws s3) = Some (j, s5) -> skip_ws s5 = String "," s6 ->
  pmembers n d (skip_ws s6) = Some (l, r) ->
  pmembers (S n) d (String dq s1) = Some ((k, (consumed (skip_ws s3) s5, j)) :: l, r).
Proof.
  intros H1 H2 H3 H4 H5. simpl. rewrite H1. simpl. rewrite H2. simpl. rewrite H3. simpl. rewrite H4. simpl.
  by rewrite H5.
Qed.

Lemma pelems_last n d s j s5 r : pvalue n d s = Some (j, s5) -> skip_ws s5 = String "]" r ->
  pelems (S n) d s = Some ([(consumed s s5, j)], r).
Proof. intros H1 H2. simpl. rewrite H1. simpl. by rewrite H2. Qed.

Lemma pelems_more n d s j s5 s6 l r : pvalue n d s = Some (j, s5) -> skip_ws s5 = String "," s6 ->
  pelems n d (skip_ws s6) = Some (l, r) -> pelems (S n) d s = Some ((consumed s s5, j) :: l, r).
Proof. intros H1 H2 H3. simpl. rewrite H1. simpl. rewrite H2. simpl. by rewrite H3. Qed.

(** ** Locality *)

(** What may follow a value: a number must not run on. *)
Definition stops (j : json) (r : string) : Prop :=
  match j with JNum _ => num_stop r | _ => True end.

Lemma num_stop_stops j r : num_stop r -> stops j r.
Proof. by destruct j. Qed.

Definition local_value (n : nat) : Prop := forall d s j r, pvalue n d s = Some (j, r) ->
  exists w, s = w +:+ r /\ forall d' r2, d' <= d -> stops j r2 -> pvalue n d' (w +:+ r2) = Some (j, r2).

Definition local_members (n : nat) : Prop := forall d s l r, pmembers n d s = Some (l, r) ->
  exists w, s = w +:+ r /\ forall d' r2, d' <= d -> pmembers n d' (w +:+ r2) = Some (l, r2).

Definition local_elems (n : nat) : Prop := forall d s l r, pelems n d s = Some (l, r) ->
  exists w, s = w +:+ r /\ forall d' r2, d' <= d -> pelems n d' (w +:+ r2) = Some (l, r2).

Lemma step_value n : local_members n -> local_elems n -> local_value (S n).
Proof.
  intros IHm IHe d s j r H. apply pvalue_inv in H as (n' & c & s1 & [= <-] & -> & H).
  destruct H as [(Hd & -> & [[W ->]|(l & -> & H)])|[(Hd & -> & [[W ->]|(l & -> & H)])
    |[(-> & raw & -> & H)|[(lit & -> & H)|H]]]].
  - destruct (skip_ws_token _ _ _ W eq_refl) as (ws & _ & -> & Hws). exists (String "{" (ws +:+ "}")).
    split; [by str_norm|]. intros d' r2 Hd' _. str_norm. simpl. rewrite Hws.
    by replace (maxNestingDepth <=? d') with false by lia.
  - destruct (skip_ws_split s1) as (ws & Hws & E). destruct (IHm _ _ _ _ H) as (w & Ew & Hw).
    exists (String "{" (ws +:+ w)). split; [rewrite E, Ew; by str_norm|].
    intros d' r2 Hd' _. str_norm. specialize (Hw (d' + 1) r2 ltac:(lia)).
    eapply pvalue_obj; [lia| |done]. rewrite skip_ws_app by done. by eapply pmembers_skip.
  - destruct (skip_ws_token _ _ _ W eq_refl) as (ws & _ & -> & Hws). exists (String "[" (ws +:+ "]")).
    split; [by str_norm|]. intros d' r2 Hd' _. str_norm. simpl. rewrite Hws.
    by replace (maxNestingDepth <=? d') with false by lia.
  - destruct (skip_ws_split s1) as (ws & Hws & E). destruct (IHe _ _ _ _ H) as (w & Ew & Hw).
    exists (String "[" (ws +:+ w)). split; [rewrite E, Ew; by str_norm|].
    intros d' r2 Hd' _. str_norm. specialize (Hw (d' + 1) r2 ltac:(lia)).
    eapply pvalue_arr; [lia| |done]. rewrite skip_ws_app by done. by eapply pelems_skip.
  - apply scan_str_inv in H as [-> Hraw]. exists (String dq (raw +:+ str1 dq)).
    unfold str1. split; [by str_norm|]. intros d' r2 _ _. str_norm. simpl. by rewrite scan_raw.
  - apply scan_number_inv in H as [-> Hlit]. exists lit. split; [done|]. intros d' r2 _ Hr.
    destruct Hlit as [(c' & t & E & Hc) Hscan]. specialize (Hscan r2 Hr). rewrite E in *.
    str_norm in Hscan. str_norm. simpl.
    assert (ceq c' "{" = false /\ ceq c' "[" = false /\ ceq c' dq = false) as (-> & -> & ->).
    { apply orb_true_iff in Hc as [->%ceq_true|Hc]; [done|]. by rewrite !digit_not. }
    by rewrite Hc, Hscan.
  - apply scan_literal_inv in H as [-> Hj]. exists (print j). split; [done|]. intros d' r2 _ _.
    destruct Hj as [->|[[] ->]]; simpl; [by destruct r2|done..].
Qed.

Lemma step_members n : local_value n -> local_members n -> local_members (S n).
Proof.
  intros IHv IHm d s l r H.
  apply pmembers_inv in H as (n' & s1 & k & s2 & s3 & j & s5 & [= <-] & -> & H1 & H2 & H3 & H).
  apply scan_str_inv in H1 as [-> Hk].
  destruct (skip_ws_token _ _ _ H2 eq_refl) as (ws & _ & -> & Hws).
  destruct (skip_ws_split s3) as (ws3 & Hws3 & E3). destruct (IHv _ _ _ _ H3) as (w & Ew & Hw).
  rewrite Ew, consumed_app in H. rewrite E3, Ew. clear H2.
  assert (forall d' t, d' <= d -> stops j t -> skip_ws (ws3 +:+ w +:+ t) = w +:+ t) as Hskip.
  { intros d' t Hd' Ht. rewrite skip_ws_app by done. eapply pvalue_skip. by apply (Hw d' t). }
  destruct H as [[H4 ->]|(s6 & l' & H4 & H5 & ->)];
    (destruct (skip_ws_token _ _ _ H4 eq_refl) as (ws5 & Hws5' & -> & Hws5)).
  - exists (String dq (k +:+ String dq (ws +:+ String ":" (ws3 +:+ w +:+ ws5 +:+ "}")))).
    split; [by str_norm|]. intros d' r2 Hd'. str_norm.
    assert (stops j (ws5 +:+ String "}" r2)) as Hst by (apply num_stop_stops, num_stop_ws; auto).
    pose proof (pmembers_last n d' (k +:+ String dq (ws +:+ String ":" (ws3 +:+ w +:+ ws5 +:+ String "}" r2)))
      k (ws +:+ String ":" (ws3 +:+ w +:+ ws5 +:+ String "}" r2)) (ws3 +:+ w +:+ ws5 +:+ String "}" r2)
      j (ws5 +:+ String "}" r2) r2) as Hl.
    rewrite (Hskip d') in Hl by done. rewrite consumed_app in Hl.
    apply Hl; [by apply scan_raw|by rewrite Hws|by apply Hw|by rewrite Hws5].
  - destruct (skip_ws_split s6) as (ws6 & Hws6 & E6). destruct (IHm _ _ _ _ H5) as (w' & Ew' & Hw').
    exists (String dq (k +:+ String dq (ws +:+ String ":" (ws3 +:+ w +:+ ws5 +:+ String "," (ws6 +:+ w'))))).
    split; [rewrite E6, Ew'; by str_norm|]. intros d' r2 Hd'. str_norm. set (t := ws6 +:+ w' +:+ r2).
    assert (stops j (ws5 +:+ String "," t)) as Hst by (apply num_stop_stops, num_stop_ws; auto).
    pose proof (pmembers_more n d' (k +:+ String dq (ws +:+ String ":" (ws3 +:+ w +:+ ws5 +:+ String "," t)))
      k (ws +:+ String ":" (ws3 +:+ w +:+ ws5 +:+ String "," t)) (ws3 +:+ w +:+ ws5 +:+ String "," t)
      j (ws5 +:+ String "," t) t l' r2) as Hl.
    rewrite (Hskip d') in Hl by done. rewrite consumed_app in Hl.
    apply Hl; [by apply scan_raw|by rewrite Hws|by apply Hw|by rewrite Hws5|].
    unfold t. rewrite skip_ws_app by done. specialize (Hw' d' r2 Hd'). by rewrite (pmembers_skip _ _ _ _ _ Hw').
Qed.

Lemma step_elems n : local_value n -> local_elems n -> local_elems (S n).
Proof.
  intros IHv IHe d s l r H. apply pelems_inv in H as (n' & j & s5 & [= <-] & H3 & H).
  destruct (IHv _ _ _ _ H3) as (w & -> & Hw). rewrite consumed_app in H.
  destruct H as [[H4 ->]|(s6 & l' & H4 & H5 & ->)];
    (destruct (skip_ws_token _ _ _ H4 eq_refl) as (ws5 & Hws5' & -> & Hws5)).
  - exists (w +:+ ws5 +:+ "]"). split; [by str_norm|]. intros d' r2 Hd'. str_norm.
    pose proof (pelems_last n d' (w +:+ ws5 +:+ String "]" r2) j (ws5 +:+ String "]" r2) r2) as Hl.
    rewrite consumed_app in Hl. apply Hl; [|by rewrite Hws5].
    apply Hw; [done|apply num_stop_stops, num_stop_ws; auto].
  - destruct (skip_ws_split s6) as (ws6 & Hws6 & E6). destruct (IHe _ _ _ _ H5) as (w' & Ew' & Hw').
    exists (w +:+ ws5 +:+ String "," (ws6 +:+ w')). split; [rewrite E6, Ew'; by str_norm|].
    intros d' r2 Hd'. str_norm. set (t := ws6 +:+ w' +:+ r2).
    pose proof (pelems_more n d' (w +:+ ws5 +:+ String "," t) j (ws5 +:+ String "," t) t l' r2) as Hl.
    rewrite consumed_app in Hl. apply Hl; [|by rewrite Hws5|].
    + apply Hw; [done|apply num_stop_stops, num_stop_ws; auto].
    + unfold t. rewrite skip_ws_app by done. specialize (Hw' d' r2 Hd'). by rewrite (pelems_skip _ _ _ _ _ Hw').
Qed.

Lemma parser_local n : local_value n /\ local_members n /\ local_elems n.
Proof.
  induction n as [|n (IHv & IHm & IHe)]; [by repeat split; intros ????|].
  split_and!; [by apply step_value|by apply step_members|by apply step_elems].
Qed.

(** ** Raw slices *)

(** The slice a value was read from, at any depth, parses to the value. *)
Lemma pvalue_slice n d s j r : (2 * String.length s < n)%nat -> 0 <= d ->
  pvalue n d s = Some (j, r) -> parse (consumed s r) = Some j.
Proof.
  intros Hn Hd H. destruct (proj1 (parser_local n) _ _ _ _ H) as (w & -> & Hw). rewrite consumed_app.
  assert (pvalue n 0 w = Some (j, "")) as H0.
  { rewrite <-(app_nil_r' w). apply Hw; [lia|by apply num_stop_stops]. }
  unfold parse. rewrite (pvalue_skip _ _ _ _ _ H0).
  rewrite length_app' in Hn. rewrite <-(pvalue_fuel n) by lia. by rewrite H0.
Qed.

Lemma parser_slices n :
  (forall d s l r, (2 * String.length s < n)%nat -> 0 <= d -> pmembers n d s = Some (l, r) ->
     forall m, m ∈ l -> parse m.2.1 = Some m.2.2) /\
  (forall d s l r, (2 * String.length s + 1 < n)%nat -> 0 <= d -> pelems n d s = Some (l, r) ->
     forall m, m ∈ l -> parse m.1 = Some m.2).
Proof.
  induction n as [|n [IHm IHe]]; [by split|]. split; intros d s l r Hn Hd H.
  - apply pmembers_inv in H as (n' & s1 & k & s2 & s3 & j & s5 & [= <-] & -> & H1 & H2 & H3 & H).
    apply length_scan_str in H1. pose proof (length_skip_ws s3) as W3. simpl in Hn.
    pose proof (length_skip_ws s2) as W2. rewrite H2 in W2. simpl in W2.
    assert (parse (consumed (skip_ws s3) s5) = Some j) as Hs by (eapply pvalue_slice; [|done..]; lia).
    apply parser_shrinks in H3.
    destruct H as [[H4 ->]|(s6 & l' & H4 & H5 & ->)]; intros m Hm; apply elem_of_cons in Hm as [->|Hm]; try done.
    + by apply elem_of_nil in Hm.
    + eapply IHm; [| |done|done]; [|done]. pose proof (length_skip_ws s6). ws_length. lia.
  - apply pelems_inv in H as (n' & j & s5 & [= <-] & H3 & H).
    assert (parse (consumed s s5) = Some j) as Hs by (eapply pvalue_slice; [|done..]; lia).
    apply parser_shrinks in H3.
    destruct H as [[H4 ->]|(s6 & l' & H4 & H5 & ->)]; intros m Hm; apply elem_of_cons in Hm as [->|Hm]; try done.
    + by apply elem_of_nil in Hm.
    + eapply IHe; [| |done|done]; [|done]. pose proof (length_skip_ws s6). ws_length. lia.
Qed.

(** In a parsed document, every member's and element's raw text parses to its
    value. *)
Lemma parse_members s l : parse s = Some (JObj l) -> forall m, m ∈ l -> parse m.2.1 = Some m.2.2.
Proof.
  unfold parse at 1. destruct (pvalue _ 0 _) as [[j r]|] eqn:E; [|done].
  case_bool_decide; [|done]. intros [= ->]. apply pvalue_inv in E as (n & c & s1 & [= <-] & Es & H1).
  rewrite Es in H1. destruct H1 as [(_ & _ & [[_ [= ->]]|(l' & [= <-] & H1)])
    |[(_ & _ & [[_ [=]]|(l' & [=] & _)])|[(_ & raw & [=] & _)|[(lit & [=] & _)|H1]]]].
  - intros m Hm. by apply elem_of_nil in Hm.
  - eapply (parser_slices _); [| |done]; [|lia]. simpl. pose proof (length_skip_ws s1). lia.
  - apply scan_literal_inv in H1 as [_ [[=]|[b [=]]]].
Qed.

Lemma parse_elems s l : parse s = Some (JArr l) -> forall m, m ∈ l -> parse m.1 = Some m.2.
Proof.
  unfold parse at 1. destruct (pvalue _ 0 _) as [[j r]|] eqn:E; [|done].
  case_bool_decide; [|done]. intros [= ->]. apply pvalue_inv in E as (n & c & s1 & [= <-] & Es & H1).
  rewrite Es in H1. destruct H1 as [(_ & _ & [[_ [=]]|(l' & [=] & H1)])
    |[(_ & _ & [[_ [= ->]]|(l' & [= <-] & H1)])|[(_ & raw & [=] & _)|[(lit & [=] & _)|H1]]]].
  - intros m Hm. by apply elem_of_nil in Hm.
  - eapply (parser_slices _); [| |done]; [|lia]. simpl. pose proof (length_skip_ws s1). lia.
  - apply scan_literal_inv in H1 as [_ [[=]|[b [=]]]].
Qed.
