(* ===== verification/Protocol.v ===== *)
(** The wire protocol (internal/protocol/protocol.go): the tagged envelope, the
    per-type payloads, their JSON encoding and two-stage decoding, and the
    round trips between the two. *)

From S2P Require Import Prelude Strconv Utf8 Json JsonFacts JsonLocal.
Local Open Scope Z_scope.

(** ** Message types *)

Definition TypeShapeCreate : string := "shape.create".
Definition TypeShapeUpdate : string := "shape.update".
Definition TypeShapeDelete : string := "shape.delete".
Definition TypeCursor : string := "cursor".
Definition TypePresenceJoin : string := "presence.join".
Definition TypePresenceLeave : string := "presence.leave".
Definition TypePresenceState : string := "presence.state".
Definition TypeSnapshot : string := "snapshot".
Definition TypeError : string := "error".

(** ** Floating-point numbers

    Cursor coordinates are the one place where the program handles floats, and
    it only moves them from text to text; [strconv]'s shortest formatting and
    its parser are a parameter with the laws their documentation states. *)

Class Float64 := {
  float64 : Type;
  float_zero : float64;
  ParseFloat : string -> option float64;
  FormatFloat : float64 -> string;
}.

Class Float64Laws `{Float64} : Prop := {
  FormatFloat_number : forall f, num_ok (FormatFloat f);
  ParseFloat_FormatFloat : forall f, ParseFloat (FormatFloat f) = Some f;
}.

(** ** Envelope and payloads *)

Record Envelope := { Type_ : string; Seq : Z; Payload : RawMessage }.

Record ShapeOp := { ID : string; Shape : RawMessage }.

Record SnapshotShape := { ss_Seq : Z; ss_ID : string; ss_Shape : RawMessage }.

Record Snapshot := { sn_Seq : Z; sn_Shapes : list SnapshotShape }.

Record Cursor `{Float64} := { cur_ClientID : string; X : float64; Y : float64 }.

Record Presence := { ClientID : string; Name : string; Color : string }.

Record PresenceState := { Self : Presence; Others : list Presence }.

#[export] Instance SnapshotShape_eq_dec : EqDecision SnapshotShape.
Proof. solve_decision. Defined.
#[export] Instance Snapshot_eq_dec : EqDecision Snapshot.
Proof. solve_decision. Defined.
#[export] Instance Presence_eq_dec : EqDecision Presence.
Proof. solve_decision. Defined.

(** The zero values decoding starts from. *)
Definition Envelope_zero : Envelope := {| Type_ := ""; Seq := 0; Payload := None |}.
Definition ShapeOp_zero : ShapeOp := {| ID := ""; Shape := None |}.
Definition SnapshotShape_zero : SnapshotShape := {| ss_Seq := 0; ss_ID := ""; ss_Shape := None |}.
Definition Snapshot_zero : Snapshot := {| sn_Seq := 0; sn_Shapes := [] |}.
Definition Cursor_zero `{Float64} : Cursor :=
  {| cur_ClientID := ""; X := float_zero; Y := float_zero |}.
Definition Presence_zero : Presence := {| ClientID := ""; Name := ""; Color := "" |}.

(** ** Decoding *)

Definition set_Envelope (v : Envelope) (f raw : string) (j : json) : Envelope * bool :=
  if bool_decide (f = "type") then
    let '(s, ok) := dec_string (Type_ v) j in
    ({| Type_ := s; Seq := Seq v; Payload := Payload v |}, ok)
  else if bool_decide (f = "seq") then
    let '(z, ok) := dec_uint64 (Seq v) j in
    ({| Type_ := Type_ v; Seq := z; Payload := Payload v |}, ok)
  else ({| Type_ := Type_ v; Seq := Seq v; Payload := Some raw |}, true).

Definition dec_Envelope : Envelope -> json -> Envelope * bool :=
  dec_struct ["type"; "seq"; "payload"] set_Envelope.

Definition set_ShapeOp (v : ShapeOp) (f raw : string) (j : json) : ShapeOp * bool :=
  if bool_decide (f = "id") then
    let '(s, ok) := dec_string (ID v) j in ({| ID := s; Shape := Shape v |}, ok)
  else ({| ID := ID v; Shape := Some raw |}, true).

Definition dec_ShapeOp : ShapeOp -> json -> ShapeOp * bool :=
  dec_struct ["id"; "shape"] set_ShapeOp.

Definition set_SnapshotShape (v : SnapshotShape) (f raw : string) (j : json)
    : SnapshotShape * bool :=
  if bool_decide (f = "seq") then
    let '(z, ok) := dec_uint64 (ss_Seq v) j in
    ({| ss_Seq := z; ss_ID := ss_ID v; ss_Shape := ss_Shape v |}, ok)
  else if bool_decide (f = "id") then
    let '(s, ok) := dec_string (ss_ID v) j in
    ({| ss_Seq := ss_Seq v; ss_ID := s; ss_Shape := ss_Shape v |}, ok)
  else ({| ss_Seq := ss_Seq v; ss_ID := ss_ID v; ss_Shape := Some raw |}, true).

Definition dec_SnapshotShape : SnapshotShape -> json -> SnapshotShape * bool :=
  dec_struct ["seq"; "id"; "shape"] set_SnapshotShape.

(** [json.Unmarshal(shapesJSON, &shapes)] of the durable store. *)
Definition dec_SnapshotShapes : list SnapshotShape -> json -> list SnapshotShape * bool :=
  dec_slice SnapshotShape_zero dec_SnapshotShape.

Definition set_Presence (v : Presence) (f raw : string) (j : json) : Presence * bool :=
  if bool_decide (f = "clientId") then
    let '(s, ok) := dec_string (ClientID v) j in
    ({| ClientID := s; Name := Name v; Color := Color v |}, ok)
  else if bool_decide (f = "name") then
    let '(s, ok) := dec_string (Name v) j in
    ({| ClientID := ClientID v; Name := s; Color := Color v |}, ok)
  else
    let '(s, ok) := dec_string (Color v) j in
    ({| ClientID := ClientID v; Name := Name v; Color := s |}, ok).

Definition dec_Presence : Presence -> json -> Presence * bool :=
  dec_struct ["clientId"; "name"; "color"] set_Presence.

Section cursor.
Context `{Float64}.

Definition dec_float64 (old : float64) (j : json) : float64 * bool :=
  match j with
  | JNum lit => match ParseFloat lit with Some f => (f, true) | None => (old, false) end
  | JNull => (old, true)
  | _ => (old, false)
  end.

Definition set_Cursor (v : Cursor) (f raw : string) (j : json) : Cursor * bool :=
  if bool_decide (f = "clientId") then
    let '(s, ok) := dec_string (cur_ClientID v) j in
    ({| cur_ClientID := s; X := X v; Y := Y v |}, ok)
  else if bool_decide (f = "x") then
    let '(z, ok) := dec_float64 (X v) j in
    ({| cur_ClientID := cur_ClientID v; X := z; Y := Y v |}, ok)
  else
    let '(z, ok) := dec_float64 (Y v) j in
    ({| cur_ClientID := cur_ClientID v; X := X v; Y := z |}, ok).

Definition dec_Cursor : Cursor -> json -> Cursor * bool :=
  dec_struct ["clientId"; "x"; "y"] set_Cursor.
End cursor.

(** A nil or empty payload leaves the target as it is. *)
Definition DecodePayload {A} (dec : A -> json -> A * bool) (e : Envelope) (v : A)
    : A * option error :=
  if bytes_empty (Payload e) then (v, None) else Unmarshal dec (bytes_text (Payload e)) v.

(** ** Encoding *)

(** [json.Marshal] of a payload type. *)
Class Marshaler (A : Type) := MarshalJSON : A -> result string.

Definition omitempty (k v : string) : list (string * result string) :=
  if bool_decide (v = "") then [] else [(k, Ok (enc_string v))].

#[export] Instance ShapeOp_marshaler : Marshaler ShapeOp := fun op =>
  enc_obj ([("id", Ok (enc_string (ID op)))] ++
    if bytes_empty (Shape op) then [] else [("shape", enc_raw (Shape op))]).

#[export] Instance SnapshotShape_marshaler : Marshaler SnapshotShape := fun s =>
  enc_obj [("seq", Ok (FormatUint (ss_Seq s))); ("id", Ok (enc_string (ss_ID s)));
           ("shape", enc_raw (ss_Shape s))].

(** [json.Marshal] of the slice of shapes. *)
#[export] Instance SnapshotShapes_marshaler : Marshaler (list SnapshotShape) := fun l =>
  enc_arr (map MarshalJSON l).

#[export] Instance Snapshot_marshaler : Marshaler Snapshot := fun s =>
  enc_obj [("seq", Ok (FormatUint (sn_Seq s))); ("shapes", MarshalJSON (sn_Shapes s))].

#[export] Instance Cursor_marshaler `{Float64} : Marshaler Cursor := fun c =>
  enc_obj [("clientId", Ok (enc_string (cur_ClientID c)));
           ("x", Ok (FormatFloat (X c))); ("y", Ok (FormatFloat (Y c)))].

#[export] Instance Presence_marshaler : Marshaler Presence := fun p =>
  enc_obj ([("clientId", Ok (enc_string (ClientID p)))]
    ++ omitempty "name" (Name p) ++ omitempty "color" (Color p)).

#[export] Instance PresenceState_marshaler : Marshaler PresenceState := fun p =>
  enc_obj [("self", MarshalJSON (Self p)); ("others", enc_arr (map MarshalJSON (Others p)))].

#[export] Instance Envelope_marshaler : Marshaler Envelope := fun e =>
  enc_obj ([("type", Ok (enc_string (Type_ e)))]
    ++ (if Seq e =? 0 then [] else [("seq", Ok (FormatUint (Seq e)))])
    ++ (if bytes_empty (Payload e) then [] else [("payload", enc_raw (Payload e))])).

(** [protocol.Marshal]: the payload first, then the envelope around it. *)
Definition Marshal {A} `{Marshaler A} (t : string) (seq : Z) (payload : A) : result string :=
  raw ← MarshalJSON payload;
  MarshalJSON {| Type_ := t; Seq := seq; Payload := Some raw |}.

(** ** Round trips *)

(** A raw message that holds JSON nested at most [b] deep, and what it becomes
    on the wire: compacted, an absent one as [absent]. *)
Definition raw_valid (b : Z) (m : RawMessage) : Prop :=
  match m with None => True | Some s => exists j, parse s = Some j /\ wf b j end.

Definition raw_wire (absent : RawMessage) (m : RawMessage) : RawMessage :=
  match m with
  | None => absent
  | Some s => match compact s with Ok t => Some t | Err _ => None end
  end.

(** The contract of a payload type: every valid value encodes to a document
    that decodes, from the zero value, to the value's wire form. *)
Class Codec (A : Type) `{Marshaler A} := {
  c_dec : A -> json -> A * bool;
  c_zero : A;
  c_valid : Z -> A -> Prop;
  c_wire : A -> A;
  c_law : forall b a, c_valid b a -> exists v j,
    MarshalJSON a = Ok v /\ doc b v j /\ c_dec c_zero (canon j) = (c_wire a, true);
}.

Lemma dec_member_field {A} names (set : A -> string -> string -> json -> A * bool) st k raw j :
  string_value k = k -> bool_decide (k ∈ names) = true ->
  dec_member names set st (k, (raw, j)) = let '(v', ok) := set st.1 k raw j in (v', st.2 && ok).
Proof. intros Hk Hin. unfold dec_member, find_field. simpl. by rewrite Hk, Hin. Qed.

Lemma key_ok_plain k : str_forall (fun c => negb (ceq c dq || ceq c bs || is_html c)
  && between 32 127 (ord c)) k = true -> key_ok k.
Proof.
  unfold key_ok. induction k as [|c k IH]; intros H; [split; [constructor|done]|].
  cbn [str_forall] in H. apply andb_true_iff in H as [Hc Hk]. destruct (IH Hk) as [IH1 IH2].
  apply andb_true_iff in Hc as [Hc Hr]. apply negb_true_iff in Hc. bool_hyps.
  rewrite between_spec in Hr. split.
  - constructor; [done|done|lia|done].
  - rewrite html_raw_plain, IH2; [done|done|lia].
Qed.

(** Proves [fields_doc] of a concrete list of fields. *)
Ltac fields_tac :=
  repeat first [ apply Forall2_nil_2 | apply Forall2_cons_2; [split; [done|split; [by apply key_ok_plain|]]|] ];
  simpl.

Ltac dec_fields := repeat (rewrite dec_member_field by done; simpl).

Lemma dec_uint64_format old z : is_u64 z -> dec_uint64 old (JNum (FormatUint z)) = (z, true).
Proof. intros H. simpl. by rewrite ParseUint_FormatUint. Qed.

Lemma dec_string_quote old s : utf8 s -> dec_string old (JStr (quote s)) = (s, true).
Proof. intros H. simpl. by rewrite string_value_quote. Qed.

Section envelope.
Context `{Codec A}.

(** The envelope around a payload document. *)
Lemma MarshalJSON_Envelope t seq v j :
  is_u64 seq -> doc (maxNestingDepth - 1) v j -> bytes_empty (Some v) = false ->
  exists msg jm, MarshalJSON {| Type_ := t; Seq := seq; Payload := Some v |} = Ok msg /\
    doc maxNestingDepth msg jm /\
    canon jm = JObj ([("type", (enc_string t, JStr (quote t)))] ++
      (if seq =? 0 then [] else [("seq", (FormatUint seq, JNum (FormatUint seq)))]) ++
      [("payload", (v, canon j))]).
Proof.
  intros Hseq Hv Hne.
  assert (compact v = Ok v) as Hc.
  { apply (doc_compact v j). eapply doc_mono; [done|unfold maxNestingDepth; lia]. }
  set (ms := [("type", ("", JStr (quote t)))] ++
      (if seq =? 0 then [] else [("seq", ("", JNum (FormatUint seq)))]) ++ [("payload", ("", j))]).
  destruct (enc_obj_doc (maxNestingDepth - 1) ([("type", enc_string t)] ++
      (if seq =? 0 then [] else [("seq", FormatUint seq)]) ++ [("payload", v)]) ms) as (msg & E & Hd).
  { done. }
  { unfold ms. destruct (seq =? 0); fields_tac; auto with wb. }
  exists msg, (JObj ms). split_and!.
  - rewrite <-E. unfold MarshalJSON, Envelope_marshaler. simpl Payload. rewrite Hne. simpl. rewrite Hc.
    by destruct (seq =? 0).
  - by eapply doc_mono.
  - unfold ms. destruct Hv as (_ & -> & _). by destruct (seq =? 0).
Qed.

Lemma doc_nonempty b v j : doc b v j -> bytes_empty (Some v) = false.
Proof.
  intros (Hwf & -> & _). destruct (print_head b j Hwf) as (c & s & E & _).
  apply bool_decide_false. simpl. by rewrite E.
Qed.

(** First stage: the envelope of a marshalled message decodes to the type,
    the sequence and the payload's own encoding. *)
Lemma Marshal_envelope_doc t seq (a : A) v j : utf8 t -> is_u64 seq ->
  MarshalJSON a = Ok v -> doc (maxNestingDepth - 1) v j -> exists msg, Marshal t seq a = Ok msg /\
    Unmarshal dec_Envelope msg Envelope_zero = ({| Type_ := t; Seq := seq; Payload := Some v |}, None).
Proof.
  intros Ht Hseq E Hv. pose proof (doc_nonempty _ _ _ Hv) as Hne.
  destruct (MarshalJSON_Envelope t seq v j Hseq Hv Hne) as (msg & jm & Em & Hm & Hc).
  exists msg. unfold Marshal. rewrite E. simpl. split; [done|].
  unfold Unmarshal. rewrite (doc_parse _ _ Hm), Hc. unfold dec_Envelope. simpl dec_struct.
  destruct (Z.eqb_spec seq 0) as [->|Hs]; simpl; dec_fields; rewrite string_value_quote by done.
  - done.
  - unfold set_Envelope. by rewrite dec_uint64_format.
Qed.

Lemma Marshal_envelope t seq (a : A) :
  utf8 t -> is_u64 seq -> c_valid (maxNestingDepth - 1) a ->
  exists msg v j, Marshal t seq a = Ok msg /\ doc (maxNestingDepth - 1) v j /\
    c_dec c_zero (canon j) = (c_wire a, true) /\
    Unmarshal dec_Envelope msg Envelope_zero
      = ({| Type_ := t; Seq := seq; Payload := Some v |}, None).
Proof.
  intros Ht Hseq Ha. destruct (c_law _ _ Ha) as (v & j & E & Hv & Hdec).
  destruct (Marshal_envelope_doc t seq a v j Ht Hseq E Hv) as (msg & Em & Hu). by exists msg, v, j.
Qed.

(** Both stages: encode, decode the envelope, decode its payload. *)
Lemma Marshal_two_stage t seq (a : A) :
  utf8 t -> is_u64 seq -> c_valid (maxNestingDepth - 1) a ->
  exists msg e, Marshal t seq a = Ok msg /\
    Unmarshal dec_Envelope msg Envelope_zero = (e, None) /\ Type_ e = t /\ Seq e = seq /\
    DecodePayload c_dec e c_zero = (c_wire a, None).
Proof.
  intros Ht Hseq Ha.
  destruct (Marshal_envelope t seq a Ht Hseq Ha) as (msg & v & j & E & Hv & Hdec & Hu).
  exists msg, {| Type_ := t; Seq := seq; Payload := Some v |}. split_and!; [done..|].
  unfold DecodePayload. simpl. rewrite (doc_nonempty _ _ _ Hv).
  unfold Unmarshal. erewrite doc_parse by (eapply doc_mono; [done|unfold maxNestingDepth; lia]).
  by rewrite Hdec.
Qed.
End envelope.

Lemma enc_raw_doc b m : raw_valid b m -> exists v j,
  enc_raw m = Ok v /\ doc b v j /\ raw_wire (Some "null") m = Some v.
Proof.
  destruct m as [s|]; simpl.
  - intros (j & Hp & Hwf). exists (print (html j)), (html j). unfold compact. rewrite Hp.
    split_and!; [done|by eapply doc_raw|done].
  - intros _. exists "null", JNull. auto with wb.
Qed.

Lemma doc_raw_text b v j : doc b v j -> print j = v.
Proof. by intros (_ & -> & _). Qed.

(** A slice of values of a payload type, as a JSON array. *)
Lemma codec_slice `{Codec A} b (l : list A) old : 0 <= b -> Forall (c_valid b) l ->
  exists v j, enc_arr (map MarshalJSON l) = Ok v /\ doc (b + 1) v j /\
    dec_slice c_zero c_dec old (canon j) = (map c_wire l, true).
Proof.
  intros Hb Hl.
  assert (exists vs es, map MarshalJSON l = map Ok vs /\
    Forall2 (fun v (e : string * json) => doc b v e.2) vs es /\
    dec_elems c_zero c_dec (map (fun p => (print p.2, canon p.2)) es) = (map c_wire l, true))
    as (vs & es & Ev & Hes & Hd).
  { induction Hl as [|a l Ha _ (vs & es & Ev & Hes & Hd)]; [by exists [], []; repeat constructor|].
    destruct (c_law _ _ Ha) as (v & j & E & Hv & Hdec).
    exists (v :: vs), (("", j) :: es). simpl. rewrite E, Ev. split_and!; [done|by constructor|].
    by rewrite Hdec, Hd. }
  destruct (enc_arr_doc b vs es Hb Hes) as (v & E & Hv).
  exists v, (JArr es). rewrite Ev. split_and!; [done|done|apply Hd].
Qed.

#[export] Program Instance ShapeOp_codec : Codec ShapeOp := {|
  c_dec := dec_ShapeOp;
  c_zero := ShapeOp_zero;
  c_valid b op := 1 <= b /\ utf8 (ID op) /\ (bytes_empty (Shape op) = false -> raw_valid (b - 1) (Shape op));
  c_wire op := {| ID := ID op;
    Shape := if bytes_empty (Shape op) then None else raw_wire (Some "null") (Shape op) |};
|}.
Next Obligation.
  intros b [id shape] (Hb & Hid & Hs). simpl in *. unfold MarshalJSON, ShapeOp_marshaler. simpl.
  destruct (bytes_empty shape) eqn:He.
  - destruct (enc_obj_doc (b - 1) [("id", enc_string id)] [("id", ("", JStr (quote id)))])
      as (v & E & Hv); [lia|fields_tac; auto with wb|].
    exists v. eexists. split_and!; [done|by eapply doc_mono; [done|lia]|].
    unfold dec_ShapeOp. simpl dec_struct. dec_fields. by rewrite string_value_quote.
  - destruct (enc_raw_doc (b - 1) shape) as (vs & js & Es & Hvs & Hw); [auto|].
    destruct (enc_obj_doc (b - 1) [("id", enc_string id); ("shape", vs)]
      [("id", ("", JStr (quote id))); ("shape", ("", js))]) as (v & E & Hv); [lia|fields_tac; auto with wb|].
    exists v. eexists. rewrite Es. split_and!; [done|by eapply doc_mono; [done|lia]|].
    unfold dec_ShapeOp. simpl dec_struct. dec_fields. rewrite string_value_quote by done. simpl.
    by rewrite (doc_raw_text _ _ _ Hvs), Hw.
Qed.

(** The document of an encoded shape. *)
Lemma SnapshotShape_doc b (s : SnapshotShape) :
  1 <= b -> is_u64 (ss_Seq s) -> raw_valid (b - 1) (ss_Shape s) ->
  exists v vs js, MarshalJSON s = Ok v /\ doc (b - 1) vs js /\ raw_wire (Some "null") (ss_Shape s) = Some vs /\
    doc b v (JObj [("seq", ("", JNum (FormatUint (ss_Seq s)))); ("id", ("", JStr (quote (ss_ID s))));
      ("shape", ("", js))]).
Proof.
  destruct s as [seq id shape]. intros Hb Hseq Hs. simpl in *.
  unfold MarshalJSON, SnapshotShape_marshaler. simpl.
  destruct (enc_raw_doc (b - 1) shape) as (vs & js & Es & Hvs & Hw); [auto|].
  destruct (enc_obj_doc (b - 1) [("seq", FormatUint seq); ("id", enc_string id); ("shape", vs)]
    [("seq", ("", JNum (FormatUint seq))); ("id", ("", JStr (quote id))); ("shape", ("", js))])
    as (v & E & Hv); [lia|fields_tac; auto with wb|].
  exists v, vs, js. rewrite Es. split_and!; [done|done|done|by eapply doc_mono; [done|lia]].
Qed.

#[export] Program Instance SnapshotShape_codec : Codec SnapshotShape := {|
  c_dec := dec_SnapshotShape;
  c_zero := SnapshotShape_zero;
  c_valid b s := 1 <= b /\ is_u64 (ss_Seq s) /\ utf8 (ss_ID s) /\ raw_valid (b - 1) (ss_Shape s);
  c_wire s := {| ss_Seq := ss_Seq s; ss_ID := ss_ID s;
    ss_Shape := raw_wire (Some "null") (ss_Shape s) |};
|}.
Next Obligation.
  intros b s (Hb & Hseq & Hid & Hs). destruct (SnapshotShape_doc b s Hb Hseq Hs) as (v & vs & js & E & Hvs & Hw & Hv).
  exists v. eexists. split_and!; [done|done|]. destruct s as [seq id shape]. simpl in *.
  unfold dec_SnapshotShape. simpl dec_struct. dec_fields.
  unfold set_SnapshotShape. simpl bool_decide. cbv iota. rewrite dec_uint64_format by done. simpl.
  by rewrite string_value_quote, (doc_raw_text _ _ _ Hvs), Hw by done.
Qed.

Definition dec_Snapshot_field (v : Snapshot) (f raw : string) (j : json) : Snapshot * bool :=
  if bool_decide (f = "seq") then
    let '(z, ok) := dec_uint64 (sn_Seq v) j in ({| sn_Seq := z; sn_Shapes := sn_Shapes v |}, ok)
  else
    let '(l, ok) := dec_SnapshotShapes (sn_Shapes v) j in ({| sn_Seq := sn_Seq v; sn_Shapes := l |}, ok).

(** How a client written with the same package reads a snapshot. *)
Definition dec_Snapshot : Snapshot -> json -> Snapshot * bool :=
  dec_struct ["seq"; "shapes"] dec_Snapshot_field.

#[export] Program Instance Snapshot_codec : Codec Snapshot := {|
  c_dec := dec_Snapshot;
  c_zero := Snapshot_zero;
  c_valid b s := 2 <= b /\ is_u64 (sn_Seq s) /\ Forall (c_valid (b - 2)) (sn_Shapes s);
  c_wire s := {| sn_Seq := sn_Seq s; sn_Shapes := map c_wire (sn_Shapes s) |};
|}.
Next Obligation.
  intros b [seq shapes] (Hb & Hseq & Hs). simpl in *. unfold MarshalJSON, Snapshot_marshaler. simpl.
  destruct (codec_slice (b - 2) shapes []) as (vs & js & Es & Hvs & Hd); [lia|done|].
  replace (b - 2 + 1) with (b - 1) in Hvs by lia.
  destruct (enc_obj_doc (b - 1) [("seq", FormatUint seq); ("shapes", vs)]
    [("seq", ("", JNum (FormatUint seq))); ("shapes", ("", js))])
    as (v & E & Hv); [lia|fields_tac; auto with wb|].
  exists v. eexists. unfold MarshalJSON, SnapshotShapes_marshaler. rewrite Es.
  split_and!; [done|by eapply doc_mono; [done|lia]|].
  unfold dec_Snapshot. simpl dec_struct. dec_fields.
  unfold dec_Snapshot_field. simpl bool_decide. cbv iota. rewrite dec_uint64_format by done. simpl.
  unfold dec_SnapshotShapes. simpl in Hd. by rewrite Hd.
Qed.

Definition opt_member (k v : string) : list (string * (string * json)) :=
  if bool_decide (v = "") then [] else [(k, ("", JStr (quote v)))].

(** A presence encodes whatever its strings hold, valid UTF-8 or not. *)
Lemma Presence_doc b (p : Presence) : 1 <= b -> exists v, MarshalJSON p = Ok v /\
  doc b v (JObj ([("clientId", ("", JStr (quote (ClientID p))))]
    ++ opt_member "name" (Name p) ++ opt_member "color" (Color p))).
Proof.
  destruct p as [id name color]. intros Hb. unfold MarshalJSON, Presence_marshaler. simpl.
  set (opt := fun (k v : string) => if bool_decide (v = "") then [] else [(k, enc_string v)]).
  destruct (enc_obj_doc (b - 1) ([("clientId", enc_string id)] ++ opt "name" name ++ opt "color" color)
    ([("clientId", ("", JStr (quote id)))] ++ opt_member "name" name ++ opt_member "color" color)) as (v & E & Hv).
  { lia. }
  { unfold opt, opt_member. repeat case_bool_decide; fields_tac; auto with wb. }
  exists v. split; [|by eapply doc_mono; [done|lia]]. rewrite <-E. unfold omitempty, opt. by repeat case_bool_decide.
Qed.

#[export] Program Instance Presence_codec : Codec Presence := {|
  c_dec := dec_Presence;
  c_zero := Presence_zero;
  c_valid b p := 1 <= b /\ utf8 (ClientID p) /\ utf8 (Name p) /\ utf8 (Color p);
  c_wire p := p;
|}.
Next Obligation.
  intros b p (Hb & Hid & Hn & Hc). destruct (Presence_doc b p Hb) as (v & E & Hv).
  exists v. eexists. split_and!; [done|done|]. destruct p as [id name color]. simpl in *.
  unfold opt_member, dec_Presence. repeat case_bool_decide; subst; simpl dec_struct; dec_fields;
    rewrite ?string_value_quote by done; done.
Qed.

#[export] Program Instance Cursor_codec `{Float64Laws} : Codec Cursor := {|
  c_dec := dec_Cursor;
  c_zero := Cursor_zero;
  c_valid b c := 1 <= b /\ utf8 (cur_ClientID c);
  c_wire c := c;
|}.
Next Obligation.
  intros F FL b [id x y] (Hb & Hid). simpl in *. unfold MarshalJSON, Cursor_marshaler. simpl.
  destruct (enc_obj_doc (b - 1) [("clientId", enc_string id); ("x", FormatFloat x); ("y", FormatFloat y)]
    [("clientId", ("", JStr (quote id))); ("x", ("", JNum (FormatFloat x))); ("y", ("", JNum (FormatFloat y)))])
    as (v & E & Hv).
  { lia. }
  { fields_tac; auto with wb; (split; [constructor; apply FormatFloat_number|done]). }
  exists v. eexists. split_and!; [done|by eapply doc_mono; [done|lia]|].
  unfold dec_Cursor. simpl dec_struct. dec_fields. unfold set_Cursor. simpl.
  rewrite !ParseFloat_FormatFloat. simpl. by rewrite string_value_quote.
Qed.

Definition dec_PresenceState_field (v : PresenceState) (f raw : string) (j : json) : PresenceState * bool :=
  if bool_decide (f = "self") then
    let '(p, ok) := dec_Presence (Self v) j in ({| Self := p; Others := Others v |}, ok)
  else
    let '(l, ok) := dec_slice Presence_zero dec_Presence (Others v) j in
    ({| Self := Self v; Others := l |}, ok).

#[export] Program Instance PresenceState_codec : Codec PresenceState := {|
  c_dec := dec_struct ["self"; "others"] dec_PresenceState_field;
  c_zero := {| Self := Presence_zero; Others := [] |};
  c_valid b s := 2 <= b /\ c_valid (b - 1) (Self s) /\ Forall (c_valid (b - 2)) (Others s);
  c_wire s := s;
|}.
Next Obligation.
  intros b [self others] (Hb & Hself & Hs). simpl in Hb, Hs.
  destruct (c_law _ _ Hself) as (vp & jp & Ep & Hvp & Hdp). simpl in Ep, Hdp.
  destruct (codec_slice (b - 2) others []) as (vs & js & Es & Hvs & Hd); [lia|done|].
  replace (b - 2 + 1) with (b - 1) in Hvs by lia.
  destruct (enc_obj_doc (b - 1) [("self", vp); ("others", vs)] [("self", ("", jp)); ("others", ("", js))])
    as (v & E & Hv); [lia|fields_tac; auto with wb|].
  exists v. eexists. unfold MarshalJSON at 1, PresenceState_marshaler. simpl. rewrite Ep, Es.
  split_and!; [done|by eapply doc_mono; [done|lia]|].
  simpl dec_struct. dec_fields. unfold dec_PresenceState_field. simpl. rewrite Hdp. simpl.
  simpl in Hd. rewrite Hd. simpl. by rewrite map_id.
Qed.

(** ** What decoding guarantees

    Whatever a client sends, the parts a decoder keeps are well formed. *)

Lemma dec_struct_inv {A} names (set : A -> string -> string -> json -> A * bool) (P : A -> Prop) b s j v :
  parse s = Some j -> wf b j -> P v ->
  (forall v f raw j', P v -> parse raw = Some j' -> wf (b - 1) j' -> P (set v f raw j').1) ->
  P (dec_struct names set v j).1.
Proof.
  intros Hs Hwf Hv Hset. destruct j as [| | | | |ms]; try done. simpl.
  pose proof (parse_members _ _ Hs) as Hm.
  assert (forall m, m ∈ ms -> wf (b - 1) m.2.2) as Hw by (by inversion Hwf).
  clear Hs Hwf. assert (P (v, true).1) as H0 by done. revert H0. generalize (v, true).
  induction ms as [|m ms IH]; intros st Hst; [done|]. simpl. apply IH; [intros; apply Hm; by right|..].
  { intros; apply Hw; by right. }
  unfold dec_member. destruct (find_field _ _) as [f|]; [|done].
  pose proof (Hset st.1 f m.2.1 m.2.2 Hst ltac:(apply Hm; left) ltac:(apply Hw; left)) as H.
  by destruct (set _ _ _ _).
Qed.

Lemma dec_string_utf8 old j : utf8 old -> utf8 (dec_string old j).1.
Proof. destruct j; simpl; auto using string_value_utf8. Qed.

Lemma dec_uint64_range old j : is_u64 old -> is_u64 (dec_uint64 old j).1.
Proof.
  destruct j; simpl; try done. intros H. destruct (ParseUint lit) as [z [e|]] eqn:E; [done|].
  pose proof (ParseUint_range lit) as Hr. by rewrite E in Hr.
Qed.

Definition env_ok (e : Envelope) : Prop :=
  utf8 (Type_ e) /\ is_u64 (Seq e) /\ raw_valid (maxNestingDepth - 1) (Payload e).

Lemma env_ok_zero : env_ok Envelope_zero.
Proof. split_and!; [apply utf8_nil|done|done]. Qed.

Lemma dec_Envelope_ok s e err : Unmarshal dec_Envelope s Envelope_zero = (e, err) -> env_ok e.
Proof.
  unfold Unmarshal. destruct (parse s) as [j|] eqn:Hs; [|intros [= <- _]; apply env_ok_zero].
  assert (env_ok (dec_Envelope Envelope_zero j).1) as H.
  { apply (dec_struct_inv _ _ _ maxNestingDepth s); [done|by eapply parse_wf|apply env_ok_zero|].
    intros v f raw j' (H1 & H2 & H3) Hp Hw. unfold set_Envelope. repeat case_bool_decide.
    - pose proof (dec_string_utf8 (Type_ v) j' H1). destruct (dec_string (Type_ v) j'). by split_and!.
    - pose proof (dec_uint64_range (Seq v) j' H2). destruct (dec_uint64 (Seq v) j'). by split_and!.
    - split_and!; [done..|]. by exists j'. }
  destruct (dec_Envelope _ _). by intros [= <- _].
Qed.

(** The payload of a decoded envelope is a document: decoding it can fail on a
    type, never on syntax. *)
Lemma DecodePayload_no_syntax {A} (dec : A -> json -> A * bool) e v v' err :
  env_ok e -> DecodePayload dec e v = (v', err) -> err <> Some ErrSyntax.
Proof.
  intros (_ & _ & H). unfold DecodePayload. case_match; [by intros [= _ <-]|].
  destruct (Payload e) as [s|]; [|done]. destruct H as (j & Hs & _).
  unfold Unmarshal. change (bytes_text (Some s)) with s. rewrite Hs. destruct (dec v j) as [? []]; by intros [= _ <-].
Qed.

(** A decoded shape operation can be encoded again. *)
Lemma DecodePayload_ShapeOp e op err : env_ok e -> DecodePayload dec_ShapeOp e ShapeOp_zero = (op, err) ->
  c_valid (maxNestingDepth - 1) op.
Proof.
  intros (_ & _ & H). unfold DecodePayload.
  assert (c_valid (maxNestingDepth - 1) ShapeOp_zero) as H0 by (split_and!; [done|constructor|done]).
  case_match; [by intros [= <- _]|].
  destruct (Payload e) as [s|]; [|done]. destruct H as (j & Hs & Hw).
  unfold Unmarshal. change (bytes_text (Some s)) with s. rewrite Hs.
  assert (c_valid (maxNestingDepth - 1) (dec_ShapeOp ShapeOp_zero j).1) as Hop.
  { apply (dec_struct_inv _ _ _ (maxNestingDepth - 1) s); [done..|].
    intros v f raw j' (Hv1 & Hv2 & Hv3) Hp Hw'. unfold set_ShapeOp. case_bool_decide.
    - pose proof (dec_string_utf8 (ID v) j' Hv2). destruct (dec_string (ID v) j'). by split_and!.
    - split_and!; [done..|]. intros _. by exists j'. }
  destruct (dec_ShapeOp _ _) as [? ?]. by intros [= <- _].
Qed.

#[export] Hint Resolve dec_Envelope_ok : wb.

(** A decoded roster entry can be encoded again. *)
Lemma dec_Presence_valid j b : 1 <= b -> c_valid b (dec_Presence Presence_zero j).1.
Proof.
  intros Hb. unfold dec_Presence, dec_struct.
  assert (forall ms st, c_valid b st.1 ->
    c_valid b (fold_left (dec_member ["clientId"; "name"; "color"] set_Presence) ms st).1) as Hfold.
  { induction ms as [|[k [raw j']] ms IH]; intros [v ok] Hv; [done|]. simpl. apply IH. unfold dec_member.
    destruct (find_field _ _) as [f|]; [|done]. simpl in *. destruct Hv as (Hv0 & Hv1 & Hv2 & Hv3).
    unfold set_Presence. repeat case_bool_decide.
    - pose proof (dec_string_utf8 (ClientID v) j' Hv1). destruct (dec_string _ _). by split_and!.
    - pose proof (dec_string_utf8 (Name v) j' Hv2). destruct (dec_string _ _). by split_and!.
    - pose proof (dec_string_utf8 (Color v) j' Hv3). destruct (dec_string _ _). by split_and!. }
  assert (c_valid b Presence_zero) as H0 by (split_and!; [done|constructor..]).
  destruct j; try exact H0. by apply (Hfold members (Presence_zero, true)).
Qed.

(** The envelope around any document that leaves it a level of nesting. *)
Lemma Marshal_doc {A} `{Marshaler A} t seq (a : A) v j : is_u64 seq ->
  MarshalJSON a = Ok v -> doc (maxNestingDepth - 1) v j -> exists msg, Marshal t seq a = Ok msg.
Proof.
  intros Hseq E Hd. destruct (MarshalJSON_Envelope t seq v j Hseq Hd (doc_nonempty _ _ _ Hd)) as (msg & jm & Em & _).
  exists msg. unfold Marshal. by rewrite E.
Qed.

(** A decoded shape identifier is valid UTF-8, whatever the client sent. *)
Lemma dec_ShapeOp_utf8 j op ok : dec_ShapeOp ShapeOp_zero j = (op, ok) -> utf8 (ID op).
Proof.
  unfold dec_ShapeOp, dec_struct.
  assert (forall ms st, utf8 (ID st.1) ->
    utf8 (ID (fold_left (dec_member ["id"; "shape"] set_ShapeOp) ms st).1)) as Hfold.
  { induction ms as [|[k [raw j']] ms IH]; intros [v b] Hv; [done|]. simpl. apply IH. unfold dec_member.
    destruct (find_field _ _) as [f|]; [|done]. simpl in *. unfold set_ShapeOp.
    case_bool_decide; [|done]. destruct j'; simpl; auto using string_value_utf8. }
  destruct j; intros E; try (injection E as <- <-; constructor).
  specialize (Hfold members (ShapeOp_zero, true)). rewrite E in Hfold. apply Hfold. constructor.
Qed.
