(* ===== verification/Broker.v ===== *)
(** The broker contract (internal/broker/broker.go): an abstract board that
    every implementation presents, the last-write-wins semantics of its
    operations, and the interface, as a class of operations with laws, against
    which the hub's code is verified. *)

From S2P Require Import Prelude Strconv Utf8 Json JsonFacts Protocol.
Local Open Scope Z_scope.

(** ** The abstract board *)

Record entry := Entry { e_seq : Z; e_blob : string }.

Record view := View {
  v_seq : Z;
  v_shapes : gmap string entry;
  v_presence : gmap string string;
}.

Definition view_empty : view := View 0 ∅ ∅.

(** Sequence assignment and overwrite, in one step. *)
Definition spec_apply (id blob : string) (del : bool) (v : view) : view :=
  let seq := v_seq v + 1 in
  View seq (if del then delete id (v_shapes v) else <[id := Entry seq blob]> (v_shapes v))
    (v_presence v).

Definition spec_set_presence (cid p : string) (v : view) : view :=
  View (v_seq v) (v_shapes v) (<[cid := p]> (v_presence v)).

Definition spec_remove_presence (cid : string) (v : view) : view :=
  View (v_seq v) (v_shapes v) (delete cid (v_presence v)).

Definition shape_entry (s : SnapshotShape) : string * entry :=
  (ss_ID s, Entry (ss_Seq s) (bytes_text (ss_Shape s))).

(** Loading a snapshot, later shapes of the list overwriting earlier ones. *)
Definition spec_load (snap : Snapshot) (v : view) : view :=
  View (sn_Seq snap)
    (fold_left (fun m s => <[ss_ID s := (shape_entry s).2]> m) (sn_Shapes snap) (v_shapes v))
    (v_presence v).

(** A snapshot of a view: its sequence and exactly its shapes, by sequence. *)
Definition is_snapshot (v : view) (snap : Snapshot) : Prop :=
  sn_Seq snap = v_seq v /\
  sorted_by Z.le ss_Seq (sn_Shapes snap) /\
  map shape_entry (sn_Shapes snap) ≡ₚ map_to_list (v_shapes v).

(** Every stored sequence was assigned on this board, and to one shape only. *)
Record view_ok (v : view) : Prop := {
  vo_range : forall id e, v_shapes v !! id = Some e -> 0 < e_seq e <= v_seq v;
  vo_inj : forall id1 id2 e1 e2, v_shapes v !! id1 = Some e1 -> v_shapes v !! id2 = Some e2 ->
    e_seq e1 = e_seq e2 -> id1 = id2;
  vo_seq : 0 <= v_seq v;
}.

(** Decoding a roster entry, [None] for one that is skipped. *)
Definition decode_presence (raw : string) : option Presence :=
  match Unmarshal dec_Presence raw Presence_zero with (p, None) => Some p | _ => None end.

Definition is_roster (v : view) (out : list Presence) : Prop :=
  sorted_by String.le ClientID out /\
  out ≡ₚ omap (fun kv => decode_presence kv.2) (map_to_list (v_presence v)).

(** ** Last-write-wins *)

Record op := Op { o_id : string; o_blob : string; o_del : bool }.

Definition spec_op (v : view) (o : op) : view := spec_apply (o_id o) (o_blob o) (o_del o) v.

Definition replay (ops : list op) : view := fold_left spec_op ops view_empty.

Lemma replay_snoc ops o : replay (ops ++ [o]) = spec_op (replay ops) o.
Proof. unfold replay. by rewrite fold_left_app. Qed.

Lemma replay_seq ops : v_seq (replay ops) = Z.of_nat (length ops).
Proof.
  induction ops as [|o ops IH] using rev_ind; [done|].
  rewrite replay_snoc, length_app. simpl. lia.
Qed.

(** Position [i] of [ops] holds the last operation on [id]. *)
Definition last_on (ops : list op) (id : string) (i : nat) (o : op) : Prop :=
  ops !! i = Some o /\ o_id o = id /\
  forall j o', (i < j)%nat -> ops !! j = Some o' -> o_id o' <> id.

Lemma last_on_snoc_ne ops o id i o' : o_id o <> id ->
  last_on (ops ++ [o]) id i o' <-> last_on ops id i o'.
Proof.
  intros Hne. unfold last_on. split; intros (Hi & Hid & Hlast).
  - apply lookup_app_Some in Hi as [Hi|[_ Hi]].
    + split_and!; [done|done|]. intros j o2 Hj Ho2. eapply Hlast; [done|]. by apply lookup_app_l_Some.
    + apply list_lookup_singleton_Some in Hi as [_ <-]. done.
  - split_and!; [by apply lookup_app_l_Some|done|]. intros j o2 Hj Ho2.
    apply lookup_app_Some in Ho2 as [Ho2|[_ Ho2]]; [by eapply Hlast|].
    apply list_lookup_singleton_Some in Ho2 as [_ <-]. done.
Qed.

Lemma last_on_snoc_eq ops o i o' :
  last_on (ops ++ [o]) (o_id o) i o' <-> i = length ops /\ o' = o.
Proof.
  unfold last_on. split.
  - intros (Hi & Hid & Hlast). destruct (decide (i = length ops)) as [->|Hne].
    + rewrite list_lookup_middle in Hi by done. by simplify_eq.
    + apply lookup_app_Some in Hi as [Hi|[? Hi]].
      * exfalso. apply (Hlast (length ops) o); [by apply lookup_lt_Some in Hi|by apply list_lookup_middle|done].
      * apply list_lookup_singleton_Some in Hi. lia.
  - intros [-> ->]. split_and!; [by apply list_lookup_middle|done|].
    intros j o' Hj Ho'%lookup_lt_Some. rewrite length_app in Ho'. simpl in Ho'. lia.
Qed.

(** The board after a log of operations: a shape is stored exactly when the
    last operation on its identifier was not a delete, under the sequence that
    operation was given. *)
Lemma replay_lww ops id e :
  v_shapes (replay ops) !! id = Some e <->
  exists i o, last_on ops id i o /\ o_del o = false /\ e = Entry (Z.of_nat i + 1) (o_blob o).
Proof.
  induction ops as [|o ops IH] using rev_ind.
  { simpl. rewrite lookup_empty. split; [done|]. intros (i & o & (Hi & _) & _). done. }
  rewrite replay_snoc. unfold spec_op, spec_apply. simpl. rewrite replay_seq.
  destruct (decide (o_id o = id)) as [<-|Hne].
  - setoid_rewrite last_on_snoc_eq. destruct (o_del o) eqn:Hd.
    + rewrite lookup_delete_eq. split; [done|]. intros (i & o' & [-> ->] & Hd' & _). congruence.
    + rewrite lookup_insert_eq. split.
      * intros [= <-]. by exists (length ops), o.
      * intros (i & o' & [-> ->] & _ & ->). done.
  - setoid_rewrite (last_on_snoc_ne ops o id _ _ Hne).
    destruct (o_del o); [rewrite lookup_delete_ne by done|rewrite lookup_insert_ne by done]; apply IH.
Qed.

(** ** The view invariant *)

Lemma view_ok_empty : view_ok view_empty.
Proof. split; simpl; [intros ??|intros ????|done]; by rewrite lookup_empty. Qed.

Lemma view_ok_apply id blob del v : view_ok v -> view_ok (spec_apply id blob del v).
Proof.
  intros [Hr Hi H0]. unfold spec_apply. split; simpl.
  - intros id' e. destruct del.
    + intros [_ He]%lookup_delete_Some. apply Hr in He. lia.
    + intros [[<- <-]|[_ He]]%lookup_insert_Some; [simpl; lia|]. apply Hr in He. lia.
  - intros id1 id2 e1 e2. destruct del.
    + intros [_ He1]%lookup_delete_Some [_ He2]%lookup_delete_Some. by eapply Hi.
    + intros [[<- <-]|[_ He1]]%lookup_insert_Some [[<- <-]|[_ He2]]%lookup_insert_Some; [done|..].
      * apply Hr in He2. simpl. lia.
      * apply Hr in He1. simpl. lia.
      * by eapply Hi.
  - lia.
Qed.

Lemma view_ok_replay ops : view_ok (replay ops).
Proof.
  induction ops as [|o ops IH] using rev_ind; [apply view_ok_empty|].
  rewrite replay_snoc. by apply view_ok_apply.
Qed.

#[export] Hint Resolve view_ok_empty view_ok_apply view_ok_replay : wb.

(** ** Snapshots *)

(** The snapshots a broker hands out: distinct shapes with distinct sequences
    no later than the board's. *)
Record snap_ok (snap : Snapshot) : Prop := {
  so_ids : NoDup (map ss_ID (sn_Shapes snap));
  so_seqs : NoDup (map ss_Seq (sn_Shapes snap));
  so_range : forall s, s ∈ sn_Shapes snap -> 0 < ss_Seq s <= sn_Seq snap;
  so_seq : 0 <= sn_Seq snap;
}.

Lemma is_snapshot_elem v snap s : is_snapshot v snap -> s ∈ sn_Shapes snap ->
  v_shapes v !! ss_ID s = Some (shape_entry s).2.
Proof.
  intros (_ & _ & Hp) Hs. apply elem_of_map_to_list. rewrite <-Hp.
  change (shape_entry s ∈ map shape_entry (sn_Shapes snap)). by apply list_elem_of_fmap_2.
Qed.

Lemma is_snapshot_ids v snap : is_snapshot v snap -> NoDup (map ss_ID (sn_Shapes snap)).
Proof.
  intros (_ & _ & Hp). pose proof (NoDup_fst_map_to_list (v_shapes v)) as Hn.
  rewrite <-Hp in Hn. by rewrite map_map in Hn.
Qed.

Lemma NoDup_map_inj {A B} (f : A -> B) (l : list A) :
  NoDup l -> (forall x y, x ∈ l -> y ∈ l -> f x = f y -> x = y) -> NoDup (map f l).
Proof.
  induction 1 as [|x l Hx _ IH]; intros Hinj; simpl; [constructor|]. constructor.
  - intros (y & E & Hy)%list_elem_of_fmap. apply Hx. rewrite (Hinj x y); [done|left|by right|done].
  - apply IH. intros y z Hy Hz. apply Hinj; by right.
Qed.

Lemma NoDup_map_elem {A B} (f : A -> B) (l : list A) x y :
  NoDup (map f l) -> x ∈ l -> y ∈ l -> f x = f y -> x = y.
Proof.
  intros Hn [i Hi]%list_elem_of_lookup [j Hj]%list_elem_of_lookup E.
  assert (i = j) as ->; [|congruence].
  eapply NoDup_lookup; [done|rewrite list_lookup_fmap, Hi; done|]. rewrite list_lookup_fmap, Hj. simpl. by rewrite E.
Qed.

Lemma is_snapshot_ok v snap : view_ok v -> is_snapshot v snap -> snap_ok snap.
Proof.
  intros [Hr Hi H0] Hs. pose proof (is_snapshot_ids _ _ Hs) as Hids. pose proof Hs as (E & _ & _).
  split; [done|..|lia].
  - apply NoDup_map_inj; [by eapply NoDup_fmap_1|]. intros x y Hx Hy Exy.
    pose proof (is_snapshot_elem _ _ _ Hs Hx) as Ex. pose proof (is_snapshot_elem _ _ _ Hs Hy) as Ey.
    eapply (NoDup_map_elem ss_ID); [done..|]. by eapply Hi.
  - intros s Hx. rewrite E. by apply (Hr _ _ (is_snapshot_elem _ _ _ Hs Hx)).
Qed.

Lemma load_lookup snap p id e : NoDup (map ss_ID (sn_Shapes snap)) ->
  v_shapes (spec_load snap (View 0 ∅ p)) !! id = Some e <-> (id, e) ∈ map shape_entry (sn_Shapes snap).
Proof.
  intros H. simpl. rewrite (fold_insert_lookup ss_ID (fun s => (shape_entry s).2)) by done. rewrite lookup_empty.
  rewrite (list_elem_of_fmap shape_entry). split.
  - intros [(s & Hs & <- & <-)|[_ ?]]; [by exists s|done].
  - intros (s & E & Hs). injection E as -> ->. left. by exists s.
Qed.

Lemma load_ok snap p : snap_ok snap -> view_ok (spec_load snap (View 0 ∅ p)).
Proof.
  intros [Hids Hseqs Hr H0]. split; [..|done].
  - intros id e (s & [= -> ->] & Hs)%load_lookup%list_elem_of_fmap; [|done]. by apply Hr.
  - intros id1 id2 e1 e2 (s1 & [= -> ->] & H1)%load_lookup%list_elem_of_fmap; [|done].
    intros (s2 & [= -> ->] & H2)%load_lookup%list_elem_of_fmap E; [|done].
    by rewrite (NoDup_map_elem ss_Seq (sn_Shapes snap) s1 s2).
Qed.

(** Loading a snapshot of a board into an empty one gives that board back. *)
Lemma load_snapshot v snap p : is_snapshot v snap ->
  spec_load snap (View 0 ∅ p) = View (v_seq v) (v_shapes v) p.
Proof.
  intros Hs. pose proof (is_snapshot_ids _ _ Hs) as Hn. destruct Hs as (E & _ & Hp).
  unfold spec_load. simpl. rewrite E. f_equal. apply map_eq. intros id. apply option_eq. intros e.
  etrans; [apply (load_lookup snap p id e Hn)|]. rewrite Hp. apply elem_of_map_to_list.
Qed.

(** And a sorted, well-formed snapshot is the snapshot of the board it loads. *)
Lemma snapshot_load snap p : snap_ok snap -> sorted_by Z.le ss_Seq (sn_Shapes snap) ->
  is_snapshot (spec_load snap (View 0 ∅ p)) snap.
Proof.
  intros [Hids _ _ _] Hsort. split; [done|]. split; [done|].
  apply NoDup_Permutation.
  - apply (NoDup_fmap_1 fst). change (NoDup (map fst (map shape_entry (sn_Shapes snap)))).
    by rewrite map_map.
  - apply NoDup_map_to_list.
  - intros [id e]. rewrite elem_of_map_to_list. symmetry. by apply load_lookup.
Qed.

(** A board has one snapshot, up to the nil-ness of empty blobs. *)
Lemma is_snapshot_unique v s1 s2 : view_ok v -> is_snapshot v s1 -> is_snapshot v s2 ->
  sn_Seq s1 = sn_Seq s2 /\ map shape_entry (sn_Shapes s1) = map shape_entry (sn_Shapes s2).
Proof.
  intros Hv H1 H2. pose proof (is_snapshot_ok _ _ Hv H1) as Hok.
  destruct H1 as (E1 & Hs1 & Hp1), H2 as (E2 & Hs2 & Hp2). split; [congruence|].
  assert (forall l, sorted_by Z.le ss_Seq l ->
    sorted_by Z.le (fun p : string * entry => e_seq p.2) (map shape_entry l)) as Hmap.
  { intros l Hl. apply (StronglySorted_fmap shape_entry (by_key Z.le ss_Seq)); [by intros x y|done]. }
  apply (sorted_by_unique Z.le (fun p : string * entry => e_seq p.2)); auto.
  - intros x y (s & -> & Hs)%list_elem_of_fmap (t & -> & Ht)%list_elem_of_fmap E.
    by rewrite (NoDup_map_elem ss_Seq (sn_Shapes s1) s t) by (done || apply Hok).
  - by rewrite Hp1, Hp2.
Qed.

(** ** The interface

    A call to a broker may be carried out and answered, be lost before it took
    effect, or take effect and lose its answer; the in-process broker always
    does the first. *)

Inductive fault := Delivered | RequestLost | ReplyLost.

Class Broker (B : Type) := {
  br_ApplyShape : fault -> string -> string -> bytes -> bool -> B -> B * result Z;
  br_Publish : fault -> string -> string -> B -> B * result unit;
  br_Snapshot : fault -> string -> B -> B * result Snapshot;
  br_Hydrate : fault -> string -> Snapshot -> B -> B * result bool;
  br_SetPresence : fault -> string -> string -> string -> B -> B * result unit;
  br_RemovePresence : fault -> string -> string -> B -> B * result unit;
  br_Presence : fault -> string -> B -> B * result (list Presence);
}.

(** What a call that changes a board from [before] to [after] and answers [a]
    can do under fault [f]. *)
Definition outcome {A} (f : fault) (a : A) (before after now : view) (r : result A) : Prop :=
  (r = Ok a /\ now = after) \/
  (f <> Delivered /\ (exists e, r = Err e) /\ (now = before \/ now = after)).

Lemma outcome_delivered {A} (a : A) before after now r :
  outcome Delivered a before after now r -> r = Ok a /\ now = after.
Proof. by intros [?|[? _]]. Qed.

Lemma outcome_ok {A} f (a a' : A) before after now :
  outcome f a before after now (Ok a') -> a' = a /\ now = after.
Proof. intros [[? ?]|(_ & [e ?] & _)]; by simplify_eq. Qed.

(** A call that changes nothing. *)
Definition reads {A} (f : fault) (ok : A -> Prop) (r : result A) : Prop :=
  match r with Ok a => ok a | Err _ => f <> Delivered end.

Class BrokerLaws (B : Type) `{Broker B} := {
  (** the invariant of the representation, and the board it presents *)
  br_inv : B -> Prop;
  br_view : B -> string -> view;
  (** a board no instance has touched: cold start may load it *)
  br_fresh : B -> string -> bool;
  (** the number of operations a board can take *)
  br_limit : Z;

  br_view_ok : forall b id, br_inv b -> view_ok (br_view b id);
  br_limit_u64 : 0 < br_limit < two64;
  br_fresh_view : forall b id, br_inv b -> br_fresh b id = true ->
    v_seq (br_view b id) = 0 /\ v_shapes (br_view b id) = ∅;
  br_fresh_seq : forall b id, br_inv b -> 0 < v_seq (br_view b id) -> br_fresh b id = false;

  ApplyShape_law : forall f bid id shape del b,
    br_inv b -> v_seq (br_view b bid) < br_limit ->
    let '(b', r) := br_ApplyShape f bid id shape del b in
    let v := br_view b bid in
    br_inv b' /\
    outcome f (v_seq v + 1) v (spec_apply id (bytes_text shape) del v) (br_view b' bid) r /\
    forall o, o <> bid -> br_view b' o = br_view b o /\ br_fresh b' o = br_fresh b o;

  Publish_law : forall f bid msg b, br_inv b ->
    let '(b', r) := br_Publish f bid msg b in
    br_inv b' /\ (forall o, br_view b' o = br_view b o /\ br_fresh b' o = br_fresh b o) /\
    reads f (fun _ => True) r;

  Snapshot_law : forall f bid b, br_inv b ->
    let '(b', r) := br_Snapshot f bid b in
    br_inv b' /\ (forall o, br_view b' o = br_view b o /\ br_fresh b' o = br_fresh b o) /\
    reads f (fun snap => is_snapshot (br_view b bid) snap) r;

  Hydrate_law : forall f bid snap b, br_inv b -> snap_ok snap -> sn_Seq snap <= br_limit ->
    let '(b', r) := br_Hydrate f bid snap b in
    let v := br_view b bid in
    br_inv b' /\
    outcome f (br_fresh b bid) v (if br_fresh b bid then spec_load snap v else v) (br_view b' bid) r /\
    forall o, o <> bid -> br_view b' o = br_view b o /\ br_fresh b' o = br_fresh b o;

  (** and on a board that is not fresh it makes it no fresher *)
  Hydrate_used_law : forall f bid snap b, br_inv b -> br_fresh b bid = false ->
    br_fresh (br_Hydrate f bid snap b).1 bid = false;

  SetPresence_law : forall f bid cid p b, br_inv b ->
    let '(b', r) := br_SetPresence f bid cid p b in
    let v := br_view b bid in
    br_inv b' /\ outcome f tt v (spec_set_presence cid p v) (br_view b' bid) r /\
    (forall o, br_fresh b' o = br_fresh b o) /\
    forall o, o <> bid -> br_view b' o = br_view b o;

  RemovePresence_law : forall f bid cid b, br_inv b ->
    let '(b', r) := br_RemovePresence f bid cid b in
    let v := br_view b bid in
    br_inv b' /\ outcome f tt v (spec_remove_presence cid v) (br_view b' bid) r /\
    (forall o, br_fresh b' o = br_fresh b o) /\
    forall o, o <> bid -> br_view b' o = br_view b o;

  Presence_law : forall f bid b, br_inv b ->
    let '(b', r) := br_Presence f bid b in
    br_inv b' /\ (forall o, br_view b' o = br_view b o /\ br_fresh b' o = br_fresh b o) /\
    reads f (fun out => is_roster (br_view b bid) out) r;
}.
