(* ===== verification/MemoryBroker.v ===== *)
(** The in-process broker (internal/broker/memory.go): its maps behind one
    lock, and its buffered subscriber channels.  Operations that hold the lock
    are single steps; [Publish] copies the subscriber set under the lock and
    then delivers to each channel outside it, one step per channel. *)

From S2P Require Import Prelude Strconv Utf8 Json JsonFacts Protocol Broker.
Local Open Scope Z_scope.

(** ** State *)

Record memShape := { ms_seq : Z; ms_shape : bytes }.

(** A [*memSub] is an address; its channel lives in the heap [m_chans] below. *)
Record memBoard := {
  mb_seq : Z;
  mb_shapes : gmap string memShape;
  mb_presence : gmap string bytes;
  mb_subs : gset nat;
}.

(** The broker and the heap of subscriber channels, each the list of its
    buffered messages, oldest first.  [m_next] is the next unused address. *)
Record Memory := {
  m_boards : gmap string memBoard;
  m_chans : gmap nat (list string);
  m_next : nat;
}.

Definition NewMemory : Memory := {| m_boards := ∅; m_chans := ∅; m_next := 0 |}.

(** The capacity of a subscriber channel. *)
Definition sub_buffer : nat := 256.

Definition memBoard_new : memBoard :=
  {| mb_seq := 0; mb_shapes := ∅; mb_presence := ∅; mb_subs := ∅ |}.

Definition set_boards (m : Memory) (bs : gmap string memBoard) : Memory :=
  {| m_boards := bs; m_chans := m_chans m; m_next := m_next m |}.
Definition set_chans (m : Memory) (cs : gmap nat (list string)) : Memory :=
  {| m_boards := m_boards m; m_chans := cs; m_next := m_next m |}.

(** [m.board(id)]: the board, created on first use. *)
Definition board (id : string) (m : Memory) : Memory * memBoard :=
  match m_boards m !! id with
  | Some b => (m, b)
  | None => (set_boards m (<[id := memBoard_new]> (m_boards m)), memBoard_new)
  end.

(** A store through the [*memBoard] that [board] returned. *)
Definition store_board (id : string) (b : memBoard) (m : Memory) : Memory :=
  set_boards m (<[id := b]> (m_boards m)).

(** ** Operations *)

Definition ApplyShape (bid shapeID : string) (shape : bytes) (del : bool) (m : Memory)
    : Memory * result Z :=
  let '(m, b) := board bid m in
  let seq := u64_inc (mb_seq b) in
  let shapes :=
    if del then delete shapeID (mb_shapes b)
    else <[shapeID := {| ms_seq := seq; ms_shape := bytes_copy shape |}]> (mb_shapes b) in
  (store_board bid {| mb_seq := seq; mb_shapes := shapes;
     mb_presence := mb_presence b; mb_subs := mb_subs b |} m, Ok seq).

(** The part of [Publish] under the lock: the subscribers at that moment. *)
Definition publish_targets (bid : string) (m : Memory) : Memory * list nat :=
  let '(m, b) := board bid m in (m, elements (mb_subs b)).

(** One turn of its loop: a non-blocking send, dropped when the buffer is full. *)
Definition publish_one (msg : string) (m : Memory) (s : nat) : Memory :=
  match m_chans m !! s with
  | Some q => if decide (length q < sub_buffer)%nat
              then set_chans m (<[s := q ++ [msg]]> (m_chans m)) else m
  | None => m
  end.

Definition Publish (bid msg : string) (m : Memory) : Memory * result unit :=
  let '(m, subs) := publish_targets bid m in (fold_left (publish_one msg) subs m, Ok tt).

(** Registers a new channel; the goroutine it starts later runs [unsubscribe]. *)
Definition Subscribe (bid : string) (m : Memory) : Memory * result nat :=
  let sub := m_next m in
  let m := {| m_boards := m_boards m; m_chans := <[sub := []]> (m_chans m); m_next := S sub |} in
  let '(m, b) := board bid m in
  (store_board bid {| mb_seq := mb_seq b; mb_shapes := mb_shapes b;
     mb_presence := mb_presence b; mb_subs := {[sub]} ∪ mb_subs b |} m, Ok sub).

(** What that goroutine does once its context is done. *)
Definition unsubscribe (bid : string) (sub : nat) (m : Memory) : Memory :=
  match m_boards m !! bid with
  | Some b => store_board bid {| mb_seq := mb_seq b; mb_shapes := mb_shapes b;
      mb_presence := mb_presence b; mb_subs := mb_subs b ∖ {[sub]} |} m
  | None => m
  end.

(** A receive from a subscriber's channel, [None] when it would block. *)
Definition receive (sub : nat) (m : Memory) : option (string * Memory) :=
  match m_chans m !! sub with
  | Some (msg :: q) => Some (msg, set_chans m (<[sub := q]> (m_chans m)))
  | _ => None
  end.

Definition snapshot_shape (kv : string * memShape) : SnapshotShape :=
  {| ss_Seq := ms_seq kv.2; ss_ID := kv.1; ss_Shape := bytes_copy (ms_shape kv.2) |}.

Definition Snapshot (bid : string) (m : Memory) : Memory * result Protocol.Snapshot :=
  let '(m, b) := board bid m in
  let shapes := map snapshot_shape (map_to_list (mb_shapes b)) in
  (m, Ok {| sn_Seq := mb_seq b; sn_Shapes := sort_by Z.le ss_Seq shapes |}).

Definition hydrate_shape (shapes : gmap string memShape) (s : SnapshotShape) : gmap string memShape :=
  <[ss_ID s := {| ms_seq := ss_Seq s; ms_shape := bytes_copy (ss_Shape s) |}]> shapes.

Definition Hydrate (bid : string) (snap : Protocol.Snapshot) (m : Memory) : Memory * result bool :=
  let '(m, b) := board bid m in
  if negb (mb_seq b =? 0) || (0 <? Z.of_nat (size (mb_shapes b))) then (m, Ok false)
  else
    (store_board bid {| mb_seq := sn_Seq snap;
       mb_shapes := fold_left hydrate_shape (sn_Shapes snap) (mb_shapes b);
       mb_presence := mb_presence b; mb_subs := mb_subs b |} m, Ok true).

Definition set_presence_map (bid : string) (f : gmap string bytes -> gmap string bytes) (m : Memory) : Memory :=
  let '(m, b) := board bid m in
  store_board bid {| mb_seq := mb_seq b; mb_shapes := mb_shapes b;
    mb_presence := f (mb_presence b); mb_subs := mb_subs b |} m.

Definition SetPresence (bid clientID : string) (presence : bytes) (m : Memory) : Memory * result unit :=
  (set_presence_map bid (fun p => <[clientID := bytes_copy presence]> p) m, Ok tt).

Definition RemovePresence (bid clientID : string) (m : Memory) : Memory * result unit :=
  (set_presence_map bid (fun p => delete clientID p) m, Ok tt).

Definition Presence (bid : string) (m : Memory) : Memory * result (list Protocol.Presence) :=
  let '(m, b) := board bid m in
  let out := omap (fun kv => decode_presence (bytes_text kv.2)) (map_to_list (mb_presence b)) in
  (m, Ok (sort_by String.le ClientID out)).

Definition Close (m : Memory) : Memory * result unit := (m, Ok tt).

(** ** The board it presents *)

Definition board_view (b : memBoard) : view :=
  View (mb_seq b) ((fun s => Entry (ms_seq s) (bytes_text (ms_shape s))) <$> mb_shapes b)
    (bytes_text <$> mb_presence b).

Definition mem_view (m : Memory) (id : string) : view :=
  match m_boards m !! id with Some b => board_view b | None => view_empty end.

Definition mem_fresh (m : Memory) (id : string) : bool :=
  (v_seq (mem_view m id) =? 0) && bool_decide (v_shapes (mem_view m id) = ∅).

(** Every board is well formed, and every channel bounded and subscribed to
    at most one board. *)
Record mem_inv (m : Memory) : Prop := {
  mi_view : forall id, view_ok (mem_view m id);
  mi_seq : forall id, v_seq (mem_view m id) < two64;
  mi_chan : forall s q, m_chans m !! s = Some q -> (length q <= sub_buffer)%nat /\ (s < m_next m)%nat;
  mi_subs : forall id b s, m_boards m !! id = Some b -> s ∈ mb_subs b -> is_Some (m_chans m !! s);
  mi_excl : forall id1 id2 b1 b2 s, m_boards m !! id1 = Some b1 -> m_boards m !! id2 = Some b2 ->
    s ∈ mb_subs b1 -> s ∈ mb_subs b2 -> id1 = id2;
}.

Lemma bytes_text_copy b : bytes_text (bytes_copy b) = bytes_text b.
Proof. unfold bytes_copy, bytes_empty. by case_bool_decide as E; [rewrite E|]. Qed.

Lemma board_new_view : board_view memBoard_new = view_empty.
Proof. unfold board_view. simpl. by rewrite !fmap_empty. Qed.

(** Writing a board changes that board's view and nothing else. *)
Lemma store_board_view bid b m o :
  mem_view (store_board bid b m) o = if decide (bid = o) then board_view b else mem_view m o.
Proof.
  unfold mem_view, store_board. simpl. rewrite lookup_insert. by case_decide.
Qed.

Lemma store_board_inv bid b m : mem_inv m ->
  view_ok (board_view b) -> mb_seq b < two64 ->
  (forall s, s ∈ mb_subs b -> is_Some (m_chans m !! s)) ->
  (forall o b' s, o <> bid -> m_boards m !! o = Some b' -> s ∈ mb_subs b -> s ∉ mb_subs b') ->
  mem_inv (store_board bid b m).
Proof.
  intros Hm Hv Hs Hsubs Hexcl. split.
  - intros o. rewrite store_board_view. case_decide; [done|apply Hm].
  - intros o. rewrite store_board_view. case_decide; [done|apply Hm].
  - apply (mi_chan m Hm).
  - simpl. intros o b' s. rewrite lookup_insert. case_decide; [by intros [= <-]; apply Hsubs|apply (mi_subs m Hm)].
  - simpl. intros o1 o2 b1 b2 s. rewrite !lookup_insert.
    repeat case_decide; intros H1 H2 Hin1 Hin2; simplify_eq; try done.
    + by destruct (Hexcl o2 b2 s).
    + by destruct (Hexcl o1 b1 s).
    + by eapply (mi_excl m Hm).
Qed.

(** [board] returns the board's state; it may create it, which no view shows. *)
Lemma board_spec bid m m1 b : mem_inv m -> board bid m = (m1, b) ->
  mem_inv m1 /\ m_boards m1 !! bid = Some b /\ board_view b = mem_view m bid /\
  m_chans m1 = m_chans m /\ m_next m1 = m_next m /\
  (forall o, mem_view m1 o = mem_view m o) /\
  (forall o, o <> bid -> m_boards m1 !! o = m_boards m !! o) /\
  (m_boards m !! bid = Some b \/ m_boards m !! bid = None /\ b = memBoard_new).
Proof.
  unfold board. intros Hm. destruct (m_boards m !! bid) as [b'|] eqn:E; intros [= <- <-].
  - unfold mem_view. rewrite E. split_and!; auto.
  - assert (forall o, mem_view (store_board bid memBoard_new m) o = mem_view m o) as Hview.
    { intros o. rewrite store_board_view. case_decide; [|done]. subst. unfold mem_view.
      by rewrite E, board_new_view. }
    split_and!; [|apply lookup_insert_eq| |done|done|apply Hview| |by right].
    + apply store_board_inv; [done|rewrite board_new_view; auto with wb|done|set_solver..].
    + unfold mem_view. by rewrite E, board_new_view.
    + intros o Ho. by apply lookup_insert_ne.
Qed.

(** A handler that gets the board, and stores one with the same subscribers. *)
Lemma update_spec bid m m1 b b' : mem_inv m -> board bid m = (m1, b) ->
  view_ok (board_view b') -> mb_seq b' < two64 -> mb_subs b' = mb_subs b ->
  mem_inv (store_board bid b' m1) /\ mem_view (store_board bid b' m1) bid = board_view b' /\
  forall o, o <> bid -> mem_view (store_board bid b' m1) o = mem_view m o.
Proof.
  intros Hm Hb Hv Hs Hsubs. destruct (board_spec _ _ _ _ Hm Hb) as (Hm1 & Hl & _ & _ & _ & Hview & _ & _).
  split_and!.
  - apply store_board_inv; [done..|rewrite Hsubs|].
    + intros s Hin. by eapply (mi_subs m1 Hm1).
    + intros o b2 s Ho Hb2 Hin Hin2. rewrite Hsubs in Hin. apply Ho. by eapply (mi_excl m1 Hm1).
  - rewrite store_board_view. by case_decide.
  - intros o Ho. rewrite store_board_view, Hview. by case_decide.
Qed.

Lemma mem_fresh_view m m' o : mem_view m' o = mem_view m o -> mem_fresh m' o = mem_fresh m o.
Proof. intros H. unfold mem_fresh. by rewrite H. Qed.

Lemma mem_inv_new : mem_inv NewMemory.
Proof.
  split; simpl.
  - intros id. unfold mem_view. simpl. rewrite lookup_empty. auto with wb.
  - intros id. unfold mem_view. simpl. by rewrite lookup_empty.
  - intros s q. by rewrite lookup_empty.
  - intros id b s. by rewrite lookup_empty.
  - intros id1 id2 b1 b2 s. by rewrite lookup_empty.
Qed.

#[export] Instance Memory_broker : Broker Memory := {|
  br_ApplyShape _ := ApplyShape;
  br_Publish _ := Publish;
  br_Snapshot _ := Snapshot;
  br_Hydrate _ := Hydrate;
  br_SetPresence _ bid cid p := SetPresence bid cid (Some p);
  br_RemovePresence _ := RemovePresence;
  br_Presence _ := Presence;
|}.

(** ** The laws, operation by operation *)

Definition mem_limit : Z := two64 - 1.

Lemma ApplyShape_mem bid id shape del m : mem_inv m -> v_seq (mem_view m bid) < mem_limit ->
  let '(m', r) := ApplyShape bid id shape del m in
  mem_inv m' /\ r = Ok (v_seq (mem_view m bid) + 1) /\
  mem_view m' bid = spec_apply id (bytes_text shape) del (mem_view m bid) /\
  forall o, o <> bid -> mem_view m' o = mem_view m o.
Proof.
  intros Hm Hlim. unfold ApplyShape. destruct (board bid m) as [m1 b] eqn:Hb.
  destruct (board_spec _ _ _ _ Hm Hb) as (_ & _ & Hv & _).
  pose proof (mi_view m Hm bid) as Hok. rewrite <-Hv in *.
  assert (u64_inc (mb_seq b) = mb_seq b + 1) as ->.
  { pose proof (vo_seq _ Hok). simpl in *. apply u64_small. unfold is_u64, mem_limit in *. lia. }
  set (b' := {| mb_seq := _ |}).
  assert (board_view b' = spec_apply id (bytes_text shape) del (board_view b)) as Hb'.
  { unfold board_view, spec_apply. simpl. f_equal. destruct del; [by rewrite fmap_delete|].
    rewrite fmap_insert. simpl. by rewrite bytes_text_copy. }
  destruct (update_spec bid m m1 b b' Hm Hb) as (H1 & H2 & H3).
  - rewrite Hb'. by apply view_ok_apply.
  - simpl in *. unfold mem_limit in *. lia.
  - done.
  - rewrite Hb' in H2. done.
Qed.

Lemma publish_one_spec msg m s : mem_inv m ->
  mem_inv (publish_one msg m s) /\ m_boards (publish_one msg m s) = m_boards m /\
  forall s', m_chans (publish_one msg m s) !! s' =
    (fun q => if decide (s = s' /\ (length q < sub_buffer)%nat) then q ++ [msg] else q) <$> m_chans m !! s'.
Proof.
  intros Hm. unfold publish_one. destruct (m_chans m !! s) as [q|] eqn:E; [case_decide as Hq|].
  - split_and!; [|done|].
    + destruct Hm as [H1 H2 H3 H4 H5]. split; [done|done| | |done]; simpl.
      * intros s' q'. rewrite lookup_insert. case_decide; [|apply H3]. intros [= <-]. subst s'.
        destruct (H3 _ _ E). split; [|done]. rewrite length_app. simpl. lia.
      * intros id b s' Hb Hs'. rewrite lookup_insert. case_decide; [done|by eapply H4].
    + simpl. intros s'. rewrite lookup_insert. case_decide as Hs.
      * subst s'. rewrite E. simpl. by rewrite decide_True.
      * destruct (m_chans m !! s'); [|done]. simpl. rewrite decide_False; [done|naive_solver].
  - split_and!; [done..|]. intros s'. destruct (m_chans m !! s') eqn:E'; [|done]. simpl.
    rewrite decide_False; [done|]. intros [-> ?]. by simplify_eq.
  - split_and!; [done..|]. intros s'. destruct (m_chans m !! s') eqn:E'; [|done]. simpl.
    rewrite decide_False; [done|]. intros [-> ?]. by simplify_eq.
Qed.

(** Every subscriber in the list with room gets the message once, at the end of
    its queue; a full one and everybody else keep what they had. *)
Lemma publish_all_spec msg subs m : mem_inv m -> NoDup subs ->
  let m' := fold_left (publish_one msg) subs m in
  mem_inv m' /\ m_boards m' = m_boards m /\
  forall s, m_chans m' !! s =
    (fun q => if decide (s ∈ subs /\ (length q < sub_buffer)%nat) then q ++ [msg] else q) <$> m_chans m !! s.
Proof.
  revert m; induction subs as [|s0 subs IH]; intros m Hm Hn; simpl.
  - split_and!; [done..|]. intros s. by destruct (m_chans m !! s).
  - apply NoDup_cons in Hn as [Hs0 Hn]. destruct (publish_one_spec msg m s0 Hm) as (Hm1 & Hb1 & Hc1).
    destruct (IH _ Hm1 Hn) as (Hm2 & Hb2 & Hc2). split_and!; [done|congruence|].
    intros s. rewrite Hc2, Hc1. destruct (m_chans m !! s) as [q|]; [|done]. simpl. f_equal.
    destruct (decide (s0 = s /\ _)) as [[-> Hq]|Hq].
    + rewrite decide_False by naive_solver. rewrite decide_True; [done|]. split; [left|done].
    + apply decide_ext. rewrite elem_of_cons. split; [naive_solver|]. intros [[->|?] ?]; [naive_solver|done].
Qed.

Lemma Publish_mem bid msg m : mem_inv m ->
  let '(m', r) := Publish bid msg m in
  mem_inv m' /\ r = Ok tt /\ (forall o, mem_view m' o = mem_view m o).
Proof.
  intros Hm. unfold Publish, publish_targets. destruct (board bid m) as [m1 b] eqn:Hb.
  destruct (board_spec _ _ _ _ Hm Hb) as (Hm1 & _ & _ & _ & _ & Hv & _ & _).
  destruct (publish_all_spec msg (elements (mb_subs b)) m1 Hm1) as (H1 & H2 & _); [apply NoDup_elements|].
  split_and!; [done|done|]. intros o. rewrite <-Hv. unfold mem_view. by rewrite H2.
Qed.

(** A new subscriber: a channel of its own, empty, known to this board only. *)
Lemma Subscribe_mem bid m : mem_inv m ->
  mem_inv (Subscribe bid m).1.
Proof.
  intros Hm. unfold Subscribe. set (m0 := {| m_boards := m_boards m |}).
  assert (m_chans m !! m_next m = None) as Hnew.
  { destruct (m_chans m !! m_next m) eqn:E; [|done]. apply (mi_chan m Hm) in E. lia. }
  assert (mem_inv m0) as Hm0.
  { destruct Hm as [H1 H2 H3 H4 H5]. split; [exact H1|exact H2| | |exact H5]; simpl.
    - intros s q. rewrite lookup_insert. case_decide; [intros [= <-]; subst; simpl; unfold sub_buffer; lia|].
      intros Hq%H3. lia.
    - intros id b s Hb Hs. rewrite lookup_insert. case_decide; [done|by eapply H4]. }
  destruct (board bid m0) as [m1 b] eqn:Hb.
  destruct (board_spec _ _ _ _ Hm0 Hb) as (Hm1 & Hl & Hbv & Hc & _ & Hv & _ & _). simpl.
  apply store_board_inv; [done| | | |].
  - change (view_ok (board_view b)). rewrite Hbv. apply Hm0.
  - change (v_seq (board_view b) < two64). rewrite Hbv. apply Hm0.
  - simpl. intros s [->%elem_of_singleton|Hs]%elem_of_union.
    + rewrite Hc. simpl. by rewrite lookup_insert_eq.
    + by eapply (mi_subs m1 Hm1).
  - simpl. intros o b' s Ho Hb' [->%elem_of_singleton|Hs]%elem_of_union Hs'; [|apply Ho; by eapply (mi_excl m1 Hm1)].
    destruct (board_spec _ _ _ _ Hm0 Hb) as (_ & _ & _ & _ & _ & _ & Hf & _). rewrite Hf in Hb' by done.
    destruct (mi_subs m Hm o b' _ Hb' Hs') as [q Hq]. congruence.
Qed.

Lemma Snapshot_mem bid m : mem_inv m ->
  let '(m', r) := Snapshot bid m in
  mem_inv m' /\ (forall o, mem_view m' o = mem_view m o) /\
  exists snap, r = Ok snap /\ is_snapshot (mem_view m bid) snap.
Proof.
  intros Hm. unfold Snapshot. destruct (board bid m) as [m1 b] eqn:Hb.
  destruct (board_spec _ _ _ _ Hm Hb) as (Hm1 & _ & Hbv & _ & _ & Hv & _ & _).
  split_and!; [done|done|]. eexists. split; [done|]. rewrite <-Hbv. split; [done|].
  split; [apply sort_by_sorted; apply _|]. simpl.
  rewrite (fmap_Permutation shape_entry _ _ (sort_by_perm _ _ _)).
  rewrite map_to_list_fmap. change (map ?f ?l) with (f <$> l). rewrite <-list_fmap_compose.
  apply reflexive_eq, list_fmap_ext. intros i [id s] _. unfold shape_entry. simpl. by rewrite bytes_text_copy.
Qed.

Lemma hydrate_view (l : list SnapshotShape) (shapes : gmap string memShape) :
  (fun s => Entry (ms_seq s) (bytes_text (ms_shape s))) <$> fold_left hydrate_shape l shapes =
  fold_left (fun m s => <[ss_ID s := (shape_entry s).2]> m) l
    ((fun s => Entry (ms_seq s) (bytes_text (ms_shape s))) <$> shapes).
Proof.
  revert shapes; induction l as [|s l IH]; intros shapes; simpl; [done|].
  rewrite IH. unfold hydrate_shape. rewrite fmap_insert. simpl. by rewrite bytes_text_copy.
Qed.

Lemma Hydrate_mem bid snap m : mem_inv m -> snap_ok snap -> sn_Seq snap <= mem_limit ->
  let '(m', r) := Hydrate bid snap m in
  mem_inv m' /\ r = Ok (mem_fresh m bid) /\
  mem_view m' bid = (if mem_fresh m bid then spec_load snap (mem_view m bid) else mem_view m bid) /\
  forall o, o <> bid -> mem_view m' o = mem_view m o.
Proof.
  intros Hm Hsnap Hlim. unfold Hydrate. destruct (board bid m) as [m1 b] eqn:Hb.
  destruct (board_spec _ _ _ _ Hm Hb) as (Hm1 & Hl & Hbv & _ & _ & Hv & _ & _).
  unfold mem_fresh. rewrite <-Hbv. simpl.
  assert (bool_decide (((fun s => Entry (ms_seq s) (bytes_text (ms_shape s))) <$> mb_shapes b) = ∅)
    = negb (0 <? Z.of_nat (size (mb_shapes b)))) as ->.
  { case_bool_decide as E.
    - apply fmap_empty_inv in E. rewrite E, map_size_empty. done.
    - destruct (size (mb_shapes b)) eqn:Es; [|done]. apply map_size_empty_inv in Es.
      rewrite Es, fmap_empty in E. done. }
  destruct (negb (mb_seq b =? 0) || (0 <? Z.of_nat (size (mb_shapes b)))) eqn:Hc.
  - rewrite <-(negb_involutive (mb_seq b =? 0)), <-negb_orb, Hc. simpl.
    split_and!; [done|done|by rewrite Hv, Hbv|by intros].
  - rewrite <-(negb_involutive (mb_seq b =? 0)), <-negb_orb, Hc. simpl.
    apply orb_false_iff in Hc as [Hseq Hsize]. apply negb_false_iff, Z.eqb_eq in Hseq.
    assert (mb_shapes b = ∅) as Hempty by (apply map_size_empty_inv; lia).
    set (b' := {| mb_seq := sn_Seq snap |}).
    assert (board_view b' = spec_load snap (View 0 ∅ (v_presence (board_view b)))) as Hb'.
    { unfold board_view, spec_load. simpl. by rewrite hydrate_view, Hempty, fmap_empty. }
    destruct (update_spec bid m m1 b b' Hm Hb) as (H1 & H2 & H3).
    + rewrite Hb'. by apply load_ok.
    + simpl. unfold mem_limit in *. lia.
    + done.
    + split_and!; [done|done| |done]. rewrite H2, Hb'. unfold board_view. by rewrite Hseq, Hempty, fmap_empty.
Qed.

Lemma set_presence_mem bid f g m : mem_inv m ->
  (forall p : gmap string bytes, bytes_text <$> f p = g (bytes_text <$> p)) ->
  let m' := set_presence_map bid f m in
  let v := mem_view m bid in
  mem_inv m' /\ mem_view m' bid = View (v_seq v) (v_shapes v) (g (v_presence v)) /\
  forall o, o <> bid -> mem_view m' o = mem_view m o.
Proof.
  intros Hm Hfg. unfold set_presence_map. destruct (board bid m) as [m1 b] eqn:Hb.
  destruct (board_spec _ _ _ _ Hm Hb) as (_ & _ & Hbv & _). rewrite <-Hbv.
  set (b' := {| mb_seq := _ |}).
  destruct (update_spec bid m m1 b b' Hm Hb) as (H1 & H2 & H3); [| |done|].
  - pose proof (mi_view m Hm bid) as [Ha Hb1 Hc]. rewrite <-Hbv in *. by split.
  - pose proof (mi_seq m Hm bid) as Hs. by rewrite <-Hbv in Hs.
  - split_and!; [done| |done]. rewrite H2. unfold board_view. simpl. by rewrite Hfg.
Qed.

Lemma Presence_mem bid m : mem_inv m ->
  let '(m', r) := Presence bid m in
  mem_inv m' /\ (forall o, mem_view m' o = mem_view m o) /\
  exists out, r = Ok out /\ is_roster (mem_view m bid) out.
Proof.
  intros Hm. unfold Presence. destruct (board bid m) as [m1 b] eqn:Hb.
  destruct (board_spec _ _ _ _ Hm Hb) as (Hm1 & _ & Hbv & _ & _ & Hv & _ & _).
  split_and!; [done|done|]. eexists. split; [done|]. rewrite <-Hbv. split; [apply sort_by_sorted; apply _|].
  rewrite sort_by_perm. simpl. rewrite map_to_list_fmap. apply reflexive_eq.
  induction (map_to_list (mb_presence b)) as [|[k p] l IH]; [done|]. csimpl. by rewrite IH.
Qed.

#[export] Program Instance Memory_laws : BrokerLaws Memory := {|
  br_inv := mem_inv;
  br_view := mem_view;
  br_fresh := mem_fresh;
  br_limit := mem_limit;
|}.
Next Obligation. intros b id Hb. apply (mi_view b Hb). Qed.
Next Obligation. done. Qed.
Next Obligation.
  intros b id Hb [H1 H2]%andb_true_iff. apply Z.eqb_eq in H1. by apply bool_decide_eq_true in H2.
Qed.
Next Obligation.
  intros b id Hb H. unfold mem_fresh. apply andb_false_iff. left. apply Z.eqb_neq. lia.
Qed.
Next Obligation.
  intros f bid id shape del b Hb Hlim. simpl. pose proof (ApplyShape_mem bid id shape del b Hb Hlim) as H.
  destruct (ApplyShape bid id shape del b) as [b' r]. destruct H as (H1 & -> & H2 & H3).
  split_and!; [done|by left|]. intros o Ho. split; [by apply H3|by apply mem_fresh_view, H3].
Qed.
Next Obligation.
  intros f bid msg b Hb. simpl. pose proof (Publish_mem bid msg b Hb) as H.
  destruct (Publish bid msg b) as [b' r]. destruct H as (H1 & -> & H2).
  split_and!; [done| |done]. intros o. split; [by apply H2|by apply mem_fresh_view, H2].
Qed.
Next Obligation.
  intros f bid b Hb. simpl. pose proof (Snapshot_mem bid b Hb) as H.
  destruct (Snapshot bid b) as [b' r]. destruct H as (H1 & H2 & snap & -> & H3).
  split_and!; [done| |done]. intros o. split; [by apply H2|by apply mem_fresh_view, H2].
Qed.
Next Obligation.
  intros f bid snap b Hb Hs Hlim. simpl. pose proof (Hydrate_mem bid snap b Hb Hs Hlim) as H.
  destruct (Hydrate bid snap b) as [b' r]. destruct H as (H1 & -> & H2 & H3).
  split_and!; [done|by left|]. intros o Ho. split; [by apply H3|by apply mem_fresh_view, H3].
Qed.
Next Obligation.
  intros f bid snap m Hm Hf. simpl. unfold Hydrate. destruct (board bid m) as [m1 b] eqn:Hb.
  destruct (board_spec _ _ _ _ Hm Hb) as (_ & _ & Hbv & _ & _ & Hv & _ & _).
  assert (negb (mb_seq b =? 0) || (0 <? Z.of_nat (size (mb_shapes b))) = true) as ->.
  { unfold mem_fresh in Hf. rewrite <-Hbv in Hf. simpl in Hf. apply andb_false_iff in Hf as [->|Hs]; [done|].
    apply bool_decide_eq_false in Hs. apply orb_true_iff. right. apply Z.ltb_lt.
    destruct (size (mb_shapes b)) eqn:E; [|lia]. apply map_size_empty_inv in E. by rewrite E, fmap_empty in Hs. }
  simpl. by rewrite (mem_fresh_view m).
Qed.
Next Obligation.
  intros f bid cid p b Hb. simpl.
  destruct (set_presence_mem bid (fun q => <[cid := bytes_copy (Some p)]> q) (fun q => <[cid := p]> q) b Hb)
    as (H1 & H2 & H3).
  { intros q. rewrite fmap_insert, bytes_text_copy. done. }
  split_and!; [done|by left| |done]. intros o. unfold mem_fresh.
  destruct (decide (o = bid)) as [->|Ho]; [by rewrite H2|by rewrite H3].
Qed.
Next Obligation.
  intros f bid cid b Hb. simpl.
  destruct (set_presence_mem bid (fun q => delete cid q) (fun q => delete cid q) b Hb) as (H1 & H2 & H3).
  { intros q. by rewrite fmap_delete. }
  split_and!; [done|by left| |done]. intros o. unfold mem_fresh.
  destruct (decide (o = bid)) as [->|Ho]; [by rewrite H2|by rewrite H3].
Qed.
Next Obligation.
  intros f bid b Hb. simpl. pose proof (Presence_mem bid b Hb) as H.
  destruct (Presence bid b) as [b' r]. destruct H as (H1 & H2 & out & -> & H3).
  split_and!; [done| |done]. intros o. split; [by apply H2|by apply mem_fresh_view, H2].
Qed.
