(* ===== verification/RedisBroker.v ===== *)
(** The Redis broker (internal/broker/redis.go): its key layout, its two Lua
    scripts and its Go methods, over a Redis server that is a parameter.  The
    server's commands obey the laws their documentation states; a Lua script
    runs atomically; a request or its reply may be lost. *)

From S2P Require Import Prelude Strconv Utf8 Json JsonFacts Protocol Broker.
Local Open Scope Z_scope.

(** ** The server

    The keyspace as far as the program uses it: string keys and hash keys. *)

Class RedisServer (R : Type) := {
  GET : string -> R -> option string;
  SET : string -> string -> R -> R;
  EXISTS : string -> R -> bool;
  INCR : string -> R -> R * option Z;
  HSET : string -> string -> string -> R -> R;
  HDEL : string -> string -> R -> R;
  HGETALL : string -> R -> gmap string string;
  PUBLISH : string -> string -> R -> R;
  (** Lua's conversion of a number to a string, as in [seq .. '\n']. *)
  lua_tostring : Z -> string;
}.

(** [lua_tostring] prints with the format [%.14g], so integers below [10^14]
    come out in plain decimal. *)
Definition lua_exact : Z := 10 ^ 14.

Class RedisLaws (R : Type) `{RedisServer R} : Prop := {
  GET_SET : forall k v k' r, GET k' (SET k v r) = if decide (k = k') then Some v else GET k' r;
  HGETALL_SET : forall k v k' r, k <> k' -> HGETALL k' (SET k v r) = HGETALL k' r;
  HGETALL_SET_eq : forall k v r, HGETALL k (SET k v r) = ∅;
  EXISTS_spec : forall k r,
    EXISTS k r = bool_decide (is_Some (GET k r)) || bool_decide (HGETALL k r <> ∅);
  INCR_spec : forall k z r, 0 <= z < two63 - 1 -> HGETALL k r = ∅ ->
    (GET k r = Some (FormatUint z) \/ (GET k r = None /\ z = 0)) ->
    INCR k r = (SET k (FormatUint (z + 1)) r, Some (z + 1));
  GET_HSET : forall k f v k' r, GET k r = None -> GET k' (HSET k f v r) = GET k' r;
  HGETALL_HSET : forall k f v k' r, GET k r = None ->
    HGETALL k' (HSET k f v r) = if decide (k = k') then <[f := v]> (HGETALL k r) else HGETALL k' r;
  GET_HDEL : forall k f k' r, GET k r = None -> GET k' (HDEL k f r) = GET k' r;
  HGETALL_HDEL : forall k f k' r, GET k r = None ->
    HGETALL k' (HDEL k f r) = if decide (k = k') then delete f (HGETALL k r) else HGETALL k' r;
  GET_PUBLISH : forall c m k r, GET k (PUBLISH c m r) = GET k r;
  HGETALL_PUBLISH : forall c m k r, HGETALL k (PUBLISH c m r) = HGETALL k r;
  lua_tostring_spec : forall z, 0 <= z < lua_exact -> lua_tostring z = FormatUint z;
}.

(** ** Keys *)

Definition seqKey (boardID : string) : string := "board:" +:+ boardID +:+ ":seq".
Definition shapesKey (boardID : string) : string := "board:" +:+ boardID +:+ ":shapes".
Definition presenceKey (boardID : string) : string := "board:" +:+ boardID +:+ ":presence".
Definition channelKey (boardID : string) : string := "board:" +:+ boardID.

Definition nl : ascii := "010".

Section redis.
Context {R : Type} `{RedisServer R}.

(** ** The Lua scripts, on [KEYS] and [ARGV] *)

Definition applyShapeScript (KEYS1 KEYS2 ARGV1 ARGV2 ARGV3 : string) (r : R) : R * option Z :=
  match INCR KEYS1 r with
  | (r, None) => (r, None)
  | (r, Some seq) =>
      if bool_decide (ARGV2 = "1") then (HDEL KEYS2 ARGV1 r, Some seq)
      else (HSET KEYS2 ARGV1 (lua_tostring seq +:+ String nl ARGV3) r, Some seq)
  end.

(** The pairs after the first argument, as its loop takes them. *)
Fixpoint hydrate_pairs (KEYS2 : string) (argv : list string) (r : R) : R :=
  match argv with
  | f :: v :: argv' => hydrate_pairs KEYS2 argv' (HSET KEYS2 f v r)
  | _ => r
  end.

Definition hydrateScript (KEYS1 KEYS2 ARGV1 : string) (argv : list string) (r : R) : R * option Z :=
  if EXISTS KEYS1 r then (r, Some 0)
  else (hydrate_pairs KEYS2 argv (SET KEYS1 ARGV1 r), Some 1).

(** ** The Go methods *)

(** A round trip: the command runs unless the request was lost, and its
    answer arrives unless the reply was; an absent answer is a Redis error. *)
Definition round_trip {A} (f : fault) (cmd : R -> R * option A) (r : R) : R * result A :=
  let '(r', a) := cmd r in
  match f with
  | Delivered => (r', match a with Some a => Ok a | None => Err ErrRange end)
  | RequestLost => (r, Err ErrTransport)
  | ReplyLost => (r', Err ErrTransport)
  end.

Definition ApplyShape (f : fault) (boardID shapeID : string) (shape : bytes) (del : bool) (r : R)
    : R * result Z :=
  let delArg := if del then "1" else "0" in
  let '(r, seq) := round_trip f
    (applyShapeScript (seqKey boardID) (shapesKey boardID) shapeID delArg (bytes_text shape)) r in
  (r, match seq with Err e => Err e | Ok seq => Ok (u64 seq) end).

Definition Publish (f : fault) (boardID message : string) (r : R) : R * result unit :=
  round_trip f (fun r => (PUBLISH (channelKey boardID) message r, Some tt)) r.

(** One field of the shapes hash, [None] for a malformed value. *)
Definition snapshot_shape (kv : string * string) : option SnapshotShape :=
  '(seq, blob) ← cut nl kv.2;
  Some {| ss_Seq := (ParseUint seq).1; ss_ID := kv.1; ss_Shape := Some blob |}.

Definition snapshot_shapes (fields : gmap string string) : list SnapshotShape :=
  sort_by Z.le ss_Seq (omap snapshot_shape (map_to_list fields)).

(** The counter read by [Get(...).Uint64()]: a missing key means zero. *)
Definition counter (v : option string) : result Z :=
  match v with
  | None => Ok 0
  | Some s => match ParseUint s with (z, None) => Ok z | (_, Some e) => Err e end
  end.

(** [Snapshot] is two round trips: the hash is read in server state [r1] and
    the counter in [r2], where other clients may have run in between. *)
Definition Snapshot_at (f1 f2 : fault) (boardID : string) (r1 r2 : R) : result Snapshot :=
  fields ← (round_trip f1 (fun r => (r, Some (HGETALL (shapesKey boardID) r))) r1).2;
  cur ← (round_trip f2 (fun r => (r, Some (GET (seqKey boardID) r))) r2).2;
  cur ← counter cur;
  Ok {| sn_Seq := cur; sn_Shapes := snapshot_shapes fields |}.

Definition Snapshot (f : fault) (boardID : string) (r : R) : R * result Protocol.Snapshot :=
  (r, Snapshot_at f f boardID r r).

Definition hydrate_argv (snap : Protocol.Snapshot) : list string :=
  flat_map (fun s => [ss_ID s; FormatUint (ss_Seq s) +:+ String nl (bytes_text (ss_Shape s))])
    (sn_Shapes snap).

Definition Hydrate (f : fault) (boardID : string) (snap : Protocol.Snapshot) (r : R) : R * result bool :=
  let '(r, loaded) := round_trip f
    (hydrateScript (seqKey boardID) (shapesKey boardID) (FormatUint (sn_Seq snap)) (hydrate_argv snap)) r in
  (r, match loaded with Err e => Err e | Ok n => Ok (n =? 1) end).

Definition SetPresence (f : fault) (boardID clientID presence : string) (r : R) : R * result unit :=
  round_trip f (fun r => (HSET (presenceKey boardID) clientID presence r, Some tt)) r.

Definition RemovePresence (f : fault) (boardID clientID : string) (r : R) : R * result unit :=
  round_trip f (fun r => (HDEL (presenceKey boardID) clientID r, Some tt)) r.

Definition Presence (f : fault) (boardID : string) (r : R) : R * result (list Protocol.Presence) :=
  let '(r, fields) := round_trip f (fun r => (r, Some (HGETALL (presenceKey boardID) r))) r in
  (r, fields ← fields;
      Ok (sort_by String.le ClientID (omap (fun kv => decode_presence kv.2) (map_to_list fields)))).

#[global] Instance Redis_broker : Broker R := {|
  br_ApplyShape := ApplyShape;
  br_Publish := Publish;
  br_Snapshot := Snapshot;
  br_Hydrate := Hydrate;
  br_SetPresence := SetPresence;
  br_RemovePresence := RemovePresence;
  br_Presence := Presence;
|}.
End redis.

(** ** The key layout keeps boards apart *)

Fixpoint last_char (s : string) : option ascii :=
  match s with
  | "" => None
  | String c "" => Some c
  | String _ s' => last_char s'
  end.

Lemma last_char_app s c t : last_char (s +:+ String c t) = last_char (String c t).
Proof.
  induction s as [|d s IH]; [done|]. rewrite app_cons, <-IH. destruct s; by rewrite ?app_cons.
Qed.

Lemma key_last p bid s : s <> "" -> last_char (p +:+ bid +:+ s) = last_char s.
Proof. intros H. destruct s as [|c s]; [done|]. by rewrite <-app_assoc', last_char_app. Qed.

Lemma seqKey_inj b1 b2 : seqKey b1 = seqKey b2 -> b1 = b2.
Proof. unfold seqKey. intros E%(inj _). by apply app_inv_tail' in E. Qed.
Lemma shapesKey_inj b1 b2 : shapesKey b1 = shapesKey b2 -> b1 = b2.
Proof. unfold shapesKey. intros E%(inj _). by apply app_inv_tail' in E. Qed.
Lemma presenceKey_inj b1 b2 : presenceKey b1 = presenceKey b2 -> b1 = b2.
Proof. unfold presenceKey. intros E%(inj _). by apply app_inv_tail' in E. Qed.

Lemma seqKey_shapesKey b1 b2 : seqKey b1 <> shapesKey b2.
Proof. intros E%(f_equal last_char). unfold seqKey, shapesKey in E. by rewrite !key_last in E. Qed.
Lemma seqKey_presenceKey b1 b2 : seqKey b1 <> presenceKey b2.
Proof. intros E%(f_equal last_char). unfold seqKey, presenceKey in E. by rewrite !key_last in E. Qed.
Lemma shapesKey_presenceKey b1 b2 : shapesKey b1 <> presenceKey b2.
Proof. intros E%(f_equal last_char). unfold shapesKey, presenceKey in E. by rewrite !key_last in E. Qed.

#[export] Hint Resolve seqKey_shapesKey seqKey_presenceKey shapesKey_presenceKey : wb.

(** ** Stored values *)

(** The value ["<seq>\n<blob>"] of a shape. *)
Definition stored (seq : Z) (blob : string) : string := FormatUint seq +:+ String nl blob.

Definition parse_stored (v : string) : option entry :=
  '(seq, blob) ← cut nl v; Some (Entry (ParseUint seq).1 blob).

Lemma digits_no_nl s : str_forall is_digit s = true ->
  str_forall (fun d => negb (bool_decide (d = nl))) s = true.
Proof.
  induction s as [|c s IH]; [done|]. simpl. intros [Hc Hs]%andb_true_iff. rewrite IH by done.
  case_bool_decide; [by subst|done].
Qed.

Lemma cut_stored seq blob : is_u64 seq -> cut nl (stored seq blob) = Some (FormatUint seq, blob).
Proof. intros H. apply cut_app, digits_no_nl. by apply FormatUint_digits. Qed.

(** A snapshot recovers the sequence and the blob, whatever bytes the blob
    holds, newlines included. *)
Lemma parse_stored_stored seq blob : is_u64 seq -> parse_stored (stored seq blob) = Some (Entry seq blob).
Proof. intros H. unfold parse_stored. rewrite cut_stored by done. simpl. by rewrite ParseUint_FormatUint. Qed.

Lemma snapshot_shape_entry kv s : snapshot_shape kv = Some s ->
  parse_stored kv.2 = Some (shape_entry s).2 /\ ss_ID s = kv.1.
Proof.
  unfold snapshot_shape, parse_stored. destruct (cut nl kv.2) as [[seq blob]|]; [|done].
  simpl. by intros [= <-].
Qed.

Lemma omap_snapshot_shape (l : list (string * string)) :
  map shape_entry (omap snapshot_shape l)
  = omap (fun kv => (fun e => (kv.1, e)) <$> parse_stored kv.2) l.
Proof.
  induction l as [|kv l IH]; [done|]. csimpl. rewrite <-IH. unfold snapshot_shape, parse_stored.
  by destruct (cut nl kv.2) as [[seq blob]|].
Qed.

(** ** The board it presents *)

Section view.
Context {R : Type} {RS : RedisServer R} {RL : @RedisLaws R RS}.

Definition red_seq (r : R) (bid : string) : Z :=
  match GET (seqKey bid) r with Some s => (ParseUint s).1 | None => 0 end.

Definition red_view (r : R) (bid : string) : view :=
  View (red_seq r bid) (omap parse_stored (HGETALL (shapesKey bid) r))
    (HGETALL (presenceKey bid) r).

Definition red_fresh (r : R) (bid : string) : bool := negb (EXISTS (seqKey bid) r).

Definition red_limit : Z := lua_exact - 1.

(** The keys of a board hold what the scripts put there. *)
Record red_board (r : R) (bid : string) : Prop := {
  rb_seq_hash : HGETALL (seqKey bid) r = ∅;
  rb_shapes_str : GET (shapesKey bid) r = None;
  rb_presence_str : GET (presenceKey bid) r = None;
  rb_seq : (exists z, GET (seqKey bid) r = Some (FormatUint z) /\ 0 <= z <= red_limit) \/
           (GET (seqKey bid) r = None /\ HGETALL (shapesKey bid) r = ∅);
  rb_stored : forall id v, HGETALL (shapesKey bid) r !! id = Some v ->
    exists q blob, v = stored q blob /\ is_u64 q;
  rb_ok : view_ok (red_view r bid);
}.

Definition red_inv (r : R) : Prop := forall bid, red_board r bid.

Lemma limit_u64 z : 0 <= z <= red_limit -> is_u64 z.
Proof using Type. unfold is_u64, red_limit, lua_exact, two64. lia. Qed.

Lemma red_seq_Some r bid z : GET (seqKey bid) r = Some (FormatUint z) -> is_u64 z -> red_seq r bid = z.
Proof using Type. intros E Hz. unfold red_seq. by rewrite E, ParseUint_FormatUint. Qed.

(** The counter key holds the board's sequence, or is absent at zero. *)
Lemma red_seq_cases r bid : red_board r bid -> 0 <= red_seq r bid <= red_limit /\
  (GET (seqKey bid) r = Some (FormatUint (red_seq r bid)) \/
   GET (seqKey bid) r = None /\ red_seq r bid = 0 /\ HGETALL (shapesKey bid) r = ∅).
Proof using Type.
  intros [_ _ _ [(z & E & Hz)|[E Eh]] _ _].
  - rewrite (red_seq_Some r bid z E) by (by apply limit_u64). auto.
  - assert (red_seq r bid = 0) as -> by (unfold red_seq; by rewrite E).
    split; [|by right]. unfold red_limit, lua_exact. lia.
Qed.

(** The view determines nothing else: states that agree on a board's keys
    agree on its view and its invariant. *)
Lemma red_board_frame r r' bid :
  GET (seqKey bid) r' = GET (seqKey bid) r -> GET (shapesKey bid) r' = GET (shapesKey bid) r ->
  GET (presenceKey bid) r' = GET (presenceKey bid) r ->
  (forall k, k = seqKey bid \/ k = shapesKey bid \/ k = presenceKey bid -> HGETALL k r' = HGETALL k r) ->
  red_board r bid -> red_board r' bid /\ red_view r' bid = red_view r bid /\ red_fresh r' bid = red_fresh r bid.
Proof using RL.
  intros E1 E2 E3 E4 [H1 H2 H3 H4 H5 H6].
  assert (red_view r' bid = red_view r bid) as Ev.
  { unfold red_view, red_seq. rewrite E1, !E4 by auto. done. }
  split_and!; [|done|].
  - split; rewrite ?E1, ?E2, ?E3, ?Ev, ?(E4 (seqKey bid)), ?(E4 (shapesKey bid)) by auto; done.
  - unfold red_fresh. by rewrite !EXISTS_spec, E1, (E4 (seqKey bid)) by auto.
Qed.
End view.

#[export] Hint Resolve seqKey_inj shapesKey_inj presenceKey_inj limit_u64 : wb.
#[export] Hint Extern 1 (shapesKey _ <> seqKey _) => (apply not_eq_sym, seqKey_shapesKey) : wb.
#[export] Hint Extern 1 (presenceKey _ <> seqKey _) => (apply not_eq_sym, seqKey_presenceKey) : wb.
#[export] Hint Extern 1 (presenceKey _ <> shapesKey _) => (apply not_eq_sym, shapesKey_presenceKey) : wb.

Section laws.
Context {R : Type} {RS : RedisServer R} {RL : @RedisLaws R RS}.
Implicit Types r : R.

(** A command that touches the keys of one board only. *)
Definition same_keys (r r' : R) (o : string) : Prop :=
  GET (seqKey o) r' = GET (seqKey o) r /\ GET (shapesKey o) r' = GET (shapesKey o) r /\
  GET (presenceKey o) r' = GET (presenceKey o) r /\
  HGETALL (seqKey o) r' = HGETALL (seqKey o) r /\
  HGETALL (shapesKey o) r' = HGETALL (shapesKey o) r /\
  HGETALL (presenceKey o) r' = HGETALL (presenceKey o) r.

Lemma same_keys_board r r' o : same_keys r r' o -> red_board r o ->
  red_board r' o /\ red_view r' o = red_view r o /\ red_fresh r' o = red_fresh r o.
Proof using RL.
  intros (H1 & H2 & H3 & H4 & H5 & H6). apply red_board_frame; [done..|].
  by intros k [->|[->| ->]].
Qed.

Lemma touch_one bid r r' : red_inv r -> (forall o, o <> bid -> same_keys r r' o) -> red_board r' bid ->
  red_inv r' /\ forall o, o <> bid -> red_view r' o = red_view r o /\ red_fresh r' o = red_fresh r o.
Proof using RL.
  intros Hr Hf Hb. split.
  - intros o. destruct (decide (o = bid)) as [->|Ho]; [done|].
    by apply (same_keys_board r r' o); [apply Hf|apply Hr].
  - intros o Ho. by apply (same_keys_board r r' o); [apply Hf|apply Hr].
Qed.

Lemma SET_other bid v r o : o <> bid -> same_keys r (SET (seqKey bid) v r) o.
Proof using RL.
  intros Ho. assert (seqKey bid <> seqKey o) by (intros E; apply Ho; by apply seqKey_inj in E).
  unfold same_keys. rewrite !GET_SET, !HGETALL_SET by auto with wb.
  by rewrite !decide_False by auto with wb.
Qed.

Lemma HSET_other k f v r o : GET k r = None -> k <> seqKey o -> k <> shapesKey o -> k <> presenceKey o ->
  same_keys r (HSET k f v r) o.
Proof using RL.
  intros Hk H1 H2 H3. unfold same_keys. rewrite !GET_HSET, !HGETALL_HSET by done.
  by rewrite !decide_False by done.
Qed.

Lemma HDEL_other k f r o : GET k r = None -> k <> seqKey o -> k <> shapesKey o -> k <> presenceKey o ->
  same_keys r (HDEL k f r) o.
Proof using RL.
  intros Hk H1 H2 H3. unfold same_keys. rewrite !GET_HDEL, !HGETALL_HDEL by done.
  by rewrite !decide_False by done.
Qed.

Lemma same_keys_trans r1 r2 r3 o : same_keys r1 r2 o -> same_keys r2 r3 o -> same_keys r1 r3 o.
Proof using Type. unfold same_keys. naive_solver congruence. Qed.
(** What the keys of a board hold. *)
Record holds (r : R) (bid : string) (seq : option Z) (shapes presence : gmap string string) : Prop := {
  h_seq : GET (seqKey bid) r = FormatUint <$> seq;
  h_seq_hash : HGETALL (seqKey bid) r = ∅;
  h_shapes_str : GET (shapesKey bid) r = None;
  h_shapes : HGETALL (shapesKey bid) r = shapes;
  h_presence_str : GET (presenceKey bid) r = None;
  h_presence : HGETALL (presenceKey bid) r = presence;
}.

Lemma holds_SET r bid seq shapes presence z : holds r bid seq shapes presence ->
  holds (SET (seqKey bid) (FormatUint z) r) bid (Some z) shapes presence.
Proof using RL.
  intros []. split; rewrite ?GET_SET, ?HGETALL_SET_eq, ?HGETALL_SET by auto with wb; [|done|..|done].
  - by rewrite decide_True.
  - by rewrite decide_False by auto with wb.
  - done.
  - by rewrite decide_False by auto with wb.
Qed.

Lemma holds_HSET_shapes r bid seq shapes presence f v : holds r bid seq shapes presence ->
  holds (HSET (shapesKey bid) f v r) bid seq (<[f := v]> shapes) presence.
Proof using RL.
  intros []. split; rewrite ?GET_HSET, ?HGETALL_HSET by done; try done.
  - by rewrite decide_False by auto with wb.
  - rewrite decide_True by done. congruence.
  - by rewrite decide_False by auto with wb.
Qed.

Lemma holds_HDEL_shapes r bid seq shapes presence f : holds r bid seq shapes presence ->
  holds (HDEL (shapesKey bid) f r) bid seq (delete f shapes) presence.
Proof using RL.
  intros []. split; rewrite ?GET_HDEL, ?HGETALL_HDEL by done; try done.
  - by rewrite decide_False by auto with wb.
  - rewrite decide_True by done. congruence.
  - by rewrite decide_False by auto with wb.
Qed.

Lemma holds_HSET_presence r bid seq shapes presence f v : holds r bid seq shapes presence ->
  holds (HSET (presenceKey bid) f v r) bid seq shapes (<[f := v]> presence).
Proof using RL.
  intros []. split; rewrite ?GET_HSET, ?HGETALL_HSET by done; try done.
  - by rewrite decide_False by auto with wb.
  - by rewrite decide_False by auto with wb.
  - rewrite decide_True by done. congruence.
Qed.

Lemma holds_HDEL_presence r bid seq shapes presence f : holds r bid seq shapes presence ->
  holds (HDEL (presenceKey bid) f r) bid seq shapes (delete f presence).
Proof using RL.
  intros []. split; rewrite ?GET_HDEL, ?HGETALL_HDEL by done; try done.
  - by rewrite decide_False by auto with wb.
  - by rewrite decide_False by auto with wb.
  - rewrite decide_True by done. congruence.
Qed.

(** The board those contents present. *)
Definition held_view (seq : option Z) (shapes presence : gmap string string) : view :=
  View (default 0 seq) (omap parse_stored shapes) presence.

Definition all_stored (shapes : gmap string string) : Prop :=
  forall id v, shapes !! id = Some v -> exists q blob, v = stored q blob /\ is_u64 q.

Lemma holds_board r bid seq shapes presence : holds r bid seq shapes presence ->
  (forall z, seq = Some z -> 0 <= z <= red_limit) -> (seq = None -> shapes = ∅) ->
  all_stored shapes -> view_ok (held_view seq shapes presence) ->
  red_board r bid /\ red_view r bid = held_view seq shapes presence.
Proof using Type.
  intros [H1 H2 H3 H4 H5 H6] Hz He Hst Hok.
  assert (red_view r bid = held_view seq shapes presence) as Hv.
  { unfold red_view, held_view, red_seq. rewrite H1, H4, H6. destruct seq as [z|]; [|done].
    simpl. rewrite ParseUint_FormatUint; [done|]. apply limit_u64. by apply Hz. }
  split; [|done]. split; rewrite ?H4, ?Hv; try done. rewrite H1.
  destruct seq as [z|]; [left|right; auto]. exists z. simpl. auto.
Qed.

Lemma board_holds r bid : red_board r bid -> exists seq shapes presence,
  holds r bid seq shapes presence /\ (forall z, seq = Some z -> 0 <= z <= red_limit) /\
  (seq = None -> shapes = ∅) /\ all_stored shapes /\ red_view r bid = held_view seq shapes presence /\
  view_ok (held_view seq shapes presence).
Proof using Type.
  intros Hb. pose proof (red_seq_cases r bid Hb) as [Hz Hs]. destruct Hb as [H1 H2 H3 _ H5 H6].
  assert (exists seq, GET (seqKey bid) r = FormatUint <$> seq /\ default 0 seq = red_seq r bid /\
    (forall z, seq = Some z -> 0 <= z <= red_limit) /\ (seq = None -> HGETALL (shapesKey bid) r = ∅))
    as (seq & Eg & Ed & Hr & He).
  { destruct Hs as [E|(E & E0 & Eh)].
    - exists (Some (red_seq r bid)). split_and!; [done|done| |done]. by intros z [= <-].
    - exists None. split_and!; [done|done|done|auto]. }
  exists seq, (HGETALL (shapesKey bid) r), (HGETALL (presenceKey bid) r).
  assert (red_view r bid = held_view seq (HGETALL (shapesKey bid) r) (HGETALL (presenceKey bid) r)) as Hv.
  { unfold red_view, held_view. by rewrite Ed. }
  split_and!; [by split|done|done|done|done|]. by rewrite <-Hv.
Qed.
Lemma holds_fresh r bid seq shapes presence : holds r bid seq shapes presence ->
  red_fresh r bid = bool_decide (seq = None).
Proof using RL.
  intros []. unfold red_fresh. rewrite EXISTS_spec, h_seq0, h_seq_hash0.
  rewrite (bool_decide_false (∅ <> ∅)) by tauto. by destruct seq.
Qed.

Lemma all_stored_insert shapes id q blob : all_stored shapes -> is_u64 q ->
  all_stored (<[id := stored q blob]> shapes).
Proof using Type. intros H Hq id' v [[<- <-]|[_ Hv]]%lookup_insert_Some; eauto. Qed.

Lemma all_stored_delete shapes id : all_stored shapes -> all_stored (delete id shapes).
Proof using Type. intros H id' v [_ Hv]%lookup_delete_Some. eauto. Qed.

(** A board whose new contents are as described, the others untouched. *)
Lemma new_board r r' bid seq shapes presence : red_inv r -> (forall o, o <> bid -> same_keys r r' o) ->
  holds r' bid seq shapes presence ->
  (forall z, seq = Some z -> 0 <= z <= red_limit) -> (seq = None -> shapes = ∅) ->
  all_stored shapes -> view_ok (held_view seq shapes presence) ->
  red_inv r' /\ red_view r' bid = held_view seq shapes presence /\
  forall o, o <> bid -> red_view r' o = red_view r o /\ red_fresh r' o = red_fresh r o.
Proof using RL.
  intros Hr Hf Hh Hz He Hst Hok. destruct (holds_board r' bid seq shapes presence) as [Hb Hv]; [done..|].
  by destruct (touch_one bid r r' Hr Hf Hb).
Qed.

(** ApplyShape's script on a live server, as the board it presents sees it. *)
Lemma applyShapeScript_spec bid id blob (del : bool) r : red_inv r -> red_seq r bid < red_limit ->
  let '(r', a) := applyShapeScript (seqKey bid) (shapesKey bid) id (if del then "1" else "0") blob r in
  a = Some (red_seq r bid + 1) /\ red_inv r' /\
  red_view r' bid = spec_apply id blob del (red_view r bid) /\
  forall o, o <> bid -> red_view r' o = red_view r o /\ red_fresh r' o = red_fresh r o.
Proof using RL.
  intros Hr Hlim. destruct (board_holds r bid (Hr bid)) as (seq & shapes & pres & Hh & Hz & He & Hst & Hv & Hok).
  assert (red_seq r bid = default 0 seq) as Es by exact (f_equal v_seq Hv).
  rewrite Es in *. set (z := default 0 seq) in *.
  assert (0 <= z <= red_limit) as Hz' by (destruct seq; [by apply Hz|]; unfold red_limit, lua_exact; simpl in *; lia).
  unfold applyShapeScript. rewrite (INCR_spec (seqKey bid) z).
  2: { unfold red_limit, lua_exact, two63 in *. lia. }
  2: apply Hh.
  2: { rewrite (h_seq _ _ _ _ _ Hh). destruct seq; [by left|by right]. }
  pose proof (holds_SET r bid seq shapes pres (z + 1) Hh) as Hh1. set (r1 := SET _ _ r) in *.
  assert (forall o, o <> bid -> same_keys r r1 o) as Hf1 by (intros o Ho; by apply SET_other).
  assert (Hlim' : 0 <= z + 1 <= red_limit) by lia.
  rewrite Hv. destruct del; simpl.
  - destruct (new_board r (HDEL (shapesKey bid) id r1) bid (Some (z + 1)) (delete id shapes) pres)
      as (H1 & H2 & H3); [done|..|by apply holds_HDEL_shapes|by intros ? [= <-]|done|by apply all_stored_delete| |].
    + intros o Ho. eapply same_keys_trans; [by apply Hf1|].
      apply HDEL_other; [apply Hh1|auto with wb|intros E; apply Ho; by apply shapesKey_inj in E|auto with wb].
    + unfold held_view. rewrite omap_delete. exact (view_ok_apply id blob true _ Hok).
    + split_and!; [done|done| |done]. rewrite H2. unfold held_view, spec_apply. simpl. by rewrite omap_delete.
  - rewrite lua_tostring_spec by (unfold red_limit in *; lia).
    change (FormatUint (z + 1) +:+ String nl blob) with (stored (z + 1) blob).
    assert (omap parse_stored (<[id := stored (z + 1) blob]> shapes) =
      <[id := Entry (z + 1) blob]> (omap parse_stored shapes)) as Eo.
    { apply omap_insert_Some. apply parse_stored_stored. by apply limit_u64. }
    destruct (new_board r (HSET (shapesKey bid) id (stored (z + 1) blob) r1) bid (Some (z + 1))
      (<[id := stored (z + 1) blob]> shapes) pres)
      as (H1 & H2 & H3); [done|..|by apply holds_HSET_shapes|by intros ? [= <-]|done| | |].
    + intros o Ho. eapply same_keys_trans; [by apply Hf1|].
      apply HSET_other; [apply Hh1|auto with wb|intros E; apply Ho; by apply shapesKey_inj in E|auto with wb].
    + apply all_stored_insert; [done|by apply limit_u64].
    + unfold held_view. rewrite Eo. exact (view_ok_apply id blob false _ Hok).
    + split_and!; [done|done| |done]. rewrite H2. unfold held_view, spec_apply. simpl. by rewrite Eo.
Qed.
(** The loop of the hydrate script over the shapes of a snapshot. *)
Lemma hydrate_pairs_spec bid (l : list SnapshotShape) r seq shapes pres :
  holds r bid seq shapes pres -> all_stored shapes -> (forall s, s ∈ l -> is_u64 (ss_Seq s)) ->
  let r' := hydrate_pairs (shapesKey bid) (flat_map (fun s =>
    [ss_ID s; stored (ss_Seq s) (bytes_text (ss_Shape s))]) l) r in
  exists shapes', holds r' bid seq shapes' pres /\ all_stored shapes' /\
    omap parse_stored shapes' =
      fold_left (fun m s => <[ss_ID s := (shape_entry s).2]> m) l (omap parse_stored shapes) /\
    forall o, o <> bid -> same_keys r r' o.
Proof using RL.
  revert r shapes. induction l as [|s l IH]; intros r shapes Hh Hst Hl; simpl.
  { exists shapes. split_and!; [done..|]. by intros o _. }
  assert (is_u64 (ss_Seq s)) as Hs by (apply Hl; left).
  set (v := stored (ss_Seq s) (bytes_text (ss_Shape s))).
  destruct (IH (HSET (shapesKey bid) (ss_ID s) v r) (<[ss_ID s := v]> shapes)) as (shapes' & H1 & H2 & H3 & H4).
  - by apply holds_HSET_shapes.
  - by apply all_stored_insert.
  - intros s' Hs'. apply Hl. by right.
  - exists shapes'. split_and!; [done|done| |].
    + rewrite H3. f_equal. apply omap_insert_Some. by apply parse_stored_stored.
    + intros o Ho. eapply same_keys_trans; [|by apply H4].
      apply HSET_other; [apply Hh|auto with wb|intros E; apply Ho; by apply shapesKey_inj in E|auto with wb].
Qed.

Lemma hydrateScript_spec bid snap r : red_inv r -> snap_ok snap -> sn_Seq snap <= red_limit ->
  let '(r', a) := hydrateScript (seqKey bid) (shapesKey bid) (FormatUint (sn_Seq snap)) (hydrate_argv snap) r in
  a = Some (if red_fresh r bid then 1 else 0) /\ red_inv r' /\
  red_view r' bid = (if red_fresh r bid then spec_load snap (red_view r bid) else red_view r bid) /\
  forall o, o <> bid -> red_view r' o = red_view r o /\ red_fresh r' o = red_fresh r o.
Proof using RL.
  intros Hr Hsnap Hlim. destruct (board_holds r bid (Hr bid)) as (seq & shapes & pres & Hh & Hz & He & Hst & Hv & Hok).
  pose proof (holds_fresh r bid _ _ _ Hh) as Hfr.
  unfold hydrateScript. rewrite <-(negb_involutive (EXISTS _ _)). fold (red_fresh r bid). rewrite Hfr.
  case_bool_decide as E; simpl; [|done].
  pose proof (so_seq _ Hsnap). subst seq. rewrite (He eq_refl) in *.
  destruct (hydrate_pairs_spec bid (sn_Shapes snap) (SET (seqKey bid) (FormatUint (sn_Seq snap)) r)
    (Some (sn_Seq snap)) ∅ pres) as (shapes' & H1 & H2 & H3 & H4).
  - by eapply holds_SET.
  - done.
  - intros s Hs. apply limit_u64. pose proof (so_range _ Hsnap s Hs). lia.
  - split; [done|]. unfold hydrate_argv. fold (stored).
    assert (held_view (Some (sn_Seq snap)) shapes' pres = spec_load snap (red_view r bid)) as Hv'.
    { rewrite Hv. unfold held_view, spec_load. simpl. by rewrite H3, omap_empty. }
    rewrite <-Hv'. eapply new_board; [done| |done|by intros ? [= <-]|done|done|].
    + intros o Ho. eapply same_keys_trans; [by apply SET_other|by apply H4].
    + rewrite Hv', Hv. unfold held_view. simpl. rewrite omap_empty. by apply load_ok.
Qed.

(** The presence commands. *)
Lemma HSET_presence_spec bid cid p r : red_inv r ->
  let r' := HSET (presenceKey bid) cid p r in
  red_inv r' /\ red_view r' bid = spec_set_presence cid p (red_view r bid) /\
  (forall o, red_fresh r' o = red_fresh r o) /\ forall o, o <> bid -> red_view r' o = red_view r o.
Proof using RL.
  intros Hr. destruct (board_holds r bid (Hr bid)) as (seq & shapes & pres & Hh & Hz & He & Hst & Hv & Hok).
  destruct (new_board r (HSET (presenceKey bid) cid p r) bid seq shapes (<[cid := p]> pres))
    as (H1 & H2 & H3); [done|..|by apply holds_HSET_presence|done|done|done| |].
  - intros o Ho.
    apply HSET_other; [apply Hh|auto with wb..|intros E; apply Ho; by apply presenceKey_inj in E].
  - destruct Hok. by split.
  - split_and!; [done|by rewrite H2, Hv| |by intros o Ho; apply H3].
    intros o. destruct (decide (o = bid)) as [->|Ho]; [|by apply H3].
    rewrite (holds_fresh _ _ _ _ _ Hh). eapply holds_fresh. by apply holds_HSET_presence.
Qed.

Lemma HDEL_presence_spec bid cid r : red_inv r ->
  let r' := HDEL (presenceKey bid) cid r in
  red_inv r' /\ red_view r' bid = spec_remove_presence cid (red_view r bid) /\
  (forall o, red_fresh r' o = red_fresh r o) /\ forall o, o <> bid -> red_view r' o = red_view r o.
Proof using RL.
  intros Hr. destruct (board_holds r bid (Hr bid)) as (seq & shapes & pres & Hh & Hz & He & Hst & Hv & Hok).
  destruct (new_board r (HDEL (presenceKey bid) cid r) bid seq shapes (delete cid pres))
    as (H1 & H2 & H3); [done|..|by apply holds_HDEL_presence|done|done|done| |].
  - intros o Ho.
    apply HDEL_other; [apply Hh|auto with wb..|intros E; apply Ho; by apply presenceKey_inj in E].
  - destruct Hok. by split.
  - split_and!; [done|by rewrite H2, Hv| |by intros o Ho; apply H3].
    intros o. destruct (decide (o = bid)) as [->|Ho]; [|by apply H3].
    rewrite (holds_fresh _ _ _ _ _ Hh). eapply holds_fresh. by apply holds_HDEL_presence.
Qed.

Lemma PUBLISH_spec c msg r : red_inv r ->
  red_inv (PUBLISH c msg r) /\
  forall o, red_view (PUBLISH c msg r) o = red_view r o /\ red_fresh (PUBLISH c msg r) o = red_fresh r o.
Proof using RL.
  intros Hr. assert (forall o, same_keys r (PUBLISH c msg r) o) as Hf.
  { intros o. unfold same_keys. by rewrite !GET_PUBLISH, !HGETALL_PUBLISH. }
  split; intros o; by apply (same_keys_board r _ o (Hf o) (Hr o)).
Qed.

(** Snapshot, its two reads taken in one server state. *)
Lemma Snapshot_at_spec f bid r : red_inv r ->
  reads f (fun snap => is_snapshot (red_view r bid) snap) (Snapshot_at f f bid r r).
Proof using RL.
  intros Hr. unfold Snapshot_at. destruct f; simpl; try done.
  pose proof (Hr bid) as Hb. destruct (red_seq_cases r bid Hb) as [Hz Hs].
  assert (counter (GET (seqKey bid) r) = Ok (red_seq r bid)) as ->.
  { destruct Hs as [->|(-> & -> & _)]; [|done]. simpl.
    by rewrite ParseUint_FormatUint by auto with wb. }
  simpl. split; [done|]. split; [apply sort_by_sorted; apply _|]. unfold snapshot_shapes. simpl.
  change (map shape_entry) with (fmap (M:=list) shape_entry).
  rewrite (fmap_Permutation shape_entry _ _ (sort_by_perm _ _ _)).
  change (fmap (M:=list) shape_entry) with (map shape_entry). rewrite omap_snapshot_shape.
  unfold red_view. simpl. apply map_to_list_omap.
Qed.
(** A round trip that changes one board, on every fault. *)
Lemma round_trip_board {A} (f : fault) (cmd : R -> R * option A) bid r after (a : A) :
  red_inv r ->
  (let '(r', x) := cmd r in x = Some a /\ red_inv r' /\ red_view r' bid = after /\
    forall o, o <> bid -> red_view r' o = red_view r o /\ red_fresh r' o = red_fresh r o) ->
  let '(r', x) := round_trip f cmd r in
  red_inv r' /\ outcome f a (red_view r bid) after (red_view r' bid) x /\
  forall o, o <> bid -> red_view r' o = red_view r o /\ red_fresh r' o = red_fresh r o.
Proof using Type.
  intros Hr H. unfold round_trip. destruct (cmd r) as [r' x]. destruct H as (-> & H1 & H2 & H3).
  destruct f; (split_and!; [done| |done]); unfold outcome.
  - by left.
  - right. split_and!; [done|by eexists|by left].
  - right. split_and!; [done|by eexists|by right].
Qed.

Lemma outcome_map {A B} f (g : A -> B) a before after now (x : result A) :
  outcome f a before after now x ->
  outcome f (g a) before after now (match x with Err e => Err e | Ok x => Ok (g x) end).
Proof using Type.
  intros [[-> ?]|(? & [e ->] & ?)]; [by left|]. right. split_and!; [done|by eexists|done].
Qed.

Lemma red_counter_u64 r bid : red_inv r -> red_seq r bid < red_limit ->
  u64 (red_seq r bid + 1) = red_seq r bid + 1.
Proof using Type.
  intros Hr Hlim. destruct (red_seq_cases r bid (Hr bid)) as [Hz _].
  apply u64_small, limit_u64. lia.
Qed.
End laws.

#[export] Program Instance Redis_laws {R} {RS : RedisServer R} {RL : @RedisLaws R RS} : BrokerLaws R := {|
  br_inv := red_inv;
  br_view := red_view;
  br_fresh := red_fresh;
  br_limit := red_limit;
|}.
Next Obligation. intros R RS RL b id Hb. apply (rb_ok b id (Hb id)). Qed.
Next Obligation. done. Qed.
Next Obligation.
  intros R RS RL b id Hb Hf. destruct (board_holds b id (Hb id)) as (seq & shapes & pres & Hh & _ & He & _ & -> & _).
  rewrite (holds_fresh _ _ _ _ _ Hh) in Hf. apply bool_decide_eq_true in Hf as ->.
  rewrite He by done. unfold held_view. simpl. by rewrite omap_empty.
Qed.
Next Obligation.
  intros R RS RL b id Hb Hf. destruct (board_holds b id (Hb id)) as (seq & shapes & pres & Hh & _ & _ & _ & Hv & _).
  rewrite (holds_fresh _ _ _ _ _ Hh). rewrite Hv in Hf. destruct seq; [done|]. simpl in Hf. lia.
Qed.
Next Obligation.
  intros R RS RL f bid id shape del b Hb Hlim. simpl in *. unfold ApplyShape.
  pose proof (round_trip_board f
    (applyShapeScript (seqKey bid) (shapesKey bid) id (if del then "1" else "0") (bytes_text shape))
    bid b _ _ Hb (applyShapeScript_spec bid id (bytes_text shape) del b Hb Hlim)) as H.
  destruct (round_trip _ _ _) as [r' x]. destruct H as (H1 & H2 & H3). split_and!; [done| |done].
  rewrite <-red_counter_u64 by done. by apply outcome_map.
Qed.
Next Obligation.
  intros R RS RL f bid msg b Hb. simpl. unfold Publish, round_trip.
  destruct (PUBLISH_spec (channelKey bid) msg b Hb) as [H1 H2]. destruct f; by split_and!.
Qed.
Next Obligation.
  intros R RS RL f bid b Hb. simpl. unfold Snapshot. split_and!; [done..|]. by apply Snapshot_at_spec.
Qed.
Next Obligation.
  intros R RS RL f bid snap b Hb Hs Hlim. simpl in *. unfold Hydrate.
  pose proof (round_trip_board f
    (hydrateScript (seqKey bid) (shapesKey bid) (FormatUint (sn_Seq snap)) (hydrate_argv snap))
    bid b _ _ Hb (hydrateScript_spec bid snap b Hb Hs Hlim)) as H.
  destruct (round_trip _ _ _) as [r' x]. destruct H as (H1 & H2 & H3). split_and!; [done| |done].
  apply (outcome_map f (fun n => n =? 1)) in H2. by destruct (red_fresh b bid).
Qed.
Next Obligation.
  intros R RS RL f bid snap b Hb Hf. simpl in *. unfold Hydrate, round_trip, hydrateScript.
  unfold red_fresh in *. apply negb_false_iff in Hf. rewrite Hf. destruct f; simpl; by rewrite Hf.
Qed.
Next Obligation.
  intros R RS RL f bid cid p b Hb. simpl. unfold SetPresence, round_trip.
  destruct (HSET_presence_spec bid cid p b Hb) as (H1 & H2 & H3 & H4).
  destruct f; (split_and!; [done| |done..]); unfold outcome; [by left| |];
    right; (split_and!; [done|by eexists|]); [by left|by right].
Qed.
Next Obligation.
  intros R RS RL f bid cid b Hb. simpl. unfold RemovePresence, round_trip.
  destruct (HDEL_presence_spec bid cid b Hb) as (H1 & H2 & H3 & H4).
  destruct f; (split_and!; [done| |done..]); unfold outcome; [by left| |];
    right; (split_and!; [done|by eexists|]); [by left|by right].
Qed.
Next Obligation.
  intros R RS RL f bid b Hb. simpl. unfold Presence, round_trip. destruct f; (split_and!; [done..|]); try done.
  simpl. split; [apply sort_by_sorted; apply _|apply sort_by_perm].
Qed.
