(* ===== verification/Subscription.v ===== *)
(** The Redis subscription (internal/broker/redis.go, [Subscribe]): the
    goroutine that copies messages from the client library's channel to the
    buffered channel the board reads, until the board's context is done.

    The library is outside the program: its side of a subscription is the
    channel [pubsub.Channel()], on which it may put a message or which it may
    close at any time. *)

From S2P Require Import Prelude.

(** ** State *)

(** Where the goroutine is: in its outer select, in the inner one with a
    message in hand, in its deferred calls, or returned. *)
Inductive spc :=
  | PSelect
  | PSend (msg : string)
  | PClosePubSub
  | PCloseOut
  | PEnd.

#[export] Instance spc_eq_dec : EqDecision spc.
Proof. solve_decision. Defined.

(** [su_pushed] and [su_got] are histories: all the messages the library has
    delivered, and all that the board has received. *)
Record Sub := {
  su_pc : spc;
  su_in : list string;
  su_in_closed : bool;
  su_out : list string;
  su_out_closed : bool;
  su_pubsub_closed : bool;
  su_done : bool;
  su_pushed : list string;
  su_got : list string;
}.

(** The capacity of [out]. *)
Definition out_buffer : nat := 256.

Definition sub_start : Sub :=
  {| su_pc := PSelect; su_in := []; su_in_closed := false; su_out := []; su_out_closed := false;
     su_pubsub_closed := false; su_done := false; su_pushed := []; su_got := [] |}.

(** [Subscribe] itself, given the outcome of waiting for the confirmation: the
    subscription it starts, and whether it has closed the library's. *)
Definition Subscribe (confirmed : result unit) : result Sub * bool :=
  match confirmed with
  | Err e => (Err e, true)
  | Ok _ => (Ok sub_start, false)
  end.

Definition set_pc (p : spc) (s : Sub) : Sub :=
  {| su_pc := p; su_in := su_in s; su_in_closed := su_in_closed s; su_out := su_out s; su_out_closed := su_out_closed s;
     su_pubsub_closed := su_pubsub_closed s; su_done := su_done s; su_pushed := su_pushed s; su_got := su_got s |}.
Definition set_in (q : list string) (s : Sub) : Sub :=
  {| su_pc := su_pc s; su_in := q; su_in_closed := su_in_closed s; su_out := su_out s; su_out_closed := su_out_closed s;
     su_pubsub_closed := su_pubsub_closed s; su_done := su_done s; su_pushed := su_pushed s; su_got := su_got s |}.
Definition set_out (q : list string) (s : Sub) : Sub :=
  {| su_pc := su_pc s; su_in := su_in s; su_in_closed := su_in_closed s; su_out := q; su_out_closed := su_out_closed s;
     su_pubsub_closed := su_pubsub_closed s; su_done := su_done s; su_pushed := su_pushed s; su_got := su_got s |}.

(** [out <- msg], which panics on a closed channel. *)
Definition send_out (msg : string) (s : Sub) : option Sub :=
  if su_out_closed s then None else Some (set_out (su_out s ++ [msg]) s).

(** [close(out)], which panics on a closed channel. *)
Definition close_out (s : Sub) : option Sub :=
  if su_out_closed s then None
  else Some {| su_pc := su_pc s; su_in := su_in s; su_in_closed := su_in_closed s; su_out := su_out s;
               su_out_closed := true; su_pubsub_closed := su_pubsub_closed s; su_done := su_done s;
               su_pushed := su_pushed s; su_got := su_got s |}.

(** [pubsub.Close()] *)
Definition close_pubsub (s : Sub) : Sub :=
  {| su_pc := su_pc s; su_in := su_in s; su_in_closed := su_in_closed s; su_out := su_out s;
     su_out_closed := su_out_closed s; su_pubsub_closed := true; su_done := su_done s;
     su_pushed := su_pushed s; su_got := su_got s |}.

(** ** The goroutine; [None] is a panic *)

Inductive pump_step : Sub -> option Sub -> Prop :=
  | ps_recv s msg q : su_pc s = PSelect -> su_in s = msg :: q ->
      pump_step s (Some (set_pc (PSend msg) (set_in q s)))
  | ps_in_closed s : su_pc s = PSelect -> su_in s = [] -> su_in_closed s = true ->
      pump_step s (Some (set_pc PClosePubSub s))
  | ps_done s : su_pc s = PSelect -> su_done s = true -> pump_step s (Some (set_pc PClosePubSub s))
  | ps_send s msg : su_pc s = PSend msg -> (length (su_out s) < out_buffer)%nat ->
      pump_step s (set_pc PSelect <$> send_out msg s)
  | ps_send_done s msg : su_pc s = PSend msg -> su_done s = true -> pump_step s (Some (set_pc PClosePubSub s))
  | ps_close_pubsub s : su_pc s = PClosePubSub -> pump_step s (Some (set_pc PCloseOut (close_pubsub s)))
  | ps_close_out s : su_pc s = PCloseOut -> pump_step s (set_pc PEnd <$> close_out s).

(** ** Everybody else: the library, the board's context, the board *)

Definition push_in (msg : string) (s : Sub) : Sub :=
  {| su_pc := su_pc s; su_in := su_in s ++ [msg]; su_in_closed := su_in_closed s; su_out := su_out s;
     su_out_closed := su_out_closed s; su_pubsub_closed := su_pubsub_closed s; su_done := su_done s;
     su_pushed := su_pushed s ++ [msg]; su_got := su_got s |}.
Definition close_in (s : Sub) : Sub :=
  {| su_pc := su_pc s; su_in := su_in s; su_in_closed := true; su_out := su_out s; su_out_closed := su_out_closed s;
     su_pubsub_closed := su_pubsub_closed s; su_done := su_done s; su_pushed := su_pushed s; su_got := su_got s |}.
Definition cancel (s : Sub) : Sub :=
  {| su_pc := su_pc s; su_in := su_in s; su_in_closed := su_in_closed s; su_out := su_out s;
     su_out_closed := su_out_closed s; su_pubsub_closed := su_pubsub_closed s; su_done := true;
     su_pushed := su_pushed s; su_got := su_got s |}.
Definition take_out (msg : string) (q : list string) (s : Sub) : Sub :=
  {| su_pc := su_pc s; su_in := su_in s; su_in_closed := su_in_closed s; su_out := q; su_out_closed := su_out_closed s;
     su_pubsub_closed := su_pubsub_closed s; su_done := su_done s; su_pushed := su_pushed s;
     su_got := su_got s ++ [msg] |}.

Inductive sub_step : Sub -> option Sub -> Prop :=
  | ss_pump s r : pump_step s r -> sub_step s r
  | ss_push s msg : su_in_closed s = false -> sub_step s (Some (push_in msg s))
  | ss_close_in s : sub_step s (Some (close_in s))
  | ss_cancel s : sub_step s (Some (cancel s))
  | ss_take s msg q : su_out s = msg :: q -> sub_step s (Some (take_out msg q s)).

Inductive sub_reachable : Sub -> Prop :=
  | sub_reachable_start : sub_reachable sub_start
  | sub_reachable_step s s' : sub_reachable s -> sub_step s (Some s') -> sub_reachable s'.

(** ** The invariant *)

Definition held (p : spc) : list string := match p with PSend msg => [msg] | _ => [] end.
Definition leaving (p : spc) : bool := match p with PSelect | PSend _ => false | _ => true end.

Record sub_inv (s : Sub) : Prop := {
  (** nothing is lost, duplicated or reordered, but for a message in hand when
      the context was done *)
  si_fifo : exists lost, su_pushed s = su_got s ++ su_out s ++ held (su_pc s) ++ lost ++ su_in s /\
    (length lost <= 1)%nat /\ (lost <> [] -> su_done s = true /\ leaving (su_pc s) = true);
  si_bound : (length (su_out s) <= out_buffer)%nat;
  (** the channel is closed at the very end, after the library's *)
  si_out : su_out_closed s = true <-> su_pc s = PEnd;
  si_pubsub : su_pubsub_closed s = true <-> su_pc s = PCloseOut \/ su_pc s = PEnd;
  (** and the goroutine leaves only for a reason *)
  si_leave : leaving (su_pc s) = true -> su_done s = true \/ su_in_closed s = true;
}.

Lemma sub_inv_start : sub_inv sub_start.
Proof. split; simpl; [exists []; split_and!; [done|simpl; lia|done]|unfold out_buffer; lia|naive_solver..]. Qed.

Lemma not_closed s : sub_inv s -> su_pc s <> PEnd -> su_out_closed s = false.
Proof. intros Hs Hp. destruct (su_out_closed s) eqn:E; [|done]. by apply (si_out s Hs) in E. Qed.

(** The fields of the invariant that only look at flags and program counters. *)
Ltac sub_flags := try (intuition (congruence || lia)).

(** The goroutine never panics, and keeps the invariant. *)
Lemma pump_step_inv s r : sub_inv s -> pump_step s r -> exists s', r = Some s' /\ sub_inv s'.
Proof.
  intros Hs Hst. pose proof Hs as [(lost & Hf & Hl & Hd) Hb Ho Hp Hle].
  destruct Hst as [s msg q Epc Ein|s Epc Ein Ec|s Epc Ec|s msg Epc Hlen|s msg Epc Ec|s Epc|s Epc];
    rewrite Epc in *; simpl in *.
  - eexists. split; [done|]. split; simpl; [|sub_flags..].
    destruct lost; [|by destruct Hd]. exists []. rewrite Hf, Ein. by split_and!.
  - eexists. split; [done|]. split; simpl; [|sub_flags..]. exists lost. split_and!; [done..|by intuition congruence].
  - eexists. split; [done|]. split; simpl; [|sub_flags..]. exists lost. split_and!; [done..|by intuition congruence].
  - unfold send_out. rewrite (not_closed s Hs) by (by rewrite Epc). simpl. eexists. split; [done|].
    split; simpl; [|sub_flags..].
    + destruct lost; [|by destruct Hd]. exists []. rewrite Hf. simpl. split_and!; [by rewrite <-!app_assoc|lia|done].
    + rewrite length_app. simpl. lia.
  - eexists. split; [done|]. split; simpl; [|sub_flags..].
    destruct lost; [|by destruct Hd]. exists [msg]. split_and!; [done|done|by intuition congruence].
  - eexists. split; [done|]. split; simpl; [|sub_flags..]. exists lost. split_and!; [done..|by intuition congruence].
  - unfold close_out. rewrite (not_closed s Hs) by (by rewrite Epc). simpl. eexists. split; [done|].
    split; simpl; [|sub_flags..]. exists lost. split_and!; [done..|by intuition congruence].
Qed.

Lemma sub_step_inv s r : sub_inv s -> sub_step s r -> exists s', r = Some s' /\ sub_inv s'.
Proof.
  intros Hs Hst. pose proof Hs as [(lost & Hf & Hl & Hd) Hb Ho Hp Hle].
  destruct Hst as [s r Hst|s msg Hc|s|s|s msg q Eo]; [by apply (pump_step_inv s)|..]; eexists; (split; [done|]);
    split; simpl; [|sub_flags..].
  - exists lost. split_and!; [|done..]. rewrite Hf. by rewrite <-!app_assoc.
  - by exists lost.
  - exists lost. split_and!; [done..|by intuition].
  - exists lost. split_and!; [|done..]. rewrite Hf, Eo. by rewrite <-!app_assoc.
  - rewrite Eo in Hb. simpl in Hb. lia.
Qed.

Lemma sub_reachable_inv s : sub_reachable s -> sub_inv s.
Proof.
  induction 1 as [|s s' _ IH Hst]; [apply sub_inv_start|]. by destruct (sub_step_inv s _ IH Hst) as (? & [= ->] & ?).
Qed.

(** ** Termination *)

Definition pump_goes s s' : Prop := pump_step s (Some s').

(** The steps the goroutine has left if the library adds nothing. *)
Definition pump_work (s : Sub) : nat :=
  (2 * length (su_in s) +
   match su_pc s with PSelect => 3 | PSend _ => 4 | PClosePubSub => 2 | PCloseOut => 1 | PEnd => 0 end)%nat.

Lemma pump_decreases s s' : pump_goes s s' -> (pump_work s' < pump_work s)%nat.
Proof.
  unfold pump_goes, pump_work. intros Hst. inversion Hst as [? ? ? E Ein|? E|? E|? ? E ? Er|? ? E|? E|? E Er]; subst.
  all: rewrite ?E; simpl; rewrite ?Ein; simpl; try lia.
  - unfold send_out in *. destruct (su_out_closed s); simplify_eq/=. lia.
  - unfold close_out in *. destruct (su_out_closed s); simplify_eq/=. lia.
Qed.

Lemma pump_bounded n s s' : nsteps pump_goes n s s' -> (n + pump_work s' <= pump_work s)%nat.
Proof. induction 1 as [|n s s1 s' Hg _ IH]; [done|]. apply pump_decreases in Hg. lia. Qed.

(** Once the context is done, the goroutine is never blocked. *)
Lemma pump_progress s : sub_inv s -> su_done s = true -> su_pc s <> PEnd -> exists s', pump_goes s s'.
Proof.
  intros Hs Hd Hp. unfold pump_goes. destruct (su_pc s) eqn:E; try done.
  - eexists. by apply ps_done.
  - eexists. by eapply ps_send_done.
  - eexists. by apply ps_close_pubsub.
  - pose proof (ps_close_out s E) as H. unfold close_out in H. rewrite (not_closed s Hs) in H by congruence. by eexists.
Qed.

(** While it is live, the goroutine waits only for the board to read, or for
    the library to send. *)
Lemma pump_blocked s : sub_inv s -> (forall s', ~ pump_goes s s') ->
  su_pc s = PEnd \/
  (su_done s = false /\ ((su_pc s = PSelect /\ su_in s = [] /\ su_in_closed s = false) \/
    exists msg, su_pc s = PSend msg /\ length (su_out s) = out_buffer)).
Proof.
  intros Hs Hno. destruct (decide (su_pc s = PEnd)) as [|Hp]; [by left|]. right.
  assert (su_done s = false) as Hd.
  { destruct (su_done s) eqn:E; [|done]. destruct (pump_progress s Hs E Hp) as [s' ?]. by destruct (Hno s'). }
  split; [done|]. destruct (su_pc s) eqn:E; try done.
  - left. destruct (su_in s) eqn:Ei; [|by edestruct Hno; eapply ps_recv].
    destruct (su_in_closed s) eqn:Ec; [by edestruct Hno; apply ps_in_closed|done].
  - right. exists msg. split; [done|]. pose proof (si_bound s Hs).
    destruct (decide (length (su_out s) < out_buffer)%nat) as [Hl|]; [|lia].
    pose proof (ps_send s msg E Hl) as H1. unfold send_out in H1. rewrite (not_closed s Hs) in H1 by congruence.
    by edestruct Hno.
  - by edestruct Hno; apply ps_close_pubsub.
  - pose proof (ps_close_out s E) as H1. unfold close_out in H1. rewrite (not_closed s Hs) in H1 by congruence.
    by edestruct Hno.
Qed.

Lemma sub_reachable_rtc s s' : sub_reachable s -> rtc pump_goes s s' -> sub_reachable s'.
Proof.
  intros Hs Hr. induction Hr as [|s s1 s' Hg _ IH]; [done|]. apply IH. eapply sub_reachable_step; [done|].
  by apply ss_pump.
Qed.

Lemma pump_keeps_done s s' : rtc pump_goes s s' -> su_done s' = su_done s.
Proof.
  induction 1 as [|s s1 s' Hg _ IH]; [done|]. rewrite IH. inversion Hg; subst; try done.
  - unfold send_out in *. by destruct (su_out_closed s); simplify_eq/=.
  - unfold close_out in *. by destruct (su_out_closed s); simplify_eq/=.
Qed.
