(* ===== verification/Store.v ===== *)
(** The durable store (internal/store): the interface with its staleness guard
    and durability laws, and the in-process store.  The Postgres store is in
    [Postgres.v]. *)

From S2P Require Import Prelude Strconv Utf8 Json JsonFacts JsonLocal Protocol Broker.
Local Open Scope Z_scope.

(** ** The interface *)

Class Store (S : Type) := {
  st_LoadSnapshot : fault -> string -> S -> result (Snapshot * bool);
  st_SaveSnapshot : fault -> string -> Snapshot -> S -> S * result unit;
}.

(** What a save does to the stored snapshot of a board: a stale one, of a lower
    sequence, changes nothing. *)
Definition save_guard (old : option Snapshot) (new : Snapshot) : Snapshot :=
  match old with
  | Some cur => if sn_Seq new <? sn_Seq cur then cur else new
  | None => new
  end.

(** Two snapshots alike but for the texts of their blobs, which are related. *)
Definition snap_sim (sim : RawMessage -> RawMessage -> Prop) (s t : Snapshot) : Prop :=
  sn_Seq s = sn_Seq t /\
  Forall2 (fun x y => ss_Seq x = ss_Seq y /\ ss_ID x = ss_ID y /\ sim (ss_Shape x) (ss_Shape y))
    (sn_Shapes s) (sn_Shapes t).

Class StoreLaws (S : Type) `{Store S} := {
  st_inv : S -> Prop;
  (** the snapshot a load would return *)
  st_view : S -> string -> option Snapshot;
  (** how a blob may change on its way through the store *)
  st_sim : RawMessage -> RawMessage -> Prop;
  (** the snapshots a store accepts *)
  st_valid : Snapshot -> Prop;

  LoadSnapshot_law : forall f bid s, st_inv s ->
    reads f (fun r => r = match st_view s bid with Some snap => (snap, true) | None => (Snapshot_zero, false) end)
      (st_LoadSnapshot f bid s);

  SaveSnapshot_law : forall f bid snap s, st_inv s -> st_valid snap ->
    let '(s', r) := st_SaveSnapshot f bid snap s in
    st_inv s' /\ (forall o, o <> bid -> st_view s' o = st_view s o) /\
    (** whatever happens, the board's snapshot is the old or the guarded one *)
    (st_view s' bid = st_view s bid \/
     exists stored, snap_sim st_sim snap stored /\ st_view s' bid = Some (save_guard (st_view s bid) stored)) /\
    (r = Ok tt -> exists stored, snap_sim st_sim snap stored /\
      st_view s' bid = Some (save_guard (st_view s bid) stored));
}.

(** ** Consequences of the guard *)

Lemma save_guard_seq old new : sn_Seq (save_guard old new) =
  match old with Some cur => Z.max (sn_Seq cur) (sn_Seq new) | None => sn_Seq new end.
Proof. unfold save_guard. destruct old; [|done]. destruct (Z.ltb_spec (sn_Seq new) (sn_Seq s)); lia. Qed.

Definition stored_seq (o : option Snapshot) : Z := match o with Some s => sn_Seq s | None => 0 end.

Lemma save_guard_mono old new : 0 <= sn_Seq new -> stored_seq old <= sn_Seq (save_guard old new).
Proof. rewrite save_guard_seq. destruct old; simpl; lia. Qed.

Lemma snap_sim_refl sim s : (forall m, sim m m) -> snap_sim sim s s.
Proof. intros Hs. split; [done|]. apply Forall_Forall2_diag, Forall_forall. auto. Qed.

Lemma snap_sim_eq s t : snap_sim eq s t -> s = t.
Proof.
  intros [E H]. destruct s as [q l], t as [q' l']. simpl in *. subst. f_equal.
  induction H as [|[] [] l l' (?&?&?) _ IH]; simpl in *; congruence.
Qed.

(** ** The in-process store (internal/store/memory.go) *)

Module MemoryStore.
Record Memory := { snaps : gmap string Snapshot }.

Definition NewMemory : Memory := {| snaps := ∅ |}.

Definition LoadSnapshot (boardID : string) (m : Memory) : result (Snapshot * bool) :=
  match snaps m !! boardID with
  | Some snap => Ok (snap, true)
  | None => Ok (Snapshot_zero, false)
  end.

Definition SaveSnapshot (boardID : string) (snap : Snapshot) (m : Memory) : Memory * result unit :=
  match snaps m !! boardID with
  | Some cur => if sn_Seq snap <? sn_Seq cur then (m, Ok tt)
                else ({| snaps := <[boardID := snap]> (snaps m) |}, Ok tt)
  | None => ({| snaps := <[boardID := snap]> (snaps m) |}, Ok tt)
  end.

Definition Close (m : Memory) : Memory * result unit := (m, Ok tt).

#[global] Instance Memory_store : Store Memory := {|
  st_LoadSnapshot _ := LoadSnapshot;
  st_SaveSnapshot _ := SaveSnapshot;
|}.

(** The store keeps exactly the newest snapshot saved. *)
Lemma SaveSnapshot_spec bid snap m :
  let '(m', r) := SaveSnapshot bid snap m in
  r = Ok tt /\ snaps m' = <[bid := save_guard (snaps m !! bid) snap]> (snaps m).
Proof.
  unfold SaveSnapshot, save_guard. destruct (snaps m !! bid) as [cur|] eqn:E; [|done].
  destruct (sn_Seq snap <? sn_Seq cur); [|done]. split; [done|]. by rewrite insert_id.
Qed.

#[global] Program Instance Memory_laws : StoreLaws Memory := {|
  st_inv _ := True;
  st_view m bid := snaps m !! bid;
  st_sim := eq;
  st_valid _ := True;
|}.
Next Obligation. intros f bid s _. simpl. unfold LoadSnapshot. by destruct (snaps s !! bid). Qed.
Next Obligation.
  intros f bid snap m _ _. simpl. pose proof (SaveSnapshot_spec bid snap m) as H.
  destruct (SaveSnapshot bid snap m) as [m' r]. destruct H as [-> ->].
  assert (exists stored, snap_sim eq snap stored /\
    <[bid := save_guard (snaps m !! bid) snap]> (snaps m) !! bid = Some (save_guard (snaps m !! bid) stored)).
  { exists snap. split; [by apply snap_sim_refl|by rewrite lookup_insert_eq]. }
  split_and!; [done| |by right|done]. intros o Ho. by rewrite lookup_insert_ne.
Qed.
End MemoryStore.
