(* ===== verification/Postgres.v ===== *)
(** The Postgres store (internal/store/postgres.go): one row per board, written
    by a guarded upsert, its shapes in a JSONB column.  What JSONB does to a
    document is a parameter: it may refuse it, and otherwise keeps its value
    but not its text. *)

From S2P Require Import Prelude Strconv Utf8 Json JsonFacts JsonLocal Protocol Broker Store.
Local Open Scope Z_scope.

(** ** The JSONB column *)

Fixpoint last_member (k : string) (ms : list (string * (string * json))) : option json :=
  match ms with
  | [] => None
  | m :: ms' =>
      match last_member k ms' with
      | Some j => Some j
      | None => if bool_decide (string_value m.1 = k) then Some m.2.2 else None
      end
  end.

(** Documents of the same JSONB value: white space, the order of an object's
    members, all but the last of equal keys, string escapes, and the notation
    of numbers other than unsigned integers may differ. *)
Inductive jsim : json -> json -> Prop :=
  | jsim_null : jsim JNull JNull
  | jsim_bool b : jsim (JBool b) (JBool b)
  | jsim_num lit lit' : (forall z, ParseUint lit = (z, None) -> lit' = lit) -> jsim (JNum lit) (JNum lit')
  | jsim_str raw raw' : string_value raw = string_value raw' -> jsim (JStr raw) (JStr raw')
  | jsim_arr l l' : Forall2 (fun e e' => jsim e.2 e'.2) l l' -> jsim (JArr l) (JArr l')
  | jsim_obj ms ms' :
      NoDup (map (fun m => string_value m.1) ms') ->
      (forall k j, last_member k ms = Some j -> exists j', last_member k ms' = Some j' /\ jsim j j') ->
      (forall k j', last_member k ms' = Some j' -> is_Some (last_member k ms)) ->
      jsim (JObj ms) (JObj ms').

(** The column's conversion, [None] where Postgres refuses the text. *)
Class Jsonb := { jsonb : string -> option string }.

Class JsonbLaws `{Jsonb} : Prop := {
  jsonb_sim : forall t t' j, parse t = Some j -> jsonb t = Some t' ->
    exists j', parse t' = Some j' /\ jsim j j';
}.

Section postgres.
Context `{Jsonb}.

(** The table, by [board_id]: the columns [seq] and [shapes]. *)
Record row := { r_seq : Z; r_shapes : string }.

Abbreviation Postgres := (gmap string row).

(** [INSERT ... ON CONFLICT (board_id) DO UPDATE ... WHERE EXCLUDED.seq >= board_snapshots.seq] *)
Definition upsert (boardID : string) (seq : Z) (shapes : string) (p : Postgres) : Postgres * result unit :=
  match jsonb shapes with
  | None => (p, Err ErrTransport)
  | Some t =>
      match p !! boardID with
      | Some old => if r_seq old <=? seq then (<[boardID := {| r_seq := seq; r_shapes := t |}]> p, Ok tt)
                    else (p, Ok tt)
      | None => (<[boardID := {| r_seq := seq; r_shapes := t |}]> p, Ok tt)
      end
  end.

Definition LoadSnapshot (f : fault) (boardID : string) (p : Postgres) : result (Snapshot * bool) :=
  match f with
  | Delivered =>
      match p !! boardID with
      | None => Ok (Snapshot_zero, false)
      | Some row =>
          match Unmarshal dec_SnapshotShapes (r_shapes row) [] with
          | (shapes, None) => Ok ({| sn_Seq := u64 (r_seq row); sn_Shapes := shapes |}, true)
          | (_, Some e) => Err e
          end
      end
  | _ => Err ErrTransport
  end.

Definition SaveSnapshot (f : fault) (boardID : string) (snap : Snapshot) (p : Postgres)
    : Postgres * result unit :=
  match MarshalJSON (sn_Shapes snap) with
  | Err e => (p, Err e)
  | Ok shapesJSON =>
      match f with
      | Delivered => upsert boardID (s64 (sn_Seq snap)) shapesJSON p
      | RequestLost => (p, Err ErrTransport)
      | ReplyLost => ((upsert boardID (s64 (sn_Seq snap)) shapesJSON p).1, Err ErrTransport)
      end
  end.

#[global] Instance Postgres_store : Store Postgres := {|
  st_LoadSnapshot := LoadSnapshot;
  st_SaveSnapshot := SaveSnapshot;
|}.
End postgres.

(** ** Members of an object *)

Lemma last_member_elem k ms j : last_member k ms = Some j ->
  exists m, m ∈ ms /\ string_value m.1 = k /\ m.2.2 = j.
Proof.
  induction ms as [|m ms IH]; [done|]. simpl. destruct (last_member k ms) as [j'|].
  - intros [= ->]. destruct (IH eq_refl) as (m' & Hm & E). exists m'. split; [by right|done].
  - case_bool_decide; [|done]. intros [= <-]. exists m. split; [left|done].
Qed.

Lemma last_member_NoDup ms m : NoDup (map (fun m => string_value m.1) ms) -> m ∈ ms ->
  last_member (string_value m.1) ms = Some m.2.2.
Proof.
  induction ms as [|m' ms IH]; intros Hn Hm; [by apply elem_of_nil in Hm|].
  simpl in *. apply NoDup_cons in Hn as [Hm' Hn]. apply elem_of_cons in Hm as [->|Hm].
  - destruct (last_member _ ms) as [j|] eqn:E; [|by rewrite bool_decide_true].
    apply last_member_elem in E as (m & Hm & E & _). destruct Hm'.
    rewrite <-E. by apply (list_elem_of_fmap_2 (fun m => string_value m.1)).
  - by rewrite IH.
Qed.

Section decode.
Context (seq : Z) (id : string) (v : json) (Hseq : is_u64 seq).

(** What a member of a stored shape may be. *)
Definition shape_member (m : string * (string * json)) : Prop :=
  (string_value m.1 = "seq" /\ m.2.2 = JNum (FormatUint seq)) \/
  (string_value m.1 = "id" /\ exists raw, m.2.2 = JStr raw /\ string_value raw = id) \/
  (string_value m.1 = "shape" /\ parse m.2.1 = Some m.2.2 /\ jsim v m.2.2).

Definition keyed (k : string) (ms : list (string * (string * json))) : Prop :=
  exists m, m ∈ ms /\ string_value m.1 = k.

(** The fields that have been set, once the keys in [done] have been seen. *)
Definition shape_state (seen : list (string * (string * json))) (st : SnapshotShape * bool) : Prop :=
  st.2 = true /\
  (keyed "seq" seen -> ss_Seq st.1 = seq) /\ (keyed "id" seen -> ss_ID st.1 = id) /\
  (keyed "shape" seen -> exists raw v', ss_Shape st.1 = Some raw /\ parse raw = Some v' /\ jsim v v').

Lemma keyed_snoc k ms m : keyed k (ms ++ [m]) <-> keyed k ms \/ string_value m.1 = k.
Proof using Type.
  unfold keyed. setoid_rewrite elem_of_app. setoid_rewrite list_elem_of_singleton. naive_solver.
Qed.

Lemma shape_state_step seen st m : shape_member m -> shape_state seen st ->
  shape_state (seen ++ [m]) (dec_member ["seq"; "id"; "shape"] set_SnapshotShape st m).
Proof using Hseq.
  intros Hm (H0 & H1 & H2 & H3). unfold shape_state. rewrite !keyed_snoc.
  destruct m as [k [raw j]], st as [s ok]. simpl in *. subst ok.
  destruct Hm as [[Hk Hj]|[[Hk (raw' & Hj & Hid)]|(Hk & Hp & Hj)]]; simpl in *; subst;
    unfold dec_member; simpl; rewrite Hk; simpl; unfold set_SnapshotShape; simpl.
  - rewrite ParseUint_FormatUint by done. simpl. naive_solver.
  - naive_solver.
  - split_and!; [done|naive_solver|naive_solver|]. intros _. eauto.
Qed.

Lemma shape_state_fold ms seen st : (forall m, m ∈ ms -> shape_member m) -> shape_state seen st ->
  shape_state (seen ++ ms) (fold_left (dec_member ["seq"; "id"; "shape"] set_SnapshotShape) ms st).
Proof using Hseq.
  revert seen st. induction ms as [|m ms IH]; intros seen st Hms Hst; simpl.
  { by rewrite app_nil_r. }
  change (m :: ms) with ([m] ++ ms). rewrite app_assoc. apply IH; [intros; apply Hms; by right|].
  apply shape_state_step; [apply Hms; left|done].
Qed.
End decode.

(** An object of the same value as an encoded shape decodes to that shape, its
    blob of the same value. *)
Lemma dec_SnapshotShape_sim seq id rid v r1 r2 r3 e' t' : is_u64 seq -> string_value rid = id ->
  parse t' = Some e' ->
  jsim (JObj [("seq", (r1, JNum (FormatUint seq))); ("id", (r2, JStr rid)); ("shape", (r3, v))]) e' ->
  exists raw v', dec_SnapshotShape SnapshotShape_zero e' =
    ({| ss_Seq := seq; ss_ID := id; ss_Shape := Some raw |}, true) /\ parse raw = Some v' /\ jsim v v'.
Proof.
  intros Hseq Hid Hp Hs. inversion Hs as [| | | | |ms ms' Hn Hl Hr]; subst e' ms.
  pose proof (parse_members _ _ Hp) as Hraw.
  assert (forall m, m ∈ ms' -> shape_member seq id v m) as Hm.
  { intros m Hin. pose proof (last_member_NoDup _ _ Hn Hin) as El.
    destruct (Hr _ _ El) as [j Ej]. pose proof Ej as Ek.
    destruct (Hl _ _ Ej) as (j' & Ej' & Hj). rewrite El in Ej'. injection Ej' as <-.
    apply last_member_elem in Ek as (m0 & Hm0 & Ek & Ev). rewrite <-Ek in Ej.
    rewrite !elem_of_cons, elem_of_nil in Hm0. unfold shape_member. destruct Hm0 as [->|[->|[->|[]]]].
    - left. simpl in Ek. split; [done|]. subst j. simpl in Hj. inversion Hj as [| |? ? Hlit| | |]; subst.
      f_equal. apply (Hlit seq). by apply ParseUint_FormatUint.
    - right; left. simpl in Ek. split; [done|]. subst j. simpl in Hj. inversion Hj; subst. eauto.
    - right; right. simpl in Ek. split; [done|]. subst j. split; [by apply Hraw|done]. }
  assert (forall k j, last_member k [("seq", (r1, JNum (FormatUint seq))); ("id", (r2, JStr rid));
    ("shape", (r3, v))] = Some j -> keyed k ms') as Hkey.
  { intros k j Hj. destruct (Hl _ _ Hj) as (j' & Hj' & _).
    apply last_member_elem in Hj' as (m & Hin & E & _). by exists m. }
  pose proof (shape_state_fold seq id v Hseq ms' [] (SnapshotShape_zero, true) Hm) as Hf.
  destruct Hf as (H0 & H1 & H2 & H3).
  { split_and!; [done|..]; intros (m & Hin & _); by apply elem_of_nil in Hin. }
  simpl in *. destruct H3 as (raw & v' & E3 & Hpv & Hv); [by eapply Hkey|].
  exists raw, v'. split; [|done]. unfold dec_SnapshotShape. simpl.
  destruct (fold_left _ ms' _) as [[s i sh] ok]. simpl in *. subst ok sh.
  rewrite H1, H2 by (by eapply Hkey). done.
Qed.

(** ** The round trip *)

(** What a blob becomes: a text of the same JSONB value. *)
Definition blob_sim (m m' : RawMessage) : Prop :=
  exists t j raw v, raw_wire (Some "null") m = Some t /\ parse t = Some j /\
    m' = Some raw /\ parse raw = Some v /\ jsim j v.

(** What the column can be asked to hold: sequences of the signed column's
    range, and blobs that are documents, nested below the parser's limit. *)
Definition snap_storable (snap : Snapshot) : Prop :=
  0 <= sn_Seq snap < two63 /\ Forall (c_valid (maxNestingDepth - 1)) (sn_Shapes snap).

Definition shape_tree (s : SnapshotShape) (e : json) : Prop :=
  exists r1 r2 r3 rid t v, e = JObj [("seq", (r1, JNum (FormatUint (ss_Seq s)))); ("id", (r2, JStr rid));
      ("shape", (r3, v))] /\
    string_value rid = ss_ID s /\ raw_wire (Some "null") (ss_Shape s) = Some t /\ parse t = Some v.

(** The column's text, as the tree it parses to. *)
Lemma shapes_text (l : list SnapshotShape) : Forall (c_valid (maxNestingDepth - 1)) l ->
  exists t es, MarshalJSON l = Ok t /\ parse t = Some (JArr es) /\
    Forall2 (fun s (e : string * json) => shape_tree s e.2) l es.
Proof.
  intros Hl. assert (exists vs es, map MarshalJSON l = map Ok vs /\
    Forall2 (fun v (e : string * json) => doc (maxNestingDepth - 1) v e.2) vs es /\
    Forall2 (fun s (e : string * json) => shape_tree s (canon e.2)) l es) as (vs & es & Ev & Hes & Ht).
  { induction Hl as [|s l (Hb & Hseq & Hid & Hs) _ (vs & es & Ev & Hes & Ht)].
    { by exists [], []; repeat constructor. }
    destruct (SnapshotShape_doc _ s Hb Hseq Hs) as (v & tb & jb & E & Hvs & Hw & Hv).
    exists (v :: vs), (("", JObj [("seq", ("", JNum (FormatUint (ss_Seq s)))); ("id", ("", JStr (quote (ss_ID s))));
      ("shape", ("", jb))]) :: es). simpl. rewrite E, Ev. split_and!; [done|by constructor|].
    constructor; [|done]. do 3 eexists. exists (quote (ss_ID s)), tb, (canon jb). split_and!; [done| |done|].
    - by apply string_value_quote.
    - eapply doc_parse, doc_mono; [done|unfold maxNestingDepth; lia]. }
  destruct (enc_arr_doc (maxNestingDepth - 1) vs es) as (t & E & Hd); [done|done|].
  exists t, (map (fun e => (print e.2, canon e.2)) es). split_and!.
  - unfold MarshalJSON, SnapshotShapes_marshaler. by rewrite Ev.
  - by rewrite (doc_parse t (JArr es)).
  - clear -Ht. induction Ht; simpl; by constructor.
Qed.

Section laws.
Context {JB : Jsonb} {JL : JsonbLaws}.

Abbreviation Postgres := (gmap string row).

(** The rows a save can leave: those a load can read back. *)
Definition row_ok (r : row) : Prop :=
  0 <= r_seq r < two63 /\ exists l, Unmarshal dec_SnapshotShapes (r_shapes r) [] = (l, None).

Definition pg_inv (p : Postgres) : Prop := forall bid r, p !! bid = Some r -> row_ok r.

Definition row_snapshot (r : row) : Snapshot :=
  {| sn_Seq := u64 (r_seq r); sn_Shapes := (Unmarshal dec_SnapshotShapes (r_shapes r) []).1 |}.

Definition pg_view (p : Postgres) (bid : string) : option Snapshot := row_snapshot <$> p !! bid.

(** Encoding a snapshot, converting it to JSONB and decoding it again keeps
    the order, the identifiers, the sequences and the values of the blobs. *)
Lemma jsonb_shapes l : Forall (c_valid (maxNestingDepth - 1)) l ->
  exists t, MarshalJSON l = Ok t /\ forall t', jsonb t = Some t' ->
    exists l', Unmarshal dec_SnapshotShapes t' [] = (l', None) /\
      Forall2 (fun x y => ss_Seq x = ss_Seq y /\ ss_ID x = ss_ID y /\ blob_sim (ss_Shape x) (ss_Shape y)) l l'.
Proof using JL.
  intros Hl. destruct (shapes_text l Hl) as (t & es & E & Hp & Ht). exists t. split; [done|].
  intros t' Hj. destruct (jsonb_sim t t' _ Hp Hj) as (j' & Hp' & Hs). inversion Hs as [| | | |? es' Hes|]; subst.
  pose proof (parse_elems _ _ Hp') as Hraw. unfold Unmarshal. rewrite Hp'. simpl.
  assert (exists l', dec_elems SnapshotShape_zero dec_SnapshotShape es' = (l', true) /\
    Forall2 (fun x y => ss_Seq x = ss_Seq y /\ ss_ID x = ss_ID y /\ blob_sim (ss_Shape x) (ss_Shape y)) l l')
    as (l' & -> & H); [|by exists l'].
  clear -Hl Ht Hes Hraw. revert es' Hes Hraw.
  induction Ht as [|s e l es (r1 & r2 & r3 & rid & tb & v & Ee & Hid & Hw & Hpv) _ IH]; intros es' Hes Hraw.
  - inversion Hes; subst. by exists [].
  - inversion Hes as [|? e' ? es2 He Hes2]; subst. apply Forall_cons in Hl as [(_ & Hseq & _) Hl].
    destruct (IH Hl es2 Hes2) as (l' & El & Hl'); [intros; apply Hraw; by right|].
    rewrite Ee in He.
    destruct (dec_SnapshotShape_sim _ _ _ _ _ _ _ _ e'.1 Hseq Hid ltac:(apply Hraw; left) He)
      as (raw & v' & Ed & Hpr & Hv). destruct e' as [er ej]. simpl in *. rewrite Ed, El.
    eexists. split; [done|]. constructor; [|done]. split_and!; [done..|]. exists tb, v, raw, v'. by split_and!.
Qed.

Lemma upsert_spec bid snap p : pg_inv p -> snap_storable snap ->
  exists t, MarshalJSON (sn_Shapes snap) = Ok t /\
  let '(p', r) := upsert bid (s64 (sn_Seq snap)) t p in
  pg_inv p' /\ (forall o, o <> bid -> pg_view p' o = pg_view p o) /\
  ((exists e, r = Err e) /\ p' = p \/
   r = Ok tt /\ exists stored, snap_sim blob_sim snap stored /\
     pg_view p' bid = Some (save_guard (pg_view p bid) stored)).
Proof using JL.
  intros Hp [Hq Hl]. destruct (jsonb_shapes _ Hl) as (t & E & Ht). exists t. split; [done|].
  unfold upsert. destruct (jsonb t) as [t'|] eqn:Ej; [|split_and!; [done|done|left; eauto]].
  destruct (Ht t' eq_refl) as (l' & El & Hl'). rewrite s64_small by done.
  set (new := {| r_seq := sn_Seq snap; r_shapes := t' |}).
  assert (row_ok new) as Hnew by (split; [done|by exists l']).
  assert (row_snapshot new = {| sn_Seq := sn_Seq snap; sn_Shapes := l' |}) as Esnap.
  { unfold row_snapshot. simpl. rewrite El, u64_small; [done|]. unfold is_u64, two63, two64 in *. lia. }
  assert (pg_inv (<[bid := new]> p) /\ (forall o, o <> bid -> pg_view (<[bid := new]> p) o = pg_view p o))
    as [Hi Hf].
  { split; [intros o r [[_ <-]|[_ Hr]]%lookup_insert_Some; [done|by eapply Hp]|].
    intros o Ho. unfold pg_view. by rewrite lookup_insert_ne. }
  assert (pg_view (<[bid := new]> p) bid = Some {| sn_Seq := sn_Seq snap; sn_Shapes := l' |}) as Hv.
  { unfold pg_view. rewrite lookup_insert_eq. simpl. by rewrite Esnap. }
  assert (snap_sim blob_sim snap {| sn_Seq := sn_Seq snap; sn_Shapes := l' |}) as Hsim by done.
  destruct (p !! bid) as [old|] eqn:Eold.
  - assert (pg_view p bid = Some (row_snapshot old)) as Ev by (unfold pg_view; by rewrite Eold).
    assert (sn_Seq (row_snapshot old) = r_seq old) as Eo.
    { destruct (Hp _ _ Eold) as [Ho _]. apply u64_small. unfold is_u64, two63, two64 in *. lia. }
    destruct (Z.leb_spec (r_seq old) (sn_Seq snap)) as [Hle|Hlt];
      (split_and!; [done|done|right; split; [done|]]); eexists; (split; [done|]).
    + rewrite Hv, Ev. unfold save_guard. rewrite Eo. simpl. by replace (sn_Seq snap <? r_seq old) with false by lia.
    + rewrite Ev. unfold save_guard. rewrite Eo. simpl. by replace (sn_Seq snap <? r_seq old) with true by lia.
  - split_and!; [done|done|right; split; [done|]]. eexists. split; [done|].
    rewrite Hv. unfold pg_view. by rewrite Eold.
Qed.

#[global] Program Instance Postgres_laws : StoreLaws Postgres := {|
  st_inv := pg_inv;
  st_view := pg_view;
  st_sim := blob_sim;
  st_valid := snap_storable;
|}.
Next Obligation.
  intros f bid p Hp. simpl. unfold LoadSnapshot. destruct f; try done. unfold pg_view.
  destruct (p !! bid) as [r|] eqn:E; [|done]. destruct (Hp _ _ E) as [_ [l El]]. simpl.
  unfold row_snapshot. by rewrite El.
Qed.
Next Obligation.
  intros f bid snap p Hp Hv. simpl. unfold SaveSnapshot.
  destruct (upsert_spec bid snap p Hp Hv) as (t & -> & H). destruct f; [|by split_and!; [..|left|]|].
  - destruct (upsert _ _ _ _) as [p' r]. destruct H as (H1 & H2 & [[[e ->] ->]|[-> H]]).
    + by split_and!; [..|left|].
    + split_and!; [done|done|by right|done].
  - destruct (upsert _ _ _ _) as [p' r]. simpl. destruct H as (H1 & H2 & [[_ ->]|[_ H]]).
    + by split_and!; [..|left|].
    + split_and!; [done|done|by right|done].
Qed.
End laws.
