(* ===== verification/Persistence.v ===== *)
(** The persistence coordinator (internal/hub/persistence.go): hydration of a
    board on cold start and the saving of its snapshots, verified against the
    interfaces of the broker and of the store. *)

From S2P Require Import Prelude Strconv Utf8 Json JsonFacts Protocol Broker Store.
Local Open Scope Z_scope.

Section persistence.
Context {B S : Type} `{Broker B} `{Store S}.

(** [p.hydrate]: [f1] is the fate of the load, [f2] of the broker call. *)
Definition hydrate (f1 f2 : fault) (boardID : string) (b : B) (s : S) : B :=
  match st_LoadSnapshot f1 boardID s with
  | Err _ => b
  | Ok (_, false) => b
  | Ok (snap, true) => (br_Hydrate f2 boardID snap b).1
  end.

(** [p.save]: [f1] is the fate of the snapshot, [f2] of the store call. *)
Definition save (f1 f2 : fault) (boardID : string) (b : B) (s : S) : B * S :=
  match br_Snapshot f1 boardID b with
  | (b, Err _) => (b, s)
  | (b, Ok snap) => (b, (st_SaveSnapshot f2 boardID snap s).1)
  end.
End persistence.

(** ** Boards alike but for the texts of their blobs *)

Definition entry_sim (sim : RawMessage -> RawMessage -> Prop) (x y : entry) : Prop :=
  e_seq x = e_seq y /\ exists m m', sim m m' /\ e_blob x = bytes_text m /\ e_blob y = bytes_text m'.

Definition view_sim (sim : RawMessage -> RawMessage -> Prop) (v w : view) : Prop :=
  v_seq v = v_seq w /\ forall id, option_Forall2 (entry_sim sim) (v_shapes v !! id) (v_shapes w !! id).

Lemma snap_sim_ids sim s t : snap_sim sim s t ->
  map ss_ID (sn_Shapes s) = map ss_ID (sn_Shapes t) /\ map ss_Seq (sn_Shapes s) = map ss_Seq (sn_Shapes t).
Proof.
  intros [_ H]. induction H as [|x y l l' (E1 & E2 & _) _ [IH1 IH2]]; [done|]. simpl.
  by rewrite E1, E2, IH1, IH2.
Qed.

Lemma snap_ok_sim sim s t : snap_sim sim s t -> snap_ok s -> snap_ok t.
Proof.
  intros Hsim [H1 H2 H3 H4]. destruct (snap_sim_ids _ _ _ Hsim) as [E1 E2]. destruct Hsim as [E Hf].
  split; [by rewrite <-E1|by rewrite <-E2| |by rewrite <-E].
  intros y [i Hi]%list_elem_of_lookup. apply Forall2_flip in Hf.
  destruct (Forall2_lookup_l _ _ _ _ _ Hf Hi) as (x & Hx & Ex & _). rewrite <-Ex, <-E.
  apply H3. by eapply list_elem_of_lookup_2.
Qed.

(** Loading two such snapshots gives two such boards. *)
Lemma load_sim sim s t p : snap_sim sim s t -> snap_ok s ->
  view_sim sim (spec_load s (View 0 ∅ p)) (spec_load t (View 0 ∅ p)).
Proof.
  intros Hsim Hs. pose proof (snap_ok_sim _ _ _ Hsim Hs) as Ht. destruct Hsim as [E Hf].
  split; [done|]. intros id.
  assert (forall x, x ∈ sn_Shapes s -> (shape_entry x).1 = id ->
    v_shapes (spec_load s (View 0 ∅ p)) !! id = Some (shape_entry x).2) as Hl.
  { intros x Hx <-. apply load_lookup; [apply Hs|]. rewrite <-surjective_pairing.
    by apply (list_elem_of_fmap_2 shape_entry). }
  assert (forall y, y ∈ sn_Shapes t -> (shape_entry y).1 = id ->
    v_shapes (spec_load t (View 0 ∅ p)) !! id = Some (shape_entry y).2) as Hr.
  { intros y Hy <-. apply load_lookup; [apply Ht|]. rewrite <-surjective_pairing.
    by apply (list_elem_of_fmap_2 shape_entry). }
  assert (forall x y, ss_Seq x = ss_Seq y /\ ss_ID x = ss_ID y /\ sim (ss_Shape x) (ss_Shape y) ->
    entry_sim sim (shape_entry x).2 (shape_entry y).2) as He.
  { intros x y (E1 & E2 & E3). split; [done|]. by exists (ss_Shape x), (ss_Shape y). }
  destruct (v_shapes (spec_load s (View 0 ∅ p)) !! id) as [e|] eqn:Es.
  - apply load_lookup in Es as (x & Ex & Hx)%list_elem_of_fmap; [|apply Hs].
    apply list_elem_of_lookup in Hx as [i Hi].
    destruct (Forall2_lookup_l _ _ _ _ _ Hf Hi) as (y & Hy & Exy).
    rewrite (Hr y); [|by eapply list_elem_of_lookup_2|].
    + constructor. replace e with (shape_entry x).2 by (by rewrite <-Ex). by apply He.
    + injection Ex as -> _. destruct Exy as (_ & -> & _). done.
  - destruct (v_shapes (spec_load t (View 0 ∅ p)) !! id) as [e|] eqn:Et; [|constructor].
    apply load_lookup in Et as (y & Ey & Hy)%list_elem_of_fmap; [|apply Ht].
    apply list_elem_of_lookup in Hy as [i Hi].
    destruct (Forall2_lookup_r _ _ _ _ _ Hf Hi) as (x & Hx & Exy).
    assert (None = Some (shape_entry x).2); [|done].
    apply Hl; [by eapply list_elem_of_lookup_2|]. injection Ey as -> _. by destruct Exy as (_ & ? & _).
Qed.

(** ** What the coordinator guarantees *)

Section laws.
Context {B S : Type} {BR : Broker B} {BL : BrokerLaws B} {ST : Store S} {SL : StoreLaws S}.

(** The shapes of a board, apart from its roster. *)
Definition same_shapes (v w : view) : Prop := v_seq v = v_seq w /\ v_shapes v = v_shapes w.

(** Hydration touches one board, and only a fresh one; afterwards that board
    is as it was or is the stored snapshot. *)
Lemma hydrate_spec f1 f2 bid (b : B) (s : S) : br_inv b -> st_inv s ->
  (forall snap, st_view s bid = Some snap -> snap_ok snap /\ sn_Seq snap <= br_limit) ->
  let b' := hydrate f1 f2 bid b s in
  br_inv b' /\ (forall o, o <> bid -> br_view b' o = br_view b o /\ br_fresh b' o = br_fresh b o) /\
  (br_view b' bid = br_view b bid \/
   br_fresh b bid = true /\ exists snap, st_view s bid = Some snap /\
     br_view b' bid = spec_load snap (br_view b bid)) /\
  (f1 = Delivered -> f2 = Delivered -> br_fresh b bid = true -> forall snap, st_view s bid = Some snap ->
     br_view b' bid = spec_load snap (br_view b bid)).
Proof using All.
  intros Hb Hs Hsnap. unfold hydrate. pose proof (LoadSnapshot_law f1 bid s Hs) as Hl.
  destruct (st_LoadSnapshot f1 bid s) as [[snap ok]|e]; simpl in Hl.
  2: { split_and!; [done|done|by left|done]. }
  destruct (st_view s bid) as [snap'|]; simplify_eq; [|split_and!; [done|done|by left|done]].
  destruct (Hsnap _ eq_refl) as [Hok Hlim]. pose proof (Hydrate_law f2 bid snap' b Hb Hok Hlim) as Hh.
  destruct (br_Hydrate f2 bid snap' b) as [b' r]. destruct Hh as (H1 & H2 & H3). simpl.
  split_and!; [done|done| |].
  - assert (br_view b' bid = br_view b bid \/
      br_view b' bid = if br_fresh b bid then spec_load snap' (br_view b bid) else br_view b bid) as [Hv|Hv].
    { destruct H2 as [[_ Hv]|(_ & _ & [Hv|Hv])]; [by right|by left|by right]. }
    { by left. }
    destruct (br_fresh b bid); [right|by left]. split; [done|]. by exists snap'.
  - intros _ -> Hf snap [= <-]. rewrite Hf in H2. by apply outcome_delivered in H2 as [_ ->].
Qed.

(** Hydration of a board that has state changes nothing: it is idempotent,
    whichever instance runs it and however often. *)
Lemma hydrate_used f1 f2 bid (b : B) (s : S) : br_inv b -> st_inv s ->
  (forall snap, st_view s bid = Some snap -> snap_ok snap /\ sn_Seq snap <= br_limit) ->
  br_fresh b bid = false -> forall o, br_view (hydrate f1 f2 bid b s) o = br_view b o.
Proof using All.
  intros Hb Hs Hsnap Hf o. destruct (hydrate_spec f1 f2 bid b s Hb Hs Hsnap) as (_ & H1 & H2 & _).
  destruct (decide (o = bid)) as [->|Ho]; [|by apply H1]. destruct H2 as [?|[? _]]; congruence.
Qed.

(** Saving changes no board, and the stored snapshot of one board at most,
    whose sequence never goes down. *)
Lemma save_spec f1 f2 bid (b : B) (s : S) : br_inv b -> st_inv s ->
  (forall snap, is_snapshot (br_view b bid) snap -> st_valid snap) ->
  let '(b', s') := save f1 f2 bid b s in
  br_inv b' /\ (forall o, br_view b' o = br_view b o /\ br_fresh b' o = br_fresh b o) /\ st_inv s' /\
  (forall o, o <> bid -> st_view s' o = st_view s o) /\
  stored_seq (st_view s bid) <= stored_seq (st_view s' bid) /\
  (st_view s' bid = st_view s bid \/ exists snap stored, is_snapshot (br_view b bid) snap /\
     snap_sim st_sim snap stored /\ st_view s' bid = Some (save_guard (st_view s bid) stored)).
Proof using All.
  intros Hb Hs Hval. unfold save. pose proof (Snapshot_law f1 bid b Hb) as Hl.
  destruct (br_Snapshot f1 bid b) as [b' [snap|e]]; destruct Hl as (H1 & H2 & H3); simpl in H3.
  2: { split_and!; [done|done|done|done|done|by left]. }
  pose proof (SaveSnapshot_law f2 bid snap s Hs (Hval _ H3)) as Hsv.
  destruct (st_SaveSnapshot f2 bid snap s) as [s' r]. simpl. destruct Hsv as (S1 & S2 & S3 & _).
  split_and!; [done|done|done|done| |].
  - destruct S3 as [->|(stored & [Hsim _] & ->)]; [lia|]. apply save_guard_mono. rewrite <-Hsim.
    destruct H3 as [-> _]. apply (vo_seq _ (br_view_ok b bid Hb)).
  - destruct S3 as [->|(stored & Hsim & ->)]; [by left|]. right. eauto.
Qed.

(** A board that was saved comes back after the hot tier is lost: hydrating a
    fresh broker from the store gives the saved board, up to the way the
    store represents blobs. *)
Lemma save_hydrate f bid (b b2 : B) (s : S) : br_inv b -> st_inv s -> br_inv b2 ->
  (forall snap, is_snapshot (br_view b bid) snap -> st_valid snap) ->
  v_seq (br_view b bid) <= br_limit ->
  stored_seq (st_view s bid) <= v_seq (br_view b bid) ->
  br_fresh b2 bid = true ->
  forall b' s' u, (let '(b0, r) := br_Snapshot f bid b in exists snap, r = Ok snap /\
    b' = b0 /\ st_SaveSnapshot f bid snap s = (s', Ok u)) ->
  view_sim st_sim (br_view b bid) (br_view (hydrate Delivered Delivered bid b2 s') bid).
Proof using All.
  intros Hb Hs Hb2 Hval Hlim Hold Hfresh b' s' u Hsave.
  pose proof (Snapshot_law f bid b Hb) as Hl. destruct (br_Snapshot f bid b) as [b0 r].
  destruct Hsave as (snap & -> & -> & Esave). destruct Hl as (_ & _ & Hsnap). simpl in Hsnap.
  pose proof (SaveSnapshot_law f bid snap s Hs (Hval _ Hsnap)) as Hsv. rewrite Esave in Hsv.
  destruct u. destruct Hsv as (Hs' & _ & _ & Hok). destruct (Hok eq_refl) as (stored & Hsim & Hst).
  pose proof (is_snapshot_ok _ _ (br_view_ok b bid Hb) Hsnap) as Hsok.
  pose proof (snap_ok_sim _ _ _ Hsim Hsok) as Hstok.
  assert (sn_Seq stored = v_seq (br_view b bid)) as Eseq.
  { destruct Hsim as [<- _], Hsnap as [-> _]. done. }
  assert (st_view s' bid = Some stored) as Hst'.
  { rewrite Hst. f_equal. unfold save_guard. destruct (st_view s bid) as [cur|]; [|done].
    simpl in Hold. by replace (sn_Seq stored <? sn_Seq cur) with false by lia. }
  destruct (hydrate_spec Delivered Delivered bid b2 s' Hb2 Hs') as (_ & _ & _ & Hh).
  { intros snap' E. rewrite Hst' in E. injection E as <-. split; [done|lia]. }
  rewrite (Hh eq_refl eq_refl Hfresh _ Hst').
  destruct (br_fresh_view b2 bid Hb2 Hfresh) as [E1 E2].
  destruct (br_view b2 bid) as [q m p]. simpl in E1, E2. subst q m.
  pose proof (load_sim _ _ _ p Hsim Hsok) as Hview. rewrite (load_snapshot _ _ p Hsnap) in Hview.
  exact Hview.
Qed.
End laws.
