(* ===== verification/Ledger.v ===== *)
(** The abstract specification of the durable tier: the history of a board, and
    how much of it the store has.  [Durable] proves that the brokers, the store
    and the persistence of any number of instances implement it. *)

From S2P Require Import Prelude Strconv Utf8 Json JsonFacts Protocol Broker Store Persistence.
Local Open Scope Z_scope.

(** ** Histories

    One slot for every sequence number of a board: its operation, or nothing
    any more, when a snapshot counted the operation but did not contain it. *)

Abbreviation slot := (option op).
Implicit Types (l d : list slot).

Definition spec_slot (v : view) (s : slot) : view :=
  match s with Some o => spec_op v o | None => View (v_seq v + 1) (v_shapes v) (v_presence v) end.

Definition replay_slots l : view := fold_left spec_slot l view_empty.

Lemma replay_slots_snoc l s : replay_slots (l ++ [s]) = spec_slot (replay_slots l) s.
Proof. unfold replay_slots. by rewrite fold_left_app. Qed.

Lemma replay_slots_seq l : v_seq (replay_slots l) = Z.of_nat (length l).
Proof.
  induction l as [|s l IH] using rev_ind; [done|]. rewrite replay_slots_snoc, length_app. simpl. destruct s; simpl; lia.
Qed.

(** With nothing missing it is the history of operations. *)
Lemma replay_slots_ops (ops : list op) : replay_slots (Some <$> ops) = replay ops.
Proof.
  induction ops as [|o ops IH] using rev_ind; [done|].
  rewrite fmap_app. cbn [fmap list_fmap]. rewrite replay_slots_snoc, replay_snoc. simpl. by rewrite IH.
Qed.

(** Numbers without operations change no shape. *)
Lemma replay_slots_gap l n :
  replay_slots (l ++ replicate n None) = View (v_seq (replay_slots l) + Z.of_nat n) (v_shapes (replay_slots l)) (v_presence (replay_slots l)).
Proof.
  induction n as [|n IH]; [rewrite app_nil_r; destruct (replay_slots l); simpl; f_equal; lia|].
  rewrite replicate_S_end, (assoc_L (++)), replay_slots_snoc, IH. simpl. f_equal. lia.
Qed.

(** [d] is an initial part of [l] in which operations may be missing. *)
Definition faded d l : Prop :=
  (length d <= length l)%nat /\ forall i o, d !! i = Some (Some o) -> l !! i = Some (Some o).

#[export] Instance faded_preorder : PreOrder faded.
Proof.
  split; [by intros l|]. intros l1 l2 l3 [H1 H1'] [H2 H2']. split; [lia|auto].
Qed.

Lemma faded_nil l : faded [] l.
Proof. split; simpl; [lia|]. intros i o. by rewrite lookup_nil. Qed.

Lemma faded_prefix d l : d `prefix_of` l -> faded d l.
Proof. intros [k ->]. split; [rewrite length_app; lia|]. intros i o. by apply lookup_app_l_Some. Qed.

Lemma faded_gap d l n : faded d l -> (length d + n <= length l)%nat -> faded (d ++ replicate n None) l.
Proof.
  intros [H1 H2] Hn. split; [rewrite length_app, length_replicate; lia|].
  intros i o [Hi|[_ Hi]]%lookup_app_Some; [by apply H2|]. by apply lookup_replicate_1 in Hi as [? _].
Qed.

#[export] Hint Resolve faded_nil faded_prefix : wb.

(** ** The ledger of a board

    What has happened to the board as the broker has it, and what of it the
    store would give back.  [tears] says whether a snapshot may be read in two
    parts; if not, nothing goes missing inside a checkpoint. *)

Record ledger := Ledger { l_log : list slot; l_safe : list slot }.

Definition intact (tears : bool) d l : Prop := if tears then faded d l else d `prefix_of` l.

Inductive ledger_step (tears : bool) (b : ledger) : ledger -> Prop :=
  | lg_apply o : ledger_step tears b (Ledger (l_log b ++ [Some o]) (l_safe b))
  | lg_checkpoint d : intact tears d (l_log b) -> (length (l_safe b) <= length d)%nat ->
      ledger_step tears b (Ledger (l_log b) d)
  (** the broker is lost; the board is what the store has *)
  | lg_lose : ledger_step tears b (Ledger (l_safe b) (l_safe b)).

Abbreviation ledger_steps tears := (rtc (ledger_step tears)).

Lemma intact_faded tears d l : intact tears d l -> faded d l.
Proof. destruct tears; [done|apply faded_prefix]. Qed.

Lemma intact_app tears d l k : intact tears d l -> intact tears d (l ++ k).
Proof.
  destruct tears; simpl; [|by apply prefix_app_r]. intros H. etrans; [done|]. apply faded_prefix. by eexists.
Qed.

Lemma intact_refl tears l : intact tears l l.
Proof. by destruct tears. Qed.

Lemma intact_nil tears l : intact tears [] l.
Proof. destruct tears; [apply faded_nil|apply prefix_nil]. Qed.

#[export] Hint Resolve intact_app intact_refl intact_nil : wb.

(** The store never has more than the broker. *)
Lemma ledger_intact_step tears b b' : ledger_step tears b b' -> intact tears (l_safe b) (l_log b) ->
  intact tears (l_safe b') (l_log b').
Proof. destruct 1; simpl; auto with wb. Qed.

Lemma ledger_intact tears b b' : ledger_steps tears b b' -> intact tears (l_safe b) (l_log b) ->
  intact tears (l_safe b') (l_log b').
Proof. induction 1; eauto using ledger_intact_step. Qed.

Lemma prefix_shorter {A} (k1 k2 l : list A) : k1 `prefix_of` l -> k2 `prefix_of` l -> (length k1 <= length k2)%nat -> k1 `prefix_of` k2.
Proof.
  intros H1 H2 Hle. destruct (prefix_weak_total k1 k2 l) as [?|[k E]]; [done..|].
  rewrite E, length_app in Hle. destruct k; [by rewrite E, app_nil_r|simpl in Hle; lia].
Qed.

(** What is safe stays: every number it covers stays covered, and unless
    snapshots tear every operation of it stays where it is. *)
Lemma ledger_safe tears b b' : ledger_steps tears b b' -> intact tears (l_safe b) (l_log b) ->
  (length (l_safe b) <= length (l_safe b'))%nat /\ (tears = false -> l_safe b `prefix_of` l_safe b').
Proof.
  intros Hst. induction Hst as [b|b b1 b2 Hst _ IH]; intros Hb; [done|].
  destruct (IH (ledger_intact_step _ _ _ Hst Hb)) as [H1 H2].
  assert ((length (l_safe b) <= length (l_safe b1))%nat /\ (tears = false -> l_safe b `prefix_of` l_safe b1)) as [H3 H4].
  { destruct Hst as [o|d Hd Hl|]; simpl; [done| |done]. split; [done|]. intros ->. simpl in *.
    by apply (prefix_shorter _ _ (l_log b)). }
  split; [lia|]. intros E. etrans; [by apply H4|by apply H2].
Qed.

(** ** Whole histories

    If snapshots do not tear, histories have no gaps. *)

Definition whole (b : ledger) : Prop := l_safe b `prefix_of` l_log b /\ exists ops, l_log b = Some <$> ops.

Lemma whole_prefix d l (ops : list op) : d `prefix_of` l -> l = Some <$> ops ->
  exists ops1 ops2, ops = ops1 ++ ops2 /\ d = Some <$> ops1.
Proof. intros [k ->] E. symmetry in E. apply fmap_app_inv in E as (o1 & o2 & -> & _ & ->). by exists o1, o2. Qed.

Lemma whole_step b b' : ledger_step false b b' -> whole b -> whole b'.
Proof.
  intros Hst [Hs [ops E]]. destruct Hst as [o|d Hd _|]; simpl in *.
  - split; [by apply prefix_app_r|]. exists (ops ++ [o]). by rewrite fmap_app, E.
  - split; [done|]. by exists ops.
  - destruct (whole_prefix _ _ _ Hs E) as (o1 & _ & _ & E1). split; [done|]. by exists o1.
Qed.

Lemma whole_steps b b' : ledger_steps false b b' -> whole b -> whole b'.
Proof. induction 1; eauto using whole_step. Qed.

Lemma whole_empty : whole (Ledger [] []).
Proof. split; [done|]. by exists []. Qed.
