(* ===== verification/Durable.v ===== *)
(** The durable tier at work (internal/hub/persistence.go, with hydrate and
    persistOnClose of internal/hub/board.go and snapshotAllBoards of
    internal/hub/hub.go): the boards of any number of instances hydrate, serve
    and checkpoint against one broker and one store, their calls interleaved,
    instances die and the broker is lost.  Proved to implement [Ledger]. *)

From S2P Require Import Prelude Strconv Utf8 Json JsonFacts Protocol Broker Store Postgres Persistence Ledger.
Local Open Scope Z_scope.

(** ** What a store can hold

    Conditions on a board's shapes under which the store takes its snapshots,
    preserved by what the store does to blobs. *)

Class StoreDomain (S : Type) {ST : Store S} {SL : StoreLaws S} := {
  sd_limit : Z;
  sd_limit_pos : 0 <= sd_limit;
  sd_blob : string -> string -> Prop;
  sd_valid : forall snap, snap_ok snap -> sn_Seq snap <= sd_limit ->
    (forall s, s ∈ sn_Shapes snap -> sd_blob (ss_ID s) (bytes_text (ss_Shape s))) -> st_valid snap;
  sd_sim : forall id m m', st_sim m m' -> sd_blob id (bytes_text m) -> sd_blob id (bytes_text m');
}.

#[export] Program Instance Memory_domain : StoreDomain MemoryStore.Memory :=
  {| sd_limit := two64; sd_blob _ _ := True |}.
Next Obligation. done. Qed.
Next Obligation. done. Qed.
Next Obligation. done. Qed.

(** Postgres: documents, nested two levels below the parser's limit. *)
Lemma jsim_wf b n j j' : wf b j -> jsim j j' -> wf n j' -> wf b j'.
Proof.
  intros Hj. revert n j'. induction Hj as [| | | |b l Hb _ IH|b l Hb Hk _ IH]; intros n j' Hs Hn;
    inversion Hs as [| | | |? l' Hl|? ms' Hd Hl Hr]; subst; try by (inversion Hn; constructor).
  - inversion Hn as [| | | |? ? _ Hn'|]; subst. constructor; [done|]. intros p [i Hi]%list_elem_of_lookup.
    destruct (Forall2_lookup_r _ _ _ _ _ Hl Hi) as (q & Hq & Hqp).
    apply (IH q) with (n - 1); [by eapply list_elem_of_lookup_2|done|]. apply Hn'. by eapply list_elem_of_lookup_2.
  - inversion Hn as [| | | | |? ? _ Hk' Hn']; subst. constructor; [done|done|]. intros m Hm.
    pose proof (last_member_NoDup _ _ Hd Hm) as El. destruct (Hr _ _ El) as [j Ej].
    destruct (Hl _ _ Ej) as (j' & Ej' & Hjj). rewrite El in Ej'. injection Ej' as <-.
    apply last_member_elem in Ej as (q & Hq & _ & <-). apply (IH q) with (n - 1); [done..|by apply Hn'].
Qed.

Definition document (id blob : string) : Prop :=
  utf8 id /\ exists j, parse blob = Some j /\ wf (maxNestingDepth - 2) j.

Lemma document_sim id m m' : blob_sim m m' -> document id (bytes_text m) -> document id (bytes_text m').
Proof.
  intros (t & j & raw & v & Hw & Hp & -> & Hv & Hs) [Hu (j0 & Hj0 & Hd)]. split; [done|].
  destruct m as [s|]; [|by vm_compute in Hj0]. destruct (enc_raw_doc _ (Some s) (ex_intro _ j0 (conj Hj0 Hd))) as (w & j1 & _ & Hdoc & Ew).
  rewrite Hw in Ew. injection Ew as <-. rewrite (doc_parse t j1) in Hp by (eapply doc_mono; [done|unfold maxNestingDepth; lia]).
  injection Hp as <-. exists v. split; [done|]. apply (jsim_wf _ maxNestingDepth (canon j1)); [apply wf_canon, Hdoc|done|by eapply parse_wf].
Qed.

#[export] Program Instance Postgres_domain {JB : Jsonb} {JL : JsonbLaws} : StoreDomain (gmap string row) (ST := Postgres_store) (SL := Postgres_laws) :=
  {| sd_limit := two63 - 1; sd_blob := document |}.
Next Obligation. done. Qed.
Next Obligation.
  intros JB JL snap Hok Hlim Hb. split; [pose proof (so_seq _ Hok); lia|]. apply Forall_forall. intros s Hs.
  destruct (Hb s Hs) as (Hu & j & Hj & Hw). pose proof (so_range _ Hok s Hs).
  split_and!; [done|unfold is_u64, two63, two64 in *; lia|done|]. destruct (ss_Shape s) as [t|]; [|done].
  exists j. split; [done|]. eapply wf_mono; [done|lia].
Qed.
Next Obligation. intros JB JL id m m'. apply document_sim. Qed.

(** ** Boards alike, up to what stores do to blobs *)

Section like.
Context {S : Type} {ST : Store S} {SL : StoreLaws S} {SD : StoreDomain S}.

Definition blob_step (s t : string) : Prop := exists m m', st_sim m m' /\ s = bytes_text m /\ t = bytes_text m'.
Definition same_blob : relation string := rtc blob_step.

Definition entry_like (x y : entry) : Prop := e_seq x = e_seq y /\ same_blob (e_blob x) (e_blob y).

Definition view_like (v w : view) : Prop :=
  v_seq v = v_seq w /\ forall id, option_Forall2 entry_like (v_shapes v !! id) (v_shapes w !! id).

#[export] Instance view_like_preorder : PreOrder view_like.
Proof using Type.
  split.
  - intros v. split; [done|]. intros id. destruct (v_shapes v !! id); constructor. by split.
  - intros u v w [E1 H1] [E2 H2]. split; [congruence|]. intros id. specialize (H1 id). specialize (H2 id).
    destruct H1 as [x y [E Hb]|]; inversion H2 as [? z [E' Hb']|]; subst; constructor. split; [congruence|by etrans].
Qed.

Lemma like_same v w w' : view_like v w -> v_seq w' = v_seq w -> v_shapes w' = v_shapes w -> view_like v w'.
Proof using Type. intros [E H] E1 E2. split; [congruence|by rewrite E2]. Qed.

Lemma like_op v w o : view_like v w -> view_like (spec_op v o) (spec_op w o).
Proof using Type.
  intros [E H]. unfold spec_op, spec_apply. split; simpl; [congruence|]. intros id. destruct (o_del o).
  - destruct (decide (id = o_id o)) as [->|Hne]; [rewrite !lookup_delete_eq; constructor|by rewrite !lookup_delete_ne].
  - destruct (decide (id = o_id o)) as [->|Hne]; [rewrite !lookup_insert_eq|by rewrite !lookup_insert_ne].
    constructor. split; simpl; [congruence|done].
Qed.

Lemma view_sim_like v w : view_sim st_sim v w -> view_like v w.
Proof using Type.
  intros [E H]. split; [done|]. intros id. destruct (H id) as [x y (Es & m & m' & Hm & E1 & E2)|]; constructor.
  split; [done|]. apply rtc_once. by exists m, m'.
Qed.

(** What the store can hold of a board. *)
Definition holdable (v : view) : Prop :=
  v_seq v <= sd_limit /\ forall id e, v_shapes v !! id = Some e -> sd_blob id (e_blob e).

Lemma holdable_like v w : view_like v w -> holdable v -> holdable w.
Proof using SD.
  intros [E H] [H1 H2]. split; [congruence|]. intros id y Hy. specialize (H id). rewrite Hy in H.
  inversion H as [x ? [_ Hb]|]; subst. assert (sd_blob id (e_blob x)) as Hx by (by eapply H2).
  revert Hb Hx. generalize (e_blob x), (e_blob y). clear. induction 1 as [|s t u (m & m' & Hm & -> & ->) _ IH]; [done|].
  intros Hs. apply IH. by eapply sd_sim.
Qed.

(** ** Snapshots of histories *)

Definition snap_view (snap : Snapshot) : view := spec_load snap view_empty.

Record snap_like (d : list slot) (snap : Snapshot) : Prop := {
  sl_ok : snap_ok snap;
  sl_like : view_like (replay_slots d) (snap_view snap);
  sl_hold : holdable (snap_view snap);
}.

Lemma snap_like_seq d snap : snap_like d snap -> sn_Seq snap = Z.of_nat (length d).
Proof using Type. intros [_ [E _] _]. by rewrite replay_slots_seq in E. Qed.

Lemma snap_like_valid d snap : snap_like d snap -> st_valid snap.
Proof using Type.
  intros [Hok _ [Hlim Hb]]. apply sd_valid; [done..|]. intros s Hs. apply (Hb _ (shape_entry s).2).
  apply load_lookup; [apply Hok|]. change (shape_entry s ∈ map shape_entry (sn_Shapes snap)). by apply list_elem_of_fmap_2.
Qed.

(** A board's snapshot is one of its history. *)
Lemma snap_like_read l v snap : view_like (replay_slots l) v -> view_ok v -> holdable v -> is_snapshot v snap ->
  snap_like l snap.
Proof using Type.
  intros Hl Hv Hh Hs. assert (snap_view snap = View (v_seq v) (v_shapes v) ∅) as E by (by apply load_snapshot).
  split; [by eapply is_snapshot_ok|rewrite E; by apply (like_same _ v)|by rewrite E].
Qed.

(** So is what the store makes of it, *)
Lemma snap_like_stored d snap stored : snap_like d snap -> snap_sim st_sim snap stored -> snap_like d stored.
Proof using Type.
  intros [H1 H2 H3] Hs. pose proof (view_sim_like _ _ (load_sim st_sim snap stored ∅ Hs H1)) as Hl.
  split; [by eapply snap_ok_sim|by etrans|by eapply holdable_like].
Qed.

(** and the two halves of a torn one, of a history with a gap at its end. *)
Definition torn (seq : Z) (snap : Snapshot) : Snapshot := {| sn_Seq := seq; sn_Shapes := sn_Shapes snap |}.

Lemma snap_like_torn d snap n : snap_like d snap -> Z.of_nat (length d + n) <= sd_limit ->
  snap_like (d ++ replicate n None) (torn (Z.of_nat (length d + n)) snap).
Proof using Type.
  intros Hs Hlim. pose proof (snap_like_seq _ _ Hs) as E. destruct Hs as [[H1 H2 H3 H4] [H5 H6] [_ H7]].
  split; [split|split|split]; simpl; try done; try lia.
  - intros s Hin. specialize (H3 s Hin). lia.
  - rewrite replay_slots_gap, replay_slots_seq. simpl. lia.
  - intros id. rewrite replay_slots_gap. apply H6.
Qed.

(** Loading it into an empty board gives the history back. *)
Lemma snap_like_load d snap v : snap_like d snap -> v_seq v = 0 -> v_shapes v = ∅ ->
  view_like (replay_slots d) (spec_load snap v).
Proof using Type.
  intros [_ H _] E1 E2. apply (like_same _ (snap_view snap)); [done..|]. unfold snap_view, spec_load. simpl. by rewrite E2.
Qed.
End like.

(** ** The system *)

Section system.
Context {B S : Type} {BR : Broker B} {BL : BrokerLaws B} {ST : Store S} {SL : StoreLaws S} {SD : StoreDomain S}.
Context {K : Type} `{Countable K}.

(** What a goroutine of some instance is about to do for a board, after the
    broker and store calls it has made: [hydrate] and [save] of
    persistence.go in their two calls each.  A board that serves may apply
    operations. *)
Inductive task :=
  | TLoad                         (* a new board: store.LoadSnapshot *)
  | THydrate (snap : Snapshot)    (* broker.Hydrate *)
  | TServe
  | TSave (snap : Snapshot).      (* store.SaveSnapshot *)

Record Tier := { ti_broker : B; ti_store : S; ti_tasks : gmap K (string * task) }.
Implicit Types t : Tier.

Definition with_task (g : K) (bid : string) (k : task) t : Tier :=
  {| ti_broker := ti_broker t; ti_store := ti_store t; ti_tasks := <[g := (bid, k)]> (ti_tasks t) |}.
Definition end_task (g : K) t : Tier :=
  {| ti_broker := ti_broker t; ti_store := ti_store t; ti_tasks := delete g (ti_tasks t) |}.
Definition with_broker (b : B) t : Tier :=
  {| ti_broker := b; ti_store := ti_store t; ti_tasks := ti_tasks t |}.
Definition with_store (s : S) t : Tier :=
  {| ti_broker := ti_broker t; ti_store := s; ti_tasks := ti_tasks t |}.

(** Boards that broker and store have room for. *)
Definition storable (v : view) : Prop := v_seq v <= br_limit /\ holdable v.

(** [care]: hydration does not fail, and the broker is not lost while any
    instance is alive; [tears]: a snapshot is read in two round trips, first
    the shapes and then the sequence, as the Redis broker does
    ([RedisBroker.Snapshot_at]).  Everything else may fail at any time. *)
Inductive tier_step (care tears : bool) t : Tier -> Prop :=
  | ts_open g bid : ti_tasks t !! g = None -> tier_step care tears t (with_task g bid TLoad t)
  | ts_load g bid f snap : ti_tasks t !! g = Some (bid, TLoad) ->
      st_LoadSnapshot f bid (ti_store t) = Ok (snap, true) -> tier_step care tears t (with_task g bid (THydrate snap) t)
  | ts_load_none g bid f snap : ti_tasks t !! g = Some (bid, TLoad) ->
      st_LoadSnapshot f bid (ti_store t) = Ok (snap, false) -> tier_step care tears t (with_task g bid TServe t)
  | ts_load_failed g bid f e : ti_tasks t !! g = Some (bid, TLoad) ->
      st_LoadSnapshot f bid (ti_store t) = Err e -> care = false -> tier_step care tears t (with_task g bid TServe t)
  | ts_hydrate g bid snap f b r : ti_tasks t !! g = Some (bid, THydrate snap) ->
      br_Hydrate f bid snap (ti_broker t) = (b, r) -> (care = true -> is_ok r = true) ->
      storable (br_view b bid) ->
      tier_step care tears t (with_task g bid TServe (with_broker b t))
  | ts_apply g bid f id shape del b r : ti_tasks t !! g = Some (bid, TServe) ->
      v_seq (br_view (ti_broker t) bid) < br_limit -> br_ApplyShape f bid id shape del (ti_broker t) = (b, r) ->
      storable (br_view b bid) -> tier_step care tears t (with_broker b t)
  (** calls that change no shape, for rosters and messages *)
  | ts_other b : br_inv b ->
      (forall o, v_seq (br_view b o) = v_seq (br_view (ti_broker t) o) /\
        v_shapes (br_view b o) = v_shapes (br_view (ti_broker t) o) /\ br_fresh b o = br_fresh (ti_broker t) o) ->
      tier_step care tears t (with_broker b t)
  | ts_read g bid f b snap : ti_tasks t !! g = None -> br_Snapshot f bid (ti_broker t) = (b, Ok snap) ->
      tier_step care tears t (with_task g bid (TSave snap) (with_broker b t))
  | ts_tear g bid snap f b snap' : tears = true -> ti_tasks t !! g = Some (bid, TSave snap) ->
      br_Snapshot f bid (ti_broker t) = (b, Ok snap') ->
      tier_step care tears t (with_task g bid (TSave (torn (sn_Seq snap') snap)) (with_broker b t))
  | ts_save g bid snap f s r : ti_tasks t !! g = Some (bid, TSave snap) ->
      st_SaveSnapshot f bid snap (ti_store t) = (s, r) -> tier_step care tears t (end_task g (with_store s t))
  (** a goroutine ends, is given up or dies with its instance *)
  | ts_end g : tier_step care tears t (end_task g t)
  | ts_lose b : br_inv b -> (forall bid, br_fresh b bid = true) -> (care = true -> ti_tasks t = ∅) ->
      tier_step care tears t (with_broker b t).

Abbreviation tier_steps care tears := (rtc (tier_step care tears)).

(** ** What ties it to the ledger of a board *)

Definition hot (bid : string) (l : ledger) t : Prop := view_like (replay_slots (l_log l)) (br_view (ti_broker t) bid).
Definition cold (bid : string) (l : ledger) t : Prop := br_fresh (ti_broker t) bid = true /\ l_log l = l_safe l.

Definition hot_task (tears : bool) (l : ledger) (k : task) : Prop :=
  match k with
  | THydrate snap => exists d, intact tears d (l_log l) /\ (length d <= length (l_safe l))%nat /\ snap_like d snap
  | TSave snap => exists d, intact tears d (l_log l) /\ snap_like d snap
  | _ => True
  end.

(** After a loss and before the first hydration. *)
Definition cold_task (l : ledger) (k : task) : Prop :=
  match k with
  | TLoad => True
  | THydrate snap => snap_like (l_safe l) snap
  | TServe => False
  | TSave snap => snap_like [] snap
  end.

Definition tasks_on (bid : string) (P : task -> Prop) t : Prop := forall g k, ti_tasks t !! g = Some (bid, k) -> P k.

Record tied (tears : bool) (bid : string) (l : ledger) t : Prop := {
  td_room : storable (br_view (ti_broker t) bid);
  td_safe : match st_view (ti_store t) bid with Some snap => snap_like (l_safe l) snap | None => l_safe l = [] end;
  td_intact : intact tears (l_safe l) (l_log l);
  td_length : Z.of_nat (length (l_log l)) <= br_limit;
  td_standing : hot bid l t /\ tasks_on bid (hot_task tears l) t \/ cold bid l t /\ tasks_on bid (cold_task l) t;
}.

Lemma cold_hot_task tears l k : intact tears (l_safe l) (l_log l) -> cold_task l k -> hot_task tears l k.
Proof using Type. intros Hi. destruct k as [|snap| |snap]; simpl; [done|..|done|]; [by exists (l_safe l)|]. exists []. auto with wb. Qed.

(** A step that changes nothing of the board but its tasks. *)
Lemma tied_task tears bid l t t' ko : tied tears bid l t ->
  v_seq (br_view (ti_broker t') bid) = v_seq (br_view (ti_broker t) bid) ->
  v_shapes (br_view (ti_broker t') bid) = v_shapes (br_view (ti_broker t) bid) ->
  br_fresh (ti_broker t') bid = br_fresh (ti_broker t) bid -> st_view (ti_store t') bid = st_view (ti_store t) bid ->
  (forall g k, ti_tasks t' !! g = Some (bid, k) -> ti_tasks t !! g = Some (bid, k) \/ ko = Some k) ->
  (forall k, ko = Some k -> hot_task tears l k /\ (cold_task l k \/ hot bid l t)) -> tied tears bid l t'.
Proof using Type.
  intros [H1 H2 H3 Hlen H4] E1 E2 Ef Es Ht Hk. assert (hot bid l t -> hot bid l t') as Hh by (by intros Hh; eapply like_same).
  split; [unfold storable, holdable in *; by rewrite E1, E2|by rewrite Es|done|done|]. destruct H4 as [[Hhot Hr]|[[Hc El] Hr]].
  - left. split; [by apply Hh|]. intros g k [?|?]%Ht; [by eapply Hr|by apply Hk].
  - assert ((forall k, ko = Some k -> cold_task l k) \/ hot bid l t) as [Hn|Hn].
    { destruct ko as [k|]; [|by left]. destruct (Hk k eq_refl) as [_ [?|?]]; [left; by intros k' [= <-]|by right]. }
    + right. split; [split; [by rewrite Ef|done]|]. intros g k [?|?]%Ht; [by eapply Hr|by apply Hn].
    + left. split; [by apply Hh|]. intros g k [?|?]%Ht; [|by apply Hk]. apply cold_hot_task; [done|by eapply Hr].
Qed.

(** Another board's step. *)
Lemma tied_other tears bid o k g l t b s : tied tears o l t -> o <> bid -> br_view b o = br_view (ti_broker t) o ->
  br_fresh b o = br_fresh (ti_broker t) o -> st_view s o = st_view (ti_store t) o ->
  tied tears o l (with_task g bid k (with_broker b (with_store s t))) /\
  tied tears o l (end_task g (with_broker b (with_store s t))) /\ tied tears o l (with_broker b (with_store s t)).
Proof using Type.
  intros Ht Ho Ev Ef Es. split_and!; apply (tied_task tears o l t _ None); simpl; try done; try congruence.
  - intros g' k'. rewrite lookup_insert. case_decide; [by intros [= -> ->]|by left].
  - intros g' k' [_ ?]%lookup_delete_Some. by left.
  - by left.
Qed.

(** ** Every step is one of the ledger, or none *)

Record tier_ok t : Prop := { to_broker : br_inv (ti_broker t); to_store : st_inv (ti_store t) }.

Definition carries (tears : bool) t t' : Prop := forall o l, tied tears o l t ->
  exists l', ledger_steps tears l l' /\ tied tears o l' t'.

Lemma hot_seq tears bid l t : tied tears bid l t -> hot bid l t -> v_seq (br_view (ti_broker t) bid) = Z.of_nat (length (l_log l)).
Proof using Type. intros _ [<- _]. apply replay_slots_seq. Qed.

Lemma cold_view bid l t : tier_ok t -> cold bid l t ->
  v_seq (br_view (ti_broker t) bid) = 0 /\ v_shapes (br_view (ti_broker t) bid) = ∅.
Proof using Type. intros [Hb _] [Hf _]. by apply br_fresh_view. Qed.

(** An empty history is one the broker shows even when it has lost it. *)
Lemma hot_empty bid l t : tier_ok t -> cold bid l t -> l_safe l = [] -> hot bid l t.
Proof using Type.
  intros Ht Hc E. destruct (cold_view bid l t Ht Hc) as [E1 E2]. destruct Hc as [_ El]. unfold hot. rewrite El, E.
  split; [done|]. intros id. rewrite E2, lookup_empty. constructor.
Qed.

Lemma tied_hot_task tears bid l t g k : tied tears bid l t -> ti_tasks t !! g = Some (bid, k) -> hot_task tears l k.
Proof using Type.
  intros [_ _ Hi _ [[_ Hr]|[_ Hr]]] Hk; [by eapply Hr|]. eapply cold_hot_task; [done|by eapply Hr].
Qed.

(** Tasks come and go, with calls that change neither broker nor store. *)
Lemma carry_task tears t t' bid g : (forall o, v_seq (br_view (ti_broker t') o) = v_seq (br_view (ti_broker t) o) /\
    v_shapes (br_view (ti_broker t') o) = v_shapes (br_view (ti_broker t) o) /\ br_fresh (ti_broker t') o = br_fresh (ti_broker t) o) ->
  ti_store t' = ti_store t ->
  (forall l, tied tears bid l t -> exists k, ti_tasks t' = <[g := (bid, k)]> (ti_tasks t) /\
    hot_task tears l k /\ (cold_task l k \/ hot bid l t)) -> (exists l, tied tears bid l t) -> carries tears t t'.
Proof using Type.
  intros Hb Es Hk [l0 H0] o l Ht. exists l. split; [done|]. destruct (Hk l0 H0) as (k0 & Ek0 & _).
  destruct (Hb o) as (E1 & E2 & E3). destruct (decide (o = bid)) as [->|Ho].
  - destruct (Hk l Ht) as (k & Ek & Hf). apply (tied_task tears bid l t t' (Some k)); try done; [by rewrite Es| |by intros ? [= <-]].
    intros g' k'. rewrite Ek, lookup_insert. case_decide; [intros [= <-]; by right|by left].
  - apply (tied_task tears o l t t' None); try done; [by rewrite Es|].
    intros g' k'. rewrite Ek0, lookup_insert. case_decide; [by intros [= <-]|by left].
Qed.

Lemma carry_end tears t g : carries tears t (end_task g t).
Proof using Type.
  intros o l Ht. exists l. split; [done|]. apply (tied_task tears o l t _ None); try done.
  intros g' k. simpl. intros [_ ?]%lookup_delete_Some. by left.
Qed.

Lemma step_load tears t g bid f snap : tier_ok t -> (exists l, tied tears bid l t) ->
  ti_tasks t !! g = Some (bid, TLoad) -> st_LoadSnapshot f bid (ti_store t) = Ok (snap, true) ->
  carries tears t (with_task g bid (THydrate snap) t).
Proof using Type.
  intros [_ Hs] Hl Hg E. apply (carry_task tears _ _ bid g); [done|done| |done]. intros l Ht. eexists. split; [done|].
  pose proof (LoadSnapshot_law f bid _ Hs) as L. rewrite E in L. simpl in L. pose proof (td_safe _ _ _ _ Ht) as Hsafe.
  destruct (st_view (ti_store t) bid) as [snap'|]; simplify_eq. split; [|by left].
  exists (l_safe l). split_and!; [apply Ht|done..].
Qed.

Lemma step_load_none tears t g bid f snap : tier_ok t -> (exists l, tied tears bid l t) ->
  st_LoadSnapshot f bid (ti_store t) = Ok (snap, false) -> carries tears t (with_task g bid TServe t).
Proof using Type.
  intros Hok Hl E. apply (carry_task tears _ _ bid g); [done|done| |done]. intros l Ht. eexists. split; [done|]. split; [done|].
  right. pose proof (LoadSnapshot_law f bid _ (to_store _ Hok)) as L. rewrite E in L. simpl in L.
  pose proof (td_safe _ _ _ _ Ht) as Hsafe. destruct (st_view (ti_store t) bid); simplify_eq.
  destruct (td_standing _ _ _ _ Ht) as [[? _]|[Hc _]]; [done|by apply hot_empty].
Qed.

(** A snapshot of the board as it is. *)
Lemma read_task tears bid f l t b snap : tier_ok t -> tied tears bid l t -> br_Snapshot f bid (ti_broker t) = (b, Ok snap) ->
  br_inv b /\ (forall o, br_view b o = br_view (ti_broker t) o /\ br_fresh b o = br_fresh (ti_broker t) o) /\
  sn_Seq snap = v_seq (br_view (ti_broker t) bid) /\
  (hot bid l t /\ snap_like (l_log l) snap \/ cold bid l t /\ snap_like [] snap).
Proof using Type.
  intros Hok Ht E. pose proof (Snapshot_law f bid _ (to_broker _ Hok)) as L. rewrite E in L. destruct L as (H1 & H2 & H3).
  simpl in H3. split_and!; [done|done|apply H3|]. destruct (td_room _ _ _ _ Ht) as [_ Hroom].
  pose proof (br_view_ok _ bid (to_broker _ Hok)) as Hv. destruct (td_standing _ _ _ _ Ht) as [[Hh _]|[Hc _]].
  - left. split; [done|]. by apply (snap_like_read _ _ _ Hh).
  - right. split; [done|]. destruct (cold_view bid l t Hok Hc) as [E1 E2]. apply (snap_like_read _ (br_view (ti_broker t) bid)); try done.
    split; [done|]. intros id. rewrite E2, lookup_empty. constructor.
Qed.

Lemma unread (b b' : B) : (forall o, br_view b o = br_view b' o /\ br_fresh b o = br_fresh b' o) ->
  forall o, v_seq (br_view b o) = v_seq (br_view b' o) /\ v_shapes (br_view b o) = v_shapes (br_view b' o) /\ br_fresh b o = br_fresh b' o.
Proof using Type. intros Hb o. by destruct (Hb o) as [-> ->]. Qed.

Lemma step_read tears t g bid f b snap : tier_ok t -> (exists l, tied tears bid l t) ->
  br_Snapshot f bid (ti_broker t) = (b, Ok snap) -> carries tears t (with_task g bid (TSave snap) (with_broker b t)).
Proof using Type.
  intros Hok [l0 Hl0] E. destruct (read_task tears bid f l0 t b snap Hok Hl0 E) as (_ & Hb & _).
  apply (carry_task tears _ _ bid g); [by apply unread|done| |by eexists]. intros l Ht. eexists. split; [done|].
  destruct (read_task tears bid f l t b snap Hok Ht E) as (_ & _ & _ & [[Hh Hs]|[Hc Hs]]).
  - split; [exists (l_log l); auto with wb|by right].
  - split; [exists []; auto with wb|by left].
Qed.

Lemma step_tear t g bid snap f b snap' : tier_ok t -> (exists l, tied true bid l t) ->
  ti_tasks t !! g = Some (bid, TSave snap) -> br_Snapshot f bid (ti_broker t) = (b, Ok snap') ->
  carries true t (with_task g bid (TSave (torn (sn_Seq snap') snap)) (with_broker b t)).
Proof using Type.
  intros Hok [l0 Hl0] Hg E. destruct (read_task true bid f l0 t b snap' Hok Hl0 E) as (_ & Hb & _).
  apply (carry_task true _ _ bid g); [by apply unread|done| |by eexists]. intros l Ht. eexists. split; [done|].
  destruct (read_task true bid f l t b snap' Hok Ht E) as (_ & _ & Es & _). rewrite Es.
  destruct (td_standing _ _ _ _ Ht) as [[Hh Hr]|[Hc Hr]]; specialize (Hr g _ Hg); simpl in Hr |- *.
  - destruct Hr as (d & Hd & Hs). split; [|by right]. rewrite (hot_seq true bid l t Ht Hh).
    destruct (td_room _ _ _ _ Ht) as [_ [Hlim _]]. rewrite (hot_seq true bid l t Ht Hh) in Hlim.
    pose proof (proj1 Hd) as Hle. exists (d ++ replicate (length (l_log l) - length d) None).
    split; [by apply faded_gap; [|lia]|].
    replace (length (l_log l)) with (length d + (length (l_log l) - length d))%nat at 2 by lia.
    apply snap_like_torn; [done|]. by replace (length d + (length (l_log l) - length d))%nat with (length (l_log l)) by lia.
  - assert (torn (v_seq (br_view (ti_broker t) bid)) snap = snap) as ->.
    { destruct (cold_view bid l t Hok Hc) as [-> _]. pose proof (snap_like_seq _ _ Hr) as E0. destruct snap. simpl in *. by subst. }
    split; [exists []; auto with wb|by left].
Qed.

(** A checkpoint that is not stale, and comes through, is one of the ledger. *)
Lemma saved_ledger tears bid d snap g l t s : tied tears bid l t -> intact tears d (l_log l) -> snap_like d snap ->
  (length (l_safe l) <= length d)%nat -> (cold bid l t -> d = [] \/ hot bid l t) -> st_view s bid = Some snap ->
  tied tears bid (Ledger (l_log l) d) (end_task g (with_store s t)).
Proof using Type.
  intros [H1 H2 H3 Hlen H4] Hd Hs Hle Hc Es. split; simpl; [done|by rewrite Es|done|done|].
  assert (forall k, hot_task tears l k -> hot_task tears (Ledger (l_log l) d) k) as Hk.
  { intros [|sn| |sn]; simpl; try done. intros (d' & ? & ? & ?). exists d'. split_and!; [done|lia|done]. }
  destruct H4 as [[Hh Hr]|[Hcold Hr]].
  - left. split; [done|]. intros g' k. simpl. intros [_ ?]%lookup_delete_Some. apply Hk. by eapply Hr.
  - destruct (Hc Hcold) as [->|Hh].
    + assert (l_safe l = []) as E by (by apply length_zero_iff_nil; simpl in Hle; lia). right.
      split; [split; [apply Hcold|]; simpl; by rewrite (proj2 Hcold)|]. intros g' k. simpl.
      intros [_ Hg']%lookup_delete_Some. specialize (Hr g' k Hg'). destruct k; simpl in *; try done. by rewrite <-E.
    + left. split; [done|]. intros g' k. simpl. intros [_ Hg']%lookup_delete_Some. apply Hk. apply cold_hot_task; [done|by eapply Hr].
Qed.

Lemma step_save tears t g bid snap f s r : tier_ok t -> (exists l, tied tears bid l t) ->
  ti_tasks t !! g = Some (bid, TSave snap) -> st_SaveSnapshot f bid snap (ti_store t) = (s, r) ->
  st_inv s /\ forall o l, tied tears o l t -> exists safe, ledger_steps tears l (Ledger (l_log l) safe) /\
    tied tears o (Ledger (l_log l) safe) (end_task g (with_store s t)).
Proof using Type.
  intros [Hb Hs] [l0 Hl0] Hg E. destruct (tied_hot_task _ _ _ _ _ _ Hl0 Hg) as (d0 & _ & Hd0).
  pose proof (SaveSnapshot_law f bid snap _ Hs (snap_like_valid _ _ Hd0)) as L. rewrite E in L.
  destruct L as (L1 & L2 & L3 & _). split; [done|]. intros o [lg sf] Ht. simpl.
  assert (st_view s o = st_view (ti_store t) o -> exists safe, ledger_steps tears (Ledger lg sf) (Ledger lg safe) /\
    tied tears o (Ledger lg safe) (end_task g (with_store s t))) as Hsame.
  { intros Es. exists sf. split; [done|]. apply (tied_task tears o (Ledger lg sf) t _ None); try done.
    intros g' k. simpl. intros [_ ?]%lookup_delete_Some. by left. }
  destruct (decide (o = bid)) as [->|Ho]; [|by apply Hsame, L2].
  destruct L3 as [L3|(stored & Hsim & L3)]; [by apply Hsame|]. pose proof (td_safe _ _ _ _ Ht) as Hsafe. simpl in Hsafe.
  assert (exists d, intact tears d lg /\ snap_like d stored /\ (cold bid (Ledger lg sf) t -> d = [] \/ hot bid (Ledger lg sf) t)) as (d & Hd & Hdl & Hcd).
  { destruct (td_standing _ _ _ _ Ht) as [[Hh Hr]|[Hc Hr]]; specialize (Hr g _ Hg); simpl in Hr.
    - destruct Hr as (d & Hd & Hdl). exists d. split_and!; [done|by eapply snap_like_stored|by right].
    - exists []. split_and!; [auto with wb|by eapply snap_like_stored|by left]. }
  assert ((length sf <= length d)%nat -> st_view s bid = Some stored -> exists safe, ledger_steps tears (Ledger lg sf) (Ledger lg safe) /\
    tied tears bid (Ledger lg safe) (end_task g (with_store s t))) as Hnew.
  { intros Hle Es. exists d. split; [by apply rtc_once, (lg_checkpoint tears (Ledger lg sf))|].
    by apply (saved_ledger tears bid d stored g (Ledger lg sf)). }
  pose proof (snap_like_seq _ _ Hdl). destruct (st_view (ti_store t) bid) as [cur|] eqn:Ecur; simpl in L3.
  - destruct (Z.ltb_spec (sn_Seq stored) (sn_Seq cur)); [by apply Hsame|].
    pose proof (snap_like_seq _ _ Hsafe). apply Hnew; [lia|done].
  - apply Hnew; [rewrite Hsafe; simpl; lia|done].
Qed.

(** A hydration that takes effect on a lost board puts its safe history back. *)
Lemma step_hydrate tears t g bid snap f b r : tier_ok t -> (exists l, tied tears bid l t) ->
  ti_tasks t !! g = Some (bid, THydrate snap) -> br_Hydrate f bid snap (ti_broker t) = (b, r) -> is_ok r = true ->
  storable (br_view b bid) -> br_inv b /\ carries tears t (with_task g bid TServe (with_broker b t)).
Proof using Type.
  intros Hok [l0 Hl0] Hg E Hr Hroom. destruct (tied_hot_task _ _ _ _ _ _ Hl0 Hg) as (d0 & Hi0 & Hle0 & Hd0).
  assert (sn_Seq snap <= br_limit) as Hlim.
  { rewrite (snap_like_seq _ _ Hd0). pose proof (td_length _ _ _ _ Hl0). apply intact_faded in Hi0 as [? _]. lia. }
  pose proof (Hydrate_law f bid snap _ (to_broker _ Hok) (sl_ok _ _ Hd0) Hlim) as L. rewrite E in L.
  destruct L as (L1 & L2 & L3). split; [done|]. destruct r as [x|]; [|done]. apply outcome_ok in L2 as [_ L2].
  intros o l Ht. exists l. split; [done|]. destruct (decide (o = bid)) as [->|Ho].
  2: { destruct (L3 o Ho). by apply (tied_other tears bid o TServe g l t b (ti_store t)). }
  assert (hot bid l (with_broker b t)) as Hh.
  { unfold hot. simpl. rewrite L2. destruct (br_fresh (ti_broker t) bid) eqn:Ef.
    - destruct (br_fresh_view _ bid (to_broker _ Hok) Ef) as [E1 E2].
      destruct (td_standing _ _ _ _ Ht) as [[Hh Hr']|[[_ El] Hr']]; specialize (Hr' g _ Hg); simpl in Hr'.
      + pose proof (hot_seq _ _ _ _ Ht Hh) as Eq. destruct Hr' as (d & Hd & _ & Hds). apply intact_faded in Hd as [Hd _].
        assert (l_log l = []) as El by (apply length_zero_iff_nil; lia).
        assert (d = []) as -> by (apply length_zero_iff_nil; lia). rewrite El. by apply snap_like_load.
      + rewrite El. by apply snap_like_load.
    - destruct (td_standing _ _ _ _ Ht) as [[Hh _]|[[Hc _] _]]; [done|congruence]. }
  pose proof Ht as [_ H2 H3 H4 H5]. split; simpl; [done..|]. left. split; [done|]. intros g' k. simpl. rewrite lookup_insert.
  case_decide; [by intros [= <-]|]. intros Hg'. by apply (tied_hot_task tears bid l t g').
Qed.

(** An operation extends the history, or is lost. *)
Lemma step_apply tears t g bid f id shape del b r : tier_ok t -> (exists l, tied tears bid l t) ->
  ti_tasks t !! g = Some (bid, TServe) -> v_seq (br_view (ti_broker t) bid) < br_limit ->
  br_ApplyShape f bid id shape del (ti_broker t) = (b, r) -> storable (br_view b bid) ->
  br_inv b /\ carries tears t (with_broker b t).
Proof using Type.
  intros Hok _ Hg Hlim E Hroom. pose proof (ApplyShape_law f bid id shape del _ (to_broker _ Hok) Hlim) as L. rewrite E in L.
  destruct L as (L1 & L2 & L3). split; [done|]. intros o l Ht. destruct (decide (o = bid)) as [->|Ho].
  2: { exists l. split; [done|]. destruct (L3 o Ho). by apply (tied_other tears bid o TServe g l t b (ti_store t)). }
  destruct (td_standing _ _ _ _ Ht) as [[Hh Hr]|[_ Hr]]; [|by specialize (Hr g _ Hg)].
  assert (br_view b bid = br_view (ti_broker t) bid \/
    br_view b bid = spec_apply id (bytes_text shape) del (br_view (ti_broker t) bid)) as [Ev|Ev].
  { destruct L2 as [[_ ->]|(_ & _ & [->| ->])]; auto. }
  - exists l. split; [done|]. pose proof Ht as [H1 H2 H3 H4 _]. split; simpl; [done..|]. left. unfold hot. simpl. by rewrite Ev.
  - exists (Ledger (l_log l ++ [Some (Op id (bytes_text shape) del)]) (l_safe l)). split; [apply rtc_once, lg_apply|].
    pose proof Ht as [H1 H2 H3 H4 _]. split; simpl; [done|done|auto with wb| |].
    + destruct Hroom as [Hlim' _]. rewrite Ev in Hlim'. simpl in Hlim'. rewrite (hot_seq _ _ _ _ Ht Hh) in Hlim'. rewrite length_app. simpl. lia.
    + left. split.
      * unfold hot. simpl. rewrite Ev, replay_slots_snoc. by apply (like_op _ _ (Op id (bytes_text shape) del)).
      * intros g' k Hg'. specialize (Hr g' k Hg'). destruct k as [|sn| |sn]; simpl in *; [done| |done|].
        -- destruct Hr as (d & ? & ? & ?). exists d. auto with wb.
        -- destruct Hr as (d & ? & ?). exists d. auto with wb.
Qed.

(** The broker is lost while no instance runs. *)
Lemma step_lose tears t b : tier_ok t -> br_inv b -> (forall bid, br_fresh b bid = true) -> ti_tasks t = ∅ ->
  carries tears t (with_broker b t).
Proof using Type.
  intros Hok Hb Hf He o l Ht. exists (Ledger (l_safe l) (l_safe l)). split; [apply rtc_once, lg_lose|].
  pose proof Ht as [[_ [Hlim _]] H2 H3 H4 _]. destruct (br_fresh_view b o Hb (Hf o)) as [E1 E2].
  split; simpl; [|done|auto with wb| |].
  - split; [rewrite E1; pose proof br_limit_u64; lia|]. split; [|intros id e; by rewrite E2, lookup_empty].
    pose proof (vo_seq _ (br_view_ok _ o (to_broker _ Hok))). lia.
  - apply intact_faded in H3 as [H3 _]. lia.
  - right. split; [split; [apply Hf|done]|]. intros g k. simpl. by rewrite He, lookup_empty.
Qed.

(** Every step of the tier, whatever fails in it, is none or some of the ledger
    of each board. *)
Lemma tier_step_ok tears t t' : tier_step true tears t t' -> tier_ok t -> (forall o, exists l, tied tears o l t) ->
  tier_ok t' /\ carries tears t t'.
Proof using Type.
  intros Hst Hok Hl. pose proof Hok as [Hb Hs].
  destruct Hst as [g bid Hg|g bid f snap Hg E|g bid f snap Hg E|g bid f e Hg E Hc|g bid snap f b r Hg E Hr Hroom|
    g bid f id shape del b r Hg Hlim E Hroom|b Hb' Hsame|g bid f b snap Hg E|g bid snap f b snap' -> Hg E|
    g bid snap f s r Hg E|g|b Hb' Hf He].
  - split; [done|]. apply (carry_task tears _ _ bid g); [done|done| |done]. intros l _. exists TLoad. split_and!; [done..|by left].
  - split; [done|]. by apply (step_load tears t g bid f).
  - split; [done|]. by apply (step_load_none tears t g bid f snap).
  - done.
  - destruct (step_hydrate tears t g bid snap f b r Hok (Hl bid) Hg E (Hr eq_refl) Hroom). by split.
  - destruct (step_apply tears t g bid f id shape del b r Hok (Hl bid) Hg Hlim E Hroom). by split.
  - split; [done|]. intros o l Ht. exists l. split; [done|]. destruct (Hsame o) as (E1 & E2 & E3).
    apply (tied_task tears o l t _ None); try done. by left.
  - split; [|by apply (step_read tears t g bid f)]. destruct (Hl bid) as [l Ht]. by destruct (read_task tears bid f l t b snap Hok Ht E).
  - split; [|by apply (step_tear t g bid snap f)]. destruct (Hl bid) as [l Ht]. by destruct (read_task true bid f l t b snap' Hok Ht E).
  - destruct (step_save tears t g bid snap f s r Hok (Hl bid) Hg E) as [Hs' Hc]. split; [done|]. intros o l Ht.
    destruct (Hc o l Ht) as (safe & ? & ?). by eexists.
  - split; [done|]. apply carry_end.
  - split; [done|]. apply step_lose; [done..|]. by apply He.
Qed.

Lemma tier_steps_ok tears t t' : tier_steps true tears t t' -> tier_ok t -> (forall o, exists l, tied tears o l t) ->
  tier_ok t' /\ carries tears t t'.
Proof using Type.
  induction 1 as [t|t t1 t2 Hst _ IH]; intros Hok Hl; [split; [done|]; intros o l Ht; by exists l|].
  destruct (tier_step_ok tears t t1 Hst Hok Hl) as [Hok1 Hc1]. destruct IH as [Hok2 Hc2]; [done| |].
  - intros o. destruct (Hl o) as [l Ht]. destruct (Hc1 o l Ht) as (l' & _ & Ht'). by exists l'.
  - split; [done|]. intros o l Ht. destruct (Hc1 o l Ht) as (l1 & Hs1 & Ht1). destruct (Hc2 o l1 Ht1) as (l2 & Hs2 & Ht2).
    exists l2. split; [by etrans|done].
Qed.

(** ** From the beginning *)

Definition tier_start (b : B) (s : S) : Tier := {| ti_broker := b; ti_store := s; ti_tasks := ∅ |}.

Record blank (b : B) (s : S) : Prop := {
  bl_broker : br_inv b;
  bl_store : st_inv s;
  bl_fresh : forall o, br_fresh b o = true;
  bl_empty : forall o, st_view s o = None;
}.

Lemma blank_ok b s : blank b s -> tier_ok (tier_start b s).
Proof using Type. by intros []. Qed.

Lemma blank_tied tears b s o : blank b s -> tied tears o (Ledger [] []) (tier_start b s).
Proof using Type.
  intros [Hb Hs Hf He]. destruct (br_fresh_view b o Hb (Hf o)) as [E1 E2]. pose proof br_limit_u64. pose proof (sd_limit_pos (S := S)).
  assert (forall id, br_view b o = br_view b o -> v_shapes (br_view b o) !! id = None) as En by (intros id _; by rewrite E2, lookup_empty).
  split; simpl; [|by rewrite He|auto with wb|lia|].
  - split; [lia|]. split; [lia|]. intros id e. by rewrite En.
  - left. split; [|intros g k; simpl; by rewrite lookup_empty]. split; [done|]. intros id. simpl. rewrite En by done. constructor.
Qed.

Lemma reached_tied tears b s t : blank b s -> tier_steps true tears (tier_start b s) t -> tier_ok t /\
  forall o, exists l, ledger_steps tears (Ledger [] []) l /\ tied tears o l t.
Proof using Type.
  intros Hbl Hst. destruct (tier_steps_ok tears _ _ Hst (blank_ok b s Hbl)) as [Hok Hc].
  - intros o. exists (Ledger [] []). by apply blank_tied.
  - split; [done|]. intros o. by apply Hc, blank_tied.
Qed.

(** A board that serves shows its ledger's history. *)
Lemma serves_hot tears bid l t g : tied tears bid l t -> ti_tasks t !! g = Some (bid, TServe) -> hot bid l t.
Proof using Type. intros Ht Hg. destruct (td_standing _ _ _ _ Ht) as [[? _]|[_ Hr]]; [done|]. by specialize (Hr _ _ Hg). Qed.

(** What the store has is safe. *)
Lemma stored_safe tears bid l t snap : tied tears bid l t -> st_view (ti_store t) bid = Some snap -> snap_like (l_safe l) snap.
Proof using Type. intros Ht E. pose proof (td_safe _ _ _ _ Ht) as H1. by rewrite E in H1. Qed.

(** What becomes of a safe history. *)
Lemma safe_history (l l' : ledger) : whole l -> ledger_steps false l l' ->
  exists ops kept more, l_safe l = Some <$> ops /\ l_safe l' = Some <$> ops ++ kept /\ l_log l' = Some <$> ops ++ kept ++ more.
Proof using Type.
  intros Hw Hst. pose proof (whole_steps _ _ Hst Hw) as [Hs [all E]]. destruct (ledger_safe _ _ _ Hst (proj1 Hw)) as [_ Hp].
  specialize (Hp eq_refl). destruct (whole_prefix _ _ _ Hs E) as (o1 & more & -> & E1).
  destruct (whole_prefix _ _ _ Hp E1) as (ops & kept & -> & E2). exists ops, kept, more. by rewrite (assoc_L (++)).
Qed.
End system.
#[global] Arguments Tier _ _ _ {_ _}.
