(* ===== verification/Metrics.v ===== *)
(** Observability (internal/hub/metrics.go, internal/metrics/prometheus.go):
    the interface the hub emits its events through, the no-op default, and the
    Prometheus adapter over a client library that is a parameter. *)

From S2P Require Import Prelude.
Local Open Scope Z_scope.

(** The hub's [Metrics] interface. *)
Class Metrics (M : Type) := {
  ConnOpened : M -> M;
  ConnClosed : M -> M;
  BoardOpened : M -> M;
  BoardClosed : M -> M;
  MessageReceived : M -> M;
  MessagesDelivered : Z -> M -> M;
  ClientKicked : M -> M;
}.

(** The default when no [Metrics] is configured. *)
Record nopMetrics := NopMetrics {}.

#[export] Instance nopMetrics_metrics : Metrics nopMetrics := {|
  ConnOpened m := m;
  ConnClosed m := m;
  BoardOpened m := m;
  BoardClosed m := m;
  MessageReceived m := m;
  MessagesDelivered _ m := m;
  ClientKicked m := m;
|}.

(** The events themselves, as a list in the order they were emitted: the
    instance every other one is a function of. *)
Inductive event :=
  | EConnOpened | EConnClosed | EBoardOpened | EBoardClosed
  | EMessageReceived | EMessagesDelivered (n : Z) | EClientKicked.

#[export] Instance event_eq_dec : EqDecision event.
Proof. solve_decision. Defined.

Definition emit {M} `{Metrics M} (e : event) : M -> M :=
  match e with
  | EConnOpened => ConnOpened | EConnClosed => ConnClosed
  | EBoardOpened => BoardOpened | EBoardClosed => BoardClosed
  | EMessageReceived => MessageReceived
  | EMessagesDelivered n => MessagesDelivered n | EClientKicked => ClientKicked
  end.

Definition emit_all {M} `{Metrics M} (l : list event) (m : M) : M := fold_left (fun m e => emit e m) l m.

(** ** Prometheus *)

(** The options of a metric ([prometheus.GaugeOpts], [CounterOpts]). *)
Record Opts := { o_Namespace : string; o_Name : string; o_Help : string }.

(** The client library: gauges and counters, the name and the value under
    which they are exposed, and registries.  A registry is given collectors,
    here the lists of the names they expose; [None] is a panic. *)
Class PromClient := {
  Gauge : Type;
  Counter : Type;
  Registry : Type;
  NewGauge : Opts -> Gauge;
  NewCounter : Opts -> Counter;
  Gauge_Inc : Gauge -> Gauge;
  Gauge_Dec : Gauge -> Gauge;
  Counter_Inc : Counter -> Counter;
  Counter_Add : Z -> Counter -> Counter;
  gauge_name : Gauge -> string;
  counter_name : Counter -> string;
  gauge_value : Gauge -> Z;
  counter_value : Counter -> Z;
  NewRegistry : Registry;
  MustRegister : list (list string) -> Registry -> option Registry;
  registered : Registry -> list string;
  NewGoCollector : list string;
  NewProcessCollector : list string;
}.

Definition float_exact : Z := 2 ^ 53.

(** Values are float64, so the laws stop where integers stop being exact. *)
Class PromLaws `{PromClient} : Prop := {
  NewGauge_name o : gauge_name (NewGauge o) = o_Namespace o +:+ "_" +:+ o_Name o;
  NewCounter_name o : counter_name (NewCounter o) = o_Namespace o +:+ "_" +:+ o_Name o;
  Gauge_Inc_name g : gauge_name (Gauge_Inc g) = gauge_name g;
  Gauge_Dec_name g : gauge_name (Gauge_Dec g) = gauge_name g;
  Counter_Inc_name c : counter_name (Counter_Inc c) = counter_name c;
  Counter_Add_name n c : counter_name (Counter_Add n c) = counter_name c;
  NewGauge_value o : gauge_value (NewGauge o) = 0;
  NewCounter_value o : counter_value (NewCounter o) = 0;
  Gauge_Inc_value : forall g, - float_exact < gauge_value g < float_exact ->
    gauge_value (Gauge_Inc g) = gauge_value g + 1;
  Gauge_Dec_value : forall g, - float_exact < gauge_value g < float_exact ->
    gauge_value (Gauge_Dec g) = gauge_value g - 1;
  Counter_Inc_value : forall c, 0 <= counter_value c < float_exact ->
    counter_value (Counter_Inc c) = counter_value c + 1;
  Counter_Add_value : forall n c, 0 <= n -> 0 <= counter_value c -> counter_value c + n <= float_exact ->
    counter_value (Counter_Add n c) = counter_value c + n;
  NewRegistry_registered : registered NewRegistry = [];
  (** a registry panics when it is given a name a second time *)
  MustRegister_registered cs r : NoDup (registered r ++ mjoin cs) ->
    exists r', MustRegister cs r = Some r' /\ registered r' = registered r ++ mjoin cs;
  (** the collectors of the library have name spaces of their own *)
  collectors_names : NoDup (NewGoCollector ++ NewProcessCollector) /\
    forall name, name ∈ NewGoCollector ++ NewProcessCollector -> String.prefix "whiteboard_" name = false;
}.

Section prometheus.
Context `{PromClient}.

Record Prometheus := {
  reg : Registry;
  activeConns : Gauge;
  activeBoards : Gauge;
  received : Counter;
  delivered : Counter;
  kicked : Counter;
}.

Definition activeConns_opts : Opts :=
  {| o_Namespace := "whiteboard"; o_Name := "active_connections";
     o_Help := "Number of currently connected WebSocket clients." |}.
Definition activeBoards_opts : Opts :=
  {| o_Namespace := "whiteboard"; o_Name := "active_boards";
     o_Help := "Number of boards with at least one connected client on this instance." |}.
Definition received_opts : Opts :=
  {| o_Namespace := "whiteboard"; o_Name := "messages_received_total"; o_Help := "Total messages received from clients." |}.
Definition delivered_opts : Opts :=
  {| o_Namespace := "whiteboard"; o_Name := "messages_delivered_total"; o_Help := "Total messages fanned out to clients." |}.
Definition kicked_opts : Opts :=
  {| o_Namespace := "whiteboard"; o_Name := "clients_kicked_total";
     o_Help := "Total clients disconnected for failing to keep up (backpressure)." |}.

(** [None] is a panic of the registration. *)
Definition NewPrometheus : option Prometheus :=
  let p := {| reg := NewRegistry; activeConns := NewGauge activeConns_opts; activeBoards := NewGauge activeBoards_opts;
              received := NewCounter received_opts; delivered := NewCounter delivered_opts;
              kicked := NewCounter kicked_opts |} in
  r ← MustRegister
    [[gauge_name (activeConns p)]; [gauge_name (activeBoards p)]; [counter_name (received p)]; [counter_name (delivered p)];
     [counter_name (kicked p)]; NewGoCollector; NewProcessCollector] (reg p);
  Some {| reg := r; activeConns := activeConns p; activeBoards := activeBoards p;
          received := received p; delivered := delivered p; kicked := kicked p |}.

(** What the handler of [/metrics] shows of them: the values of those that
    are registered. *)
Definition Handler (p : Prometheus) : list (string * Z) :=
  filter (fun m => m.1 ∈ registered (reg p))
    [(gauge_name (activeConns p), gauge_value (activeConns p)); (gauge_name (activeBoards p), gauge_value (activeBoards p));
     (counter_name (received p), counter_value (received p)); (counter_name (delivered p), counter_value (delivered p));
     (counter_name (kicked p), counter_value (kicked p))].

#[global] Instance Prometheus_metrics : Metrics Prometheus := {|
  ConnOpened p := {| reg := reg p; activeConns := Gauge_Inc (activeConns p); activeBoards := activeBoards p;
    received := received p; delivered := delivered p; kicked := kicked p |};
  ConnClosed p := {| reg := reg p; activeConns := Gauge_Dec (activeConns p); activeBoards := activeBoards p;
    received := received p; delivered := delivered p; kicked := kicked p |};
  BoardOpened p := {| reg := reg p; activeConns := activeConns p; activeBoards := Gauge_Inc (activeBoards p);
    received := received p; delivered := delivered p; kicked := kicked p |};
  BoardClosed p := {| reg := reg p; activeConns := activeConns p; activeBoards := Gauge_Dec (activeBoards p);
    received := received p; delivered := delivered p; kicked := kicked p |};
  MessageReceived p := {| reg := reg p; activeConns := activeConns p; activeBoards := activeBoards p;
    received := Counter_Inc (received p); delivered := delivered p; kicked := kicked p |};
  MessagesDelivered n p := {| reg := reg p; activeConns := activeConns p; activeBoards := activeBoards p;
    received := received p; delivered := Counter_Add n (delivered p); kicked := kicked p |};
  ClientKicked p := {| reg := reg p; activeConns := activeConns p; activeBoards := activeBoards p;
    received := received p; delivered := delivered p; kicked := Counter_Inc (kicked p) |};
|}.
End prometheus.

(** ** What the adapter counts *)

Definition event_conns (e : event) : Z :=
  match e with EConnOpened => 1 | EConnClosed => -1 | _ => 0 end.
Definition event_boards (e : event) : Z :=
  match e with EBoardOpened => 1 | EBoardClosed => -1 | _ => 0 end.
Definition event_received (e : event) : Z := match e with EMessageReceived => 1 | _ => 0 end.
Definition event_delivered (e : event) : Z := match e with EMessagesDelivered n => n | _ => 0 end.
Definition event_kicked (e : event) : Z := match e with EClientKicked => 1 | _ => 0 end.

Definition total (f : event -> Z) (l : list event) : Z := fold_right (fun e z => f e + z) 0 l.

Lemma total_app f l1 l2 : total f (l1 ++ l2) = total f l1 + total f l2.
Proof. induction l1 as [|e l1 IH]; simpl; [done|]. rewrite IH. lia. Qed.

(** Event streams a float64 counter can follow: no negative delivery, and all
    the running totals within the exact range. *)
Definition countable_stream (l : list event) : Prop :=
  (forall n, EMessagesDelivered n ∈ l -> 0 <= n) /\
  Z.of_nat (length l) < float_exact /\ total event_delivered l <= float_exact.

Lemma total_bounds f l : (forall e, e ∈ l -> -1 <= f e <= 1) -> - Z.of_nat (length l) <= total f l <= Z.of_nat (length l).
Proof.
  induction l as [|e l IH]; intros H; simpl; [lia|].
  specialize (IH ltac:(intros; apply H; by right)). specialize (H e ltac:(left)). lia.
Qed.

Lemma total_nonneg f l : (forall e, e ∈ l -> 0 <= f e) -> 0 <= total f l.
Proof.
  induction l as [|e l IH]; intros H; simpl; [lia|].
  specialize (IH ltac:(intros; apply H; by right)). specialize (H e ltac:(left)). lia.
Qed.

Lemma countable_prefix l1 l2 : countable_stream (l1 ++ l2) -> countable_stream l1.
Proof.
  intros (H1 & H2 & H3). rewrite length_app in H2. rewrite total_app in H3.
  assert (0 <= total event_delivered l2).
  { apply total_nonneg. intros [] He; simpl; try lia. apply H1. set_solver. }
  split_and!; [|lia|lia]. intros n Hn. apply H1. set_solver.
Qed.

Section counting.
Context {PC : PromClient} {PL : PromLaws}.

(** The names under which the metrics are exposed. *)
Definition exposed : list string :=
  ["whiteboard_active_connections"; "whiteboard_active_boards"; "whiteboard_messages_received_total";
   "whiteboard_messages_delivered_total"; "whiteboard_clients_kicked_total"].

Record reads_as (p : Prometheus) (l : list event) : Prop := {
  ra_conns : gauge_value (activeConns p) = total event_conns l;
  ra_boards : gauge_value (activeBoards p) = total event_boards l;
  ra_received : counter_value (received p) = total event_received l;
  ra_delivered : counter_value (delivered p) = total event_delivered l;
  ra_kicked : counter_value (kicked p) = total event_kicked l;
  ra_names : [gauge_name (activeConns p); gauge_name (activeBoards p); counter_name (received p);
    counter_name (delivered p); counter_name (kicked p)] = exposed;
  ra_registered : exposed ⊆ registered (reg p);
}.

Lemma prometheus_step p l e : countable_stream (l ++ [e]) -> reads_as p l -> reads_as (emit e p) (l ++ [e]).
Proof using PL.
  intros Hl [H1 H2 H3 H4 H5 H6 H7]. pose proof Hl as (Hn & Hlen & Hd). rewrite length_app in Hlen. simpl in Hlen.
  rewrite total_app in Hd.
  pose proof (total_bounds event_conns l) as B1. pose proof (total_bounds event_boards l) as B2.
  pose proof (total_bounds event_received l) as B3. pose proof (total_bounds event_kicked l) as B5.
  pose proof (total_nonneg event_received l) as N3. pose proof (total_nonneg event_kicked l) as N5.
  pose proof (total_nonneg event_delivered l) as N4.
  specialize (B1 ltac:(intros [] _; simpl; lia)). specialize (B2 ltac:(intros [] _; simpl; lia)).
  specialize (B3 ltac:(intros [] _; simpl; lia)). specialize (B5 ltac:(intros [] _; simpl; lia)).
  specialize (N3 ltac:(intros [] _; simpl; lia)). specialize (N5 ltac:(intros [] _; simpl; lia)).
  specialize (N4 ltac:(intros [] He; simpl; try lia; apply Hn; set_solver)).
  destruct e; split; rewrite ?total_app; simpl; rewrite ?Z.add_0_r, ?Gauge_Inc_name, ?Gauge_Dec_name, ?Counter_Inc_name,
    ?Counter_Add_name; try done.
  - rewrite Gauge_Inc_value; lia.
  - rewrite Gauge_Dec_value; lia.
  - rewrite Gauge_Inc_value; lia.
  - rewrite Gauge_Dec_value; lia.
  - rewrite Counter_Inc_value; lia.
  - simpl in Hd. rewrite Counter_Add_value; [lia|apply Hn; set_solver|lia..].
  - rewrite Counter_Inc_value; lia.
Qed.

(** The registration does not panic. *)
Lemma NewPrometheus_reads : exists p, NewPrometheus = Some p /\ reads_as p [].
Proof using PL.
  unfold NewPrometheus. simpl. rewrite !NewGauge_name, !NewCounter_name. destruct collectors_names as [Hn Hw].
  destruct (MustRegister_registered (map (fun n => [n]) exposed ++ [NewGoCollector; NewProcessCollector]) NewRegistry) as (r & Hr & Er).
  { rewrite NewRegistry_registered. change (NoDup (exposed ++ NewGoCollector ++ NewProcessCollector ++ [])). rewrite app_nil_r.
    apply NoDup_app. split_and!; [by apply (bool_decide_unpack _)| |done]. intros n Hin Hc. specialize (Hw n Hc).
    unfold exposed in Hin. rewrite !elem_of_cons, elem_of_nil in Hin. by destruct Hin as [->|[->|[->|[->|[->|[]]]]]]. }
  simpl in Hr. match goal with |- context [MustRegister ?l _] => change l with (map (fun n => [n]) exposed ++ [NewGoCollector; NewProcessCollector]) end.
  simpl. rewrite Hr. eexists. split; [done|].
  split; simpl; try apply NewGauge_value; try apply NewCounter_value; [by rewrite !NewGauge_name, !NewCounter_name|].
  rewrite Er, NewRegistry_registered. simpl. set_solver.
Qed.

(** The scraped values are the totals of the events the hub emitted. *)
Lemma prometheus_counts l : countable_stream l -> exists p, NewPrometheus = Some p /\ reads_as (emit_all l p) l.
Proof using PL.
  intros Hl. destruct NewPrometheus_reads as (p & E & Hp). exists p. split; [done|]. revert Hl.
  induction l as [|e l IH] using rev_ind; intros Hl; [done|].
  unfold emit_all. rewrite fold_left_app. simpl. apply prometheus_step; [done|].
  apply IH. by eapply countable_prefix.
Qed.

Lemma Handler_shows p l : reads_as p l -> Handler p = zip exposed
  [total event_conns l; total event_boards l; total event_received l; total event_delivered l; total event_kicked l].
Proof using Type.
  intros [<- <- <- <- <- Hn Hr]. injection Hn as E1 E2 E3 E4 E5. unfold Handler. rewrite E1, E2, E3, E4, E5.
  rewrite !filter_cons_True by (simpl; apply Hr; apply (bool_decide_unpack _); by vm_compute). done.
Qed.
End counting.
