(* ===== verification/Board.v ===== *)
(** The board actor (internal/hub/board.go): its set of local clients, and the
    handlers its goroutine runs to relay the broker's stream to them.

    Clients are heap objects, shared with the connection goroutines: a handler
    maps a board and a heap to a board and a heap.  A handler that would send
    on or close a closed channel, or dereference a dead pointer, panics
    ([None]).  Go iterates over a map in an unspecified order; the handlers
    that do take that order as an argument. *)

From S2P Require Import Prelude Strconv Utf8 Json JsonFacts Protocol Metrics.
Local Open Scope Z_scope.

(** ** State *)

(** [sendBuffer]: how many messages may queue for a client. *)
Definition sendBuffer : nat := 256.

(** A [Client]; [c_send] are the messages buffered in its send channel, oldest
    first, [c_closed] says whether that channel is closed, [c_conn] whether the
    hub has closed its connection. *)
Record Client := {
  c_id : string;
  c_name : string;
  c_color : string;
  c_board : nat;
  c_send : list string;
  c_closed : bool;
  c_conn : bool;
  c_present : bool;
}.

Definition set_send (q : list string) (c : Client) : Client :=
  {| c_id := c_id c; c_name := c_name c; c_color := c_color c; c_board := c_board c;
     c_send := q; c_closed := c_closed c; c_conn := c_conn c; c_present := c_present c |}.
Definition set_present (p : bool) (c : Client) : Client :=
  {| c_id := c_id c; c_name := c_name c; c_color := c_color c; c_board := c_board c;
     c_send := c_send c; c_closed := c_closed c; c_conn := c_conn c; c_present := p |}.
Definition set_closed (c : Client) : Client :=
  {| c_id := c_id c; c_name := c_name c; c_color := c_color c; c_board := c_board c;
     c_send := c_send c; c_closed := true; c_conn := c_conn c; c_present := c_present c |}.
Definition set_conn (c : Client) : Client :=
  {| c_id := c_id c; c_name := c_name c; c_color := c_color c; c_board := c_board c;
     c_send := c_send c; c_closed := c_closed c; c_conn := true; c_present := c_present c |}.

(** The client set of one board, the heap of clients, and the metrics. *)
Record state {M : Type} := {
  clients : gset nat;
  byID : gmap string nat;
  heap : gmap nat Client;
  metrics : M;
}.
#[global] Arguments state : clear implicits.

Section board.
Context {M : Type} `{Metrics M}.
Implicit Types st : state M.

Definition set_heap (h : gmap nat Client) (st : state M) : state M :=
  {| clients := clients st; byID := byID st; heap := h; metrics := metrics st |}.
Definition record (f : M -> M) (st : state M) : state M :=
  {| clients := clients st; byID := byID st; heap := heap st; metrics := f (metrics st) |}.

(** An update through a client pointer. *)
Definition update (c : nat) (f : Client -> Client) (st : state M) : option (state M) :=
  cl ← heap st !! c; Some (set_heap (<[c := f cl]> (heap st)) st).

(** ** Channel operations *)

(** [select { case c.send <- data: ...; default: ... }] *)
Definition try_send (c : nat) (data : string) (st : state M) : option (bool * state M) :=
  cl ← heap st !! c;
  if c_closed cl then None
  else if decide (length (c_send cl) < sendBuffer)%nat
       then Some (true, set_heap (<[c := set_send (c_send cl ++ [data]) cl]> (heap st)) st)
       else Some (false, st).

(** [close(c.send)] *)
Definition close_send (c : nat) (st : state M) : option (state M) :=
  cl ← heap st !! c;
  if c_closed cl then None else update c set_closed st.

(** ** Handlers *)

Definition join (c : nat) (st : state M) : option (state M) :=
  cl ← heap st !! c;
  update c (set_present true)
    {| clients := {[c]} ∪ clients st; byID := <[c_id cl := c]> (byID st);
       heap := heap st; metrics := metrics st |}.

(** The removal that [detach] and [shutdown] share. *)
Definition remove (c : nat) (st : state M) : option (state M) :=
  cl ← heap st !! c;
  st ← update c (set_present false) st;
  close_send c {| clients := clients st ∖ {[c]}; byID := delete (c_id cl) (byID st);
                  heap := heap st; metrics := metrics st |}.

Definition detach (c : nat) (closeConn : bool) (st : state M) : option (state M) :=
  cl ← heap st !! c;
  if negb (c_present cl) then Some st
  else
    st ← remove c st;
    if closeConn then update c set_conn st else Some st.

(** The loop of a delivery: how many got the message, and who could not. *)
Fixpoint deliver (order : list nat) (data : string) (exclude : option nat) (st : state M)
    : option (Z * list nat * state M) :=
  match order with
  | [] => Some (0, [], st)
  | c :: order' =>
      if bool_decide (exclude = Some c) then deliver order' data exclude st
      else
        '(sent, st) ← try_send c data st;
        '(n, slow, st) ← deliver order' data exclude st;
        Some (if sent : bool then (n + 1, slow, st) else (n, c :: slow, st))
  end.

Fixpoint kick (slow : list nat) (st : state M) : option (state M) :=
  match slow with
  | [] => Some st
  | c :: slow' => st ← detach c true (record ClientKicked st); kick slow' st
  end.

Definition deliverReliable (order : list nat) (data : string) (exclude : option nat) (st : state M)
    : option (state M) :=
  '(n, slow, st) ← deliver order data exclude st;
  kick slow (record (MessagesDelivered n) st).

Definition deliverBestEffort (order : list nat) (data : string) (exclude : option nat) (st : state M)
    : option (state M) :=
  '(n, _, st) ← deliver order data exclude st; Some (record (MessagesDelivered n) st).

Definition push (c : nat) (data : string) (st : state M) : option (bool * state M) :=
  '(sent, st) ← try_send c data st;
  if sent : bool then Some (true, record (MessagesDelivered 1) st)
  else st ← detach c true (record ClientKicked st); Some (false, st).

Definition dispatch `{Float64} (order : list nat) (msg : string) (st : state M) : option (state M) :=
  match Unmarshal dec_Envelope msg Envelope_zero with
  | (_, Some _) => deliverReliable order msg None st
  | (env, None) =>
      if bool_decide (Type_ env = TypeCursor) then
        let '(cur, _) := DecodePayload dec_Cursor env Cursor_zero in
        deliverBestEffort order msg (byID st !! cur_ClientID cur) st
      else deliverReliable order msg None st
  end.

(** [case d := <-b.direct]: the client may have been removed meanwhile. *)
Definition direct (c : nat) (data : string) (st : state M) : option (state M) :=
  cl ← heap st !! c;
  if c_present cl then '(_, st) ← push c data st; Some st else Some st.

(** [case ch := <-b.inspect] *)
Definition inspect (st : state M) : Z := Z.of_nat (size (clients st)).

Fixpoint shutdown (order : list nat) (st : state M) : option (state M) :=
  match order with
  | [] => Some st
  | c :: order' => st ← remove c st; st ← update c set_conn st; shutdown order' st
  end.
End board.

(** ** The invariant *)

(** [board_inv b st]: the client set of the board at address [b] is exactly its
    present clients, whose channels are open; the index points into it. *)
Record board_inv {M} (b : nat) (st : state M) : Prop := {
  bi_in : forall c, c ∈ clients st -> exists cl, heap st !! c = Some cl /\
    c_board cl = b /\ c_present cl = true /\ c_closed cl = false;
  bi_out : forall c cl, heap st !! c = Some cl -> c_board cl = b -> c ∉ clients st -> c_present cl = false;
  bi_byID : forall id c, byID st !! id = Some c ->
    c ∈ clients st /\ exists cl, heap st !! c = Some cl /\ c_id cl = id;
}.

(** No two clients of the board share an identifier; then the index is
    complete. *)
Definition ids_distinct {M} (st : state M) : Prop :=
  forall c1 c2 cl1 cl2, c1 ∈ clients st -> c2 ∈ clients st ->
    heap st !! c1 = Some cl1 -> heap st !! c2 = Some cl2 -> c_id cl1 = c_id cl2 -> c1 = c2.

Definition index_complete {M} (st : state M) : Prop :=
  forall c cl, c ∈ clients st -> heap st !! c = Some cl -> byID st !! c_id cl = Some c.

(** A client that no board has seen. *)
Lemma fresh_inv {M} b k c (st : state M) : board_inv b st -> heap st !! k = None -> c_present c = false ->
  board_inv b (set_heap (<[k := c]> (heap st)) st).
Proof using Type.
  intros [H1 H2 H3] Hk Hp. assert (forall c', c' ∈ clients st -> c' <> k) as Hnk.
  { intros c' Hc' ->. destruct (H1 k Hc') as (cl' & Hcl' & _). congruence. }
  split; simpl.
  - intros c' Hc'. rewrite lookup_insert_ne by (by apply not_eq_sym, Hnk). by apply H1.
  - intros c' cl'. rewrite lookup_insert. case_decide; [by intros [= <-]|by apply H2].
  - intros id' c' Hid'. destruct (H3 id' c' Hid') as [Hin ?]. split; [done|].
    by rewrite lookup_insert_ne by (by apply not_eq_sym, Hnk).
Qed.

Definition room (cl : Client) : bool := bool_decide (length (c_send cl) < sendBuffer)%nat.
Definition enqueue (data : string) (cl : Client) : Client := set_send (c_send cl ++ [data]) cl.

(** What a client looks like once the board has dropped it. *)
Definition removed (closeConn : bool) (cl : Client) : Client :=
  (if closeConn then set_conn else id) (set_closed (set_present false cl)).

Definition heap_room (h : gmap nat Client) (c : nat) : bool :=
  match h !! c with Some cl => room cl | None => false end.

Section lemmas.
Context {M : Type} `{Metrics M}.
Implicit Types st : state M.

Lemma try_send_spec c data cl st : heap st !! c = Some cl -> c_closed cl = false ->
  try_send c data st = Some (room cl, if room cl then set_heap (<[c := enqueue data cl]> (heap st)) st else st).
Proof using Type.
  intros Hc Ho. unfold try_send. rewrite Hc. simpl. rewrite Ho. unfold room.
  by repeat case_decide; rewrite ?bool_decide_true, ?bool_decide_false by done.
Qed.

(** Removal of a present client, with its pointwise effect. *)
Lemma remove_spec c cl st : heap st !! c = Some cl -> c_closed cl = false ->
  remove c st = Some {| clients := clients st ∖ {[c]}; byID := delete (c_id cl) (byID st);
    heap := <[c := removed false cl]> (heap st); metrics := metrics st |}.
Proof using Type.
  intros Hc Ho. unfold remove, close_send, update. rewrite Hc. simpl. rewrite lookup_insert_eq. simpl. rewrite Ho. simpl.
  unfold set_heap. simpl. by rewrite insert_insert_eq.
Qed.

Lemma client_update_spec c f cl st : heap st !! c = Some cl ->
  update c f st = Some (set_heap (<[c := f cl]> (heap st)) st).
Proof using Type. intros Hc. unfold update. by rewrite Hc. Qed.

Lemma detach_spec c closeConn cl st : heap st !! c = Some cl -> c_present cl = true -> c_closed cl = false ->
  detach c closeConn st = Some {| clients := clients st ∖ {[c]}; byID := delete (c_id cl) (byID st);
    heap := <[c := removed closeConn cl]> (heap st); metrics := metrics st |}.
Proof using Type.
  intros Hc Hp Ho. unfold detach. rewrite Hc. simpl. rewrite Hp. simpl. rewrite (remove_spec c cl) by done. simpl.
  destruct closeConn; [|done]. unfold update. simpl. rewrite lookup_insert_eq. simpl.
  unfold set_heap. simpl. by rewrite insert_insert_eq.
Qed.

Lemma detach_absent c closeConn cl st : heap st !! c = Some cl -> c_present cl = false ->
  detach c closeConn st = Some st.
Proof using Type. intros Hc Hp. unfold detach. rewrite Hc. simpl. by rewrite Hp. Qed.

(** Detaching once more changes nothing. *)
Lemma detach_twice c k1 k2 st st' : detach c k1 st = Some st' -> detach c k2 st' = Some st'.
Proof using Type.
  intros Hd. unfold detach in Hd. destruct (heap st !! c) as [cl|] eqn:Hc; [|done]. simpl in Hd.
  destruct (c_present cl) eqn:Hp; simpl in Hd.
  - destruct (c_closed cl) eqn:Ho.
    { unfold remove, close_send, update in Hd. rewrite Hc in Hd. simpl in Hd.
      rewrite lookup_insert_eq in Hd. simpl in Hd. by rewrite Ho in Hd. }
    rewrite (remove_spec c cl) in Hd by done. simpl in Hd.
    apply (detach_absent _ _ (removed k1 cl)); [|by destruct k1].
    destruct k1; simplify_eq; simpl.
    + unfold update in Hd. simpl in Hd. rewrite lookup_insert_eq in Hd. simplify_eq/=. by rewrite lookup_insert_eq.
    + by rewrite lookup_insert_eq.
  - simplify_eq. by apply (detach_absent _ _ cl).
Qed.

(** ** Deliveries *)

Definition targets (order : list nat) (exclude : option nat) : list nat :=
  filter (fun c => exclude <> Some c) order.

(** The loop of a delivery: each target with room gets the message at the end
    of its queue, the others are collected, nobody else is touched. *)
Lemma deliver_spec order data exclude st : NoDup order ->
  (forall c, c ∈ order -> exists cl, heap st !! c = Some cl /\ c_closed cl = false) ->
  let ts := targets order exclude in
  exists h, deliver order data exclude st =
    Some (Z.of_nat (length (filter (fun c => heap_room (heap st) c = true) ts)),
          filter (fun c => heap_room (heap st) c = false) ts, set_heap h st) /\
    forall c, h !! c = (fun cl => if bool_decide (c ∈ ts) && room cl then enqueue data cl else cl) <$> heap st !! c.
Proof using Type.
  revert st. induction order as [|c order IH]; intros st Hn Ho; simpl.
  { exists (heap st). split; [by destruct st|]. intros c. by destruct (heap st !! c). }
  apply NoDup_cons in Hn as [Hc Hn]. unfold targets. rewrite filter_cons.
  destruct (decide (exclude = Some c)) as [Hex|Hex].
  - rewrite bool_decide_true by done. rewrite decide_False by tauto.
    apply IH; [done|]. intros c' Hc'. apply Ho. by right.
  - rewrite bool_decide_false by done. rewrite decide_True by done. fold (targets order exclude).
    destruct (Ho c ltac:(left)) as (cl & Hcl & Hop). rewrite (try_send_spec c data cl) by done. simpl.
    assert (c ∉ targets order exclude) as Hct by (unfold targets; rewrite list_elem_of_filter; tauto).
    set (st1 := if room cl then _ else st).
    assert (forall c', c' <> c -> heap st1 !! c' = heap st !! c') as Hf.
    { intros c' Hc'. unfold st1. destruct (room cl); [|done]. simpl. by rewrite lookup_insert_ne. }
    destruct (IH st1 Hn) as (h & Ed & Hh).
    { intros c' Hc'. rewrite Hf by (intros ->; done). apply Ho. by right. }
    assert (forall b, filter (fun c' => heap_room (heap st1) c' = b) (targets order exclude) =
      filter (fun c' => heap_room (heap st) c' = b) (targets order exclude)) as Hfil.
    { intros b. apply filter_elem_ext. intros c' Hc'. unfold heap_room. rewrite Hf; [done|]. by intros ->. }
    exists h. rewrite Ed. simpl. rewrite !Hfil. rewrite !filter_cons.
    assert (heap_room (heap st) c = room cl) as Er by (unfold heap_room; by rewrite Hcl). rewrite Er.
    split.
    + unfold st1. destruct (room cl); simpl; [|done]. do 3 f_equal. lia.
    + intros c'. rewrite Hh. destruct (decide (c' = c)) as [->|Hne].
      * rewrite Hcl. unfold st1. rewrite (bool_decide_false (c ∈ targets order exclude)) by done.
        rewrite bool_decide_true by (left). simpl.
        destruct (room cl) eqn:Erm; simpl; [by rewrite lookup_insert_eq|by rewrite Hcl].
      * rewrite Hf by done. destruct (heap st !! c'); [|done]. simpl. do 2 f_equal.
        rewrite (bool_decide_ext (c' ∈ c :: targets order exclude) (c' ∈ targets order exclude)); [done|set_solver].
Qed.
End lemmas.

Section handlers.
Context {M : Type} `{Metrics M}.
Implicit Types st : state M.

Definition live (st : state M) (c : nat) : Prop :=
  exists cl, heap st !! c = Some cl /\ c_present cl = true /\ c_closed cl = false.

Definition ids_of (h : gmap nat Client) (l : list nat) : list string := omap (fun c => c_id <$> h !! c) l.

(** The state after every client of [l] has been dropped. *)
Record dropped (l : list nat) (closeConn : bool) (st st' : state M) : Prop := {
  dr_clients : clients st' = clients st ∖ list_to_set l;
  dr_heap : forall c, heap st' !! c = (fun cl => if bool_decide (c ∈ l) then removed closeConn cl else cl) <$> heap st !! c;
  dr_byID : forall id, byID st' !! id = if bool_decide (id ∈ ids_of (heap st) l) then None else byID st !! id;
}.

Lemma dropped_nil k st st' : clients st' = clients st -> heap st' = heap st -> byID st' = byID st ->
  dropped [] k st st'.
Proof using Type.
  intros E1 E2 E3. split; [set_solver| |by rewrite E3]. intros c. rewrite E2. by destruct (heap st !! c).
Qed.

Lemma dropped_cons c cl l k st st1 st2 : c ∉ l -> heap st !! c = Some cl ->
  clients st1 = clients st ∖ {[c]} -> byID st1 = delete (c_id cl) (byID st) ->
  heap st1 = <[c := removed k cl]> (heap st) -> dropped l k st1 st2 -> dropped (c :: l) k st st2.
Proof using Type.
  intros Hc Hcl E1 E2 E3 [D1 D2 D3].
  assert (ids_of (heap st1) l = ids_of (heap st) l) as Eids.
  { rewrite E3. clear -Hc. unfold ids_of. induction l as [|c' l IH]; [done|].
    apply not_elem_of_cons in Hc as [Hne Hc]. csimpl. rewrite lookup_insert_ne by done.
    rewrite IH by done. done. }
  split.
  - rewrite D1, E1. set_solver.
  - intros c'. rewrite D2, E3. destruct (decide (c' = c)) as [->|Hne].
    + rewrite lookup_insert_eq, Hcl. simpl. by rewrite bool_decide_false, bool_decide_true by set_solver.
    + rewrite lookup_insert_ne by done. destruct (heap st !! c'); [|done]. simpl.
      by rewrite (bool_decide_ext (c' ∈ c :: l) (c' ∈ l)) by set_solver.
  - intros id. rewrite D3, Eids, E2. unfold ids_of at 2. csimpl. rewrite Hcl. simpl.
    fold (ids_of (heap st) l). destruct (decide (id = c_id cl)) as [->|Hne].
    + rewrite lookup_delete_eq. rewrite (bool_decide_true (_ ∈ _ :: _)) by left. by case_bool_decide.
    + rewrite lookup_delete_ne by done.
      by rewrite (bool_decide_ext (id ∈ c_id cl :: ids_of (heap st) l) (id ∈ ids_of (heap st) l)) by set_solver.
Qed.

Lemma live_other c cl' st st1 c' : heap st1 = <[c := cl']> (heap st) -> c' <> c -> live st c' -> live st1 c'.
Proof using Type.
  intros E Hne (cl & Hcl & Hl). exists cl. by rewrite E, lookup_insert_ne.
Qed.

Lemma kick_spec slow st : NoDup slow -> (forall c, c ∈ slow -> live st c) ->
  exists st', kick slow st = Some st' /\ dropped slow true st st' /\
    metrics st' = Nat.iter (length slow) ClientKicked (metrics st).
Proof using Type.
  revert st. induction slow as [|c slow IH]; intros st Hn Hl; simpl.
  { exists st. split_and!; [done|by apply dropped_nil|done]. }
  apply NoDup_cons in Hn as [Hc Hn]. destruct (Hl c ltac:(left)) as (cl & Hcl & Hp & Ho).
  rewrite (detach_spec c true cl) by done. simpl. set (st1 := {| clients := _ |}).
  destruct (IH st1 Hn) as (st' & -> & Hd & Hm).
  { intros c' Hc'. eapply (live_other c); [done|by intros ->|apply Hl; by right]. }
  exists st'. split_and!; [done|by apply (dropped_cons c cl _ true st st1)|].
  rewrite Hm. simpl. clear. induction (length slow) as [|n IH]; [done|]. simpl. by rewrite IH.
Qed.

(** The same for a stopping board, which drops everybody. *)
Lemma shutdown_spec order st : NoDup order -> (forall c, c ∈ order -> live st c) ->
  exists st', shutdown order st = Some st' /\ dropped order true st st' /\ metrics st' = metrics st.
Proof using Type.
  revert st. induction order as [|c order IH]; intros st Hn Hl; simpl.
  { exists st. split_and!; [done|by apply dropped_nil|done]. }
  apply NoDup_cons in Hn as [Hc Hn]. destruct (Hl c ltac:(left)) as (cl & Hcl & Hp & Ho).
  rewrite (remove_spec c cl) by done. simpl. rewrite (client_update_spec c _ (removed false cl))
    by (simpl; by rewrite lookup_insert_eq). unfold set_heap. simpl. rewrite insert_insert_eq.
  set (st1 := {| clients := _ |}).
  destruct (IH st1 Hn) as (st' & -> & Hd & Hm).
  { intros c' Hc'. eapply (live_other c); [done|by intros ->|apply Hl; by right]. }
  exists st'. split_and!; [done|by apply (dropped_cons c cl _ true st st1)|done].
Qed.

(** Dropping clients keeps the invariant. *)
Lemma dropped_inv b l k st st' : board_inv b st -> dropped l k st st' -> board_inv b st'.
Proof using Type.
  intros [H1 H2 H3] [D1 D2 D3]. split.
  - intros c. rewrite D1, elem_of_difference, elem_of_list_to_set. intros [Hc Hl].
    destruct (H1 c Hc) as (cl & Hcl & Hb). exists cl. rewrite D2, Hcl. simpl. by rewrite bool_decide_false.
  - intros c cl. rewrite D2, D1, elem_of_difference, elem_of_list_to_set.
    destruct (heap st !! c) as [cl0|] eqn:Ec; [|done]. intros [= <-]. case_bool_decide; [by destruct k|].
    intros Hb Hc. apply (H2 c); [done|done|tauto].
  - intros id c. rewrite D3. case_bool_decide as Hid; [done|]. intros Hc.
    destruct (H3 id c Hc) as [Hin (cl & Hcl & Ecl)].
    assert (c ∉ l) as Hl.
    { intros Hl. apply Hid. unfold ids_of. apply list_elem_of_omap. exists c. by rewrite Hcl, <-Ecl. }
    rewrite D1, elem_of_difference, elem_of_list_to_set. split; [done|]. exists cl.
    rewrite D2, Hcl. simpl. by rewrite bool_decide_false.
Qed.

(** And so does a change to the queues only. *)
Lemma queues_inv b st st' : board_inv b st -> clients st' = clients st -> byID st' = byID st ->
  (forall c, exists q, heap st' !! c = (fun cl => set_send (q cl) cl) <$> heap st !! c) -> board_inv b st'.
Proof using Type.
  intros [H1 H2 H3] E1 E2 Hh. split.
  - intros c. rewrite E1. intros Hc. destruct (H1 c Hc) as (cl & Hcl & Hb). destruct (Hh c) as [q ->].
    rewrite Hcl. simpl. eexists. by split.
  - intros c cl. rewrite E1. destruct (Hh c) as [q ->]. destruct (heap st !! c) as [cl0|] eqn:Ec; [|done].
    intros [= <-]. exact (H2 c cl0 Ec).
  - intros id c. rewrite E2, E1. intros Hc. destruct (H3 id c Hc) as [Hin (cl & Hcl & Ecl)]. split; [done|].
    destruct (Hh c) as [q ->]. rewrite Hcl. simpl. eexists. by split.
Qed.

Lemma inv_live b st c : board_inv b st -> c ∈ clients st -> live st c.
Proof using Type. intros Hi Hc. destruct (bi_in b st Hi c Hc) as (cl & ? & _ & ? & ?). by exists cl. Qed.
End handlers.

(** [order] enumerates the client set: an order Go may iterate in. *)
Definition enumerates {M} (order : list nat) (st : state M) : Prop :=
  NoDup order /\ forall c, c ∈ order <-> c ∈ clients st.

Lemma enumerates_elements {M} (st : state M) : enumerates (elements (clients st)) st.
Proof. split; [apply NoDup_elements|]. intros c. apply elem_of_elements. Qed.

Lemma enumerates_perm {M} order1 order2 (st : state M) :
  enumerates order1 st -> enumerates order2 st -> order1 ≡ₚ order2.
Proof. intros [N1 E1] [N2 E2]. apply NoDup_Permutation; [done..|]. intros c. by rewrite E1, E2. Qed.

(** A client that a delivery is for, and what a reliable one does to it. *)
Definition target {M} (st : state M) (exclude : option nat) (c : nat) : bool :=
  bool_decide (c ∈ clients st) && bool_decide (exclude <> Some c).

Definition receive_reliable (data : string) (cl : Client) : Client :=
  if room cl then enqueue data cl else removed true cl.

Definition receive_best_effort (data : string) (cl : Client) : Client :=
  if room cl then enqueue data cl else cl.

Section deliveries.
Context {M : Type} `{Metrics M}.
Implicit Types st : state M.

Lemma enumerates_target order st exclude c : enumerates order st ->
  bool_decide (c ∈ targets order exclude) = target st exclude c.
Proof using Type.
  intros [_ He]. unfold target. rewrite <-bool_decide_and. apply bool_decide_ext. unfold targets.
  rewrite list_elem_of_filter, <-He. tauto.
Qed.

Definition slow_of (order : list nat) (exclude : option nat) (st : state M) : list nat :=
  filter (fun c => heap_room (heap st) c = false) (targets order exclude).
Definition quick_of (order : list nat) (exclude : option nat) (st : state M) : list nat :=
  filter (fun c => heap_room (heap st) c = true) (targets order exclude).

Lemma deliver_ok b order data exclude st : board_inv b st -> enumerates order st ->
  exists h, deliver order data exclude st =
    Some (Z.of_nat (length (quick_of order exclude st)), slow_of order exclude st, set_heap h st) /\
    (forall c, h !! c = (fun cl => if target st exclude c && room cl then enqueue data cl else cl) <$> heap st !! c) /\
    board_inv b (set_heap h st).
Proof using Type.
  intros Hi He. pose proof He as [Hn Hin].
  destruct (deliver_spec order data exclude st Hn) as (h & Ed & Hh).
  { intros c Hc%Hin. destruct (inv_live b st c Hi Hc) as (cl & ? & _ & ?). by exists cl. }
  exists h. split; [done|].
  assert (forall c, h !! c = (fun cl => if target st exclude c && room cl then enqueue data cl else cl) <$> heap st !! c) as Hh'.
  { intros c. by rewrite Hh, (enumerates_target _ _ _ _ He). }
  split; [done|]. apply (queues_inv b st); [done..|]. intros c. simpl. rewrite Hh'.
  exists (fun cl => if target st exclude c && room cl then c_send cl ++ [data] else c_send cl).
  destruct (heap st !! c) as [cl|]; [|done]. simpl. f_equal. destruct (_ && _); [done|]. by destruct cl.
Qed.

Lemma slow_spec order exclude st c : enumerates order st ->
  c ∈ slow_of order exclude st <-> target st exclude c = true /\ heap_room (heap st) c = false.
Proof using Type.
  intros He. unfold slow_of. rewrite list_elem_of_filter, <-(enumerates_target order) by done.
  rewrite bool_decide_eq_true. tauto.
Qed.

(** A reliable delivery: it does not panic, whatever the iteration order; a
    client with room has the message at the end of its queue; one without is
    dropped, its queue closed and its connection too; nobody else changes. *)
Lemma deliverReliable_spec b order data exclude st : board_inv b st -> enumerates order st ->
  exists st', deliverReliable order data exclude st = Some st' /\ board_inv b st' /\
    (forall c, heap st' !! c = (fun cl => if target st exclude c then receive_reliable data cl else cl) <$> heap st !! c) /\
    clients st' = clients st ∖ list_to_set (slow_of order exclude st) /\
    (forall id, byID st' !! id =
      if bool_decide (id ∈ ids_of (heap st) (slow_of order exclude st)) then None else byID st !! id) /\
    metrics st' = Nat.iter (length (slow_of order exclude st)) ClientKicked
      (MessagesDelivered (Z.of_nat (length (quick_of order exclude st))) (metrics st)).
Proof using Type.
  intros Hi He. unfold deliverReliable.
  destruct (deliver_ok b order data exclude st Hi He) as (h & -> & Hh & Hi1). simpl.
  set (slow := slow_of order exclude st). set (st1 := record _ (set_heap h st)).
  assert (Hn : NoDup slow) by (apply NoDup_filter, NoDup_filter, He).
  assert (Hi1' : board_inv b st1) by (destruct Hi1; by split).
  destruct (kick_spec slow st1 Hn) as (st' & -> & Hd & Hm).
  { intros c Hc. apply (inv_live b); [done|]. simpl. apply (slow_spec order exclude st c He) in Hc as [Ht _].
    apply andb_true_iff in Ht as [Ht _]. by apply bool_decide_eq_true in Ht. }
  exists st'. split; [done|]. split; [by apply (dropped_inv b slow true st1)|]. destruct Hd as [D1 D2 D3].
  assert (ids_of (heap st1) slow = ids_of (heap st) slow) as Eids.
  { unfold ids_of. simpl. apply list_omap_ext, Forall_Forall2_diag, Forall_forall. intros c _.
    rewrite Hh. destruct (heap st !! c) as [cl|]; [|done]. simpl. by destruct (_ && _). }
  split_and!; [|done| |done].
  - intros c. rewrite D2. simpl. rewrite Hh. destruct (heap st !! c) as [cl|] eqn:Ec; [|done]. simpl. f_equal.
    assert (bool_decide (c ∈ slow) = target st exclude c && negb (room cl)) as ->.
    { apply eq_true_iff_eq. rewrite bool_decide_eq_true, andb_true_iff.
      unfold slow. rewrite (slow_spec order exclude st c He). unfold heap_room. rewrite Ec. by rewrite negb_true_iff. }
    unfold receive_reliable. by destruct (target st exclude c), (room cl).
  - intros id. by rewrite D3, Eids.
Qed.

Lemma deliverBestEffort_spec b order data exclude st : board_inv b st -> enumerates order st ->
  exists st', deliverBestEffort order data exclude st = Some st' /\ board_inv b st' /\
    (forall c, heap st' !! c =
      (fun cl => if target st exclude c then receive_best_effort data cl else cl) <$> heap st !! c) /\
    clients st' = clients st /\ byID st' = byID st /\
    metrics st' = MessagesDelivered (Z.of_nat (length (quick_of order exclude st))) (metrics st).
Proof using Type.
  intros Hi He. unfold deliverBestEffort.
  destruct (deliver_ok b order data exclude st Hi He) as (h & -> & Hh & Hi1). simpl.
  eexists. split; [done|]. split; [destruct Hi1; by split|]. split_and!; [|done..].
  intros c. simpl. rewrite Hh. destruct (heap st !! c) as [cl|]; [|done]. simpl. f_equal.
  unfold receive_best_effort. by destruct (target st exclude c).
Qed.

(** The outcome does not depend on the order in which Go iterates. *)
Lemma deliverReliable_order b order1 order2 data exclude st : board_inv b st ->
  enumerates order1 st -> enumerates order2 st ->
  deliverReliable order1 data exclude st = deliverReliable order2 data exclude st.
Proof using Type.
  intros Hi H1 H2.
  destruct (deliverReliable_spec b order1 data exclude st Hi H1) as (s1 & -> & _ & A1 & A2 & A3 & A4).
  destruct (deliverReliable_spec b order2 data exclude st Hi H2) as (s2 & -> & _ & B1 & B2 & B3 & B4).
  pose proof (enumerates_perm _ _ _ H1 H2) as Hp.
  assert (slow_of order1 exclude st ≡ₚ slow_of order2 exclude st) as Hs by (unfold slow_of, targets; by rewrite Hp).
  assert (quick_of order1 exclude st ≡ₚ quick_of order2 exclude st) as Hq by (unfold quick_of, targets; by rewrite Hp).
  destruct s1 as [c1 i1 h1 m1], s2 as [c2 i2 h2 m2]. simpl in *. do 2 f_equal.
  - rewrite A2, B2. by rewrite Hs.
  - apply map_eq. intros id. rewrite A3, B3.
    apply (f_equal (fun t : bool => if t then None else byID st !! id)), bool_decide_ext.
    unfold ids_of. by rewrite Hs.
  - apply map_eq. intros c. by rewrite A1, B1.
  - by rewrite A4, B4, (Permutation_length Hs), (Permutation_length Hq).
Qed.
End deliveries.

Section single.
Context {M : Type} `{Metrics M}.
Implicit Types st : state M.

(** [join] of a client of the board that is not yet part of it. *)
Lemma join_spec b c cl st : board_inv b st -> heap st !! c = Some cl -> c_board cl = b ->
  c_closed cl = false -> c ∉ clients st ->
  exists st', join c st = Some st' /\ board_inv b st' /\ clients st' = {[c]} ∪ clients st /\
    byID st' = <[c_id cl := c]> (byID st) /\ heap st' = <[c := set_present true cl]> (heap st) /\
    metrics st' = metrics st.
Proof using Type.
  intros [H1 H2 H3] Hc Hb Ho Hn. unfold join. rewrite Hc. simpl. rewrite (client_update_spec c _ cl) by done.
  eexists. split; [done|]. split_and!; [|done..]. split; simpl.
  - intros c'. rewrite elem_of_union, elem_of_singleton. intros [->|Hc'].
    + rewrite lookup_insert_eq. eexists. by split_and!.
    + rewrite lookup_insert_ne by (intros ->; done). by apply H1.
  - intros c' cl'. rewrite elem_of_union, elem_of_singleton, lookup_insert. case_decide as Ec; [subst; tauto|].
    intros E Eb Hc'. apply (H2 c'); [done|done|tauto].
  - intros id c'. rewrite lookup_insert. case_decide as E.
    + intros [= <-]. split; [set_solver|]. rewrite lookup_insert_eq. eexists. by split.
    + intros Hid. destruct (H3 id c' Hid) as [Hin (cl' & Hcl' & Ecl')]. split; [set_solver|].
      rewrite lookup_insert_ne by (intros ->; done). eauto.
Qed.

(** Dropping one client. *)
Lemma detach_live b c k st : board_inv b st -> c ∈ clients st ->
  exists st', detach c k st = Some st' /\ board_inv b st' /\ dropped [c] k st st' /\ metrics st' = metrics st.
Proof using Type.
  intros Hi Hc. destruct (inv_live b st c Hi Hc) as (cl & Hcl & Hp & Ho).
  rewrite (detach_spec c k cl) by done.
  set (st1 := {| clients := _ |}).
  assert (dropped [c] k st st1) as Hd.
  { apply (dropped_cons c cl [] k st st1); [set_solver|done..|]. by apply dropped_nil. }
  eexists. split; [done|]. split; [by eapply dropped_inv|done].
Qed.

(** [unregister] of any client of the heap: it is out afterwards. *)
Lemma detach_ok b c k st : board_inv b st -> is_Some (heap st !! c) ->
  (forall cl, heap st !! c = Some cl -> c_board cl = b) ->
  exists st', detach c k st = Some st' /\ board_inv b st' /\ clients st' = clients st ∖ {[c]} /\
    metrics st' = metrics st /\
    (forall c', c' <> c -> heap st' !! c' = heap st !! c').
Proof using Type.
  intros Hi [cl Hcl] Hb. destruct (decide (c ∈ clients st)) as [Hc|Hc].
  - destruct (detach_live b c k st Hi Hc) as (st' & E & Hi' & [D1 D2 D3] & Hm). exists st'. split_and!; [done|done| |done|].
    + rewrite D1. set_solver.
    + intros c' Hne. rewrite D2. destruct (heap st !! c'); [|done]. simpl. by rewrite bool_decide_false by set_solver.
  - exists st. rewrite (detach_absent c k cl); [|done|].
    + split_and!; [done|done|set_solver|done|done].
    + apply (bi_out b st Hi c); [done|by apply Hb|done].
Qed.

(** Delivering to one client: queued, or kicked when it has no room. *)
Lemma push_spec b c cl data st : board_inv b st -> c ∈ clients st -> heap st !! c = Some cl ->
  exists st', push c data st = Some (room cl, st') /\ board_inv b st' /\
    heap st' !! c = Some (receive_reliable data cl) /\
    (forall c', c' <> c -> heap st' !! c' = heap st !! c') /\
    clients st' = (if room cl then clients st else clients st ∖ {[c]}) /\
    (forall id, room cl = true \/ id <> c_id cl -> byID st' !! id = byID st !! id) /\
    metrics st' = (if room cl then MessagesDelivered 1 (metrics st) else ClientKicked (metrics st)).
Proof using Type.
  intros Hi Hc Hcl. destruct (inv_live b st c Hi Hc) as (cl' & Hcl' & Hp & Ho).
  rewrite Hcl in Hcl'. injection Hcl' as <-.
  unfold push. rewrite (try_send_spec c data cl) by done. simpl. unfold receive_reliable.
  destruct (room cl); simpl.
  - eexists. split; [done|]. split_and!; [|by simpl; rewrite lookup_insert_eq| |done|done|done].
    + apply (queues_inv b st); [done..|]. intros c'. simpl. exists (fun cl => if decide (c = c') then c_send cl ++ [data] else c_send cl).
      rewrite lookup_insert. case_decide; [by subst; rewrite Hcl|]. destruct (heap st !! c') as [[]|]; done.
    + intros c' Hne. simpl. by rewrite lookup_insert_ne.
  - assert (board_inv b (record ClientKicked st)) as Hi' by (destruct Hi; by split).
    destruct (detach_live b c true (record ClientKicked st) Hi' Hc) as (st' & E & Hi2 & [D1 D2 D3] & Hm).
    rewrite E. simpl. exists st'. split; [done|]. split_and!; [done| | |rewrite D1; simpl; set_solver| |done].
    + rewrite D2. simpl. rewrite Hcl. simpl. by rewrite bool_decide_true by left.
    + intros c' Hne. rewrite D2. simpl. destruct (heap st !! c'); [|done]. simpl. by rewrite bool_decide_false by set_solver.
    + intros id [?|Hid]; [done|]. rewrite D3. simpl. rewrite bool_decide_false; [done|].
      unfold ids_of. csimpl. rewrite Hcl. simpl. set_solver.
Qed.

(** A message for one client that has left meanwhile is dropped. *)
Lemma direct_absent c cl data st : heap st !! c = Some cl -> c_present cl = false -> direct c data st = Some st.
Proof using Type. intros Hc Hp. unfold direct. rewrite Hc. simpl. by rewrite Hp. Qed.

Lemma direct_ok b c cl data st : board_inv b st -> heap st !! c = Some cl -> c_board cl = b ->
  exists st', direct c data st = Some st' /\ board_inv b st' /\
    heap st' !! c = Some (if c_present cl then receive_reliable data cl else cl) /\
    (forall c', c' <> c -> heap st' !! c' = heap st !! c').
Proof using Type.
  intros Hi Hc Hb. unfold direct. rewrite Hc. simpl. destruct (c_present cl) eqn:Hp; [|by exists st].
  assert (c ∈ clients st) as Hin.
  { destruct (decide (c ∈ clients st)) as [|Hn]; [done|]. by rewrite (bi_out b st Hi c cl Hc Hb Hn) in Hp. }
  destruct (push_spec b c cl data st Hi Hin Hc) as (st' & -> & ? & ? & ? & _). simpl. by exists st'.
Qed.

(** ** The index *)

Lemma dropped_index l k st st' : ids_distinct st -> index_complete st ->
  (forall c, c ∈ l -> c ∈ clients st) -> dropped l k st st' -> index_complete st'.
Proof using Type.
  intros Hd Hc Hl [D1 D2 D3] c cl. rewrite D1, elem_of_difference, elem_of_list_to_set. intros [Hin Hn].
  rewrite D2. destruct (heap st !! c) as [cl0|] eqn:Ec; [|done]. simpl. rewrite bool_decide_false by done.
  intros [= <-]. rewrite D3, (Hc c cl0 Hin Ec), bool_decide_false; [done|].
  intros (c' & Hc' & Eid)%list_elem_of_omap. destruct (heap st !! c') as [cl'|] eqn:Ec'; [|done]. simpl in Eid.
  injection Eid as Eid. apply Hn.
  assert (c' = c) as <-; [|done]. apply (Hd c' c cl' cl0); auto.
Qed.

Lemma join_index c cl st st' : join c st = Some st' -> heap st !! c = Some cl ->
  (forall c' cl', c' ∈ clients st -> heap st !! c' = Some cl' -> c_id cl' <> c_id cl) ->
  index_complete st -> index_complete st'.
Proof using Type.
  intros Hj Hc Hfresh Hi. unfold join in Hj. rewrite Hc in Hj. simpl in Hj.
  rewrite (client_update_spec c _ cl) in Hj by done. injection Hj as <-. intros c' cl'. simpl.
  rewrite elem_of_union, elem_of_singleton, !lookup_insert. case_decide as E.
  - intros _ [= <-]. subst c'. simpl. by rewrite decide_True.
  - intros [->|Hin] Hcl'; [done|]. rewrite decide_False; [by apply Hi|].
    intros E'. by apply (Hfresh c' cl').
Qed.
End single.

(** ** Dispatch *)

Section dispatch.
Context {M : Type} `{Metrics M} `{Float64}.
Implicit Types st : state M.

(** A message that is delivered reliably: anything but a decodable cursor. *)
Definition is_cursor (msg : string) : bool :=
  match Unmarshal dec_Envelope msg Envelope_zero with
  | (env, None) => bool_decide (Type_ env = TypeCursor)
  | _ => false
  end.

(** The client a cursor message names as its origin. *)
Definition cursor_origin (msg : string) : string :=
  cur_ClientID (DecodePayload dec_Cursor (Unmarshal dec_Envelope msg Envelope_zero).1 Cursor_zero).1.

Lemma dispatch_eq order msg st : dispatch order msg st =
  if is_cursor msg then deliverBestEffort order msg (byID st !! cursor_origin msg) st
  else deliverReliable order msg None st.
Proof using Type.
  unfold dispatch, is_cursor, cursor_origin. destruct (Unmarshal _ _ _) as [env [e|]]; [done|]. simpl.
  case_bool_decide; [|done]. by destruct (DecodePayload _ _ _).
Qed.

Definition receive (msg : string) (origin : bool) (cl : Client) : Client :=
  if is_cursor msg then (if origin then cl else receive_best_effort msg cl) else receive_reliable msg cl.

(** Whatever bytes arrive, the board relays them without a panic; each of its
    clients receives the message by the rule for its kind. *)
Lemma dispatch_spec b order msg st : board_inv b st -> enumerates order st ->
  exists st', dispatch order msg st = Some st' /\ board_inv b st' /\ clients st' ⊆ clients st /\
    (forall c, heap st' !! c = (fun cl => if bool_decide (c ∈ clients st)
      then receive msg (bool_decide (byID st !! cursor_origin msg = Some c)) cl else cl) <$> heap st !! c) /\
    (forall c cl, c ∈ clients st -> heap st !! c = Some cl ->
       c ∈ clients st' <-> is_cursor msg = true \/ room cl = true).
Proof using Type.
  intros Hi He. rewrite dispatch_eq. unfold receive. destruct (is_cursor msg).
  - destruct (deliverBestEffort_spec b order msg (byID st !! cursor_origin msg) st Hi He)
      as (st' & E & Hi' & Hh & Hc & _ & _).
    exists st'. split_and!; [done|done|by rewrite Hc| |rewrite Hc; naive_solver].
    intros c. rewrite Hh. destruct (heap st !! c) as [cl|]; [|done]. simpl. f_equal. unfold target.
    case_bool_decide; simpl; [|done]. by repeat case_bool_decide.
  - destruct (deliverReliable_spec b order msg None st Hi He) as (st' & E & Hi' & Hh & Hc & _ & _).
    exists st'. split_and!; [done|done|rewrite Hc; set_solver| |].
    + intros c. rewrite Hh. destruct (heap st !! c) as [cl|]; [|done]. simpl. f_equal. unfold target.
      rewrite (bool_decide_true (None <> Some c)) by done. by rewrite andb_true_r.
    + intros c cl Hin Hcl. rewrite Hc, elem_of_difference, elem_of_list_to_set, (slow_spec order None st c He).
      unfold target, heap_room. rewrite Hcl, !bool_decide_true by done. simpl.
      destruct (room cl); naive_solver.
Qed.

(** A cursor does not come back to its origin, and reaches everybody else who
    has room for it. *)
Lemma dispatch_cursor b order c cl msg st :
  board_inv b st -> index_complete st -> enumerates order st ->
  c ∈ clients st -> heap st !! c = Some cl -> is_cursor msg = true -> cursor_origin msg = c_id cl ->
  exists st', dispatch order msg st = Some st' /\ clients st' = clients st /\ heap st' !! c = Some cl /\
    forall c' cl', c' <> c -> c' ∈ clients st -> heap st !! c' = Some cl' ->
      heap st' !! c' = Some (if room cl' then enqueue msg cl' else cl').
Proof using Type.
  intros Hi Hx He Hc Hcl Hcur Ho.
  destruct (dispatch_spec b order msg st Hi He) as (st' & E & _ & Hsub & Hh & Hin). exists st'.
  pose proof (Hx c cl Hc Hcl) as Hid. split_and!; [done| | |].
  - apply set_eq. intros c'. split; [apply Hsub|]. intros Hc'.
    destruct (bi_in b st Hi c' Hc') as (cl' & Hcl' & _). apply (Hin c' cl'); auto.
  - rewrite Hh, Hcl. simpl. rewrite bool_decide_true by done. unfold receive. rewrite Hcur, Ho, Hid.
    by rewrite bool_decide_true.
  - intros c' cl' Hne Hc' Hcl'. rewrite Hh, Hcl'. simpl. rewrite bool_decide_true by done. unfold receive.
    rewrite Hcur, Ho, Hid. rewrite bool_decide_false by (by intros [= ->]). done.
Qed.

Context {FL : Float64Laws}.

(** A cursor as the hub publishes it. *)
Lemma cursor_message cur : utf8 (cur_ClientID cur) -> exists msg,
  Marshal TypeCursor 0 cur = Ok msg /\ is_cursor msg = true /\ cursor_origin msg = cur_ClientID cur.
Proof using FL.
  intros Hu. destruct (Marshal_two_stage TypeCursor 0 cur) as (msg & e & Em & Ee & Et & Es & Ed).
  { unfold TypeCursor. by apply utf8_plain. }
  { done. }
  { by split. }
  exists msg. split; [done|]. unfold is_cursor, cursor_origin. rewrite Ee. simpl.
  rewrite bool_decide_true by done. split; [done|]. simpl in Ed. by rewrite Ed.
Qed.
End dispatch.

(** ** What every handler keeps

    Apart from [join] and [shutdown], a handler only shrinks the client set,
    changes no client outside it and no client's identity, and emits delivery
    events only. *)

Definition same_client (cl cl' : Client) : Prop :=
  c_id cl' = c_id cl /\ c_name cl' = c_name cl /\ c_color cl' = c_color cl /\ c_board cl' = c_board cl.

Definition delivery_event (e : event) : Prop :=
  match e with EMessagesDelivered n => 0 <= n | EClientKicked => True | _ => False end.

(** [touches X h h']: [h'] differs from [h] in the clients of [X] only. *)
Definition touches (X : gset nat) (h h' : gmap nat Client) : Prop :=
  forall c, match h !! c, h' !! c with
    | Some cl, Some cl' => same_client cl cl' /\ (c ∉ X -> cl' = cl)
    | None, None => True
    | _, _ => False
    end.

Record relays {M} `{Metrics M} (b : nat) (st st' : state M) : Prop := {
  re_inv : board_inv b st';
  re_heap : touches (clients st) (heap st) (heap st');
  re_clients : clients st' ⊆ clients st;
  re_events : exists l, Forall delivery_event l /\ metrics st' = emit_all l (metrics st);
}.

Lemma same_client_refl cl : same_client cl cl.
Proof. done. Qed.

(** A pointwise description of the new heap gives [touches]. *)
Lemma touches_fmap X (h h' : gmap nat Client) (f : nat -> Client -> Client) :
  (forall c, h' !! c = f c <$> h !! c) -> (forall c cl, same_client cl (f c cl)) ->
  (forall c cl, h !! c = Some cl -> c ∉ X -> f c cl = cl) -> touches X h h'.
Proof.
  intros Hh Hs Hf c. rewrite Hh. destruct (h !! c) as [cl|] eqn:E; [|done]. simpl. split; [done|]. by apply Hf.
Qed.

Lemma same_client_receive data cl :
  same_client cl (receive_reliable data cl) /\ same_client cl (receive_best_effort data cl).
Proof. unfold receive_reliable, receive_best_effort. by destruct (room cl). Qed.

Section relays.
Context {M : Type} `{Metrics M}.
Implicit Types st : state M.

Lemma relays_refl b st : board_inv b st -> relays b st st.
Proof using Type.
  intros Hi. split; [done| |done|by exists []]. intros c. by destruct (heap st !! c).
Qed.

Lemma emit_kicked n (m : M) : Nat.iter n ClientKicked m = emit_all (replicate n EClientKicked) m.
Proof using Type.
  unfold emit_all. revert m. induction n as [|n IH]; intros m; [done|]. simpl. rewrite <-IH.
  clear IH. induction n as [|n IH]; [done|]. simpl. by rewrite IH.
Qed.

Lemma deliverReliable_relays b order data exclude st : board_inv b st -> enumerates order st ->
  exists st', deliverReliable order data exclude st = Some st' /\ relays b st st'.
Proof using Type.
  intros Hi He. destruct (deliverReliable_spec b order data exclude st Hi He)
    as (st' & E & Hi' & Hh & Hc & _ & Hm). exists st'. split; [done|]. split; [done| |rewrite Hc; set_solver|].
  - apply (touches_fmap _ _ _ (fun c cl => if target st exclude c then receive_reliable data cl else cl)); [done|..].
    + intros c cl. destruct (target st exclude c); [apply same_client_receive|done].
    + intros c cl _ Hn. unfold target. by rewrite bool_decide_false.
  - exists (EMessagesDelivered (Z.of_nat (length (quick_of order exclude st)))
      :: replicate (length (slow_of order exclude st)) EClientKicked). split.
    + constructor; [simpl; lia|]. apply Forall_replicate. done.
    + by rewrite Hm, emit_kicked.
Qed.

Lemma deliverBestEffort_relays b order data exclude st : board_inv b st -> enumerates order st ->
  exists st', deliverBestEffort order data exclude st = Some st' /\ relays b st st'.
Proof using Type.
  intros Hi He. destruct (deliverBestEffort_spec b order data exclude st Hi He)
    as (st' & E & Hi' & Hh & Hc & _ & Hm). exists st'. split; [done|]. split; [done| |by rewrite Hc|].
  - apply (touches_fmap _ _ _ (fun c cl => if target st exclude c then receive_best_effort data cl else cl)); [done|..].
    + intros c cl. destruct (target st exclude c); [apply same_client_receive|done].
    + intros c cl _ Hn. unfold target. by rewrite bool_decide_false.
  - exists [EMessagesDelivered (Z.of_nat (length (quick_of order exclude st)))].
    split; [constructor; [simpl; lia|done]|exact Hm].
Qed.

Lemma dispatch_relays `{Float64} b order msg st : board_inv b st -> enumerates order st ->
  exists st', dispatch order msg st = Some st' /\ relays b st st'.
Proof using Type.
  intros Hi He. rewrite dispatch_eq. destruct (is_cursor msg); [by apply deliverBestEffort_relays|by apply deliverReliable_relays].
Qed.

(** Changes to one client of the heap. *)
Lemma touches_one X (h h' : gmap nat Client) c cl cl' : h !! c = Some cl -> h' !! c = Some cl' ->
  same_client cl cl' -> (c ∉ X -> cl' = cl) -> (forall c', c' <> c -> h' !! c' = h !! c') -> touches X h h'.
Proof using Type.
  intros E E' Hs Hx Hf c'. destruct (decide (c' = c)) as [->|Hne]; [by rewrite E, E'|].
  rewrite Hf by done. by destruct (h !! c').
Qed.

Lemma detach_relays b c cl k st : board_inv b st -> heap st !! c = Some cl -> c_board cl = b ->
  exists st', detach c k st = Some st' /\ relays b st st' /\ c ∉ clients st'.
Proof using Type.
  intros Hi Hc Hb. destruct (decide (c ∈ clients st)) as [Hin|Hin].
  - destruct (detach_live b c k st Hi Hin) as (st' & E & Hi' & [D1 D2 D3] & Hm). exists st'.
    split; [done|]. split; [|rewrite D1; set_solver]. split; [done| |rewrite D1; set_solver|by exists []].
    apply (touches_fmap _ _ _ (fun c' cl' => if bool_decide (c' ∈ [c]) then removed k cl' else cl')); [done|..].
    + intros c' cl'. case_bool_decide; [|done]. by destruct k.
    + intros c' cl' _ Hn. rewrite bool_decide_false; [done|]. set_solver.
  - exists st. rewrite (detach_absent c k cl); [|done|by apply (bi_out b st Hi c)].
    split; [done|]. split; [by apply relays_refl|done].
Qed.

Lemma direct_relays b c cl data st : board_inv b st -> heap st !! c = Some cl -> c_board cl = b ->
  exists st', direct c data st = Some st' /\ relays b st st'.
Proof using Type.
  intros Hi Hc Hb. unfold direct. rewrite Hc. simpl. destruct (c_present cl) eqn:Hp.
  2: { exists st. split; [done|]. by apply relays_refl. }
  assert (c ∈ clients st) as Hin.
  { destruct (decide (c ∈ clients st)) as [|Hn]; [done|]. by rewrite (bi_out b st Hi c cl Hc Hb Hn) in Hp. }
  destruct (push_spec b c cl data st Hi Hin Hc) as (st' & -> & Hi' & Hh & Hf & Hcl & _ & Hm). simpl. exists st'.
  split; [done|]. split; [done| |rewrite Hcl; destruct (room cl); set_solver|].
  - eapply touches_one; [done..|apply same_client_receive|done|done].
  - rewrite Hm. destruct (room cl); [exists [EMessagesDelivered 1]|exists [EClientKicked]]; split; try done;
      by repeat constructor.
Qed.
End relays.

(** ** Queues and connections

    How many messages are buffered in the process, and whom a handler lets go
    of: a client that leaves the set, except by unregistering, has its
    connection closed, and closed connections stay closed.  No client changes
    its identity, and the index stays complete as long as identifiers are
    unique. *)

Definition ids_unique (h : gmap nat Client) : Prop :=
  forall c1 c2 cl1 cl2, h !! c1 = Some cl1 -> h !! c2 = Some cl2 -> c_id cl1 = c_id cl2 -> c1 = c2.

(** The same clients, as far as their identities go. *)
Definition same_clients (h h' : gmap nat Client) : Prop :=
  forall c, match h !! c, h' !! c with Some cl, Some cl' => same_client cl cl' | None, None => True | _, _ => False end.

Definition queued (h : gmap nat Client) : Z := msum (fun _ cl => Z.of_nat (length (c_send cl))) h.

Record lets_go {M} (out : gset nat) (st st' : state M) : Prop := {
  lg_set : forall c, c ∈ clients st -> c ∉ out -> c ∈ clients st' \/ exists cl, heap st' !! c = Some cl /\ c_conn cl = true;
  lg_conn : forall c cl, heap st !! c = Some cl -> c_conn cl = true ->
    exists cl', heap st' !! c = Some cl' /\ c_conn cl' = true;
  lg_same : same_clients (heap st) (heap st');
  lg_index : ids_unique (heap st) -> index_complete st -> index_complete st';
}.

(** Connections are not reopened. *)
Definition keeps_conn (f : Client -> Client) : Prop := forall cl, c_conn cl = true -> c_conn (f cl) = true.

Lemma keeps_conn_removed k : keeps_conn (removed k).
Proof. intros cl. by destruct k. Qed.

Lemma keeps_conn_receive data : keeps_conn (receive_reliable data) /\ keeps_conn (receive_best_effort data).
Proof.
  split; intros cl Hc; unfold receive_reliable, receive_best_effort; by destruct (room cl).
Qed.

Lemma queued_fmap (f : nat -> Client -> Client) (h h' : gmap nat Client) :
  (forall c, h' !! c = f c <$> h !! c) -> (forall c cl, length (c_send (f c cl)) = length (c_send cl)) ->
  queued h' = queued h.
Proof.
  intros Hh Hf. apply msum_fmap; intros c; rewrite Hh; [by destruct (h !! c)|].
  intros cl cl' Hc. rewrite Hc. simpl. intros [= <-]. by rewrite Hf.
Qed.

Section letting_go.
Context {M : Type} `{Metrics M}.
Implicit Types st : state M.

(** A pointwise description of the new heap shows what is let go of. *)
Lemma lets_go_fmap out st st' (f : nat -> Client -> Client) :
  (forall c, heap st' !! c = f c <$> heap st !! c) -> (forall c, keeps_conn (f c)) ->
  (forall c cl, same_client cl (f c cl)) ->
  (forall c cl, c ∈ clients st -> c ∉ out -> c ∉ clients st' -> heap st !! c = Some cl -> c_conn (f c cl) = true) ->
  (forall c, c ∈ clients st -> is_Some (heap st !! c)) ->
  (ids_unique (heap st) -> index_complete st -> index_complete st') -> lets_go out st st'.
Proof using Type.
  intros Hh Hk Hs Hf Hin Hx. split; [| | |done].
  - intros c Hc Ho. destruct (decide (c ∈ clients st')) as [|Hn]; [by left|right].
    destruct (Hin c Hc) as [cl Hcl]. exists (f c cl). rewrite Hh, Hcl. split; [done|]. by apply Hf.
  - intros c cl Hc Hcn. exists (f c cl). rewrite Hh, Hc. split; [done|]. by apply Hk.
  - intros c. rewrite Hh. destruct (heap st !! c); [apply Hs|done].
Qed.

(** The index after a change of queues, and after a removal. *)
Lemma index_same st st' (f : nat -> Client -> Client) : (forall c, heap st' !! c = f c <$> heap st !! c) ->
  (forall c cl, same_client cl (f c cl)) -> clients st' ⊆ clients st ->
  (forall id c, c ∈ clients st' -> byID st !! id = Some c -> byID st' !! id = Some c) ->
  index_complete st -> index_complete st'.
Proof using Type.
  intros Hh Hs Hsub Hid Hx c cl' Hc. rewrite Hh. destruct (heap st !! c) as [cl|] eqn:Ec; [|done]. simpl. intros [= <-].
  destruct (Hs c cl) as (-> & _). apply Hid; [done|]. apply Hx; [by apply Hsub|done].
Qed.

(** Entries of others are not in the way. *)
Lemma ids_of_other l st c id : ids_unique (heap st) -> c ∉ l -> is_Some (heap st !! c) ->
  (forall cl, heap st !! c = Some cl -> c_id cl = id) -> id ∉ ids_of (heap st) l.
Proof using Type.
  intros Hu Hc [cl Hcl] Hid (c' & Hc' & E)%list_elem_of_omap. destruct (heap st !! c') as [cl'|] eqn:Ec'; [|done].
  injection E as E. destruct Hc. by rewrite (Hu c c' cl cl' Hcl Ec') by (rewrite E; by apply Hid).
Qed.

Lemma inv_heap b st c : board_inv b st -> c ∈ clients st -> is_Some (heap st !! c).
Proof using Type. intros Hi Hc. destruct (bi_in b st Hi c Hc) as (cl & -> & _). by exists cl. Qed.

Lemma dropped_lets_go b l k st st' : board_inv b st -> dropped l k st st' ->
  lets_go (if k then ∅ else list_to_set l) st st' /\ queued (heap st') = queued (heap st).
Proof using Type.
  intros Hi [D1 D2 D3]. split.
  - apply (lets_go_fmap _ _ _ (fun c cl => if bool_decide (c ∈ l) then removed k cl else cl)); [done| | | | |].
    + intros c cl Hc. case_bool_decide; [by apply keeps_conn_removed|done].
    + intros c cl. case_bool_decide; [by destruct k|done].
    + intros c cl Hc Ho Hn _. rewrite D1 in Hn. assert (c ∈ l) as Hl.
      { destruct (decide (c ∈ l)) as [|Hl]; [done|]. destruct Hn. set_solver. }
      rewrite bool_decide_true by done. destruct k; [done|]. set_solver.
    + intros c. by apply (inv_heap b).
    + intros Hu Hx. apply (index_same st st' (fun c cl => if bool_decide (c ∈ l) then removed k cl else cl)); [done| | | |done].
      * intros c cl. case_bool_decide; [by destruct k|done].
      * rewrite D1. set_solver.
      * intros id c Hc Hid. rewrite D3, bool_decide_false; [done|]. rewrite D1, elem_of_difference, elem_of_list_to_set in Hc.
        destruct (bi_byID b st Hi id c Hid) as [_ (cl & Hcl & Ecl)].
        apply (ids_of_other l st c id); [done|tauto|by exists cl|]. intros cl' Hcl'. congruence.
  - apply (queued_fmap (fun c cl => if bool_decide (c ∈ l) then removed k cl else cl)); [done|].
    intros c cl. case_bool_decide; [|done]. by destruct k.
Qed.

Lemma join_lets_go b c cl st st' : board_inv b st -> heap st !! c = Some cl -> c_board cl = b ->
  c_closed cl = false -> c ∉ clients st -> join c st = Some st' ->
  lets_go ∅ st st' /\ queued (heap st') = queued (heap st).
Proof using Type.
  intros Hi Hc Hb Ho Hn E. destruct (join_spec b c cl st Hi Hc Hb Ho Hn) as (st2 & E2 & _ & Hcl & _ & Hh & _).
  rewrite E in E2. injection E2 as <-. split; [split|].
  - intros c' Hc' _. left. rewrite Hcl. set_solver.
  - intros c' cl' Hc' Hcn. rewrite Hh, lookup_insert. case_decide as Ec; [|by exists cl'].
    subst c'. rewrite Hc in Hc'. injection Hc' as <-. by exists (set_present true cl).
  - intros c'. rewrite Hh, lookup_insert. case_decide as Ec; [subst c'; by rewrite Hc|by destruct (heap st !! c')].
  - intros Hu Hx. apply (join_index c cl st st' E Hc); [|done]. intros c' cl' Hc' Hcl' Eid. destruct Hn.
    by rewrite <-(Hu c' c cl' cl Hcl' Hc Eid).
  - unfold queued. rewrite Hh, (msum_insert _ c cl) by done. simpl. lia.
Qed.

Lemma lets_go_refl out st : lets_go out st st.
Proof using Type. split; [by left|eauto|intros c; by destruct (heap st !! c)|done]. Qed.

Lemma detach_lets_go b c k cl st st' : board_inv b st -> heap st !! c = Some cl -> c_board cl = b ->
  detach c k st = Some st' ->
  lets_go (if k then ∅ else {[c]}) st st' /\ queued (heap st') = queued (heap st).
Proof using Type.
  intros Hi Hc Hb E. destruct (decide (c ∈ clients st)) as [Hin|Hin].
  - destruct (detach_live b c k st Hi Hin) as (st2 & E2 & _ & Hd & _). rewrite E in E2. injection E2 as <-.
    destruct (dropped_lets_go b [c] k st st' Hi Hd) as [Hl Hq]. split; [|done].
    destruct k; [done|]. destruct Hl as [H1 H2 H3 H4]. split; [|done..]. intros c' Hc' Ho. apply H1; [done|set_solver].
  - rewrite (detach_absent c k cl) in E by (done || by apply (bi_out b st Hi c)). injection E as <-.
    split; [|done]. apply lets_go_refl.
Qed.

Lemma shutdown_lets_go b order st st' : board_inv b st -> enumerates order st -> shutdown order st = Some st' ->
  lets_go ∅ st st' /\ queued (heap st') = queued (heap st).
Proof using Type.
  intros Hi [Hn He] E. destruct (shutdown_spec order st Hn) as (st2 & E2 & Hd & _).
  { intros c Hc%He. by apply (inv_live b). }
  rewrite E in E2. injection E2 as <-. by apply (dropped_lets_go b order true).
Qed.

Lemma deliverReliable_lets_go b order data exclude st st' : board_inv b st -> enumerates order st ->
  deliverReliable order data exclude st = Some st' -> lets_go ∅ st st'.
Proof using Type.
  intros Hi He E. destruct (deliverReliable_spec b order data exclude st Hi He) as (st2 & E2 & _ & Hh & Hc & Hid & _).
  rewrite E in E2. injection E2 as <-.
  assert (forall c cl, same_client cl (if target st exclude c then receive_reliable data cl else cl)) as Hsame.
  { intros c cl. destruct (target st exclude c); [apply same_client_receive|done]. }
  apply (lets_go_fmap _ _ _ (fun c cl => if target st exclude c then receive_reliable data cl else cl)); [done| |done| | |].
  - intros c cl Hcn. destruct (target st exclude c); [by apply keeps_conn_receive|done].
  - intros c cl Hin _ Hn Hcl. assert (c ∈ slow_of order exclude st) as Hs.
    { destruct (decide (c ∈ slow_of order exclude st)) as [|Hs]; [done|]. destruct Hn. rewrite Hc. set_solver. }
    apply (slow_spec order exclude st c He) in Hs as [-> Hr]. unfold heap_room in Hr. rewrite Hcl in Hr.
    unfold receive_reliable. by rewrite Hr.
  - intros c. by apply (inv_heap b).
  - intros Hu Hx. apply (index_same st st' (fun c cl => if target st exclude c then receive_reliable data cl else cl));
      [done|done|rewrite Hc; set_solver| |done].
    intros id c Hin Hc'. rewrite Hid, bool_decide_false; [done|]. rewrite Hc, elem_of_difference, elem_of_list_to_set in Hin.
    destruct (bi_byID b st Hi id c Hc') as [_ (cl & Hcl & Ecl)].
    apply (ids_of_other _ st c id); [done|tauto|by exists cl|]. intros cl' Hcl'. congruence.
Qed.

Lemma deliverBestEffort_lets_go b order data exclude st st' : board_inv b st -> enumerates order st ->
  deliverBestEffort order data exclude st = Some st' -> lets_go ∅ st st'.
Proof using Type.
  intros Hi He E. destruct (deliverBestEffort_spec b order data exclude st Hi He) as (st2 & E2 & _ & Hh & Hc & Hid & _).
  rewrite E in E2. injection E2 as <-.
  assert (forall c cl, same_client cl (if target st exclude c then receive_best_effort data cl else cl)) as Hsame.
  { intros c cl. destruct (target st exclude c); [apply same_client_receive|done]. }
  apply (lets_go_fmap _ _ _ (fun c cl => if target st exclude c then receive_best_effort data cl else cl)); [done| |done| | |].
  - intros c cl Hcn. destruct (target st exclude c); [by apply keeps_conn_receive|done].
  - intros c cl Hin _ Hn. by rewrite Hc in Hn.
  - intros c. by apply (inv_heap b).
  - intros Hu Hx. apply (index_same st st' (fun c cl => if target st exclude c then receive_best_effort data cl else cl));
      [done|done|by rewrite Hc| |done]. intros id c _. by rewrite Hid.
Qed.

Lemma dispatch_lets_go `{Float64} b order msg st st' : board_inv b st -> enumerates order st ->
  dispatch order msg st = Some st' -> lets_go ∅ st st'.
Proof using Type.
  intros Hi He. rewrite dispatch_eq.
  destruct (is_cursor msg); [by apply (deliverBestEffort_lets_go b)|by apply (deliverReliable_lets_go b)].
Qed.

(** A hand-over adds at most one message. *)
Lemma direct_lets_go b c cl data st st' : board_inv b st -> heap st !! c = Some cl -> c_board cl = b ->
  direct c data st = Some st' -> lets_go ∅ st st' /\ queued (heap st') <= queued (heap st) + 1.
Proof using Type.
  intros Hi Hc Hb E. destruct (c_present cl) eqn:Hp.
  2: { rewrite (direct_absent c cl) in E by done. injection E as <-. split; [|lia]. apply lets_go_refl. }
  assert (c ∈ clients st) as Hin.
  { destruct (decide (c ∈ clients st)) as [|Hn]; [done|]. by rewrite (bi_out b st Hi c cl Hc Hb Hn) in Hp. }
  destruct (push_spec b c cl data st Hi Hin Hc) as (st2 & E2 & _ & Hh & Hf & Hcl & Hid & _).
  unfold direct in E. rewrite Hc in E. simpl in E. rewrite Hp, E2 in E. simpl in E. injection E as <-.
  assert (heap st2 = <[c := receive_reliable data cl]> (heap st)) as Eh.
  { apply map_eq. intros c'. destruct (decide (c' = c)) as [->|Hne]; [by rewrite Hh, lookup_insert_eq|].
    by rewrite Hf, lookup_insert_ne. }
  split.
  - set (f := fun c' cl' => if bool_decide (c' = c) then receive_reliable data cl' else cl').
    assert (forall c', heap st2 !! c' = f c' <$> heap st !! c') as Hf'.
    { intros c'. unfold f. rewrite Eh, lookup_insert. case_decide as Ec; [subst c'; rewrite Hc; simpl; by rewrite bool_decide_true|].
      rewrite bool_decide_false by congruence. by destruct (heap st !! c'). }
    assert (forall c' cl', same_client cl' (f c' cl')) as Hsame.
    { intros c' cl'. unfold f. case_bool_decide; [apply same_client_receive|done]. }
    apply (lets_go_fmap _ _ _ f); [done| |done| | |].
    + intros c' cl' Hcn. unfold f. case_bool_decide; [by apply keeps_conn_receive|done].
    + intros c' cl' Hc' _ Hn Hcl'. rewrite Hcl in Hn. destruct (room cl) eqn:Er; [done|].
      destruct (decide (c' = c)) as [->|Hne]; [|by destruct Hn; apply elem_of_difference; rewrite elem_of_singleton].
      rewrite Hc in Hcl'. injection Hcl' as <-.
      unfold f. rewrite bool_decide_true by done. unfold receive_reliable. by rewrite Er.
    + intros c'. by apply (inv_heap b).
    + intros Hu Hx. apply (index_same st st2 f); [done|done|rewrite Hcl; destruct (room cl); set_solver| |done].
      intros id c' Hc' Hid'. rewrite Hid; [done|]. destruct (room cl) eqn:Er; [by left|right]. intros ->.
      destruct (bi_byID b st Hi _ c' Hid') as [_ (cl' & Hcl' & Ecl)]. rewrite Hcl in Hc'.
      rewrite (Hu c' c cl' cl Hcl' Hc Ecl) in Hc'. set_solver.
  - unfold queued. rewrite Eh, (msum_insert _ c cl) by done. unfold receive_reliable.
    destruct (room cl); simpl; rewrite ?length_app; simpl; lia.
Qed.
End letting_go.
