(* ===== verification/Conn.v ===== *)
(** The transport of a client (internal/hub/client.go: the interface [Conn] and
    its timeouts; internal/ws/websocket.go: the type [conn] that adapts a
    connection of the WebSocket package to it).

    A call takes a context and the time at which it is made, in nanoseconds,
    and says when it has returned and with what. *)

From S2P Require Import Prelude.
Local Open Scope Z_scope.

(** ** Time and contexts *)

Definition second : Z := 10 ^ 9.

Definition pingInterval : Z := 30 * second.
Definition pingTimeout : Z := 10 * second.
Definition writeTimeout : Z := 10 * second.

Record Ctx := { cx_cancelled : bool; cx_deadline : option Z }.

(** [context.WithTimeout], called at [now]. *)
Definition WithTimeout (ctx : Ctx) (now d : Z) : Ctx :=
  {| cx_cancelled := cx_cancelled ctx;
     cx_deadline := Some (match cx_deadline ctx with Some t => Z.min t (now + d) | None => now + d end) |}.

(** The outcome of a call: the connection, the time of its return, the result. *)
Definition outcome (C A : Type) : Type := C * Z * result A.

(** ** The interface *)

Class Conn (C : Type) := {
  Read : Ctx -> Z -> C -> outcome C string;
  Write : Ctx -> Z -> string -> C -> outcome C unit;
  Ping : Ctx -> Z -> C -> outcome C unit;
  Close : C -> C * result unit;
}.

(** A call is over by its context's deadline, if it has one. *)
Definition in_time (ctx : Ctx) (now t : Z) : Prop :=
  now <= t /\ forall d, cx_deadline ctx = Some d -> t <= Z.max now d.

(** What the hub relies on.  [sent c] are the messages handed to the peer so
    far, oldest first; of a write that fails the peer may or may not have got
    the message. *)
Class ConnLaws (C : Type) `{Conn C} := {
  sent : C -> list string;
  Write_in_time ctx now data c : in_time ctx now (Write ctx now data c).1.2;
  Ping_in_time ctx now c : in_time ctx now (Ping ctx now c).1.2;
  Write_sent ctx now data c :
    match Write ctx now data c with
    | (c', _, Ok _) => sent c' = sent c ++ [data]
    | (c', _, Err _) => sent c' = sent c \/ sent c' = sent c ++ [data]
    end;
  Ping_sent ctx now c : sent (Ping ctx now c).1.1 = sent c;
}.

(** The calls the hub makes while a session lasts. *)
Inductive called {C} `{Conn C} (c : C) : C -> Prop :=
  | called_read ctx now : called c (Read ctx now c).1.1
  | called_write ctx now data : called c (Write ctx now data c).1.1
  | called_ping ctx now : called c (Ping ctx now c).1.1.

(** ** The WebSocket package

    What [websocket.Conn] offers; [ws_frames] are the frames handed to the
    peer, [ws_limit] the limit set for a message. *)

Inductive MessageType := MessageText | MessageBinary.

Class Websocket (W : Type) := {
  ws_Read : Ctx -> Z -> W -> outcome W (MessageType * string);
  ws_Write : Ctx -> Z -> MessageType -> string -> W -> outcome W unit;
  ws_Ping : Ctx -> Z -> W -> outcome W unit;
  ws_CloseNow : W -> W * result unit;
  ws_SetReadLimit : Z -> W -> W;
}.

Class WebsocketLaws (W : Type) `{Websocket W} := {
  ws_frames : W -> list (MessageType * string);
  ws_limit : W -> Z;
  ws_Write_in_time ctx now ty data w : in_time ctx now (ws_Write ctx now ty data w).1.2;
  ws_Ping_in_time ctx now w : in_time ctx now (ws_Ping ctx now w).1.2;
  ws_Write_frames ctx now ty data w :
    match ws_Write ctx now ty data w with
    | (w', _, Ok _) => ws_frames w' = ws_frames w ++ [(ty, data)]
    | (w', _, Err _) => ws_frames w' = ws_frames w \/ ws_frames w' = ws_frames w ++ [(ty, data)]
    end;
  ws_Ping_frames ctx now w : ws_frames (ws_Ping ctx now w).1.1 = ws_frames w;
  ws_Read_frames ctx now w : ws_frames (ws_Read ctx now w).1.1 = ws_frames w;
  ws_Write_limit ctx now ty data w : ws_limit (ws_Write ctx now ty data w).1.1 = ws_limit w;
  ws_Ping_limit ctx now w : ws_limit (ws_Ping ctx now w).1.1 = ws_limit w;
  ws_Read_limit ctx now w : ws_limit (ws_Read ctx now w).1.1 = ws_limit w;
  ws_SetReadLimit_limit n w : ws_limit (ws_SetReadLimit n w) = n;
  ws_Read_bounded ctx now w w' t ty data :
    ws_Read ctx now w = (w', t, Ok (ty, data)) -> Z.of_nat (String.length data) <= ws_limit w;
}.

(** ** The adapter *)

Section adapter.
Context {W : Type} `{Websocket W}.

Record conn := { ws : W }.

Definition conn_Read (ctx : Ctx) (now : Z) (c : conn) : outcome conn string :=
  let '(w, t, r) := ws_Read ctx now (ws c) in ({| ws := w |}, t, snd <$> r).

Definition conn_Write (ctx : Ctx) (now : Z) (data : string) (c : conn) : outcome conn unit :=
  let '(w, t, r) := ws_Write ctx now MessageText data (ws c) in ({| ws := w |}, t, r).

Definition conn_Ping (ctx : Ctx) (now : Z) (c : conn) : outcome conn unit :=
  let '(w, t, r) := ws_Ping ctx now (ws c) in ({| ws := w |}, t, r).

Definition conn_Close (c : conn) : conn * result unit :=
  let '(w, r) := ws_CloseNow (ws c) in ({| ws := w |}, r).

#[export] Instance conn_Conn : Conn conn :=
  {| Read := conn_Read; Write := conn_Write; Ping := conn_Ping; Close := conn_Close |}.

Definition maxMessageBytes : Z := Z.shiftl 1 20.

(** ** The adapter keeps the interface's promises *)

Context {WL : WebsocketLaws W}.

(** The text frames among those handed to the peer. *)
Definition texts (l : list (MessageType * string)) : list string :=
  omap (fun f => match f with (MessageText, data) => Some data | (MessageBinary, _) => None end) l.

Lemma texts_app l1 l2 : texts (l1 ++ l2) = texts l1 ++ texts l2.
Proof using Type. unfold texts. by rewrite omap_app. Qed.

#[export] Program Instance conn_laws : ConnLaws conn := {| sent c := texts (ws_frames (ws c)) |}.
Next Obligation.
  intros ctx now data c. simpl. unfold conn_Write. pose proof (ws_Write_in_time ctx now MessageText data (ws c)) as Hw.
  by destruct (ws_Write _ _ _ _ _) as [[w t] r].
Qed.
Next Obligation.
  intros ctx now c. simpl. unfold conn_Ping. pose proof (ws_Ping_in_time ctx now (ws c)) as Hw.
  by destruct (ws_Ping _ _ _) as [[w t] r].
Qed.
Next Obligation.
  intros ctx now data c. simpl. unfold conn_Write. pose proof (ws_Write_frames ctx now MessageText data (ws c)) as Hw.
  destruct (ws_Write _ _ _ _ _) as [[w t] [u|e]]; simpl; [by rewrite Hw, texts_app|].
  destruct Hw as [Hw|Hw]; [left|right]; by rewrite Hw, ?texts_app.
Qed.
Next Obligation.
  intros ctx now c. simpl. unfold conn_Ping. pose proof (ws_Ping_frames ctx now (ws c)) as Hw.
  destruct (ws_Ping _ _ _) as [[w t] r]. simpl in *. by rewrite Hw.
Qed.

(** Nothing but text ever goes out, and no message above the limit comes in,
    whatever calls are made on a connection with that limit. *)
Record well_used (c0 c : conn) : Prop := {
  wu_text : exists l, ws_frames (ws c) = ws_frames (ws c0) ++ ((fun d => (MessageText, d)) <$> l);
  wu_limit : ws_limit (ws c) = maxMessageBytes;
}.

Lemma limited_well_used w : well_used {| ws := ws_SetReadLimit maxMessageBytes w |} {| ws := ws_SetReadLimit maxMessageBytes w |}.
Proof using Type. split; [exists []; by rewrite app_nil_r|]. apply ws_SetReadLimit_limit. Qed.

Lemma Write_well_used c0 ctx now data c : well_used c0 c -> well_used c0 (Write ctx now data c).1.1.
Proof using Type.
  intros [[l Hl] Hm]. simpl. unfold conn_Write. pose proof (ws_Write_frames ctx now MessageText data (ws c)) as Hw.
  pose proof (ws_Write_limit ctx now MessageText data (ws c)) as Hlim.
  destruct (ws_Write _ _ _ _ _) as [[w t] r]. simpl in *. split; [|simpl; congruence]. simpl.
  assert (ws_frames w = ws_frames (ws c) \/ ws_frames w = ws_frames (ws c) ++ [(MessageText, data)]) as [-> | ->]
    by (destruct r; auto).
  - by exists l.
  - exists (l ++ [data]). by rewrite Hl, fmap_app, (assoc_L (++)).
Qed.

Lemma Ping_well_used c0 ctx now c : well_used c0 c -> well_used c0 (Ping ctx now c).1.1.
Proof using Type.
  intros [Hl Hm]. simpl. unfold conn_Ping. pose proof (ws_Ping_frames ctx now (ws c)) as Hw.
  pose proof (ws_Ping_limit ctx now (ws c)) as Hlim. destruct (ws_Ping _ _ _) as [[w t] r]. simpl in *.
  split; simpl; [by rewrite Hw|congruence].
Qed.

Lemma Read_well_used c0 ctx now c : well_used c0 c -> well_used c0 (Read ctx now c).1.1.
Proof using Type.
  intros [Hl Hm]. simpl. unfold conn_Read. pose proof (ws_Read_frames ctx now (ws c)) as Hw.
  pose proof (ws_Read_limit ctx now (ws c)) as Hlim. destruct (ws_Read _ _ _) as [[w t] r]. simpl in *.
  split; simpl; [by rewrite Hw|congruence].
Qed.

Lemma called_well_used c0 c c' : well_used c0 c -> rtc called c c' -> well_used c0 c'.
Proof using Type.
  intros Hw Hr. induction Hr as [c|c1 c2 c3 Hs _ IH]; [done|]. apply IH.
  destruct Hs; [by apply Read_well_used|by apply Write_well_used|by apply Ping_well_used].
Qed.

Lemma Read_bounded c0 ctx now c c' t data : well_used c0 c -> Read ctx now c = (c', t, Ok data) ->
  Z.of_nat (String.length data) <= maxMessageBytes.
Proof using Type.
  intros [_ Hm]. simpl. unfold conn_Read. destruct (ws_Read ctx now (ws c)) as [[w t'] [[ty d]|e]] eqn:E; [|done].
  intros [= _ _ <-]. rewrite <-Hm. by eapply ws_Read_bounded.
Qed.
End adapter.
#[global] Arguments conn : clear implicits.
