(* ===== verification/Client.v ===== *)
(** The connection side of the hub (internal/hub/client.go): a client's
    identity, and the straight-line code its goroutine runs between two reads.

    That code is a program of requests, to the broker, to the board and to the
    metrics; the requests of different connections interleave, one at a time. *)

From S2P Require Import Prelude Strconv Utf8 Json JsonFacts JsonLocal Protocol Broker Metrics Board.
Local Open Scope Z_scope.

(** ** Identity *)

Definition palette : list string :=
  ["#e6194b"; "#3cb44b"; "#4363d8"; "#f58231"; "#911eb4";
   "#42d4f4"; "#f032e6"; "#bfef45"; "#fabed4"; "#469990"].

Definition defaultName (name : string) : string :=
  if bool_decide (name = "") then "Anonymous" else name.

(** [hash/fnv]'s 32-bit FNV-1a: [Sum32] after [Write] of the bytes. *)
Definition fnv32a (s : string) : Z :=
  fold_left (fun h c => (Z.lxor h (ord c) * 16777619) mod 2 ^ 32) (String.list_ascii_of_string s) 2166136261.

(** [None] is an index out of range. *)
Definition defaultColor (color id : string) : option string :=
  if bool_decide (color <> "") then Some color
  else palette !! Z.to_nat (fnv32a id mod (Z.of_nat (length palette) mod 2 ^ 32)).

(** [hex.EncodeToString] of the bytes [newID] has drawn. *)
Definition newID (b : list ascii) : string :=
  fold_right (fun c s => String (hex_digit (ord c / 16)) (String (hex_digit (ord c mod 16)) s)) "" b.

Definition presence (c : Client) : Presence :=
  {| ClientID := c_id c; Name := c_name c; Color := c_color c |}.

(** ** Programs *)

Inductive request : Type -> Type :=
  | RApplyShape (boardID shapeID : string) (shape : bytes) (del : bool) : request (result Z)
  | RPublish (boardID msg : string) : request (result unit)
  | RSnapshot (boardID : string) : request (result Snapshot)
  | RSetPresence (boardID clientID data : string) : request (result unit)
  | RRemovePresence (boardID clientID : string) : request (result unit)
  | RPresence (boardID : string) : request (result (list Presence))
  (** hand a message to the board for this client *)
  | RDirect (data : string) : request unit
  | RMessageReceived : request unit.

Inductive prog : Type :=
  | Done
  | Step {X : Type} (r : request X) (k : X -> prog).

Fixpoint andThen (p q : prog) : prog :=
  match p with Done => q | Step r k => Step r (fun x => andThen (k x) q) end.

(** [if err := r; err != nil { log }]: the answer only goes to the log. *)
Definition request_ {X} (r : request X) : prog := Step r (fun _ => Done).

Declare Scope prog_scope.
Notation "p ;; q" := (andThen p q) (at level 100, q at level 200, right associativity) : prog_scope.
Notation "'call' x <- r ; p" := (Step r (fun x => p))
  (at level 200, x pattern, r at level 100, p at level 200) : prog_scope.
Local Open Scope prog_scope.

(** ** Handlers *)

Section handlers.
Context `{Float64}.
Implicit Types c : Client.

Definition applyShapeOp (boardID : string) (env : Envelope) : prog :=
  match DecodePayload dec_ShapeOp env ShapeOp_zero with
  | (_, Some _) => Done
  | (op, None) =>
      if bool_decide (ID op = "") then Done
      else
        let del := bool_decide (Type_ env = TypeShapeDelete) in
        call r <- RApplyShape boardID (ID op) (Shape op) del;
        match r with
        | Err _ => Done
        | Ok seq =>
            match Marshal (Type_ env) seq op with
            | Err _ => Done
            | Ok msg => request_ (RPublish boardID msg)
            end
        end
  end.

Definition joinPresence (boardID : string) (c : Client) : prog :=
  match MarshalJSON (presence c) with
  | Err _ => Done
  | Ok data => request_ (RSetPresence boardID (c_id c) data)
  end ;;
  match Marshal TypePresenceJoin 0 (presence c) with
  | Ok msg => request_ (RPublish boardID msg)
  | Err _ => Done
  end.

Definition leavePresence (boardID : string) (c : Client) : prog :=
  request_ (RRemovePresence boardID (c_id c)) ;;
  match Marshal TypePresenceLeave 0 {| ClientID := c_id c; Name := ""; Color := "" |} with
  | Ok msg => request_ (RPublish boardID msg)
  | Err _ => Done
  end.

Definition sendSnapshot (boardID : string) : prog :=
  call r <- RSnapshot boardID;
  match r with
  | Err _ => Done
  | Ok snap =>
      match Marshal TypeSnapshot 0 snap with
      | Ok data => request_ (RDirect data)
      | Err _ => Done
      end
  end.

Definition others (id : string) (roster : list Presence) : list Presence :=
  filter (fun p => ClientID p <> id) roster.

Definition sendPresenceState (boardID : string) (c : Client) : prog :=
  call r <- RPresence boardID;
  match r with
  | Err _ => Done
  | Ok roster =>
      match Marshal TypePresenceState 0
        {| Self := presence c; Others := others (c_id c) roster |} with
      | Ok data => request_ (RDirect data)
      | Err _ => Done
      end
  end.

Definition publishCursor (boardID : string) (c : Client) (env : Envelope) : prog :=
  match DecodePayload dec_Cursor env Cursor_zero with
  | (_, Some _) => Done
  | (cur, None) =>
      match Marshal TypeCursor 0 {| cur_ClientID := c_id c; X := X cur; Y := Y cur |} with
      | Err _ => Done
      | Ok msg => request_ (RPublish boardID msg)
      end
  end.

(** One turn of [readPump]'s loop, after a successful read. *)
Definition handle (boardID : string) (c : Client) (data : string) : prog :=
  match Unmarshal dec_Envelope data Envelope_zero with
  | (_, Some _) => Done
  | (env, None) =>
      request_ RMessageReceived ;;
      if bool_decide (Type_ env ∈ [TypeShapeCreate; TypeShapeUpdate; TypeShapeDelete])
      then applyShapeOp boardID env
      else if bool_decide (Type_ env = TypeCursor) then publishCursor boardID c env
      else Done
  end.

(** What [Serve] runs between registration and the read loop. *)
Definition onboard (boardID : string) (c : Client) : prog :=
  joinPresence boardID c ;; sendSnapshot boardID ;; sendPresenceState boardID c.
End handlers.

(** ** Running a program without interference *)

Section exec.
Context {B : Type} `{Broker B}.

(** A request to the broker under fault [f]. *)
Definition perform {X} (f : fault) (r : request X) (b : B) : B * X :=
  match r in request X return B * X with
  | RApplyShape bid id shape del => br_ApplyShape f bid id shape del b
  | RPublish bid msg => br_Publish f bid msg b
  | RSnapshot bid => br_Snapshot f bid b
  | RSetPresence bid cid data => br_SetPresence f bid cid data b
  | RRemovePresence bid cid => br_RemovePresence f bid cid b
  | RPresence bid => br_Presence f bid b
  | RDirect _ => (b, tt)
  | RMessageReceived => (b, tt)
  end.

Definition published {X} (r : request X) : list string :=
  match r with RPublish _ msg => [msg] | _ => [] end.
Definition delivered {X} (r : request X) : list string :=
  match r with RDirect data => [data] | _ => [] end.

(** The final broker, the messages published and those handed to the board. *)
Fixpoint exec (p : prog) (b : B) : B * list string * list string :=
  match p with
  | Done => (b, [], [])
  | Step r k =>
      let '(b, x) := perform Delivered r b in
      let '(b, pub, dir) := exec (k x) b in
      (b, published r ++ pub, delivered r ++ dir)
  end.
End exec.

(** Programs in sequence. *)
Lemma exec_andThen {B} `{Broker B} p q (b : B) :
  exec (p ;; q) b =
  let '(b1, pub1, dir1) := exec p b in let '(b2, pub2, dir2) := exec q b1 in (b2, pub1 ++ pub2, dir1 ++ dir2).
Proof.
  revert b. induction p as [|X r k IH]; intros b; simpl; [by destruct (exec q b) as [[? ?] ?]|].
  destruct (perform Delivered r b) as [b1 x]. rewrite IH. destruct (exec (k x) b1) as [[b2 pub1] dir1].
  destruct (exec q b2) as [[b3 pub2] dir2]. by rewrite <-!(assoc_L (++)).
Qed.

(** The answers of the types the code gives them: a sequence is a [uint64]. *)
Definition answer_ok {X} (r : request X) : X -> Prop :=
  match r in request X return X -> Prop with
  | RApplyShape _ _ _ _ => fun a => match a with Ok seq => is_u64 seq | Err _ => True end
  | _ => fun _ => True
  end.

(** A property of every request a program can make, whatever it is answered. *)
Fixpoint all_requests (P : forall X, request X -> Prop) (p : prog) : Prop :=
  match p with Done => True | Step r k => P _ r /\ forall x, answer_ok r x -> all_requests P (k x) end.

Lemma all_requests_andThen P p q : all_requests P p -> all_requests P q -> all_requests P (p ;; q).
Proof.
  induction p as [|X r k IH]; [done|]. simpl. intros [Hr Hk] Hq. split; [done|]. intros x Hx. apply IH; auto.
Qed.

(** ** Identity facts *)

Lemma fnv32a_range s : 0 <= fnv32a s < 2 ^ 32.
Proof.
  unfold fnv32a. generalize (String.list_ascii_of_string s). intros l.
  assert (forall h, 0 <= h < 2 ^ 32 ->
    0 <= fold_left (fun h c => (Z.lxor h (ord c) * 16777619) mod 2 ^ 32) l h < 2 ^ 32) as H; [|by apply H].
  induction l as [|c l IH]; intros h Hh; [done|]. apply IH. by apply Z.mod_pos_bound.
Qed.

(** The palette index is always in range: choosing a colour cannot panic. *)
Lemma defaultColor_spec color id : exists col, defaultColor color id = Some col /\
  (if bool_decide (color <> "") then col = color else col ∈ palette).
Proof.
  unfold defaultColor. case_bool_decide; [by eauto|].
  destruct (palette !! Z.to_nat (fnv32a id mod (Z.of_nat (length palette) mod 2 ^ 32))) as [col|] eqn:E.
  - exists col. split; [done|]. by eapply list_elem_of_lookup_2.
  - apply lookup_ge_None in E. exfalso. change (Z.of_nat (length palette) mod 2 ^ 32) with 10 in E.
    change (length palette) with 10%nat in E. pose proof (Z.mod_pos_bound (fnv32a id) 10). lia.
Qed.

Lemma newID_utf8 b : utf8 (newID b).
Proof.
  apply utf8_plain. induction b as [|c b IH]; [done|]. simpl. rewrite IH. pose proof (ord_range c).
  assert (forall z, 0 <= z < 16 -> (ord (hex_digit z) <? 128) = true) as Hh.
  { intros z Hz. unfold hex_digit. case_match; rewrite ord_chr; lia. }
  rewrite !Hh; [done|zlia..].
Qed.

Lemma hex_digit_inj z1 z2 : 0 <= z1 < 16 -> 0 <= z2 < 16 -> hex_digit z1 = hex_digit z2 -> z1 = z2.
Proof.
  intros H1 H2 E%(f_equal ord). unfold hex_digit in E.
  destruct (Z.ltb_spec z1 10), (Z.ltb_spec z2 10); rewrite !ord_chr in E by lia; lia.
Qed.

(** Different random bytes are different identifiers. *)
Lemma newID_inj b1 b2 : newID b1 = newID b2 -> b1 = b2.
Proof.
  revert b2. induction b1 as [|c1 b1 IH]; intros [|c2 b2] E; try done. simpl in E.
  injection E as E1 E2 E. f_equal; [|by apply IH].
  pose proof (ord_range c1). pose proof (ord_range c2).
  apply hex_digit_inj in E1; [|zlia..]. apply hex_digit_inj in E2; [|zlia..].
  rewrite <-(chr_ord c1), <-(chr_ord c2). f_equal. zlia.
Qed.

(** ** What a connection can ask for *)

Section requests.
Context `{Float64}.

(** The message types a connection publishes while it reads. *)
Definition shape_types : list string := [TypeShapeCreate; TypeShapeUpdate; TypeShapeDelete].

Lemma shape_types_utf8 t : t ∈ shape_types -> utf8 t.
Proof using Type.
  unfold shape_types. rewrite !elem_of_cons, elem_of_nil. intros [->|[->|[->|[]]]]; by apply utf8_plain.
Qed.

(** A message other clients can decode as a sequenced shape operation. *)
Definition is_shape_msg (msg : string) (t : string) (seq : Z) (op : ShapeOp) : Prop :=
  exists e, Unmarshal dec_Envelope msg Envelope_zero = (e, None) /\ Type_ e = t /\ Seq e = seq /\
    DecodePayload dec_ShapeOp e ShapeOp_zero = (c_wire op, None).

(** Every operation that decodes is encoded again without an error, so a
    sequence number is never spent on a message that cannot be published. *)
Lemma applyShapeOp_marshals data env op seq :
  Unmarshal dec_Envelope data Envelope_zero = (env, None) -> Type_ env ∈ shape_types ->
  DecodePayload dec_ShapeOp env ShapeOp_zero = (op, None) -> is_u64 seq ->
  exists msg, Marshal (Type_ env) seq op = Ok msg /\ is_shape_msg msg (Type_ env) seq op.
Proof using Type.
  intros Hd Ht Hp Hs. apply dec_Envelope_ok in Hd. pose proof (DecodePayload_ShapeOp _ _ _ Hd Hp) as Hv.
  destruct (Marshal_two_stage (Type_ env) seq op) as (msg & e & Em & He); [by apply shape_types_utf8|done|done|].
  exists msg. split; [done|]. by exists e.
Qed.

Context {FL : Float64Laws}.

(** Whatever a client puts into a cursor, what it publishes carries its own
    identifier: an origin cannot be forged. *)
Definition cursor_of (id msg : string) : Prop :=
  is_cursor msg = true /\ cursor_origin msg = id.

Lemma publishCursor_stamped bid c env : utf8 (c_id c) ->
  publishCursor bid c env = Done \/
  exists msg, publishCursor bid c env = request_ (RPublish bid msg) /\ cursor_of (c_id c) msg.
Proof using FL.
  intros Hu. unfold publishCursor. destruct (DecodePayload _ _ _) as [cur [e|]]; [by left|].
  destruct (cursor_message {| cur_ClientID := c_id c; X := X cur; Y := Y cur |} Hu) as (msg & -> & H1 & H2).
  right. by exists msg.
Qed.

(** The requests of one turn of the read loop: it touches its own board only,
    applies operations under nonempty valid identifiers, and publishes only
    sequenced shape operations and cursors of its own. *)
Definition reader_request (bid : string) (c : Client) (X : Type) (r : request X) : Prop :=
  match r with
  | RApplyShape b id _ _ => b = bid /\ id <> "" /\ utf8 id
  | RPublish b msg => b = bid /\
      (cursor_of (c_id c) msg \/ is_cursor msg = false)
  | RMessageReceived => True
  | _ => False
  end.

Lemma applyShapeOp_requests bid c data env :
  Unmarshal dec_Envelope data Envelope_zero = (env, None) -> Type_ env ∈ shape_types ->
  all_requests (reader_request bid c) (applyShapeOp bid env).
Proof using Type.
  intros Hd Ht. unfold applyShapeOp. destruct (DecodePayload _ _ _) as [op [e|]] eqn:Hp; [done|].
  case_bool_decide as Hid; [done|]. pose proof (dec_Envelope_ok _ _ _ Hd) as Henv.
  destruct (DecodePayload_ShapeOp _ _ _ Henv Hp) as (_ & Hu & _). simpl. split; [done|].
  intros [seq|e] Hs; [|done]. simpl in Hs.
  destruct (applyShapeOp_marshals data env op seq Hd Ht Hp Hs) as (msg & -> & e & He & Ete & _). simpl.
  split; [|done]. split; [done|]. right. unfold is_cursor. rewrite He, Ete.
  apply bool_decide_false. intros E. rewrite E in Ht. unfold shape_types in Ht.
  rewrite !elem_of_cons, elem_of_nil in Ht. by destruct Ht as [|[|[|]]].
Qed.

Lemma handle_requests bid c data : utf8 (c_id c) ->
  all_requests (reader_request bid c) (handle bid c data).
Proof using FL.
  intros Hu. unfold handle. destruct (Unmarshal _ _ _) as [env [e|]] eqn:Hd; [done|].
  simpl. split; [done|]. intros _ _. case_bool_decide as Ht; [by eapply applyShapeOp_requests|].
  case_bool_decide as Hc; [|done].
  destruct (publishCursor_stamped bid c env Hu) as [->|(msg & -> & Hm)]; [done|]. simpl. auto.
Qed.
End requests.

(** ** What the programs do, run on their own *)

(** The roster entry a client stores decodes to its presence. *)
Lemma presence_stored p data : c_valid 1 p -> MarshalJSON p = Ok data -> decode_presence data = Some p.
Proof.
  intros Hp E. destruct (c_law 1 p Hp) as (v & j & E' & Hd & Hdec). rewrite E in E'. injection E' as ->.
  unfold decode_presence, Unmarshal.
  rewrite (doc_parse v j) by (eapply doc_mono; [done|by vm_compute]). simpl in Hdec. by rewrite Hdec.
Qed.

(** The stored blobs are documents nested at most [d] deep. *)
Definition blobs_ok (d : Z) (v : view) : Prop :=
  forall id e, v_shapes v !! id = Some e -> utf8 id /\ exists j, parse (e_blob e) = Some j /\ wf d j.

Lemma parse_nonempty s j : parse s = Some j -> s <> "".
Proof. by intros E ->. Qed.

(** The snapshot of such a board can be encoded and decoded. *)
Lemma snapshot_valid v snap : view_ok v -> v_seq v < two64 -> blobs_ok (maxNestingDepth - 4) v ->
  is_snapshot v snap -> c_valid (maxNestingDepth - 1) snap.
Proof.
  intros Hv Hlim Hb Hs. pose proof (vo_seq _ Hv). destruct Hs as (E & Hsort & Hp) eqn:Es. clear Es.
  split_and!; [done|rewrite E; unfold is_u64; lia|]. apply Forall_forall. intros s Hin.
  pose proof (is_snapshot_elem v snap s (conj E (conj Hsort Hp)) Hin) as Hl.
  destruct (Hb _ _ Hl) as (Hu & j & Hj & Hw). pose proof (vo_range _ Hv _ _ Hl) as Hr. simpl in *.
  split_and!; [done|unfold is_u64; lia|done|].
  destruct (ss_Shape s) as [blob|]; [|done]. simpl. exists j. split; [done|].
  eapply wf_mono; [done|]. lia.
Qed.

Section sequential.
Context {B : Type} {BR : Broker B} {BL : BrokerLaws B} `{Float64}.

(** A valid shape operation is applied once and published once, under the
    sequence number the broker gave it; no other board is touched. *)
Lemma handle_shape_op bid c data env op (b : B) : br_inv b -> v_seq (br_view b bid) < br_limit ->
  Unmarshal dec_Envelope data Envelope_zero = (env, None) -> Type_ env ∈ shape_types ->
  DecodePayload dec_ShapeOp env ShapeOp_zero = (op, None) -> ID op <> "" ->
  let v := br_view b bid in
  exists b' msg, exec (handle bid c data) b = (b', [msg], []) /\ br_inv b' /\
    br_view b' bid = spec_apply (ID op) (bytes_text (Shape op))
      (bool_decide (Type_ env = TypeShapeDelete)) v /\
    is_shape_msg msg (Type_ env) (v_seq v + 1) op /\
    forall o, o <> bid -> br_view b' o = br_view b o.
Proof using Type.
  intros Hb Hlim Hd Ht Hp Hid v. unfold handle. rewrite Hd. rewrite bool_decide_true by done.
  unfold applyShapeOp. rewrite Hp, bool_decide_false by done.
  pose proof (ApplyShape_law Delivered bid (ID op) (Shape op) (bool_decide (Type_ env = TypeShapeDelete)) b Hb Hlim) as Ha.
  assert (is_u64 (v_seq v + 1)) as Hu.
  { pose proof (vo_seq _ (br_view_ok b bid Hb)). pose proof br_limit_u64. subst v. unfold is_u64. lia. }
  destruct (applyShapeOp_marshals data env op _ Hd Ht Hp Hu) as (msg & Em & Hm).
  simpl. destruct (br_ApplyShape _ _ _ _ _ b) as [b1 r]. destruct Ha as (Hb1 & Ho & Hf).
  apply outcome_delivered in Ho as [-> Hv]. fold v. rewrite Em. simpl.
  pose proof (Publish_law Delivered bid msg b1 Hb1) as Hpub.
  destruct (br_Publish _ _ _ b1) as [b2 r2]. destruct Hpub as (Hb2 & Hf2 & _).
  exists b2, msg. split_and!; [done|done|by rewrite (proj1 (Hf2 bid))|done|].
  intros o Hne. by rewrite (proj1 (Hf2 o)), (proj1 (Hf o Hne)).
Qed.

(** Everything else that is not a cursor is ignored: no request is made. *)
Lemma handle_ignored bid c data (b : B) :
  (forall env op, Unmarshal dec_Envelope data Envelope_zero = (env, None) -> Type_ env ∈ shape_types ->
     DecodePayload dec_ShapeOp env ShapeOp_zero = (op, None) -> ID op = "") ->
  (forall env, Unmarshal dec_Envelope data Envelope_zero = (env, None) -> Type_ env <> TypeCursor) ->
  exec (handle bid c data) b = (b, [], []).
Proof using Type.
  intros Hs Hc. unfold handle. destruct (Unmarshal _ _ _) as [env [e|]]; [done|]. simpl.
  case_bool_decide as Ht.
  - unfold applyShapeOp. destruct (DecodePayload _ _ _) as [op [e|]] eqn:Hp; [done|].
    by rewrite bool_decide_true by (by eapply Hs).
  - by rewrite bool_decide_false by (by apply Hc).
Qed.

(** Joining puts the client in the roster and announces it, always. *)
Lemma joinPresence_exec bid c (b : B) : br_inv b -> exists b' data msg,
  exec (joinPresence bid c) b = (b', [msg], []) /\ br_inv b' /\
  MarshalJSON (presence c) = Ok data /\ Marshal TypePresenceJoin 0 (presence c) = Ok msg /\
  br_view b' bid = spec_set_presence (c_id c) data (br_view b bid) /\
  forall o, o <> bid -> br_view b' o = br_view b o.
Proof using Type.
  intros Hb. destruct (Presence_doc (maxNestingDepth - 1) (presence c)) as (data & Ed & Hdoc); [done|].
  destruct (Marshal_doc TypePresenceJoin 0 (presence c) data _ ltac:(done) Ed Hdoc) as [msg Em].
  unfold joinPresence. rewrite Ed, Em. simpl.
  pose proof (SetPresence_law Delivered bid (c_id c) data b Hb) as Hset.
  destruct (br_SetPresence _ _ _ _ b) as [b1 r]. destruct Hset as (Hb1 & Ho & _ & Hf).
  apply outcome_delivered in Ho as [_ Hv].
  pose proof (Publish_law Delivered bid msg b1 Hb1) as Hpub.
  destruct (br_Publish _ _ _ b1) as [b2 r2]. destruct Hpub as (Hb2 & Hf2 & _).
  exists b2, data, msg. split_and!; [done|done|done|done|by rewrite (proj1 (Hf2 bid))|].
  intros o Hne. by rewrite (proj1 (Hf2 o)), Hf.
Qed.

(** Leaving takes it out again. *)
Lemma leavePresence_exec bid c (b : B) : br_inv b -> exists b' msg,
  exec (leavePresence bid c) b = (b', [msg], []) /\ br_inv b' /\
  Marshal TypePresenceLeave 0 {| ClientID := c_id c; Name := ""; Color := "" |} = Ok msg /\
  br_view b' bid = spec_remove_presence (c_id c) (br_view b bid) /\
  forall o, o <> bid -> br_view b' o = br_view b o.
Proof using Type.
  intros Hb. set (p := {| ClientID := c_id c; Name := ""; Color := "" |}).
  destruct (Presence_doc (maxNestingDepth - 1) p) as (data & Ed & Hdoc); [done|].
  destruct (Marshal_doc TypePresenceLeave 0 p data _ ltac:(done) Ed Hdoc) as [msg Em].
  unfold leavePresence. fold p. rewrite Em. simpl.
  pose proof (RemovePresence_law Delivered bid (c_id c) b Hb) as Hset.
  destruct (br_RemovePresence _ _ _ b) as [b1 r]. destruct Hset as (Hb1 & Ho & _ & Hf).
  apply outcome_delivered in Ho as [_ Hv].
  pose proof (Publish_law Delivered bid msg b1 Hb1) as Hpub.
  destruct (br_Publish _ _ _ b1) as [b2 r2]. destruct Hpub as (Hb2 & Hf2 & _).
  exists b2, msg. split_and!; [done|done|done|by rewrite (proj1 (Hf2 bid))|].
  intros o Hne. by rewrite (proj1 (Hf2 o)), Hf.
Qed.

(** The snapshot a client is sent decodes to the board's shapes, sequence by
    sequence. *)
Lemma sendSnapshot_exec bid (b : B) : br_inv b -> v_seq (br_view b bid) < two64 ->
  blobs_ok (maxNestingDepth - 4) (br_view b bid) ->
  exists b' msg e snap, exec (sendSnapshot bid) b = (b', [], [msg]) /\
    br_inv b' /\ (forall o, br_view b' o = br_view b o) /\
    is_snapshot (br_view b bid) snap /\
    Unmarshal dec_Envelope msg Envelope_zero = (e, None) /\ Type_ e = TypeSnapshot /\
    DecodePayload dec_Snapshot e Snapshot_zero = (c_wire snap, None).
Proof using Type.
  intros Hb Hlim Hok. unfold sendSnapshot. simpl. pose proof (Snapshot_law Delivered bid b Hb) as Hs.
  destruct (br_Snapshot _ _ b) as [b1 [snap|e]]; destruct Hs as (Hb1 & Hf & Hsnap); [|by destruct Hsnap].
  simpl in Hsnap. pose proof (snapshot_valid _ _ (br_view_ok b bid Hb) Hlim Hok Hsnap) as Hv.
  destruct (Marshal_two_stage TypeSnapshot 0 snap) as (msg & e & -> & He & Et & _ & Ed);
    [by apply utf8_plain|done|done|].
  exists b1, msg, e, snap. simpl. split_and!; [done|done|by intros o; apply Hf|done|done|done|done].
Qed.

(** The roster a client is sent: itself, and everybody else on the board. *)
Lemma sendPresenceState_exec bid c (b : B) : br_inv b -> c_valid 1 (presence c) ->
  exists b' msg e roster, exec (sendPresenceState bid c) b = (b', [], [msg]) /\
    br_inv b' /\ (forall o, br_view b' o = br_view b o) /\ is_roster (br_view b bid) roster /\
    Unmarshal dec_Envelope msg Envelope_zero = (e, None) /\ Type_ e = TypePresenceState /\
    DecodePayload (c_dec (A := PresenceState)) e c_zero =
      ({| Self := presence c; Others := others (c_id c) roster |}, None).
Proof using Type.
  intros Hb Hc. unfold sendPresenceState. simpl. pose proof (Presence_law Delivered bid b Hb) as Hs.
  destruct (br_Presence _ _ b) as [b1 [roster|e]]; destruct Hs as (Hb1 & Hf & Hr); [|by destruct Hr].
  simpl in Hr. assert (Forall (c_valid (maxNestingDepth - 3)) roster) as Hv.
  { apply Forall_forall. intros p Hp. destruct Hr as [_ Hr]. rewrite Hr in Hp.
    apply list_elem_of_omap in Hp as (kv & _ & E). unfold decode_presence, Unmarshal in E.
    destruct (parse kv.2) as [j|]; [|done]. pose proof (dec_Presence_valid j (maxNestingDepth - 3)) as Hd.
    destruct (dec_Presence Presence_zero j) as [q []]; simplify_eq. by apply Hd. }
  set (ps := {| Self := presence c; Others := others (c_id c) roster |}).
  assert (c_valid (maxNestingDepth - 1) ps) as Hps.
  { split; [done|]. split.
    - destruct Hc as (_ & Hc). by split.
    - apply Forall_forall. intros p Hp. unfold ps, others in Hp. simpl in Hp. apply list_elem_of_filter in Hp as [_ Hp].
      exact (proj1 (Forall_forall _ _) Hv p Hp). }
  destruct (Marshal_two_stage TypePresenceState 0 ps) as (msg & e & -> & He & Et & _ & Ed);
    [by apply utf8_plain|done|done|].
  exists b1, msg, e, roster. simpl. split_and!; [done|done|by intros o; apply Hf|done|done|done|done].
Qed.
End sequential.
