(* ===== verification/Pump.v ===== *)
(** The write pump of a connection ([writePump] of internal/hub/client.go), in
    time: its loop between the client's queue, the heartbeat's ticker and the
    context, one turn at a time, on any connection. *)

From S2P Require Import Prelude Board Conn.
Local Open Scope Z_scope.

(** ** State *)

(** Why the pump has returned. *)
Inductive ending := QueueClosed | WriteFailed | PingFailed | Cancelled.

#[export] Instance ending_eq_dec : EqDecision ending.
Proof. solve_decision. Defined.

(** The pump's connection and clock; the ticker ([p_next] its next tick,
    [p_tick] whether one is buffered in its channel); the client's queue, and
    whether the board has closed it; the context; [p_in] are all the messages
    the board has ever queued. *)
Record Pump (C : Type) := {
  p_conn : C;
  p_now : Z;
  p_next : Z;
  p_tick : bool;
  p_queue : list string;
  p_closed : bool;
  p_cancelled : bool;
  p_end : option ending;
  p_in : list string;
}.
Arguments p_conn {_} _.
Arguments p_now {_} _.
Arguments p_next {_} _.
Arguments p_tick {_} _.
Arguments p_queue {_} _.
Arguments p_closed {_} _.
Arguments p_cancelled {_} _.
Arguments p_end {_} _.
Arguments p_in {_} _.

(** The cases of the pump's [select]. *)
Inductive case := CSend | CTick | CDone.

Section pump.
Context {C : Type} `{Conn C}.
Implicit Types p : Pump C.

(** [time.NewTicker(pingInterval)] at [now], with what has been queued so far. *)
Definition start (c : C) (now : Z) (queue : list string) : Pump C :=
  {| p_conn := c; p_now := now; p_next := now + pingInterval; p_tick := false; p_queue := queue;
     p_closed := false; p_cancelled := false; p_end := None; p_in := queue |}.

(** The clock is at [t]: ticks that were due are in the ticker's channel,
    which has room for one. *)
Definition at_time (t : Z) p : Pump C :=
  let due := p_next p <=? t in
  {| p_conn := p_conn p; p_now := t;
     p_next := if due then p_next p + ((t - p_next p) / pingInterval + 1) * pingInterval else p_next p;
     p_tick := p_tick p || due; p_queue := p_queue p; p_closed := p_closed p; p_cancelled := p_cancelled p;
     p_end := p_end p; p_in := p_in p |}.

Definition set_pump_conn (c : C) p : Pump C :=
  {| p_conn := c; p_now := p_now p; p_next := p_next p; p_tick := p_tick p; p_queue := p_queue p; p_closed := p_closed p;
     p_cancelled := p_cancelled p; p_end := p_end p; p_in := p_in p |}.
Definition set_tick (b : bool) p : Pump C :=
  {| p_conn := p_conn p; p_now := p_now p; p_next := p_next p; p_tick := b; p_queue := p_queue p; p_closed := p_closed p;
     p_cancelled := p_cancelled p; p_end := p_end p; p_in := p_in p |}.
Definition set_queue (q : list string) p : Pump C :=
  {| p_conn := p_conn p; p_now := p_now p; p_next := p_next p; p_tick := p_tick p; p_queue := q; p_closed := p_closed p;
     p_cancelled := p_cancelled p; p_end := p_end p; p_in := p_in p |}.
Definition ends (e : ending) p : Pump C :=
  {| p_conn := p_conn p; p_now := p_now p; p_next := p_next p; p_tick := p_tick p; p_queue := p_queue p;
     p_closed := p_closed p; p_cancelled := p_cancelled p; p_end := Some e; p_in := p_in p |}.

(** The context the pump was given. *)
Definition pump_ctx p : Ctx := {| cx_cancelled := p_cancelled p; cx_deadline := None |}.

(** A case can be chosen: a message or the end of the queue, a tick, the end
    of the context. *)
Definition ready (x : case) p : bool :=
  match x with
  | CSend => match p_queue p with [] => p_closed p | _ => true end
  | CTick => p_tick p
  | CDone => p_cancelled p
  end.

(** One turn of the loop, with the case that the [select] has chosen. *)
Definition turn (x : case) p : Pump C :=
  match x with
  | CSend =>
      match p_queue p with
      | [] => ends QueueClosed p
      | data :: q =>
          let '(c, t, r) := Write (WithTimeout (pump_ctx p) (p_now p) writeTimeout) (p_now p) data (p_conn p) in
          let p := at_time t (set_pump_conn c (set_queue q p)) in
          match r with Ok _ => p | Err _ => ends WriteFailed p end
      end
  | CTick =>
      let '(c, t, r) := Ping (WithTimeout (pump_ctx p) (p_now p) pingTimeout) (p_now p) (p_conn p) in
      let p := at_time t (set_pump_conn c (set_tick false p)) in
      match r with Ok _ => p | Err _ => ends PingFailed p end
  | CDone => ends Cancelled p
  end.

(** ** Steps *)

Definition put (data : string) p : Pump C :=
  {| p_conn := p_conn p; p_now := p_now p; p_next := p_next p; p_tick := p_tick p; p_queue := p_queue p ++ [data];
     p_closed := p_closed p; p_cancelled := p_cancelled p; p_end := p_end p; p_in := p_in p ++ [data] |}.
Definition close_queue p : Pump C :=
  {| p_conn := p_conn p; p_now := p_now p; p_next := p_next p; p_tick := p_tick p; p_queue := p_queue p;
     p_closed := true; p_cancelled := p_cancelled p; p_end := p_end p; p_in := p_in p |}.
Definition cancel p : Pump C :=
  {| p_conn := p_conn p; p_now := p_now p; p_next := p_next p; p_tick := p_tick p; p_queue := p_queue p;
     p_closed := p_closed p; p_cancelled := true; p_end := p_end p; p_in := p_in p |}.

(** What the pump does: a turn, or, when no case is ready, waiting, at most
    until the next tick. *)
Inductive own_step p : Pump C -> Prop :=
  | os_turn x : p_end p = None -> ready x p = true -> own_step p (turn x p)
  | os_wait t : p_end p = None -> (forall x, ready x p = false) -> p_now p < t <= p_next p -> own_step p (at_time t p).

(** What others do to it: the board queues a message, if there is room, or
    closes the queue, and Serve cancels the context. *)
Inductive other_step p : Pump C -> Prop :=
  | ot_put data : p_closed p = false -> (length (p_queue p) < sendBuffer)%nat -> other_step p (put data p)
  | ot_close : p_closed p = false -> other_step p (close_queue p)
  | ot_cancel : p_cancelled p = false -> other_step p (cancel p).

Definition pump_step p p' : Prop := own_step p p' \/ other_step p p'.

(** ** What it sends *)

Context {CL : ConnLaws C}.

(** Everything the board has queued is accounted for: sent, lost in a write
    that failed, or still in the queue, in this order. *)
Record accounted (before : list string) p : Prop := {
  ac_sent : exists out lost, sent (p_conn p) = before ++ out /\ p_in p = out ++ lost ++ p_queue p /\
    (length lost <= 1)%nat /\ (lost <> [] -> p_end p = Some WriteFailed);
  ac_end : p_end p = Some QueueClosed -> p_closed p = true /\ p_queue p = [];
}.

Lemma start_accounted c now queue : accounted (sent c) (start c now queue).
Proof using Type.
  split; [|done]. exists [], []. rewrite app_nil_r. split_and!; [done|done|simpl; lia|done].
Qed.

Lemma turn_accounted b x p : accounted b p -> p_end p = None -> ready x p = true -> accounted b (turn x p).
Proof using Type.
  intros [(out & lost & Es & Ei & Hl & Hf) _] He Hr.
  assert (lost = []) as -> by (destruct lost; [done|]; by rewrite Hf in He). simpl in Ei.
  destruct x; simpl.
  - simpl in Hr. destruct (p_queue p) as [|data q] eqn:Eq.
    + split; [|done]. exists out, []. simpl. rewrite Eq. split_and!; try done; simpl; lia.
    + pose proof (Write_sent (WithTimeout (pump_ctx p) (p_now p) writeTimeout) (p_now p) data (p_conn p)) as Hs.
      destruct (Write _ _ _ _) as [[c t] [u|e]]; (split; [|simpl; congruence]); simpl.
      * exists (out ++ [data]), []. rewrite Hs, Es, Ei, <-!(assoc_L (++)). split_and!; [done|done|simpl; lia|done].
      * destruct Hs as [Hs|Hs]; [exists out, [data]|exists (out ++ [data]), []]; rewrite Hs, Es, Ei, <-?(assoc_L (++));
          split_and!; try done; simpl; lia.
  - pose proof (Ping_sent (WithTimeout (pump_ctx p) (p_now p) pingTimeout) (p_now p) (p_conn p)) as Hs.
    destruct (Ping _ _ _) as [[c t] [u|e]]; (split; [|simpl; congruence]); simpl in *;
      exists out, []; rewrite Hs; split_and!; try done; simpl; lia.
  - split; [|done]. exists out, []. split_and!; try done; simpl; lia.
Qed.

Lemma step_accounted b p p' : accounted b p -> pump_step p p' -> accounted b p'.
Proof using Type.
  intros Ha [Hs|Hs].
  - destruct Hs as [x He Hr|t He _ _]; [by apply turn_accounted|]. by destruct Ha.
  - destruct Ha as [(out & lost & Es & Ei & Hl & Hf) He]. destruct Hs as [data Hc _|Hc|Hc].
    + split; simpl; [|intros E; destruct (He E); congruence]. exists out, lost. rewrite Ei, <-!(assoc_L (++)). done.
    + split; simpl; [by exists out, lost|]. intros E. by destruct (He E).
    + split; simpl; [by exists out, lost|]. done.
Qed.

(** ** How long it takes *)

(** The ticker's next tick is ahead, by no more than its period. *)
Definition ticking p : Prop := p_now p < p_next p <= p_now p + pingInterval.

Lemma start_ticking c now queue : ticking (start c now queue).
Proof using Type. unfold ticking. simpl. unfold pingInterval, second. lia. Qed.

Lemma at_time_ticking t p : ticking p -> p_now p <= t -> ticking (at_time t p).
Proof using Type.
  unfold ticking. simpl. intros [H1 H2] Ht. destruct (Z.leb_spec (p_next p) t); [|lia].
  assert (0 < pingInterval) as Hi by (by vm_compute).
  pose proof (Z.div_mod (t - p_next p) pingInterval). pose proof (Z.mod_pos_bound (t - p_next p) pingInterval). lia.
Qed.

(** A turn is over within ten seconds, whatever the connection does. *)
Lemma turn_time x p : p_now p <= p_now (turn x p) <= p_now p + 10 * second.
Proof using CL.
  assert (forall d t, 0 <= d -> in_time (WithTimeout (pump_ctx p) (p_now p) d) (p_now p) t -> p_now p <= t <= p_now p + d) as Hd.
  { intros d t Hd [H1 H2]. split; [done|]. specialize (H2 _ eq_refl). simpl in H2. lia. }
  assert (0 <= second) by done. destruct x; simpl.
  - destruct (p_queue p) as [|data q]; simpl; [lia|].
    pose proof (Hd writeTimeout _ ltac:(done) (Write_in_time (WithTimeout (pump_ctx p) (p_now p) writeTimeout) (p_now p) data (p_conn p))) as Ht.
    by destruct (Write _ _ _ _) as [[c t] [u|e]].
  - pose proof (Hd pingTimeout _ ltac:(done) (Ping_in_time (WithTimeout (pump_ctx p) (p_now p) pingTimeout) (p_now p) (p_conn p))) as Ht.
    by destruct (Ping _ _ _) as [[c t] [u|e]].
  - lia.
Qed.

Lemma turn_ticking x p : ticking p -> ticking (turn x p).
Proof using CL.
  intros Ht. pose proof (turn_time x p) as Hx. destruct x; simpl in *; [| |done].
  - destruct (p_queue p) as [|data q]; [done|]. destruct (Write _ _ _ _) as [[c t] r].
    assert (p_now p <= t) as Hle by (destruct r; simpl in Hx; lia).
    pose proof (at_time_ticking t (set_pump_conn c (set_queue q p)) Ht Hle). by destruct r.
  - destruct (Ping _ _ _) as [[c t] r]. assert (p_now p <= t) as Hle by (destruct r; simpl in Hx; lia).
    pose proof (at_time_ticking t (set_pump_conn c (set_tick false p)) Ht Hle). by destruct r.
Qed.

Lemma step_ticking p p' : ticking p -> pump_step p p' -> ticking p'.
Proof using CL.
  intros Ht [Hs|[]]; [|done..]. destruct Hs as [x _ _|t _ _ Ht']; [by apply turn_ticking|].
  apply at_time_ticking; [done|lia].
Qed.
End pump.

(** ** A peer that has gone silent *)

Section silence.
Context {C : Type} {CN : Conn C} {CL : ConnLaws C}.
Implicit Types p : Pump C.

(** A connection whose peer does not answer heartbeats. *)
Definition silent (c : C) : Prop := forall ctx now, exists e, (Ping ctx now c).2 = Err e.

(** While there is nothing to send, others can only close the queue or cancel
    the context. *)
Definition idle_step p p' : Prop :=
  own_step p p' \/ p_closed p = false /\ p' = close_queue p \/ p_cancelled p = false /\ p' = cancel p.

(** On the way to the tick at [n] at the latest, or past it and ended. *)
Definition expiring (n : Z) p : Prop :=
  match p_end p with
  | None => silent (p_conn p) /\ p_queue p = [] /\ p_now p <= n /\ (p_tick p = false -> p_now p < p_next p <= n)
  | Some _ => p_now p <= n + pingTimeout
  end.

Lemma silent_tick p : silent (p_conn p) -> p_end (turn CTick p) = Some PingFailed /\ p_now (turn CTick p) <= p_now p + pingTimeout.
Proof using CL.
  intros Hs. simpl. destruct (Hs (WithTimeout (pump_ctx p) (p_now p) pingTimeout) (p_now p)) as [e He].
  pose proof (Ping_in_time (WithTimeout (pump_ctx p) (p_now p) pingTimeout) (p_now p) (p_conn p)) as [_ Ht].
  specialize (Ht _ eq_refl). destruct (Ping _ _ _) as [[c t] r]. simpl in *. subst r. simpl. split; [done|].
  unfold pingTimeout, second in *. lia.
Qed.

Lemma expiring_turn n x p : expiring n p -> p_end p = None -> ready x p = true ->
  (exists e, p_end (turn x p) = Some e) /\ expiring n (turn x p) /\
  p_closed (turn x p) = p_closed p /\ p_cancelled (turn x p) = p_cancelled p.
Proof using CL.
  intros He E Hr. unfold expiring in He. rewrite E in He. destruct He as (Hs & Hq & Hn & _).
  assert (0 <= pingTimeout) by done. destruct x.
  - simpl. rewrite Hq. split_and!; [by eexists|unfold expiring; simpl; lia|done|done].
  - destruct (silent_tick p Hs) as [H1 H2]. split; [by eexists|]. split; [unfold expiring; rewrite H1; lia|].
    simpl. by destruct (Ping _ _ _) as [[c t] [u|e]].
  - simpl. split_and!; [by eexists|unfold expiring; simpl; lia|done|done].
Qed.

Lemma expiring_wait n t p : expiring n p -> p_end p = None -> p_tick p = false -> p_now p < t <= p_next p ->
  expiring n (at_time t p).
Proof using Type.
  intros He E Ht Hw. unfold expiring in *. rewrite E in He. simpl. rewrite E, Ht. destruct He as (Hs & Hq & Hn & Hx).
  specialize (Hx Ht). split_and!; [done|done|lia|]. simpl. destruct (Z.leb_spec (p_next p) t); [done|]. intros _. lia.
Qed.

Lemma expiring_step n p p' : expiring n p -> idle_step p p' -> expiring n p'.
Proof using CL.
  intros He [Hs|[[_ ->]|[_ ->]]]; [|done..]. destruct Hs as [x E Hr|t E Hr Ht]; [by apply (expiring_turn n x p)|].
  apply expiring_wait; try done. by apply (Hr CTick).
Qed.

Definition idle_work p : Z :=
  (if p_closed p then 0 else 1) + (if p_cancelled p then 0 else 1) +
  match p_end p with None => if p_tick p then 1 else 2 + Z.max 0 (p_next p - p_now p) | Some _ => 0 end.

Lemma idle_work_dec n p p' : expiring n p -> idle_step p p' -> 0 <= idle_work p' < idle_work p.
Proof using CL.
  intros He Hst. assert (0 <= idle_work p').
  { unfold idle_work. destruct (p_closed p'), (p_cancelled p'), (p_end p'), (p_tick p'); lia. }
  split; [done|]. destruct Hst as [Hs|[[E ->]|[E ->]]]; [|unfold idle_work; simpl; rewrite E; lia..].
  destruct Hs as [x E Hr|t E Hr Ht].
  - destruct (expiring_turn n x p He E Hr) as ([e Ee] & _ & E1 & E2). unfold idle_work. rewrite Ee, E1, E2, E.
    destruct (p_tick p); lia.
  - pose proof (Hr CTick) as Hk. simpl in Hk. unfold idle_work. simpl. rewrite E, Hk. simpl.
    destruct (Z.leb_spec (p_next p) t); lia.
Qed.

(** A case is ready, or the pump waits for the tick. *)
Lemma idle_progress n p : expiring n p -> p_end p = None -> exists p', own_step p p'.
Proof using Type.
  intros He E. destruct (p_tick p) eqn:Ht; [eexists; by apply (os_turn p CTick)|].
  destruct (p_cancelled p) eqn:Hc; [eexists; by apply (os_turn p CDone)|].
  unfold expiring in He. rewrite E in He. destruct He as (_ & Hq & _ & Hx). specialize (Hx Ht).
  destruct (p_closed p) eqn:Hcl; [eexists; apply (os_turn p CSend); [done|]; simpl; by rewrite Hq|].
  exists (at_time (p_next p) p). apply os_wait; [done| |lia].
  intros []; simpl; [by rewrite Hq|done|done].
Qed.

(** The pump notices: it ends within one period of the heartbeat and the time
    a heartbeat may take. *)
Lemma silence_noticed p : p_end p = None -> ticking p -> p_queue p = [] -> silent (p_conn p) ->
  inevitably own_step idle_step
    (fun p' => p_end p' <> None /\ p_now p' <= p_now p + pingInterval + pingTimeout) p.
Proof using CL.
  intros E Ht Hq Hs. set (n := p_now p + pingInterval).
  assert (0 <= pingInterval) by done.
  eapply (inevitably_measure own_step idle_step (expiring n) (expiring_step n) _ (fun w p => w = Z.to_nat (idle_work p))).
  - intros q w q' Hq' -> Hst. eexists. split; [|done]. pose proof (idle_work_dec n q q' Hq' Hst). lia.
  - intros q Hq'. destruct (p_end q) eqn:Eq; [left|right; by eapply idle_progress].
    split; [done|]. unfold expiring in Hq'. rewrite Eq in Hq'. unfold n in Hq'. lia.
  - by eexists.
  - unfold expiring. rewrite E. unfold ticking in Ht. split_and!; [done|done|unfold n; lia|intros _; unfold n; lia].
Qed.
End silence.

(** ** A queue that the board has closed *)

Section closing.
Context {C : Type} {CN : Conn C} {CL : ConnLaws C}.
Implicit Types p : Pump C.

(** What is left to do, in nanoseconds: a message costs more than a write may
    take, a buffered tick more than a heartbeat, and the next tick is so much
    closer than its period. *)
Definition closing_work p : Z :=
  match p_end p with
  | Some _ => 0
  | None => 11 * second * Z.of_nat (length (p_queue p)) + (if p_tick p then 11 * second else 0) +
      (pingInterval - (p_next p - p_now p)) + 1
  end + (if p_cancelled p then 0 else 1).

Lemma closing_work_nonneg p : ticking p -> 0 <= closing_work p.
Proof using Type.
  unfold ticking, closing_work. assert (0 < second) by done. destruct (p_end p), (p_cancelled p), (p_tick p); nia.
Qed.

(** Time passes by at most ten seconds: the tick comes closer, or it is due
    and then it was close. *)
Lemma at_time_work t p : ticking p -> p_end p = None -> p_now p <= t <= p_now p + 10 * second ->
  closing_work (at_time t p) <= closing_work p + 10 * second.
Proof using Type.
  unfold ticking, closing_work. intros [H1 H2] E Ht. simpl. rewrite E.
  assert (pingInterval = 30 * second) as Ei by done. assert (0 < second) by done.
  destruct (Z.leb_spec (p_next p) t) as [Hd|Hd].
  - assert ((t - p_next p) / pingInterval = 0) as -> by (apply Z.div_small; lia).
    destruct (p_tick p); simpl; lia.
  - destruct (p_tick p); simpl; lia.
Qed.

Lemma turn_work x p : ticking p -> p_closed p = true -> p_end p = None -> ready x p = true ->
  closing_work (turn x p) < closing_work p.
Proof using CL.
  intros Ht Hc E Hr. assert (0 < second) by done. pose proof Ht as [Ht1 Ht2].
  assert (forall e q, p_cancelled q = p_cancelled p -> closing_work (ends e q) < closing_work p) as Hends.
  { intros e q Eq. unfold closing_work. simpl. rewrite Eq, E. destruct (p_tick p), (p_cancelled p); lia. }
  pose proof (turn_time x p) as Hx. destruct x; simpl in *.
  - destruct (p_queue p) as [|data q] eqn:Eq; [by apply Hends|]. destruct (Write _ _ _ _) as [[c t] [u|e]]; [|by apply Hends].
    simpl in Hx. pose proof (at_time_work t (set_pump_conn c (set_queue q p)) Ht E Hx) as Hw.
    assert (closing_work (set_pump_conn c (set_queue q p)) = closing_work p - 11 * second) as Ew; [|lia].
    unfold closing_work. simpl. rewrite E, Eq. simpl. lia.
  - destruct (Ping _ _ _) as [[c t] [u|e]]; [|by apply Hends].
    simpl in Hx. pose proof (at_time_work t (set_pump_conn c (set_tick false p)) Ht E Hx) as Hw.
    assert (closing_work (set_pump_conn c (set_tick false p)) = closing_work p - 11 * second) as Ew; [|lia].
    unfold closing_work. simpl. rewrite E, Hr. lia.
  - by apply Hends.
Qed.

Lemma step_closed p p' : p_closed p = true -> pump_step p p' -> p_closed p' = true.
Proof using Type.
  intros Hc [Hs|Hs]; [|by destruct Hs]. destruct Hs as [x _ _|]; [|done]. destruct x; simpl; [| |done].
  - destruct (p_queue p); [done|]. by destruct (Write _ _ _ _) as [[c t] [u|e]].
  - by destruct (Ping _ _ _) as [[c t] [u|e]].
Qed.

(** The pump ends, whichever ready case each [select] chooses: a heartbeat is
    due only every thirty seconds, in which at least two messages go out. *)
Lemma closed_ends p : p_closed p = true -> ticking p -> inevitably own_step pump_step (fun p' => p_end p' <> None) p.
Proof using CL.
  intros Hc Ht.
  apply (inevitably_measure own_step pump_step (fun p => p_closed p = true /\ ticking p)) with
    (weighs := fun w p => w = Z.to_nat (closing_work p)); [| | |by eexists|done].
  - intros p1 p2 [Hc1 Ht1] Hs. split; [by eapply step_closed|by eapply step_ticking].
  - intros p1 w p2 [Hc1 Ht1] -> Hs. eexists. split; [|done].
    assert (closing_work p2 < closing_work p1) as Hlt;
      [|pose proof (closing_work_nonneg p2 (step_ticking p1 p2 Ht1 Hs)); lia].
    destruct Hs as [[x E Hr|t E Hr _]|Hs]; [by apply turn_work| |].
    + specialize (Hr CSend). simpl in Hr. rewrite Hc1 in Hr. by destruct (p_queue p1).
    + destruct Hs as [data Hn|Hn|Hn]; [congruence..|]. unfold closing_work. simpl. rewrite Hn. lia.
  - intros p1 [Hc1 _]. destruct (p_end p1) eqn:E; [by left|right]. eexists. apply (os_turn p1 CSend E). simpl.
    by destruct (p_queue p1).
Qed.
End closing.
