(* ===== verification/Typing.v ===== *)
(** The language of a board's channel: which messages an instance may publish,
    as a decidable predicate on their bytes, and that the connection's programs
    publish no others. *)

From S2P Require Import Prelude Strconv Utf8 Json JsonFacts JsonLocal Protocol Broker Metrics Board Client.
Local Open Scope Z_scope.
Local Open Scope prog_scope.

Section typing.
Context `{Float64}.

(** A payload of the given type, as the receiving side decodes it. *)
Definition has_payload {A} (dec : A -> json -> A * bool) (zero : A) (P : A -> bool) (e : Envelope) : bool :=
  match DecodePayload dec e zero with (a, None) => P a | (_, Some _) => false end.

(** What is relayed on a board's channel: sequenced shape operations with an
    identifier, and, without a sequence number, cursors and the arrival and
    departure of a client, all with their origin. *)
Definition typed (msg : string) : bool :=
  match Unmarshal dec_Envelope msg Envelope_zero with
  | (_, Some _) => false
  | (e, None) =>
      if bool_decide (Type_ e ∈ shape_types)
      then has_payload dec_ShapeOp ShapeOp_zero (fun op => bool_decide (ID op <> "")) e
      else (Seq e =? 0) &&
        if bool_decide (Type_ e = TypeCursor)
        then has_payload dec_Cursor Cursor_zero (fun cur => bool_decide (cur_ClientID cur <> "")) e
        else bool_decide (Type_ e ∈ [TypePresenceJoin; TypePresenceLeave]) &&
          has_payload dec_Presence Presence_zero (fun p => bool_decide (ClientID p <> "")) e
  end.

Definition typed_request (bid : string) (X : Type) (r : request X) : Prop :=
  match r with RPublish b msg => b = bid /\ typed msg = true | _ => True end.

Lemma typed_shape t seq op msg : t ∈ shape_types -> ID op <> "" -> is_shape_msg msg t seq op -> typed msg = true.
Proof.
  intros Ht Hid (e & He & Et & _ & Hp). unfold typed. rewrite He, bool_decide_true by (by rewrite Et).
  unfold has_payload. change (c_dec (A := ShapeOp)) with dec_ShapeOp in Hp. change (c_zero (A := ShapeOp)) with ShapeOp_zero in Hp.
  rewrite Hp. by apply bool_decide_true.
Qed.

Context {FL : Float64Laws}.

Lemma typed_cursor cur msg : utf8 (cur_ClientID cur) -> cur_ClientID cur <> "" -> Marshal TypeCursor 0 cur = Ok msg ->
  typed msg = true.
Proof using FL.
  intros Hu Hne Hm. destruct (Marshal_two_stage TypeCursor 0 cur) as (msg' & e & Em & Ee & Et & Es & Ed);
    [by apply utf8_plain|done|by split|].
  rewrite Hm in Em. injection Em as <-. unfold typed. rewrite Ee, Et, Es. simpl. unfold has_payload. simpl in Ed. rewrite Ed.
  by apply bool_decide_true.
Qed.

(** A presence decodes whatever its strings hold, its identifier intact. *)
Lemma typed_presence t p msg : t ∈ [TypePresenceJoin; TypePresenceLeave] -> utf8 (ClientID p) -> ClientID p <> "" ->
  Marshal t 0 p = Ok msg -> typed msg = true.
Proof using Type.
  intros Ht Hu Hne Hm. destruct (Presence_doc (maxNestingDepth - 1) p) as (v & E & Hd); [done|].
  assert (utf8 t) as Hut by (rewrite !elem_of_cons, elem_of_nil in Ht; destruct Ht as [->|[->|[]]]; by apply utf8_plain).
  destruct (Marshal_envelope_doc t 0 p v _ Hut ltac:(done) E Hd) as (msg' & Em & Hun).
  rewrite Hm in Em. injection Em as <-. unfold typed. rewrite Hun. simpl.
  assert ((t ∉ shape_types) /\ (t <> TypeCursor)) as [H1 H2]
    by (rewrite !elem_of_cons, elem_of_nil in Ht; destruct Ht as [->|[->|[]]]; by split; [apply (bool_decide_unpack _)|]).
  rewrite !bool_decide_false, bool_decide_true by done. simpl. unfold has_payload, DecodePayload. simpl.
  rewrite (doc_nonempty _ _ _ Hd). unfold Unmarshal.
  erewrite doc_parse by (eapply doc_mono; [exact Hd|unfold maxNestingDepth; lia]).
  destruct p as [id name color]. simpl in *. unfold opt_member, dec_Presence.
  repeat case_bool_decide; simpl dec_struct; dec_fields; rewrite string_value_quote by done; by apply bool_decide_true.
Qed.

Lemma joinPresence_typed bid c : utf8 (c_id c) -> c_id c <> "" -> all_requests (typed_request bid) (joinPresence bid c).
Proof using Type.
  intros Hu Hne. unfold joinPresence. apply all_requests_andThen; [by destruct (MarshalJSON (presence c))|].
  destruct (Marshal TypePresenceJoin 0 (presence c)) as [msg|] eqn:Em; [|done]. simpl. split_and!; try done.
  by eapply (typed_presence TypePresenceJoin (presence c)); [apply (bool_decide_unpack _)|..].
Qed.

Lemma leavePresence_typed bid c : utf8 (c_id c) -> c_id c <> "" -> all_requests (typed_request bid) (leavePresence bid c).
Proof using Type.
  intros Hu Hne. unfold leavePresence. apply all_requests_andThen; [by split|].
  destruct (Marshal TypePresenceLeave 0 _) as [msg|] eqn:Em; [|done]. simpl. split_and!; try done.
  by eapply (typed_presence TypePresenceLeave); [apply (bool_decide_unpack _)|..|exact Em].
Qed.

Lemma onboard_typed bid c : utf8 (c_id c) -> c_id c <> "" -> all_requests (typed_request bid) (onboard bid c).
Proof using Type.
  intros Hu Hne. unfold onboard. apply all_requests_andThen; [by apply joinPresence_typed|apply all_requests_andThen].
  - simpl. split; [done|]. intros [snap|] _; [|done]. by destruct (Marshal TypeSnapshot 0 snap).
  - simpl. split; [done|]. intros [roster|] _; [|done]. by destruct (Marshal TypePresenceState 0 _).
Qed.

Lemma handle_typed bid c data : utf8 (c_id c) -> c_id c <> "" -> all_requests (typed_request bid) (handle bid c data).
Proof using FL.
  intros Hu Hne. unfold handle. destruct (Unmarshal _ _ _) as [env [e|]] eqn:Hd; [done|].
  simpl. split; [done|]. intros _ _. case_bool_decide as Ht; [|case_bool_decide as Hc; [|done]].
  - unfold applyShapeOp. destruct (DecodePayload _ _ _) as [op [e|]] eqn:Hp; [done|]. case_bool_decide as Hid; [done|].
    simpl. split; [done|]. intros [seq|e] Hs; [|done].
    destruct (applyShapeOp_marshals data env op seq Hd Ht Hp Hs) as (msg & -> & Hm). simpl.
    split_and!; try done. by eapply typed_shape.
  - unfold publishCursor. destruct (DecodePayload _ _ _) as [cur [e|]]; [done|].
    destruct (Marshal TypeCursor 0 _) as [msg|] eqn:Em; [|done]. simpl. split_and!; try done.
    by eapply typed_cursor; [..|exact Em].
Qed.
End typing.
