(* ===== verification/Delivery.v ===== *)
(** Delivery from one client's publish to another's socket: any number of
    boards' instances subscribed to one board of the in-process broker
    (memory.go: "two hubs sharing one *Memory behave like two instances sharing
    a bus"), with all publishers, subscriptions, boards and write pumps
    interleaved.

    [Publish] takes the subscribers under the lock and then sends to one after
    the other; the sends that are still to come are [fa_pending], so
    concurrent publishers may overtake each other. *)

From S2P Require Import Prelude Strconv Utf8 Json JsonFacts Protocol Broker MemoryBroker Metrics Board.
Local Open Scope nat_scope.

(** ** State

    An instance: its subscription and its board.  The other fields are
    histories: where in the log of publications it subscribed, what it has
    dispatched, and for every client what its write pump has written, how much
    had been dispatched when it joined, and what it was due, relayed ([true])
    or handed to it directly. *)
Record Inst {M : Type} := {
  in_sub : nat;
  in_board : state M;
  in_from : nat;
  in_log : list string;
  in_written : gmap nat (list string);
  in_since : gmap nat nat;
  in_due : gmap nat (list (bool * string));
}.
#[global] Arguments Inst : clear implicits.

(** The broker, the instances, the sends in progress; and, as histories, what
    was published and which sends found a full buffer. *)
Record Fan {M : Type} := {
  fa_broker : Memory;
  fa_inst : gmap nat (Inst M);
  fa_pending : list (nat * string);
  fa_published : list string;
  fa_lost : list (nat * string);
}.
#[global] Arguments Fan : clear implicits.

(** A message the board delivers to every client or drops the client. *)
Definition reliable `{Float64} (msg : string) : Prop := is_cursor msg = false.
#[export] Instance reliable_dec `{Float64} msg : Decision (reliable msg).
Proof. unfold reliable. apply _. Defined.

(** The subscribers of a board. *)
Definition subs_of (bid : string) (m : Memory) : gset nat := default ∅ (mb_subs <$> m_boards m !! bid).

Section delivery.
Context {M : Type} `{Metrics M} `{Float64}.
Variable bid : string.
Implicit Types (fa : Fan M) (x : Inst M).

(** ** Steps *)

Definition set_board (st : state M) x : Inst M :=
  {| in_sub := in_sub x; in_board := st; in_from := in_from x; in_log := in_log x;
     in_written := in_written x; in_since := in_since x; in_due := in_due x |}.

(** What a reliable message adds to what its clients are due. *)
Definition due_one (b : bool) (msg : string) (due : list (bool * string)) : list (bool * string) :=
  if decide (reliable msg) then due ++ [(b, msg)] else due.

Definition dispatched (msg : string) (st : state M) x : Inst M :=
  {| in_sub := in_sub x; in_board := st; in_from := in_from x; in_log := in_log x ++ [msg];
     in_written := in_written x; in_since := in_since x; in_due := due_one true msg <$> in_due x |}.

Definition joined (c : nat) (st : state M) x : Inst M :=
  {| in_sub := in_sub x; in_board := st; in_from := in_from x; in_log := in_log x;
     in_written := <[c := []]> (in_written x); in_since := <[c := length (in_log x)]> (in_since x);
     in_due := <[c := []]> (in_due x) |}.

Definition handed (c : nat) (msg : string) (st : state M) x : Inst M :=
  {| in_sub := in_sub x; in_board := st; in_from := in_from x; in_log := in_log x;
     in_written := in_written x; in_since := in_since x; in_due := alter (due_one false msg) c (in_due x) |}.

Definition wrote (c : nat) (msg : string) (st : state M) x : Inst M :=
  {| in_sub := in_sub x; in_board := st; in_from := in_from x; in_log := in_log x;
     in_written := alter (fun w => w ++ [msg]) c (in_written x); in_since := in_since x; in_due := in_due x |}.

Definition put_inst (i : nat) x fa : Fan M :=
  {| fa_broker := fa_broker fa; fa_inst := <[i := x]> (fa_inst fa); fa_pending := fa_pending fa;
     fa_published := fa_published fa; fa_lost := fa_lost fa |}.
Definition put_broker (m : Memory) fa : Fan M :=
  {| fa_broker := m; fa_inst := fa_inst fa; fa_pending := fa_pending fa;
     fa_published := fa_published fa; fa_lost := fa_lost fa |}.

(** The instance a [Subscribe] starts. *)
Definition new_inst (sub from : nat) (metrics : M) : Inst M :=
  {| in_sub := sub; in_board := {| clients := ∅; byID := ∅; heap := ∅; metrics := metrics |};
     in_from := from; in_log := []; in_written := ∅; in_since := ∅; in_due := ∅ |}.

(** A freshly connected client of instance [i]. *)
Definition fresh_client (i : nat) (cl : Client) : Prop :=
  c_board cl = i /\ c_send cl = [] /\ c_present cl = false /\ c_closed cl = false.

Definition full (m : Memory) (s : nat) : bool :=
  match m_chans m !! s with Some q => negb (bool_decide (length q < sub_buffer)) | None => true end.

Inductive fan_step (fa : Fan M) : option (Fan M) -> Prop :=
  | fs_subscribe i mt m s : fa_inst fa !! i = None -> MemoryBroker.Subscribe bid (fa_broker fa) = (m, Ok s) ->
      fan_step fa (Some (put_inst i (new_inst s (length (fa_published fa)) mt) (put_broker m fa)))
  (** any operation of the broker on shapes or rosters, of any board *)
  | fs_broker m : mem_inv m -> m_chans m = m_chans (fa_broker fa) -> m_next m = m_next (fa_broker fa) ->
      subs_of bid m = subs_of bid (fa_broker fa) -> fan_step fa (Some (put_broker m fa))
  | fs_publish msg m subs : publish_targets bid (fa_broker fa) = (m, subs) ->
      fan_step fa (Some {| fa_broker := m; fa_inst := fa_inst fa;
        fa_pending := fa_pending fa ++ ((fun s => (s, msg)) <$> subs);
        fa_published := fa_published fa ++ [msg]; fa_lost := fa_lost fa |})
  | fs_send l1 l2 s msg : fa_pending fa = l1 ++ (s, msg) :: l2 ->
      fan_step fa (Some {| fa_broker := publish_one msg (fa_broker fa) s; fa_inst := fa_inst fa;
        fa_pending := l1 ++ l2; fa_published := fa_published fa;
        fa_lost := if full (fa_broker fa) s then fa_lost fa ++ [(s, msg)] else fa_lost fa |})
  | fs_dispatch i x order msg m : fa_inst fa !! i = Some x -> enumerates order (in_board x) ->
      MemoryBroker.receive (in_sub x) (fa_broker fa) = Some (msg, m) ->
      fan_step fa ((fun st => put_inst i (dispatched msg st x) (put_broker m fa)) <$> dispatch order msg (in_board x))
  | fs_join i x c cl : fa_inst fa !! i = Some x -> heap (in_board x) !! c = None -> fresh_client i cl ->
      fan_step fa ((fun st => put_inst i (joined c st x) fa) <$>
        join c (set_heap (<[c := cl]> (heap (in_board x))) (in_board x)))
  | fs_direct i x c cl msg : fa_inst fa !! i = Some x -> heap (in_board x) !! c = Some cl ->
      fan_step fa ((fun st => put_inst i (handed c msg st x) fa) <$> direct c msg (in_board x))
  | fs_detach i x c cl : fa_inst fa !! i = Some x -> heap (in_board x) !! c = Some cl ->
      fan_step fa ((fun st => put_inst i (set_board st x) fa) <$> detach c false (in_board x))
  | fs_write i x c cl msg q : fa_inst fa !! i = Some x -> heap (in_board x) !! c = Some cl -> c_send cl = msg :: q ->
      fan_step fa (Some (put_inst i (wrote c msg (set_heap (<[c := set_send q cl]> (heap (in_board x))) (in_board x)) x) fa)).

Definition fan_start : Fan M :=
  {| fa_broker := NewMemory; fa_inst := ∅; fa_pending := []; fa_published := []; fa_lost := [] |}.

Inductive fan_reachable : Fan M -> Prop :=
  | fan_reachable_start : fan_reachable fan_start
  | fan_reachable_step fa fa' : fan_reachable fa -> fan_step fa (Some fa') -> fan_reachable fa'.

(** ** Accounting *)

(** The messages of a list of sends that are for subscriber [s]. *)
Definition for_sub (s : nat) (l : list (nat * string)) : list string :=
  (filter (fun p : nat * string => p.1 = s) l).*2.

Definition buffered (m : Memory) (s : nat) : list string := default [] (m_chans m !! s).

(** Every publication since the instance subscribed is dispatched, in its
    buffer, about to be sent to it, or lost to a full buffer: once. *)
Definition stream_ok fa x : Prop :=
  drop (in_from x) (fa_published fa) ≡ₚ
  in_log x ++ buffered (fa_broker fa) (in_sub x) ++ for_sub (in_sub x) (fa_pending fa) ++ for_sub (in_sub x) (fa_lost fa).

(** What relaying gave a client, as opposed to what was handed to it. *)
Definition relayed (due : list (bool * string)) : list string := (filter (fun p : bool * string => p.1 = true) due).*2.

(** A client of the board has been written, or has queued, exactly what it was
    due, in order; and the relayed part of that is every reliable message the
    board has dispatched since it joined. *)
Definition client_ok x (c : nat) : Prop :=
  exists cl due w n, heap (in_board x) !! c = Some cl /\ in_due x !! c = Some due /\ in_written x !! c = Some w /\
    in_since x !! c = Some n /\ n <= length (in_log x) /\
    filter reliable (w ++ c_send cl) = due.*2 /\ relayed due = filter reliable (drop n (in_log x)).

Record inst_ok (i : nat) fa x : Prop := {
  io_board : board_inv i (in_board x);
  io_heap : forall c cl, heap (in_board x) !! c = Some cl -> c_board cl = i;
  io_sub : in_sub x ∈ subs_of bid (fa_broker fa);
  io_from : in_from x <= length (fa_published fa);
  io_stream : stream_ok fa x;
  io_clients : forall c, c ∈ clients (in_board x) -> client_ok x c;
}.

Record fan_inv fa : Prop := {
  fi_mem : mem_inv (fa_broker fa);
  fi_inst : forall i x, fa_inst fa !! i = Some x -> inst_ok i fa x;
  fi_excl : forall i j x y, fa_inst fa !! i = Some x -> fa_inst fa !! j = Some y -> in_sub x = in_sub y -> i = j;
  fi_next : forall s msg, (s, msg) ∈ fa_pending fa ++ fa_lost fa -> s < m_next (fa_broker fa);
}.
End delivery.

(** ** The broker's side *)

Lemma subs_of_board bid m m' b : mem_inv m -> MemoryBroker.board bid m = (m', b) ->
  mb_subs b = subs_of bid m /\ subs_of bid m' = subs_of bid m.
Proof.
  intros Hm Hb. destruct (board_spec bid m m' b Hm Hb) as (_ & Hl & _ & _ & _ & _ & _ & Hor).
  unfold subs_of. rewrite Hl. simpl. destruct Hor as [->|[-> ->]]; done.
Qed.

Lemma publish_targets_spec bid m m' subs : mem_inv m -> publish_targets bid m = (m', subs) ->
  mem_inv m' /\ m_chans m' = m_chans m /\ m_next m' = m_next m /\ subs = elements (subs_of bid m) /\
  subs_of bid m' = subs_of bid m.
Proof.
  intros Hm. unfold publish_targets. destruct (MemoryBroker.board bid m) as [m1 b] eqn:Hb. intros [= <- <-].
  destruct (board_spec bid m m1 b Hm Hb) as (? & _ & _ & ? & ? & _). destruct (subs_of_board bid m m1 b Hm Hb) as [-> ?].
  done.
Qed.

Lemma Subscribe_spec bid m m' s : mem_inv m -> MemoryBroker.Subscribe bid m = (m', Ok s) ->
  mem_inv m' /\ s = m_next m /\ m_next m' = S (m_next m) /\ m_chans m' = <[s := []]> (m_chans m) /\
  subs_of bid m' = {[s]} ∪ subs_of bid m.
Proof.
  intros Hm Hs. pose proof (Subscribe_mem bid m Hm) as Hm'. rewrite Hs in Hm'. split; [done|].
  unfold MemoryBroker.Subscribe in Hs. set (m0 := {| m_boards := m_boards m |}) in Hs.
  destruct (MemoryBroker.board bid m0) as [m1 b] eqn:Hb. injection Hs as <- <-.
  assert (m_chans m1 = m_chans m0 /\ m_next m1 = m_next m0 /\ mb_subs b = subs_of bid m) as (E1 & E2 & E3).
  { unfold MemoryBroker.board in Hb. unfold subs_of. change (m_boards m0) with (m_boards m) in Hb.
    destruct (m_boards m !! bid); by injection Hb as <- <-. }
  simpl. rewrite E1, E2. split_and!; [done..|]. unfold subs_of at 1. simpl. rewrite lookup_insert_eq. simpl. by rewrite E3.
Qed.

Lemma subscribed_chan bid m s : mem_inv m -> s ∈ subs_of bid m -> is_Some (m_chans m !! s) /\ s < m_next m.
Proof.
  unfold subs_of. intros Hm Hs. destruct (m_boards m !! bid) as [b|] eqn:E; simpl in Hs; [|set_solver].
  destruct (mi_subs m Hm bid b s E Hs) as [q Hq]. split; [by exists q|]. by apply (mi_chan m Hm s q).
Qed.

Lemma receive_spec m m' s msg : mem_inv m -> MemoryBroker.receive s m = Some (msg, m') ->
  exists q, m_chans m !! s = Some (msg :: q) /\ m' = set_chans m (<[s := q]> (m_chans m)) /\ mem_inv m'.
Proof.
  unfold MemoryBroker.receive. intros Hm E. destruct (m_chans m !! s) as [[|x q]|] eqn:Hq; [done| |done].
  injection E as -> <-. exists q. split_and!; [done..|]. destruct Hm as [H1 H2 H3 H4 H5]. split; [done|done| | |done]; simpl.
  - intros s' q'. rewrite lookup_insert. case_decide; [|apply H3]. intros [= <-]. subst s'.
    destruct (H3 _ _ Hq) as [Hl ?]. simpl in Hl. split; [lia|done].
  - intros id b s' Hb Hs'. rewrite lookup_insert. case_decide; [done|by eapply H4].
Qed.

(** ** Lists of sends *)

Lemma for_sub_app s l1 l2 : for_sub s (l1 ++ l2) = for_sub s l1 ++ for_sub s l2.
Proof. unfold for_sub. by rewrite filter_app, fmap_app. Qed.

Lemma for_sub_cons s s' msg l : for_sub s ((s', msg) :: l) = if decide (s' = s) then msg :: for_sub s l else for_sub s l.
Proof. unfold for_sub. rewrite filter_cons. simpl. by case_decide. Qed.

Lemma for_sub_none s l : (forall msg, (s, msg) ∉ l) -> for_sub s l = [].
Proof.
  intros Hl. induction l as [|[s' msg] l IH]; [done|]. rewrite for_sub_cons. case_decide as E.
  - subst. destruct (Hl msg). by left.
  - apply IH. intros msg' Hin. apply (Hl msg'). by right.
Qed.

(** One publication sends once to each subscriber. *)
Lemma for_sub_targets s msg subs : NoDup subs -> s ∈ subs -> for_sub s ((fun s => (s, msg)) <$> subs) = [msg].
Proof.
  induction 1 as [|s' subs Hs' Hn IH]; [by intros ?%not_elem_of_nil|]. simpl. rewrite for_sub_cons.
  intros [->|Hs]%elem_of_cons.
  - rewrite decide_True by done. f_equal. apply for_sub_none. intros msg' (s2 & [= <- <-] & Hs2)%list_elem_of_fmap. done.
  - rewrite decide_False by (intros ->; done). by apply IH.
Qed.

(** ** The board's side *)

Section board_side.
Context {M : Type} `{Metrics M} `{Float64}.
Implicit Types x : Inst M.

Lemma due_one_snd b msg due : (due_one b msg due).*2 = due.*2 ++ filter reliable [msg].
Proof using Type.
  unfold due_one. rewrite filter_cons, filter_nil. case_decide; [by rewrite fmap_app|by rewrite app_nil_r].
Qed.

Lemma relayed_due_one b msg due : relayed (due_one b msg due) = relayed due ++ if b then filter reliable [msg] else [].
Proof using Type.
  unfold due_one, relayed. rewrite filter_cons, filter_nil. case_decide.
  - rewrite filter_app, fmap_app, filter_cons, filter_nil. by destruct b.
  - destruct b; by rewrite app_nil_r.
Qed.

(** A client that a step does not concern. *)
Lemma client_ok_same x x' c : heap (in_board x') !! c = heap (in_board x) !! c ->
  in_due x' !! c = in_due x !! c -> in_written x' !! c = in_written x !! c -> in_since x' !! c = in_since x !! c ->
  in_log x' = in_log x -> client_ok x c -> client_ok x' c.
Proof using Type. unfold client_ok. by intros -> -> -> -> ->. Qed.

(** Relaying one message. *)
Lemma dispatch_clients b order msg x st' : board_inv b (in_board x) -> enumerates order (in_board x) ->
  dispatch order msg (in_board x) = Some st' ->
  (forall c, c ∈ clients (in_board x) -> client_ok x c) ->
  board_inv b st' /\ (forall c cl, heap st' !! c = Some cl -> exists cl0, heap (in_board x) !! c = Some cl0 /\ c_board cl = c_board cl0) /\
  (forall c, c ∈ clients st' -> client_ok (dispatched msg st' x) c).
Proof using Type.
  intros Hi He Hd Hc. destruct (dispatch_spec b order msg (in_board x) Hi He) as (st1 & E & Hi' & Hsub & Hh & Hin).
  rewrite Hd in E. injection E as <-. split_and!; [done| |].
  - intros c cl. rewrite Hh. destruct (heap (in_board x) !! c) as [cl0|]; [|done]. intros [= <-]. exists cl0.
    split; [done|]. unfold receive, receive_best_effort, receive_reliable. by repeat case_match.
  - intros c Hcin. pose proof (Hsub c Hcin) as Hc0. destruct (Hc c Hc0) as (cl & due & w & n & H1 & H2 & H3 & H4 & H5 & H6 & H7).
    specialize (Hh c). rewrite H1 in Hh. simpl in Hh. rewrite bool_decide_true in Hh by done.
    exists (receive msg (bool_decide (byID (in_board x) !! cursor_origin msg = Some c)) cl), (due_one true msg due), w, n.
    simpl. rewrite lookup_fmap, H2. split_and!; [done|done|done|done|rewrite length_app; lia| |].
    + rewrite due_one_snd, <-H6, !filter_app, <-app_assoc. f_equal. unfold receive.
      apply (Hin c cl Hc0 H1) in Hcin. destruct (is_cursor msg) eqn:Ecur.
      * rewrite (filter_cons_False _ msg), filter_nil, app_nil_r by (unfold reliable; congruence).
        case_bool_decide; [done|]. unfold receive_best_effort. destruct (room cl); [|done]. simpl.
        rewrite filter_app, (filter_cons_False _ msg), filter_nil, app_nil_r by (unfold reliable; congruence). done.
      * destruct Hcin as [?|Hr]; [done|]. unfold receive_reliable. rewrite Hr. simpl. by rewrite filter_app.
    + by rewrite relayed_due_one, H7, drop_app_le, filter_app by done.
Qed.

(** A client that joins. *)
Lemma join_clients b c cl x st' : board_inv b (in_board x) -> (forall c cl, heap (in_board x) !! c = Some cl -> c_board cl = b) ->
  heap (in_board x) !! c = None -> fresh_client b cl ->
  join c (set_heap (<[c := cl]> (heap (in_board x))) (in_board x)) = Some st' ->
  (forall c, c ∈ clients (in_board x) -> client_ok x c) ->
  board_inv b st' /\ (forall c cl, heap st' !! c = Some cl -> c_board cl = b) /\
  (forall c', c' ∈ clients st' -> client_ok (joined c st' x) c').
Proof using Type.
  intros Hi Hb Hc (Eb & Es & Ep & Ec) Hj Hok.
  assert (c ∉ clients (in_board x)) as Hnc.
  { intros Hin. destruct (bi_in _ _ Hi c Hin) as (? & ? & _). congruence. }
  destruct (join_spec b c cl _ (fresh_inv b c cl _ Hi Hc Ep)) as (st1 & E & Hi' & Hcl & _ & Hh & _);
    [by apply lookup_insert_eq|done..|].
  rewrite Hj in E. injection E as <-. simpl in *. rewrite insert_insert_eq in Hh. split_and!; [done| |].
  - intros c' cl'. rewrite Hh, lookup_insert. case_decide; [by intros [= <-]|apply Hb].
  - intros c'. rewrite Hcl. intros [->%elem_of_singleton|Hc']%elem_of_union.
    + exists (set_present true cl), [], [], (length (in_log x)). simpl. rewrite Hh, !lookup_insert_eq.
      split_and!; [done..|by rewrite Es|by rewrite drop_all].
    + apply (client_ok_same x); simpl; rewrite ?Hh, ?lookup_insert_ne by (intros <-; done); [done..|by apply Hok].
Qed.

(** A message handed to one client. *)
Lemma direct_clients b c cl msg x st' : board_inv b (in_board x) -> (forall c cl, heap (in_board x) !! c = Some cl -> c_board cl = b) ->
  heap (in_board x) !! c = Some cl -> direct c msg (in_board x) = Some st' ->
  (forall c, c ∈ clients (in_board x) -> client_ok x c) ->
  board_inv b st' /\ (forall c cl, heap st' !! c = Some cl -> c_board cl = b) /\
  (forall c', c' ∈ clients st' -> client_ok (handed c msg st' x) c').
Proof using Type.
  intros Hi Hb Hc Hd Hok. destruct (c_present cl) eqn:Hp.
  - assert (c ∈ clients (in_board x)) as Hin.
    { destruct (decide (c ∈ clients (in_board x))) as [|Hn]; [done|].
      by rewrite (bi_out b _ Hi c cl Hc (Hb c cl Hc) Hn) in Hp. }
    destruct (push_spec b c cl msg _ Hi Hin Hc) as (st1 & E & Hi' & Hh & Ho & Hcl & _).
    unfold direct in Hd. rewrite Hc in Hd. simpl in Hd. rewrite Hp, E in Hd. simpl in Hd. injection Hd as <-.
    split_and!; [done| |].
    + intros c' cl'. destruct (decide (c' = c)) as [->|Hne]; [|rewrite Ho by done; apply Hb].
      rewrite Hh. intros [= <-]. rewrite <-(Hb c cl Hc). unfold receive_reliable. by destruct (room cl).
    + intros c' Hc'. destruct (decide (c' = c)) as [->|Hne].
      * rewrite Hcl in Hc'. unfold receive_reliable in Hh. destruct (room cl); [|set_solver].
        destruct (Hok c Hin) as (cl0 & due & w & n & H1 & H2 & H3 & H4 & H5 & H6 & H7).
        rewrite Hc in H1. injection H1 as <-. exists (enqueue msg cl), (due_one false msg due), w, n. simpl.
        rewrite lookup_alter_eq, H2. split_and!; [done..| |].
        { rewrite due_one_snd, <-H6. simpl. by rewrite !filter_app, <-app_assoc. }
        by rewrite relayed_due_one, app_nil_r.
      * apply (client_ok_same x); simpl; [by apply Ho|by rewrite lookup_alter_ne|done..|].
        apply Hok. rewrite Hcl in Hc'. destruct (room cl); set_solver.
  - rewrite (direct_absent c cl) in Hd by done. injection Hd as <-. split_and!; [done..|].
    intros c' Hc'. apply (client_ok_same x); simpl; [done| |done..|by apply Hok].
    rewrite lookup_alter_ne; [done|]. intros <-.
    destruct (bi_in b _ Hi c Hc') as (cl' & Hcl' & _ & Hp' & _). congruence.
Qed.

(** A client that leaves, and one whose write pump writes a message. *)
Lemma detach_clients b c cl x st' : board_inv b (in_board x) -> (forall c cl, heap (in_board x) !! c = Some cl -> c_board cl = b) ->
  heap (in_board x) !! c = Some cl -> detach c false (in_board x) = Some st' ->
  (forall c, c ∈ clients (in_board x) -> client_ok x c) ->
  board_inv b st' /\ (forall c cl, heap st' !! c = Some cl -> c_board cl = b) /\
  (forall c', c' ∈ clients st' -> client_ok (set_board st' x) c').
Proof using Type.
  intros Hi Hb Hc Hd Hok. destruct (decide (c ∈ clients (in_board x))) as [Hin|Hn].
  - destruct (detach_live b c false _ Hi Hin) as (st1 & E & Hi' & [D1 D2 D3] & _). rewrite Hd in E. injection E as <-.
    split_and!; [done| |].
    + intros c' cl'. rewrite D2. destruct (heap (in_board x) !! c') as [cl0|] eqn:E0; [|done]. intros [= <-].
      rewrite <-(Hb c' cl0 E0). by case_bool_decide.
    + intros c'. rewrite D1. intros [Hc' Hne]%elem_of_difference. apply (client_ok_same x); simpl; [|done..|by apply Hok].
      rewrite D2, bool_decide_false by set_solver. by destruct (heap (in_board x) !! c').
  - rewrite (detach_absent c false cl) in Hd; [|done|by apply (bi_out b _ Hi c cl Hc (Hb c cl Hc))].
    injection Hd as <-. split_and!; [done..|]. intros c' Hc'. by apply (client_ok_same x); [..|by apply Hok].
Qed.

Lemma write_clients b c cl msg q x : board_inv b (in_board x) -> (forall c cl, heap (in_board x) !! c = Some cl -> c_board cl = b) ->
  heap (in_board x) !! c = Some cl -> c_send cl = msg :: q -> (forall c, c ∈ clients (in_board x) -> client_ok x c) ->
  let st' := set_heap (<[c := set_send q cl]> (heap (in_board x))) (in_board x) in
  board_inv b st' /\ (forall c cl, heap st' !! c = Some cl -> c_board cl = b) /\
  (forall c', c' ∈ clients st' -> client_ok (wrote c msg st' x) c').
Proof using Type.
  intros Hi Hb Hc Eq Hok st'. split_and!.
  - apply (queues_inv b (in_board x)); [done..|]. intros c'. simpl. rewrite lookup_insert. case_decide as E.
    + subst c'. exists (fun _ => q). by rewrite Hc.
    + exists c_send. by destruct (heap (in_board x) !! c') as [[]|].
  - intros c' cl'. simpl. rewrite lookup_insert. case_decide; [|apply Hb]. intros [= <-]. exact (Hb c cl Hc).
  - intros c' Hc'. simpl in Hc'. destruct (decide (c' = c)) as [->|Hne].
    + destruct (Hok c Hc') as (cl0 & due & w & n & H1 & H2 & H3 & H4 & H5 & H6 & H7).
      rewrite Hc in H1. injection H1 as <-. exists (set_send q cl), due, (w ++ [msg]), n. simpl.
      rewrite lookup_insert_eq, lookup_alter_eq, H3. split_and!; [done..| |done].
      by rewrite <-app_assoc, <-H6, Eq.
    + apply (client_ok_same x); simpl; [by rewrite lookup_insert_ne|done|by rewrite lookup_alter_ne|done..|by apply Hok].
Qed.
End board_side.

(** ** The invariant of the whole *)

Section invariant.
Context {M : Type} `{Metrics M} `{Float64}.
Variable bid : string.
Implicit Types (fa : Fan M) (x : Inst M).

(** An instance is not affected by what leaves its subscription and the log
    of publications alone. *)
Lemma inst_ok_frame i fa fa' x : inst_ok bid i fa x ->
  subs_of bid (fa_broker fa) ⊆ subs_of bid (fa_broker fa') ->
  buffered (fa_broker fa') (in_sub x) = buffered (fa_broker fa) (in_sub x) ->
  for_sub (in_sub x) (fa_pending fa') = for_sub (in_sub x) (fa_pending fa) ->
  for_sub (in_sub x) (fa_lost fa') = for_sub (in_sub x) (fa_lost fa) ->
  fa_published fa' = fa_published fa -> inst_ok bid i fa' x.
Proof using Type.
  intros [H1 H2 H3 H4 H5 H6] Es Eb Ep El Eq. split; [done|done|by apply Es|by rewrite Eq| |done].
  unfold stream_ok. by rewrite Eq, Eb, Ep, El.
Qed.

(** A change to one instance's board. *)
Lemma fan_inv_put i x x' fa : fan_inv bid fa -> fa_inst fa !! i = Some x ->
  in_sub x' = in_sub x -> inst_ok bid i fa x' -> fan_inv bid (put_inst i x' fa).
Proof using Type.
  intros [H1 H2 H3 H4] Hx Es Hok. split; simpl; [done| | |done].
  - intros j y. rewrite lookup_insert. case_decide as E.
    + intros [= <-]. subst j. by apply (inst_ok_frame i fa).
    + intros Hy. by apply (inst_ok_frame j fa); [apply H2|..].
  - intros j k y z. rewrite !lookup_insert. intros Hy Hz E.
    repeat case_decide; simplify_eq; try done; (eapply H3; [done..|congruence]).
Qed.

(** With its stream as it was. *)
Lemma fan_inv_board i x x' fa : fan_inv bid fa -> fa_inst fa !! i = Some x ->
  in_sub x' = in_sub x -> in_from x' = in_from x -> in_log x' = in_log x ->
  board_inv i (in_board x') -> (forall c cl, heap (in_board x') !! c = Some cl -> c_board cl = i) ->
  (forall c, c ∈ clients (in_board x') -> client_ok x' c) -> fan_inv bid (put_inst i x' fa).
Proof using Type.
  intros Hi Hx E1 E2 E3 Hb Hh Hc. apply (fan_inv_put i x); [done..|].
  destruct (fi_inst bid fa Hi i x Hx) as [_ _ H3 H4 H5 _]. split; [done|done|by rewrite E1|by rewrite E2| |done].
  unfold stream_ok in *. by rewrite E1, E2, E3.
Qed.

Lemma fan_inv_subscribe i mt m s fa : fan_inv bid fa -> fa_inst fa !! i = None ->
  MemoryBroker.Subscribe bid (fa_broker fa) = (m, Ok s) ->
  fan_inv bid (put_inst i (new_inst s (length (fa_published fa)) mt) (put_broker m fa)).
Proof using Type.
  intros [H1 H2 H3 H4] Hn Hs. destruct (Subscribe_spec bid _ m s H1 Hs) as (Hm & -> & En & Ec & Esub).
  set (s := m_next (fa_broker fa)) in *.
  assert (forall j y, fa_inst fa !! j = Some y -> in_sub y < s) as Hlt.
  { intros j y Hy. by apply (subscribed_chan bid _ _ H1 (io_sub bid j fa y (H2 j y Hy))). }
  split; simpl; [done| | |].
  - intros j y. rewrite lookup_insert. case_decide as E.
    + intros [= <-]. subst j. split; simpl; try done.
      * rewrite Esub. set_solver.
      * unfold stream_ok, buffered. simpl. rewrite drop_all, Ec, lookup_insert_eq. simpl.
        rewrite !for_sub_none; [done|..]; intros msg Hin; assert (s < s) as Hs'; try lia; apply (H4 s msg); set_solver.
    + intros Hy. pose proof (Hlt j y Hy). apply (inst_ok_frame j fa); [by apply H2|simpl; rewrite Esub; set_solver| |done..].
      unfold buffered. simpl. rewrite Ec, lookup_insert_ne by lia. done.
  - intros j k y z. rewrite !lookup_insert. intros Hy Hz E. repeat case_decide; simplify_eq; try done;
      first [apply Hlt in Hz; simpl in E; lia|apply Hlt in Hy; simpl in E; lia|by eapply H3].
  - intros s' msg Hin%H4. rewrite En. lia.
Qed.

Lemma fan_inv_broker m fa : fan_inv bid fa -> mem_inv m -> m_chans m = m_chans (fa_broker fa) ->
  m_next m = m_next (fa_broker fa) -> subs_of bid m = subs_of bid (fa_broker fa) -> fan_inv bid (put_broker m fa).
Proof using Type.
  intros [H1 H2 H3 H4] Hm Ec En Es. split; simpl; [done| |done|by rewrite En].
  intros i x Hx. apply (inst_ok_frame i fa); [by apply H2|by simpl; rewrite Es| |done..].
  unfold buffered. simpl. by rewrite Ec.
Qed.

Lemma fan_inv_publish msg m subs fa : fan_inv bid fa -> publish_targets bid (fa_broker fa) = (m, subs) ->
  fan_inv bid {| fa_broker := m; fa_inst := fa_inst fa; fa_pending := fa_pending fa ++ ((fun s => (s, msg)) <$> subs);
    fa_published := fa_published fa ++ [msg]; fa_lost := fa_lost fa |}.
Proof using Type.
  intros [H1 H2 H3 H4] Hp. destruct (publish_targets_spec bid _ m subs H1 Hp) as (Hm & Ec & En & -> & Es).
  split; simpl; [done| |done|].
  - intros i x Hx. destruct (H2 i x Hx) as [I1 I2 I3 I4 I5 I6]. split; simpl; [done|done|by rewrite Es| | |done].
    + rewrite length_app. simpl. lia.
    + unfold stream_ok, buffered in *. simpl. rewrite drop_app_le, I5, for_sub_app by done.
      rewrite for_sub_targets by (apply NoDup_elements || by apply elem_of_elements). rewrite Ec. solve_Permutation.
  - intros s msg'. rewrite En, <-app_assoc, !elem_of_app. intros [Hin|[(s' & [= <- <-] & Hs)%list_elem_of_fmap|Hin]].
    + apply (H4 s msg'). rewrite elem_of_app. by left.
    + by apply (subscribed_chan bid _ _ H1), elem_of_elements.
    + apply (H4 s msg'). rewrite elem_of_app. by right.
Qed.

Lemma fan_inv_send l1 l2 s msg fa : fan_inv bid fa -> fa_pending fa = l1 ++ (s, msg) :: l2 ->
  fan_inv bid {| fa_broker := publish_one msg (fa_broker fa) s; fa_inst := fa_inst fa; fa_pending := l1 ++ l2;
    fa_published := fa_published fa;
    fa_lost := if full (fa_broker fa) s then fa_lost fa ++ [(s, msg)] else fa_lost fa |}.
Proof using Type.
  intros [H1 H2 H3 H4] Ep. destruct (publish_one_spec msg (fa_broker fa) s H1) as (Hm & Eb & Ec).
  assert (subs_of bid (publish_one msg (fa_broker fa) s) = subs_of bid (fa_broker fa)) as Es.
  { unfold subs_of. by rewrite Eb. }
  assert (m_next (publish_one msg (fa_broker fa) s) = m_next (fa_broker fa)) as En.
  { unfold publish_one. destruct (m_chans (fa_broker fa) !! s); [|done]. by case_decide. }
  split; simpl; [done| |done|].
  - intros i x Hx. destruct (H2 i x Hx) as [I1 I2 I3 I4 I5 I6]. split; simpl; [done|done|by rewrite Es|done| |done].
    unfold stream_ok, buffered in *. simpl. rewrite I5, Ep, Ec, !for_sub_app, for_sub_cons.
    destruct (subscribed_chan bid _ _ H1 I3) as [[q Hq] _]. rewrite Hq. simpl. unfold full.
    destruct (decide (s = in_sub x)) as [->|Hne].
    + rewrite Hq. destruct (decide (length q < sub_buffer)) as [Hl|Hl].
      * rewrite bool_decide_true by done. simpl. rewrite decide_True by done. solve_Permutation.
      * rewrite bool_decide_false by done. simpl. rewrite decide_False by tauto.
        rewrite for_sub_app, for_sub_cons, decide_True by done. simpl. solve_Permutation.
    + rewrite decide_False by tauto.
      assert (for_sub (in_sub x) (if match m_chans (fa_broker fa) !! s with Some q => negb (bool_decide (length q < sub_buffer)) | None => true end
        then fa_lost fa ++ [(s, msg)] else fa_lost fa) = for_sub (in_sub x) (fa_lost fa)) as ->; [|done].
      case_match; [|done]. by rewrite for_sub_app, for_sub_cons, decide_False, app_nil_r by done.
  - intros s' msg' Hin. rewrite En. apply (H4 s' msg'). rewrite Ep. destruct (full _ _); set_solver.
Qed.

Lemma fan_inv_dispatch i x order msg m st' fa : fan_inv bid fa -> fa_inst fa !! i = Some x ->
  enumerates order (in_board x) -> MemoryBroker.receive (in_sub x) (fa_broker fa) = Some (msg, m) ->
  dispatch order msg (in_board x) = Some st' -> fan_inv bid (put_inst i (dispatched msg st' x) (put_broker m fa)).
Proof using Type.
  intros [H1 H2 H3 H4] Hx He Hr Hd. destruct (receive_spec _ m _ msg H1 Hr) as (q & Hq & -> & Hm).
  destruct (H2 i x Hx) as [I1 I2 I3 I4 I5 I6].
  destruct (dispatch_clients i order msg x st' I1 He Hd I6) as (J1 & J2 & J3).
  split; simpl; [done| | |done].
  - intros j y. rewrite lookup_insert. case_decide as E.
    + intros [= <-]. subst j. split; simpl; [done| |done|done| |done].
      * intros c cl Hc. destruct (J2 c cl Hc) as (cl0 & Hc0 & ->). by apply (I2 c).
      * unfold stream_ok, buffered in *. simpl. rewrite I5, Hq, lookup_insert_eq. simpl. solve_Permutation.
    + intros Hy. apply (inst_ok_frame j fa); [by apply H2|done| |done..]. unfold buffered. simpl.
      rewrite lookup_insert_ne; [done|]. intros Es. apply E. by eapply H3.
  - intros j k y z. rewrite !lookup_insert. intros Hy Hz E. repeat case_decide; simplify_eq; try done; by eapply H3.
Qed.

Lemma fan_step_inv fa r : fan_inv bid fa -> fan_step bid fa r -> exists fa', r = Some fa' /\ fan_inv bid fa'.
Proof using Type.
  intros Hi Hst. destruct Hst as [i mt m s Hn Hs|m Hm Ec En Es|msg m subs Hp|l1 l2 s msg Ep|i x order msg m Hx He Hr|
    i x c cl Hx Hc Hf|i x c cl msg Hx Hc|i x c cl Hx Hc|i x c cl msg q Hx Hc Eq].
  - eexists. split; [done|]. by apply fan_inv_subscribe.
  - eexists. split; [done|]. by apply fan_inv_broker.
  - eexists. split; [done|]. by apply fan_inv_publish.
  - eexists. split; [done|]. by apply fan_inv_send.
  - destruct (dispatch_spec i order msg (in_board x) (io_board bid i fa x (fi_inst bid fa Hi i x Hx)) He) as (st' & E & _).
    rewrite E. eexists. split; [done|]. by eapply fan_inv_dispatch.
  - destruct (fi_inst bid fa Hi i x Hx) as [I1 I2 _ _ _ I6]. pose proof Hf as (Eb & _ & Ep & Eo).
    assert (c ∉ clients (in_board x)) as Hnc by (intros Hin; destruct (bi_in _ _ I1 c Hin) as (? & ? & _); congruence).
    destruct (join_spec i c cl _ (fresh_inv i c cl _ I1 Hc Ep)) as (st' & E & _); [apply lookup_insert_eq|done..|].
    rewrite E. eexists. split; [done|]. destruct (join_clients i c cl x st' I1 I2 Hc Hf E I6) as (? & ? & ?).
    by apply (fan_inv_board i x).
  - destruct (fi_inst bid fa Hi i x Hx) as [I1 I2 _ _ _ I6].
    destruct (direct_ok i c cl msg _ I1 Hc (I2 c cl Hc)) as (st' & E & _). rewrite E. eexists. split; [done|].
    destruct (direct_clients i c cl msg x st' I1 I2 Hc E I6) as (? & ? & ?). by apply (fan_inv_board i x).
  - destruct (fi_inst bid fa Hi i x Hx) as [I1 I2 _ _ _ I6].
    destruct (detach_ok i c false _ I1 ltac:(eauto) ltac:(eauto)) as (st' & E & _). rewrite E. eexists. split; [done|].
    destruct (detach_clients i c cl x st' I1 I2 Hc E I6) as (? & ? & ?). by apply (fan_inv_board i x).
  - destruct (fi_inst bid fa Hi i x Hx) as [I1 I2 _ _ _ I6]. eexists. split; [done|].
    destruct (write_clients i c cl msg q x I1 I2 Hc Eq I6) as (? & ? & ?). by apply (fan_inv_board i x).
Qed.

Lemma fan_reachable_inv fa : fan_reachable bid fa -> fan_inv bid fa.
Proof using Type.
  induction 1 as [|fa fa' _ IH Hst].
  - split; simpl; [apply mem_inv_new|by intros ??; rewrite lookup_empty|by intros ????; rewrite lookup_empty|].
    by intros s msg ?%not_elem_of_nil.
  - by destruct (fan_step_inv fa _ IH Hst) as (? & [= ->] & ?).
Qed.
End invariant.
