(* ===== verification/Stream.v ===== *)
(** A subscription as the board sees it (internal/broker/broker.go,
    [Subscribe]): the contract both brokers keep, as a class with an instance
    for each, and the board's goroutine (internal/hub/board.go, [run]) against
    that contract alone. *)

From S2P Require Import Prelude Strconv Utf8 Json JsonFacts Protocol Broker MemoryBroker Metrics Board Subscription Delivery.
Local Open Scope nat_scope.

(** ** The contract *)

(** A receive from the channel: [None] when it would block, no message when
    the channel is closed.  [stream_step] is what everybody else does to the
    stream, publishers, the goroutine of [Subscribe], the context; [None] there
    is a panic. *)
Class Stream (S : Type) := {
  Receive : S -> option (option string * S);
  stream_step : S -> option S -> Prop;
}.

(** What a board may rely on: nobody panics; what it receives are messages that
    were sent to its channel since it subscribed, in that order, each at most
    once; and no more than 256 of them wait for it. *)
Class StreamLaws (S : Type) `{Stream S} := {
  str_inv : S -> Prop;
  str_sent : S -> list string;        (* all the messages for this subscriber *)
  str_received : S -> list string;
  str_waiting : S -> list string;
  str_fifo s : str_inv s -> str_received s ++ str_waiting s `sublist_of` str_sent s;
  str_bounded s : str_inv s -> length (str_waiting s) <= 256;
  str_step_law s r : str_inv s -> stream_step s r ->
    exists s', r = Some s' /\ str_inv s' /\ str_received s' = str_received s /\ str_sent s `prefix_of` str_sent s';
  str_receive_law s : str_inv s ->
    match Receive s with
    | Some (Some msg, s') => str_inv s' /\ str_waiting s = msg :: str_waiting s' /\
        str_received s' = str_received s ++ [msg] /\ str_sent s' = str_sent s
    | Some (None, s') => s' = s /\ str_waiting s = []
    | None => str_waiting s = []
    end;
}.

(** ** Redis: the goroutine between two channels *)

(** Everybody but the board. *)
Inductive sub_other (s : Sub) : option Sub -> Prop :=
  | so_pump r : pump_step s r -> sub_other s r
  | so_push msg : su_in_closed s = false -> sub_other s (Some (push_in msg s))
  | so_close_in : sub_other s (Some (close_in s))
  | so_cancel : sub_other s (Some (cancel s)).

Definition sub_receive (s : Sub) : option (option string * Sub) :=
  match su_out s with
  | msg :: q => Some (Some msg, take_out msg q s)
  | [] => if su_out_closed s then Some (None, s) else None
  end.

#[export] Instance Sub_stream : Stream Sub := {| Receive := sub_receive; stream_step := sub_other |}.

Lemma pump_step_histories s s' : pump_step s (Some s') -> su_got s' = su_got s /\ su_pushed s' = su_pushed s.
Proof.
  inversion 1; subst; try done.
  - unfold send_out in *. by destruct (su_out_closed s); simplify_eq/=.
  - unfold close_out in *. by destruct (su_out_closed s); simplify_eq/=.
Qed.

#[export] Program Instance Sub_laws : StreamLaws Sub :=
  {| str_inv := sub_inv; str_sent := su_pushed; str_received := su_got; str_waiting := su_out |}.
Next Obligation.
  intros s Hs. destruct (si_fifo s Hs) as (lost & -> & _). rewrite (assoc_L (++)). by apply sublist_inserts_r.
Qed.
Next Obligation. intros s Hs. exact (si_bound s Hs). Qed.
Next Obligation.
  intros s r Hs Hst. destruct Hst as [r Hst|msg Hc| |].
  - destruct (pump_step_inv s r Hs Hst) as (s' & -> & Hs'). destruct (pump_step_histories s s' Hst) as [E1 E2].
    exists s'. simpl. by rewrite E1, E2.
  - destruct (sub_step_inv s _ Hs (ss_push s msg Hc)) as (s' & [= <-] & Hs'). eexists. split_and!; [done..|by eexists].
  - destruct (sub_step_inv s _ Hs (ss_close_in s)) as (s' & [= <-] & Hs'). by exists (close_in s).
  - destruct (sub_step_inv s _ Hs (ss_cancel s)) as (s' & [= <-] & Hs'). by exists (cancel s).
Qed.
Next Obligation.
  intros s Hs. simpl. unfold sub_receive. destruct (su_out s) as [|msg q] eqn:E; [by destruct (su_out_closed s)|].
  destruct (sub_step_inv s _ Hs (ss_take s msg q E)) as (s' & [= <-] & Hs'). done.
Qed.

(** ** In process: a buffered channel in the broker's heap *)

(** The subscription [mu_id] of a broker; what was sent to it, dropped
    messages included, and what the board has received. *)
Record MemSub := { mu_broker : Memory; mu_id : nat; mu_sent : list string; mu_got : list string }.

Definition mem_subscribe (bid : string) (m : Memory) : result MemSub :=
  match MemoryBroker.Subscribe bid m with
  | (m, Ok s) => Ok {| mu_broker := m; mu_id := s; mu_sent := []; mu_got := [] |}
  | (_, Err e) => Err e
  end.

Definition on_broker (m : Memory) (s : MemSub) : MemSub :=
  {| mu_broker := m; mu_id := mu_id s; mu_sent := mu_sent s; mu_got := mu_got s |}.

(** A publisher sends to a subscriber, this one or another; another subscriber
    comes or receives; anything that leaves the channels alone, operations on
    shapes and rosters and the goroutines that remove subscribers. *)
Inductive mem_other (s : MemSub) : option MemSub -> Prop :=
  | mo_send i msg : mem_other s (Some
      {| mu_broker := publish_one msg (mu_broker s) i; mu_id := mu_id s;
         mu_sent := if decide (i = mu_id s) then mu_sent s ++ [msg] else mu_sent s; mu_got := mu_got s |})
  | mo_subscribe bid m i : MemoryBroker.Subscribe bid (mu_broker s) = (m, Ok i) -> mem_other s (Some (on_broker m s))
  | mo_receive i msg m : i <> mu_id s -> MemoryBroker.receive i (mu_broker s) = Some (msg, m) ->
      mem_other s (Some (on_broker m s))
  | mo_broker m : mem_inv m -> m_chans m = m_chans (mu_broker s) -> mem_other s (Some (on_broker m s)).

Definition mem_receive (s : MemSub) : option (option string * MemSub) :=
  '(msg, m) ← MemoryBroker.receive (mu_id s) (mu_broker s);
  Some (Some msg, {| mu_broker := m; mu_id := mu_id s; mu_sent := mu_sent s; mu_got := mu_got s ++ [msg] |}).

#[export] Instance MemSub_stream : Stream MemSub := {| Receive := mem_receive; stream_step := mem_other |}.

Record memsub_inv (s : MemSub) : Prop := {
  mu_inv : mem_inv (mu_broker s);
  mu_chan : is_Some (m_chans (mu_broker s) !! mu_id s);
  mu_fifo : mu_got s ++ buffered (mu_broker s) (mu_id s) `sublist_of` mu_sent s;
}.

Lemma mem_subscribe_inv bid m s : mem_inv m -> mem_subscribe bid m = Ok s -> memsub_inv s.
Proof.
  unfold mem_subscribe. intros Hm. destruct (MemoryBroker.Subscribe bid m) as [m' [i|]] eqn:E; [|done]. intros [= <-].
  destruct (Subscribe_spec bid m m' i Hm E) as (Hm' & _ & _ & Ec & _).
  split; simpl; [done| |unfold buffered]; rewrite Ec, lookup_insert_eq; [by eexists|done].
Qed.

Lemma memsub_frame m s : memsub_inv s -> mem_inv m -> m_chans m !! mu_id s = m_chans (mu_broker s) !! mu_id s ->
  memsub_inv (on_broker m s).
Proof. intros [H1 H2 H3] Hm E. split; simpl; [done|by rewrite E|]. unfold buffered in *. by rewrite E. Qed.

Lemma mem_other_inv s r : memsub_inv s -> mem_other s r ->
  exists s', r = Some s' /\ memsub_inv s' /\ mu_got s' = mu_got s /\ mu_sent s `prefix_of` mu_sent s'.
Proof.
  intros Hs Hst. pose proof Hs as [H1 H2 H3].
  destruct Hst as [i msg|bid m i E|i msg m Hne E|m Hm Ec]; eexists; (split; [done|]).
  - destruct (publish_one_spec msg (mu_broker s) i H1) as (Hm & _ & Ec). simpl. split_and!; [|done|].
    + destruct H2 as [q Hq]. unfold buffered in H3. rewrite Hq in H3. simpl in H3.
      split; simpl; [done|rewrite Ec, Hq; by eexists|]. unfold buffered. rewrite Ec, Hq. simpl.
      destruct (decide (i = mu_id s)) as [E|E]; [|by rewrite decide_False by tauto].
      case_decide; [|by apply sublist_inserts_r]. rewrite (assoc_L (++)). by apply sublist_app.
    + case_decide; [by eexists|done].
  - split; [|done]. destruct (Subscribe_spec bid _ m i H1 E) as (Hm & -> & _ & Ec & _). apply memsub_frame; [done..|].
    rewrite Ec, lookup_insert_ne; [done|]. intros Ei. destruct H2 as [q Hq]. rewrite <-Ei in Hq.
    apply (mi_chan _ H1) in Hq. lia.
  - split; [|done]. destruct (receive_spec _ m i msg H1 E) as (q & _ & -> & Hm). apply memsub_frame; [done..|].
    simpl. by rewrite lookup_insert_ne.
  - split; [|done]. apply memsub_frame; [done..|by rewrite Ec].
Qed.

#[export] Program Instance MemSub_laws : StreamLaws MemSub :=
  {| str_inv := memsub_inv; str_sent := mu_sent; str_received := mu_got;
     str_waiting s := buffered (mu_broker s) (mu_id s) |}.
Next Obligation. by intros s []. Qed.
Next Obligation.
  intros s [H1 [q Hq] _]. simpl. unfold buffered. rewrite Hq. by apply (mi_chan _ H1 _ _ Hq).
Qed.
Next Obligation. apply mem_other_inv. Qed.
Next Obligation.
  intros s [H1 [q Hq] H3]. simpl. unfold mem_receive. destruct (MemoryBroker.receive (mu_id s) (mu_broker s)) as [[msg m]|] eqn:E; simpl.
  - destruct (receive_spec _ m _ msg H1 E) as (q' & Hq' & -> & Hm). unfold buffered in *. rewrite Hq' in *. simpl in *.
    rewrite lookup_insert_eq. split_and!; [|done..]. split; simpl; [done|by rewrite lookup_insert_eq|].
    unfold buffered. simpl. by rewrite lookup_insert_eq, <-(assoc_L (++)).
  - unfold MemoryBroker.receive in E. unfold buffered. rewrite Hq in *. by destruct q.
Qed.
