(* ===== verification/Relay.v ===== *)
(** The board's goroutine on a subscription of any broker (internal/hub/board.go,
    [run], from the subscription on): the loop's cases interleaved with the
    stream, the connections and the write pumps, proved against the contract
    [StreamLaws] alone. *)

From S2P Require Import Prelude Strconv Utf8 Json JsonFacts Protocol Broker MemoryBroker Metrics Board Subscription Delivery Stream.
Local Open Scope nat_scope.

Section relay.
Context {S M : Type} {ST : Stream S} {ME : Metrics M} {F : Float64}.

(** The stream; whether [msgs] is still selected; whether the loop still runs;
    the board and its clients with their histories, for which [Inst] serves
    (its fields [in_sub] and [in_from] are not used). *)
Record Relay := { re_stream : S; re_open : bool; re_running : bool; re_board : Inst M }.

Implicit Types re : Relay.

Definition on_stream (s : S) re : Relay :=
  {| re_stream := s; re_open := re_open re; re_running := re_running re; re_board := re_board re |}.
Definition on_inst (x : Inst M) re : Relay :=
  {| re_stream := re_stream re; re_open := re_open re; re_running := re_running re; re_board := x |}.

(** Before the loop: [Subscribe] has returned a stream, or an error, and then
    [msgs] is nil. *)
Definition relay_start (s : S) (subscribed : bool) (mt : M) : Relay :=
  {| re_stream := s; re_open := subscribed; re_running := true; re_board := new_inst 0 0 mt |}.

Variable b : nat.

Inductive relay_step re : option Relay -> Prop :=
  | rs_stream r : stream_step (re_stream re) r -> relay_step re ((fun s => on_stream s re) <$> r)
  | rs_msg order msg s : re_running re = true -> re_open re = true -> Receive (re_stream re) = Some (Some msg, s) ->
      enumerates order (in_board (re_board re)) ->
      relay_step re ((fun st => on_stream s (on_inst (dispatched msg st (re_board re)) re)) <$>
        dispatch order msg (in_board (re_board re)))
  | rs_ended s : re_running re = true -> re_open re = true -> Receive (re_stream re) = Some (None, s) ->
      relay_step re (Some {| re_stream := s; re_open := false; re_running := true; re_board := re_board re |})
  | rs_join c cl : re_running re = true -> heap (in_board (re_board re)) !! c = None -> fresh_client b cl ->
      relay_step re ((fun st => on_inst (joined c st (re_board re)) re) <$>
        join c (set_heap (<[c := cl]> (heap (in_board (re_board re)))) (in_board (re_board re))))
  | rs_detach c cl : re_running re = true -> heap (in_board (re_board re)) !! c = Some cl ->
      relay_step re ((fun st => on_inst (set_board st (re_board re)) re) <$> detach c false (in_board (re_board re)))
  | rs_direct c cl msg : re_running re = true -> heap (in_board (re_board re)) !! c = Some cl ->
      relay_step re ((fun st => on_inst (handed c msg st (re_board re)) re) <$> direct c msg (in_board (re_board re)))
  | rs_quit order : re_running re = true -> enumerates order (in_board (re_board re)) ->
      relay_step re ((fun st => {| re_stream := re_stream re; re_open := re_open re; re_running := false;
        re_board := set_board st (re_board re) |}) <$> shutdown order (in_board (re_board re)))
  | rs_write c cl msg q : heap (in_board (re_board re)) !! c = Some cl -> c_send cl = msg :: q ->
      relay_step re (Some (on_inst
        (wrote c msg (set_heap (<[c := set_send q cl]> (heap (in_board (re_board re)))) (in_board (re_board re))) (re_board re)) re)).

Inductive relay_reachable (s : S) : Relay -> Prop :=
  | relay_reachable_start subscribed mt : relay_reachable s (relay_start s subscribed mt)
  | relay_reachable_step re re' : relay_reachable s re -> relay_step re (Some re') -> relay_reachable s re'.

(** ** The invariant *)

Context {SL : StreamLaws S}.

Record relay_inv re : Prop := {
  rv_stream : str_inv (re_stream re);
  rv_log : in_log (re_board re) = str_received (re_stream re);
  rv_board : board_inv b (in_board (re_board re));
  rv_heap : forall c cl, heap (in_board (re_board re)) !! c = Some cl -> c_board cl = b;
  rv_clients : forall c, c ∈ clients (in_board (re_board re)) -> client_ok (re_board re) c;
}.

(** A step of the board that leaves its log alone. *)
Lemma relay_inv_board x re : relay_inv re -> in_log x = in_log (re_board re) -> board_inv b (in_board x) ->
  (forall c cl, heap (in_board x) !! c = Some cl -> c_board cl = b) ->
  (forall c, c ∈ clients (in_board x) -> client_ok x c) -> relay_inv (on_inst x re).
Proof using Type. intros [H1 H2 _ _ _] E Hb Hh Hc. split; simpl; [done|by rewrite E|done..]. Qed.

Lemma relay_inv_msg order msg s re : relay_inv re -> Receive (re_stream re) = Some (Some msg, s) ->
  enumerates order (in_board (re_board re)) ->
  exists st, dispatch order msg (in_board (re_board re)) = Some st /\
    relay_inv (on_stream s (on_inst (dispatched msg st (re_board re)) re)).
Proof using Type.
  intros [H1 H2 H3 H4 H5] Er He. pose proof (str_receive_law _ H1) as Hr. rewrite Er in Hr. destruct Hr as (Hs & _ & Eg & _).
  destruct (dispatch_spec b order msg _ H3 He) as (st & E & _). exists st. split; [done|].
  destruct (dispatch_clients b order msg (re_board re) st H3 He E H5) as (J1 & J2 & J3).
  split; simpl; [done|by rewrite H2, Eg|done| |done].
  intros c cl Hc. destruct (J2 c cl Hc) as (cl0 & Hc0 & ->). by apply (H4 c).
Qed.

Lemma relay_inv_quit order re : relay_inv re -> enumerates order (in_board (re_board re)) ->
  exists st, shutdown order (in_board (re_board re)) = Some st /\ clients st = ∅ /\ board_inv b st /\
    forall c cl, heap st !! c = Some cl -> c_board cl = b.
Proof using Type.
  intros [_ _ H3 H4 _] [Hn Hin]. destruct (shutdown_spec order (in_board (re_board re)) Hn) as (st & E & Hd & _).
  { intros c Hc%Hin. by apply (inv_live b). }
  exists st. pose proof (dropped_inv b order true _ st H3 Hd) as Hi. destruct Hd as [D1 D2 D3]. split_and!; [done| |done|].
  - apply set_eq. intros c. rewrite D1, elem_of_difference, elem_of_list_to_set, Hin. set_solver.
  - intros c cl. rewrite D2. destruct (heap (in_board (re_board re)) !! c) as [cl0|] eqn:E0; [|done]. intros [= <-].
    rewrite <-(H4 c cl0 E0). by case_bool_decide.
Qed.

Lemma relay_step_inv re r : relay_inv re -> relay_step re r -> exists re', r = Some re' /\ relay_inv re'.
Proof using Type.
  intros Hi Hst. pose proof Hi as [H1 H2 H3 H4 H5].
  destruct Hst as [r Hs|order msg s _ _ Er He|s _ _ Er|c cl _ Hc Hf|c cl _ Hc|c cl msg _ Hc|order _ He|c cl msg q Hc Eq].
  - destruct (str_step_law _ r H1 Hs) as (s' & -> & Hs' & Eg & _). eexists. split; [done|]. split; simpl; [done|by rewrite Eg|done..].
  - destruct (relay_inv_msg order msg s re Hi Er He) as (st & -> & Hi'). by eexists.
  - pose proof (str_receive_law _ H1) as Hr. rewrite Er in Hr. destruct Hr as [-> _]. eexists. split; [done|]. by split.
  - pose proof Hf as (_ & _ & Ep & Eo).
    assert (c ∉ clients (in_board (re_board re))) as Hnc by (intros Hin; destruct (bi_in _ _ H3 c Hin) as (? & ? & _); congruence).
    destruct (join_spec b c cl _ (fresh_inv b c cl _ H3 Hc Ep)) as (st' & E & _); [apply lookup_insert_eq|apply Hf|done..|].
    rewrite E. eexists. split; [done|]. destruct (join_clients b c cl _ st' H3 H4 Hc Hf E H5) as (? & ? & ?).
    by apply relay_inv_board.
  - destruct (detach_ok b c false _ H3 ltac:(eauto) ltac:(eauto)) as (st' & E & _). rewrite E. eexists. split; [done|].
    destruct (detach_clients b c cl _ st' H3 H4 Hc E H5) as (? & ? & ?). by apply relay_inv_board.
  - destruct (direct_ok b c cl msg _ H3 Hc (H4 c cl Hc)) as (st' & E & _). rewrite E. eexists. split; [done|].
    destruct (direct_clients b c cl msg _ st' H3 H4 Hc E H5) as (? & ? & ?). by apply relay_inv_board.
  - destruct (relay_inv_quit order re Hi He) as (st & -> & Ec & Hb & Hh). eexists. split; [done|].
    split; simpl; [done|done|done|done|]. rewrite Ec. intros c ?%elem_of_empty. done.
  - eexists. split; [done|]. destruct (write_clients b c cl msg q _ H3 H4 Hc Eq H5) as (? & ? & ?). by apply relay_inv_board.
Qed.

Lemma relay_start_inv s subscribed mt : str_inv s -> str_received s = [] -> relay_inv (relay_start s subscribed mt).
Proof using Type.
  intros Hs Er. split; simpl; [done|by rewrite Er| |by intros ??; rewrite lookup_empty|by intros c ?%elem_of_empty].
  split; simpl; [by intros c ?%elem_of_empty|by intros ??; rewrite lookup_empty|by intros ??; rewrite lookup_empty].
Qed.

Lemma relay_reachable_inv s re : str_inv s -> str_received s = [] -> relay_reachable s re -> relay_inv re.
Proof using Type.
  intros Hs Er. induction 1 as [sub mt|re re' _ IH Hst]; [by apply relay_start_inv|].
  by destruct (relay_step_inv re _ IH Hst) as (? & [= <-] & ?).
Qed.
End relay.
#[global] Arguments Relay : clear implicits.
