(* ===== verification/Hub.v ===== *)
(** The hub (internal/hub/hub.go, with Serve of client.go): the registry of
    boards behind its lock, the lifecycle of boards and of connections, and
    shutdown, as a transition system whose steps are the critical sections,
    channel operations and broker calls of the goroutines involved. *)

From S2P Require Import Prelude Strconv Utf8 Json JsonFacts JsonLocal Protocol Broker Store Persistence Metrics Board Client.
Local Open Scope Z_scope.

(** ** State *)

(** The registry's entry for a board: the board's address, and how many
    sessions keep it open. *)
Record boardEntry := { be_board : nat; be_count : Z }.

(** Where a board's goroutine is: before its loop (hydrating, subscribing), in
    the loop, past its shutdown (persisting), or returned. *)
Inductive phase := Starting | Running | Closing | Stopped.

#[export] Instance phase_eq_dec : EqDecision phase.
Proof. solve_decision. Defined.

Record Board := {
  bo_id : string;
  bo_phase : phase;
  bo_quit : bool;
  bo_clients : gset nat;
  bo_byID : gmap string nat;
}.

(** [newBoard] *)
Definition newBoard (id : string) : Board :=
  {| bo_id := id; bo_phase := Starting; bo_quit := false; bo_clients := ∅; bo_byID := ∅ |}.

Definition set_phase (p : phase) (bo : Board) : Board :=
  {| bo_id := bo_id bo; bo_phase := p; bo_quit := bo_quit bo; bo_clients := bo_clients bo; bo_byID := bo_byID bo |}.

(** [b.closeQuit]: idempotent. *)
Definition closeQuit (bo : Board) : Board :=
  {| bo_id := bo_id bo; bo_phase := bo_phase bo; bo_quit := true; bo_clients := bo_clients bo; bo_byID := bo_byID bo |}.

(** Where a session's goroutine is in [Serve]. *)
Inductive pc :=
  | SRegister                (* sending on the board's register channel *)
  | SOnboard (p : prog)      (* joinPresence, sendSnapshot, sendPresenceState *)
  | SRead                    (* blocked in conn.Read *)
  | SHandle (p : prog)       (* handling a message it has read *)
  | SStop                    (* the read pump has returned *)
  | SWait                    (* waiting for the write pump *)
  | SLeave (p : prog)        (* leavePresence *)
  | SRelease                 (* the deferred release, before its lock *)
  | SCloseQuit               (* the last one out: about to close quit *)
  | SUnregister              (* select on unregister and done *)
  | SEnd.                    (* the deferred sessions.Done *)

(** Whether the session's write pump is not started, running, or returned. *)
Inductive pump := WNone | WRun | WEnd.

Record Session := { s_board : nat; s_pc : pc; s_pump : pump }.

Definition at_pc (p : pc) (s : Session) : Session :=
  {| s_board := s_board s; s_pc := p; s_pump := s_pump s |}.
Definition at_pump (w : pump) (s : Session) : Session :=
  {| s_board := s_board s; s_pc := s_pc s; s_pump := w |}.

(** Where a call of [Shutdown] is; [all] are the boards it has found in the
    registry, [todo] those its loop has yet to visit; [HReturned true all] is
    [return nil]. *)
Inductive shutpc :=
  | HNone
  | HClosing (todo all : list nat)      (* closing the boards' quit channels *)
  | HWaitBoards (todo all : list nat)   (* waiting for the boards' done channels *)
  | HWaitSessions (all : list nat)
  | HReturned (ok : bool) (all : list nat).

(** The instance of [Metrics] that keeps the events themselves. *)
#[export] Instance trace_metrics : Metrics (list event) := {|
  ConnOpened l := l ++ [EConnOpened];
  ConnClosed l := l ++ [EConnClosed];
  BoardOpened l := l ++ [EBoardOpened];
  BoardClosed l := l ++ [EBoardClosed];
  MessageReceived l := l ++ [EMessageReceived];
  MessagesDelivered n l := l ++ [EMessagesDelivered n];
  ClientKicked l := l ++ [EClientKicked];
|}.

Section hub.
Context {B S : Type} `{Broker B} `{Store S} `{Float64}.

(** The process: the hub's fields, its heap of boards and clients, its
    goroutines, and the services it is connected to.  A session and its
    client have the same address. *)
Record Hub := {
  h_boards : gmap string boardEntry;
  h_closing : bool;
  h_sessions : Z;
  h_objects : gmap nat Board;
  h_clients : gmap nat Client;
  h_serve : gmap nat Session;
  h_shut : shutpc;
  h_trace : list event;
  h_broker : B;
  h_store : option S;
  h_next : nat;
}.
Implicit Types h : Hub.

(** [New] *)
Definition New (b : B) (store : option S) : Hub :=
  {| h_boards := ∅; h_closing := false; h_sessions := 0; h_objects := ∅; h_clients := ∅;
     h_serve := ∅; h_shut := HNone; h_trace := []; h_broker := b; h_store := store; h_next := 0 |}.

Definition set_registry (bs : gmap string boardEntry) h : Hub :=
  {| h_boards := bs; h_closing := h_closing h; h_sessions := h_sessions h; h_objects := h_objects h;
     h_clients := h_clients h; h_serve := h_serve h; h_shut := h_shut h; h_trace := h_trace h;
     h_broker := h_broker h; h_store := h_store h; h_next := h_next h |}.
Definition set_object (a : nat) (bo : Board) h : Hub :=
  {| h_boards := h_boards h; h_closing := h_closing h; h_sessions := h_sessions h;
     h_objects := <[a := bo]> (h_objects h);
     h_clients := h_clients h; h_serve := h_serve h; h_shut := h_shut h; h_trace := h_trace h;
     h_broker := h_broker h; h_store := h_store h; h_next := h_next h |}.
Definition set_client (k : nat) (c : Client) h : Hub :=
  {| h_boards := h_boards h; h_closing := h_closing h; h_sessions := h_sessions h; h_objects := h_objects h;
     h_clients := <[k := c]> (h_clients h); h_serve := h_serve h; h_shut := h_shut h; h_trace := h_trace h;
     h_broker := h_broker h; h_store := h_store h; h_next := h_next h |}.
Definition set_session (k : nat) (s : Session) h : Hub :=
  {| h_boards := h_boards h; h_closing := h_closing h; h_sessions := h_sessions h; h_objects := h_objects h;
     h_clients := h_clients h; h_serve := <[k := s]> (h_serve h); h_shut := h_shut h; h_trace := h_trace h;
     h_broker := h_broker h; h_store := h_store h; h_next := h_next h |}.
Definition emit_hub (e : event) h : Hub :=
  {| h_boards := h_boards h; h_closing := h_closing h; h_sessions := h_sessions h; h_objects := h_objects h;
     h_clients := h_clients h; h_serve := h_serve h; h_shut := h_shut h; h_trace := emit e (h_trace h);
     h_broker := h_broker h; h_store := h_store h; h_next := h_next h |}.
Definition set_shut (p : shutpc) h : Hub :=
  {| h_boards := h_boards h; h_closing := h_closing h; h_sessions := h_sessions h; h_objects := h_objects h;
     h_clients := h_clients h; h_serve := h_serve h; h_shut := p; h_trace := h_trace h;
     h_broker := h_broker h; h_store := h_store h; h_next := h_next h |}.
Definition set_services (b : B) (st : option S) h : Hub :=
  {| h_boards := h_boards h; h_closing := h_closing h; h_sessions := h_sessions h; h_objects := h_objects h;
     h_clients := h_clients h; h_serve := h_serve h; h_shut := h_shut h; h_trace := h_trace h;
     h_broker := b; h_store := st; h_next := h_next h |}.
(** [h.sessions.Add(n)] *)
Definition add_sessions (n : Z) h : Hub :=
  {| h_boards := h_boards h; h_closing := h_closing h; h_sessions := h_sessions h + n; h_objects := h_objects h;
     h_clients := h_clients h; h_serve := h_serve h; h_shut := h_shut h; h_trace := h_trace h;
     h_broker := h_broker h; h_store := h_store h; h_next := h_next h |}.
(** The end of a session's goroutine. *)
Definition end_session (k : nat) h : Hub :=
  {| h_boards := h_boards h; h_closing := h_closing h; h_sessions := h_sessions h; h_objects := h_objects h;
     h_clients := h_clients h; h_serve := delete k (h_serve h); h_shut := h_shut h; h_trace := h_trace h;
     h_broker := h_broker h; h_store := h_store h; h_next := h_next h |}.
Definition alloc h : nat * Hub :=
  (h_next h,
   {| h_boards := h_boards h; h_closing := h_closing h; h_sessions := h_sessions h; h_objects := h_objects h;
     h_clients := h_clients h; h_serve := h_serve h; h_shut := h_shut h; h_trace := h_trace h;
     h_broker := h_broker h; h_store := h_store h; h_next := Datatypes.S (h_next h) |}).

(** ** Operations of the hub *)

(** [h.beginSession], under the lock: [None] when the hub is closing. *)
Definition beginSession (id : string) h : Hub * option nat :=
  if h_closing h then (h, None)
  else
    let h := add_sessions 1 h in
    match h_boards h !! id with
    | Some e =>
        (set_registry (<[id := {| be_board := be_board e; be_count := be_count e + 1 |}]> (h_boards h)) h,
         Some (be_board e))
    | None =>
        let '(a, h) := alloc h in
        let h := emit_hub EBoardOpened (set_object a (newBoard id) h) in
        (set_registry (<[id := {| be_board := a; be_count := 1 |}]> (h_boards h)) h, Some a)
    end.

(** The start of [Serve], up to the send on [register]: [rnd] are the bytes
    [newID] draws. *)
Definition serve (id name color : string) (rnd : list ascii) h : option Hub :=
  match beginSession id h with
  | (h, None) => Some h
  | (h, Some a) =>
      let cid := newID rnd in
      color ← defaultColor color cid;
      let '(k, h) := alloc h in
      let c := {| c_id := cid; c_name := defaultName name; c_color := color; c_board := a;
                  c_send := []; c_closed := false; c_conn := false; c_present := false |} in
      Some (emit_hub EConnOpened (set_session k {| s_board := a; s_pc := SRegister; s_pump := WNone |}
        (set_client k c h)))
  end.

(** The locked part of [h.release]: what the session does next. *)
Definition release (k : nat) (s : Session) h : Hub :=
  match h_objects h !! s_board s with
  | Some bo =>
      match h_boards h !! bo_id bo with
      | Some e =>
          if bool_decide (be_board e = s_board s) then
            if bool_decide (be_count e - 1 = 0)
            then set_session k (at_pc SCloseQuit s) (set_registry (delete (bo_id bo) (h_boards h)) h)
            else set_session k (at_pc SUnregister s)
              (set_registry (<[bo_id bo := {| be_board := be_board e; be_count := be_count e - 1 |}]> (h_boards h)) h)
          else set_session k (at_pc SEnd s) h
      | None => set_session k (at_pc SEnd s) h
      end
  | None => h
  end.

(** The locked part of [h.Shutdown]. *)
Definition beginShutdown (order : list nat) h : Hub :=
  {| h_boards := ∅; h_closing := true; h_sessions := h_sessions h; h_objects := h_objects h;
     h_clients := h_clients h; h_serve := h_serve h; h_shut := HClosing order order; h_trace := h_trace h;
     h_broker := h_broker h; h_store := h_store h; h_next := h_next h |}.

(** [h.boardClientCount]: the board answers from its loop. *)
Definition boardClientCount (id : string) h : option Z :=
  e ← h_boards h !! id; bo ← h_objects h !! be_board e;
  if bool_decide (bo_phase bo = Running) then Some (Z.of_nat (size (bo_clients bo))) else None.

(** ** A board's handlers, on the process *)

Definition board_state (bo : Board) h : state (list event) :=
  {| clients := bo_clients bo; byID := bo_byID bo; heap := h_clients h; metrics := h_trace h |}.

Definition put_board (a : nat) (bo : Board) (st : state (list event)) h : Hub :=
  {| h_boards := h_boards h; h_closing := h_closing h; h_sessions := h_sessions h;
     h_objects := <[a := {| bo_id := bo_id bo; bo_phase := bo_phase bo; bo_quit := bo_quit bo;
                            bo_clients := clients st; bo_byID := byID st |}]> (h_objects h);
     h_clients := heap st; h_serve := h_serve h; h_shut := h_shut h; h_trace := metrics st;
     h_broker := h_broker h; h_store := h_store h; h_next := h_next h |}.

(** Runs a handler of the board at [a], if its loop is running: [None] if it
    is not, [Some None] if the handler panics. *)
Definition on_board (a : nat) (f : state (list event) -> option (state (list event))) h : option (option Hub) :=
  bo ← h_objects h !! a;
  if bool_decide (bo_phase bo = Running)
  then Some ((fun st => put_board a bo st h) <$> f (board_state bo h))
  else None.

(** [b.hydrate] and [b.persistOnClose] *)
Definition hydrate_board (f1 f2 : fault) (id : string) h : Hub :=
  match h_store h with
  | None => h
  | Some st => set_services (hydrate f1 f2 id (h_broker h) st) (Some st) h
  end.

Definition persist_board (f1 f2 : fault) (id : string) h : Hub :=
  match h_store h with
  | None => h
  | Some st => let '(b, st) := save f1 f2 id (h_broker h) st in set_services b (Some st) h
  end.

(** A request of a session's program, other than a hand-over to its board. *)
Definition request_step {X} (f : fault) (r : request X) h : Hub * X :=
  let '(b, x) := perform f r (h_broker h) in
  let h := set_services b (h_store h) h in
  (match r with RMessageReceived => emit_hub EMessageReceived h | _ => h end, x).

Definition is_direct {X} (r : request X) : bool := match r with RDirect _ => true | _ => false end.

(** A session's program counter with a program still to run, and where to go
    on with the rest of it. *)
Definition running (p : pc) : option (prog * (prog -> pc)) :=
  match p with
  | SOnboard p => Some (p, SOnboard)
  | SHandle p => Some (p, SHandle)
  | SLeave p => Some (p, SLeave)
  | _ => None
  end.
End hub.
#[global] Arguments Hub : clear implicits.
