(* ===== verification/System.v ===== *)
(** The goroutines of the hub, interleaved: one step relation whose steps are
    the atomic actions of every session, board, coordinator and shutdown call,
    the invariants of its reachable states, and what follows from them. *)

From S2P Require Import Prelude Strconv Utf8 Json JsonFacts JsonLocal Protocol Broker Store Persistence Metrics Board Client Hub.
Local Open Scope Z_scope.

(** ** Steps

    [step h (Some h')] is an action that takes [h] to [h'], [step h None] one
    in which a goroutine panics.  Broker and store calls meet any fault; the
    subscription delivers any message; timeouts, read errors, write errors and
    cancelled contexts may strike whenever the code allows for them.

    The parameter says what the surroundings of the process do: anything; no
    input any more (connections, messages, deliveries, timers, calls), although
    a connection may still break and a call give up; or not even that, so that
    a read fails only on a connection the hub has closed, a write pump ends only
    when its context is cancelled or its queue closed and drained, and a
    hand-over is given up only when the board is done. *)

Inductive surroundings := Busy | Quiet | Still.

Definition inputs (e : surroundings) : bool := match e with Busy => true | _ => false end.
Definition failures (e : surroundings) : bool := match e with Still => false | _ => true end.

Section steps.
Context {B S : Type} `{Broker B} `{Store S} `{Float64}.
Abbreviation Hub := (Hub B S).

(** The hub has closed the session's connection; its queue is closed and
    drained; a board's goroutine is gone. *)
Definition conn_closed (k : nat) (h : Hub) : Prop := exists cl, h_clients h !! k = Some cl /\ c_conn cl = true.
Definition queue_ended (k : nat) (h : Hub) : Prop :=
  exists cl, h_clients h !! k = Some cl /\ c_closed cl = true /\ c_send cl = [].
Definition stopped (a : nat) (h : Hub) : Prop := exists bo, h_objects h !! a = Some bo /\ bo_phase bo = Stopped.

Inductive steps (e : surroundings) (h : Hub) : option Hub -> Prop :=
  (** Serve *)
  | step_serve id name color rnd : inputs e = true -> steps e h (serve id name color rnd h)
  | step_register k s cl bo r :
      h_serve h !! k = Some s -> s_pc s = SRegister -> h_clients h !! k = Some cl ->
      h_objects h !! s_board s = Some bo -> on_board (s_board s) (join k) h = Some r ->
      steps e h (set_session k (at_pc (SOnboard (onboard (bo_id bo) cl)) s) <$> r)
  | step_request k s X (r : request X) next back f h' x :
      h_serve h !! k = Some s -> running (s_pc s) = Some (Client.Step r next, back) -> is_direct r = false ->
      request_step f r h = (h', x) ->
      steps e h (Some (set_session k (at_pc (back (next x)) s) h'))
  (** deliverDirect: the board takes the message, or is done, or the context is *)
  | step_direct k s data next back r :
      h_serve h !! k = Some s -> running (s_pc s) = Some (Client.Step (RDirect data) next, back) ->
      on_board (s_board s) (direct k data) h = Some r ->
      steps e h (set_session k (at_pc (back (next tt)) s) <$> r)
  | step_direct_skip k s data next back :
      h_serve h !! k = Some s -> running (s_pc s) = Some (Client.Step (RDirect data) next, back) ->
      failures e = true \/ stopped (s_board s) h ->
      steps e h (Some (set_session k (at_pc (back (next tt)) s) h))
  (** the pumps *)
  | step_onboarded k s :
      h_serve h !! k = Some s -> s_pc s = SOnboard Done ->
      steps e h (Some (set_session k (at_pump WRun (at_pc SRead s)) h))
  | step_read k s cl bo data :
      h_serve h !! k = Some s -> s_pc s = SRead -> h_clients h !! k = Some cl ->
      h_objects h !! s_board s = Some bo -> inputs e = true ->
      steps e h (Some (set_session k (at_pc (SHandle (handle (bo_id bo) cl data)) s) h))
  | step_read_error k s :
      h_serve h !! k = Some s -> s_pc s = SRead -> failures e = true \/ conn_closed k h ->
      steps e h (Some (set_session k (at_pc SStop s) h))
  | step_handled k s :
      h_serve h !! k = Some s -> s_pc s = SHandle Done -> steps e h (Some (set_session k (at_pc SRead s) h))
  | step_write k s cl msg q :
      h_serve h !! k = Some s -> s_pump s = WRun -> h_clients h !! k = Some cl -> c_send cl = msg :: q ->
      steps e h (Some (set_client k (set_send q cl) h))
  | step_pump_end k s :
      h_serve h !! k = Some s -> s_pump s = WRun -> failures e = true \/ s_pc s = SWait \/ queue_ended k h ->
      steps e h (Some (set_session k (at_pump WEnd s) h))
  (** the end of Serve *)
  | step_stop k s cl :
      h_serve h !! k = Some s -> s_pc s = SStop -> h_clients h !! k = Some cl ->
      steps e h (Some (set_session k (at_pc SWait s) (set_client k (set_conn cl) h)))
  | step_wait k s cl bo :
      h_serve h !! k = Some s -> s_pc s = SWait -> s_pump s = WEnd -> h_clients h !! k = Some cl ->
      h_objects h !! s_board s = Some bo ->
      steps e h (Some (set_session k (at_pc (SLeave (leavePresence (bo_id bo) cl)) s) h))
  | step_left k s :
      h_serve h !! k = Some s -> s_pc s = SLeave Done ->
      steps e h (Some (set_session k (at_pc SRelease s) (emit_hub EConnClosed h)))
  | step_release k s :
      h_serve h !! k = Some s -> s_pc s = SRelease -> steps e h (Some (release k s h))
  | step_close_quit k s bo :
      h_serve h !! k = Some s -> s_pc s = SCloseQuit -> h_objects h !! s_board s = Some bo ->
      steps e h (Some (set_session k (at_pc SEnd s) (set_object (s_board s) (closeQuit bo) h)))
  | step_unregister k s r :
      h_serve h !! k = Some s -> s_pc s = SUnregister -> on_board (s_board s) (detach k false) h = Some r ->
      steps e h (set_session k (at_pc SEnd s) <$> r)
  | step_unregister_done k s bo :
      h_serve h !! k = Some s -> s_pc s = SUnregister -> h_objects h !! s_board s = Some bo ->
      bo_phase bo = Stopped -> steps e h (Some (set_session k (at_pc SEnd s) h))
  | step_end k s :
      h_serve h !! k = Some s -> s_pc s = SEnd ->
      steps e h (Some (add_sessions (-1) (end_session k h)))
  (** a board's goroutine *)
  | step_start a bo f1 f2 :
      h_objects h !! a = Some bo -> bo_phase bo = Starting ->
      steps e h (Some (set_object a (set_phase Running bo) (hydrate_board f1 f2 (bo_id bo) h)))
  | step_dispatch a bo order msg r :
      h_objects h !! a = Some bo -> enumerates order (board_state bo h) ->
      on_board a (dispatch order msg) h = Some r -> inputs e = true -> steps e h r
  | step_quit a bo order :
      h_objects h !! a = Some bo -> bo_phase bo = Running -> bo_quit bo = true ->
      enumerates order (board_state bo h) ->
      steps e h ((fun st => put_board a (set_phase Closing bo) st h) <$> shutdown order (board_state bo h))
  | step_persist a bo f1 f2 :
      h_objects h !! a = Some bo -> bo_phase bo = Closing ->
      steps e h (Some (emit_hub EBoardClosed (set_object a (set_phase Stopped bo) (persist_board f1 f2 (bo_id bo) h))))
  (** the coordinator: one board of [snapshotAllBoards] *)
  | step_snapshot id f1 f2 : inputs e = true -> steps e h (Some (persist_board f1 f2 id h))
  (** Shutdown *)
  | step_shutdown order :
      h_closing h = false -> order ≡ₚ (fun kv : string * boardEntry => be_board kv.2) <$> map_to_list (h_boards h) ->
      inputs e = true ->
      steps e h (Some (beginShutdown order h))
  | step_shutdown_quit a bo todo all :
      h_shut h = HClosing (a :: todo) all -> h_objects h !! a = Some bo ->
      steps e h (Some (set_shut (HClosing todo all) (set_object a (closeQuit bo) h)))
  | step_shutdown_wait all :
      h_shut h = HClosing [] all -> steps e h (Some (set_shut (HWaitBoards all all) h))
  | step_shutdown_board a bo todo all :
      h_shut h = HWaitBoards (a :: todo) all -> h_objects h !! a = Some bo -> bo_phase bo = Stopped ->
      steps e h (Some (set_shut (HWaitBoards todo all) h))
  | step_shutdown_boards all :
      h_shut h = HWaitBoards [] all -> steps e h (Some (set_shut (HWaitSessions all) h))
  | step_shutdown_sessions all :
      h_shut h = HWaitSessions all -> h_sessions h = 0 -> steps e h (Some (set_shut (HReturned true all) h))
  | step_shutdown_timeout all :
      (exists todo, h_shut h = HWaitBoards todo all) \/ h_shut h = HWaitSessions all ->
      inputs e = true -> steps e h (Some (set_shut (HReturned false all) h)).

Abbreviation step := (steps Busy).

(** Quieter surroundings allow fewer steps. *)
Lemma steps_mono e1 e2 h o : (inputs e1 = true -> inputs e2 = true) ->
  (failures e1 = true -> failures e2 = true) -> steps e1 h o -> steps e2 h o.
Proof using Type.
  intros Hi Hf.
  assert (forall P : Prop, failures e1 = true \/ P -> failures e2 = true \/ P) as Hg by (intros P [?|?]; auto).
  destruct 1;
    [eapply step_serve|eapply step_register|eapply step_request|eapply step_direct|
     eapply step_direct_skip|eapply step_onboarded|eapply step_read|eapply step_read_error|
     eapply step_handled|eapply step_write|eapply step_pump_end|eapply step_stop|eapply step_wait|
     eapply step_left|eapply step_release|eapply step_close_quit|eapply step_unregister|
     eapply step_unregister_done|eapply step_end|eapply step_start|eapply step_dispatch|eapply step_quit|
     eapply step_persist|eapply step_snapshot|eapply step_shutdown|eapply step_shutdown_quit|
     eapply step_shutdown_wait|eapply step_shutdown_board|eapply step_shutdown_boards|
     eapply step_shutdown_sessions|eapply step_shutdown_timeout]; eauto.
Qed.

(** Some step of the process leads from [h] to [h']. *)
Definition goes (h h' : Hub) : Prop := step h (Some h').

(** The states the process can reach from [New]. *)
Inductive reachable (b : B) (st : option S) : Hub -> Prop :=
  | reachable_new : reachable b st (New b st)
  | reachable_step h h' : reachable b st h -> step h (Some h') -> reachable b st h'.
End steps.
Notation step := (steps Busy).
#[global] Arguments step_register {_ _ _ _ _ e} _.
#[global] Arguments step_unregister {_ _ _ _ _ e} _.
#[global] Arguments step_unregister_done {_ _ _ _ _ e} _.
#[global] Arguments step_snapshot {_ _ _ _ _ e} _.

(** ** The invariant *)

(** The sessions counted by a board's entry: admitted, not yet released. *)
Definition holding (p : pc) : bool :=
  match p with SCloseQuit | SUnregister | SEnd => false | _ => true end.

(** The sessions between ConnOpened and ConnClosed. *)
Definition connected (p : pc) : bool :=
  match p with SRelease | SCloseQuit | SUnregister | SEnd => false | _ => true end.

Definition holds (a : nat) (s : Session) : bool := bool_decide (s_board s = a) && holding (s_pc s).

Definition alive (bo : Board) : bool := bool_decide (bo_phase bo <> Stopped).

Section invariant.
Context {B S : Type} {BR : Broker B} {ST : Store S} {F : Float64}.
Abbreviation Hub := (Hub B S).
Implicit Types h : Hub.

Record Inv h : Prop := {
  (** addresses in use have been allocated *)
  i_fresh : forall k, (h_next h <= k)%nat ->
    h_objects h !! k = None /\ h_clients h !! k = None /\ h_serve h !! k = None;
  i_born : forall k cl, h_clients h !! k = Some cl -> (c_board cl < h_next h)%nat;
  (** every board's client set is consistent, and empty outside its loop *)
  i_board : forall a bo, h_objects h !! a = Some bo ->
    board_inv a (board_state bo h) /\ (bo_phase bo <> Running -> bo_clients bo = ∅);
  (** every session has its client and its board; one that is about to
      register has not been seen by the board *)
  i_session : forall k s, h_serve h !! k = Some s ->
    is_Some (h_objects h !! s_board s) /\
    exists cl, h_clients h !! k = Some cl /\ c_board cl = s_board s /\
      (s_pc s = SRegister -> c_present cl = false /\ c_closed cl = false);
  (** a registered board is open, and its entry counts its sessions *)
  i_entry : forall id e, h_boards h !! id = Some e -> exists bo,
    h_objects h !! be_board e = Some bo /\ bo_id bo = id /\ bo_quit bo = false /\
    be_count e = mcount (holds (be_board e)) (h_serve h);
  (** until Shutdown, a session's board is registered as long as it holds it *)
  i_held : h_closing h = false -> forall k s, h_serve h !! k = Some s -> holding (s_pc s) = true ->
    exists bo e, h_objects h !! s_board s = Some bo /\ h_boards h !! bo_id bo = Some e /\
      be_board e = s_board s;
  i_closing : h_closing h = true -> h_boards h = ∅;
  i_shut : h_closing h = false -> h_shut h = HNone;
  (** only a board told to quit leaves its loop *)
  i_phase : forall a bo, h_objects h !! a = Some bo -> bo_phase bo = Closing \/ bo_phase bo = Stopped ->
    bo_quit bo = true;
  (** an open board that nobody can find is about to be told to quit *)
  i_quit : forall a bo, h_objects h !! a = Some bo -> bo_quit bo = false ->
    (exists e, h_boards h !! bo_id bo = Some e /\ be_board e = a) \/
    (exists k s, h_serve h !! k = Some s /\ s_board s = a /\ s_pc s = SCloseQuit) \/
    (exists todo all, h_shut h = HClosing todo all /\ a ∈ todo);
  (** and is out of the registry by then *)
  i_orphan : forall k s, h_serve h !! k = Some s -> s_pc s = SCloseQuit ->
    forall id e, h_boards h !! id = Some e -> be_board e <> s_board s;
  (** the counters *)
  i_sessions : h_sessions h = mcount (fun _ => true) (h_serve h);
  i_conns : total event_conns (h_trace h) = mcount (fun s => connected (s_pc s)) (h_serve h);
  i_boards : total event_boards (h_trace h) = mcount alive (h_objects h);
}.

Lemma Inv_new b st : Inv (New b st).
Proof using Type.
  split; simpl; try done; try (intros ? ?; by rewrite lookup_empty).
  all: by rewrite ?mcount_empty.
Qed.

(** ** Frames: updates the invariant does not see *)

Lemma Inv_services b st h : Inv h -> Inv (set_services b st h).
Proof using Type. intros []. by split. Qed.

Lemma hydrate_board_services f1 f2 id h : exists b st, hydrate_board f1 f2 id h = set_services b st h.
Proof using Type.
  unfold hydrate_board. destruct (h_store h) as [st|] eqn:E; [by eexists _, _|].
  exists (h_broker h), None. destruct h; simpl in *. by subst.
Qed.

Lemma persist_board_services f1 f2 id h : exists b st, persist_board f1 f2 id h = set_services b st h.
Proof using Type.
  unfold persist_board. destruct (h_store h) as [st|] eqn:E.
  - destruct (save f1 f2 id (h_broker h) st) as [b st']. by eexists _, _.
  - exists (h_broker h), None. destruct h; simpl in *. by subst.
Qed.

(** A session moves on, with the same standing as before. *)
Lemma Inv_session k s s' h : Inv h -> h_serve h !! k = Some s -> s_board s' = s_board s ->
  holding (s_pc s') = holding (s_pc s) -> connected (s_pc s') = connected (s_pc s) ->
  (s_pc s' = SRegister -> s_pc s = SRegister) -> (s_pc s = SCloseQuit <-> s_pc s' = SCloseQuit) ->
  Inv (set_session k s' h).
Proof using Type.
  intros [] Hs Eb Eh Ec Er Eq.
  assert (forall a, mcount (holds a) (<[k := s']> (h_serve h)) = mcount (holds a) (h_serve h)) as Hc.
  { intros a. rewrite (mcount_insert _ k s) by done. unfold holds. rewrite Eb, Eh. lia. }
  split; simpl; try done.
  - intros k' Hk'. destruct (i_fresh0 k' Hk') as (? & ? & Hn). split_and!; [done..|].
    rewrite lookup_insert_ne; [done|]. intros ->. congruence.
  - intros k' s1. rewrite lookup_insert. case_decide as E; [|apply i_session0].
    intros [= <-]. subst k'. destruct (i_session0 k s Hs) as (H1 & cl & H2 & H3 & H4). rewrite Eb.
    split; [done|]. exists cl. split_and!; auto.
  - intros id e He. destruct (i_entry0 id e He) as (bo & ? & ? & ? & ?). exists bo. rewrite Hc. by split_and!.
  - intros Hcl k' s1. rewrite lookup_insert. case_decide as E; [|by apply i_held0].
    intros [= <-]. rewrite Eh, Eb. intros Hh. by apply (i_held0 Hcl k s).
  - intros a bo Ha Hq. destruct (i_quit0 a bo Ha Hq) as [?|[(k' & s1 & H1 & H2 & H3)|?]]; [by left| |by right; right].
    right; left. destruct (decide (k' = k)) as [->|Hne].
    + exists k, s'. rewrite lookup_insert_eq. rewrite Hs in H1. injection H1 as <-. rewrite Eb. split_and!; [done..|by apply Eq].
    + exists k', s1. by rewrite lookup_insert_ne.
  - intros k' s1. rewrite lookup_insert. case_decide as E; [|apply i_orphan0].
    intros [= <-] Hpc. rewrite Eb. apply (i_orphan0 k s Hs). by apply Eq.
  - by rewrite (mcount_insert _ k s), i_sessions0 by done; lia.
  - rewrite (mcount_insert _ k s) by done. rewrite Ec, i_conns0. lia.
Qed.

(** A client's queue is drained, or its connection closed. *)
Lemma Inv_client k cl cl' h : Inv h -> h_clients h !! k = Some cl ->
  same_client cl cl' -> c_present cl' = c_present cl -> c_closed cl' = c_closed cl ->
  Inv (set_client k cl' h).
Proof using Type.
  intros [] Hk (E1 & _ & _ & E2) Ep Ec. split; simpl; try done.
  - intros k' Hk'. destruct (i_fresh0 k' Hk') as (? & Hn & ?). split_and!; [done| |done].
    rewrite lookup_insert_ne; [done|]. intros ->. congruence.
  - intros k' cl0. rewrite lookup_insert. case_decide as E; [|apply i_born0].
    intros [= <-]. rewrite E2. by apply (i_born0 k).
  - intros a bo Ha. destruct (i_board0 a bo Ha) as [[H1 H2 H3] He]. split; [|done]. split; simpl in *.
    + intros c Hc. destruct (H1 c Hc) as (cl0 & Hcl0 & Hb & Hp & Ho). rewrite lookup_insert.
      case_decide as E; [subst c|by eauto 6]. rewrite Hk in Hcl0. injection Hcl0 as <-.
      exists cl'. split_and!; congruence.
    + intros c cl0. rewrite lookup_insert. case_decide as E; [|by apply H2].
      intros [= <-] Hb Hc. subst c. rewrite Ep. apply (H2 k cl); congruence.
    + intros id c Hid. destruct (H3 id c Hid) as [Hin (cl0 & Hcl0 & Eid)]. split; [done|].
      rewrite lookup_insert. case_decide as E; [subst c|by eauto]. exists cl'. split; congruence.
  - intros k' s Hs. destruct (i_session0 k' s Hs) as (H1 & cl0 & H2 & H3 & H4). split; [done|].
    rewrite lookup_insert. case_decide as E; [subst k'|by eauto].
    exists cl'. rewrite Hk in H2. injection H2 as <-. rewrite Ep, Ec. split_and!; [done|congruence|done].
Qed.

(** An event that is neither of a connection nor of a board. *)
Lemma Inv_emit e h : Inv h -> event_conns e = 0 -> event_boards e = 0 -> Inv (emit_hub e h).
Proof using Type.
  intros [] E1 E2. assert (emit e (h_trace h) = h_trace h ++ [e]) as Ee by (by destruct e).
  unfold emit_hub. rewrite Ee. split; simpl; try done; rewrite ?total_app; simpl.
  - intros a bo Ha. destruct (i_board0 a bo Ha) as [[] He]. split; [by split|done].
  - rewrite i_conns0. lia.
  - rewrite i_boards0. lia.
Qed.

Lemma emit_all_trace l (t : list event) : emit_all l t = t ++ l.
Proof using Type.
  revert t. induction l as [|e l IH]; intros t; [by rewrite app_nil_r|].
  unfold emit_all. simpl. fold (emit_all l (emit e t)). rewrite IH. by destruct e; simpl; rewrite <-app_assoc.
Qed.

Lemma total_delivery l : Forall delivery_event l -> total event_conns l = 0 /\ total event_boards l = 0.
Proof using Type. induction 1 as [|e l He _ [IH1 IH2]]; [done|]. destruct e; simpl in *; try done; lia. Qed.

(** A board's handler leaves the other boards' clients alone. *)
Lemma board_inv_other {M} a a' (st st2 st3 : state M) (hp : gmap nat Client) : a' <> a ->
  (exists X, touches X (heap st) hp /\ forall c, c ∈ X -> exists cl, heap st !! c = Some cl /\ c_board cl = a) -> board_inv a' st2 -> heap st2 = heap st ->
  clients st3 = clients st2 -> byID st3 = byID st2 -> heap st3 = hp -> board_inv a' st3.
Proof using Type.
  intros Hne (X & Ht & HX) [H1 H2 H3] Eh E1 E2 E3. rewrite <-Eh in *.
  assert (forall c cl, heap st2 !! c = Some cl -> c_board cl = a' -> hp !! c = Some cl) as Hsame.
  { intros c cl Hc Hb. specialize (Ht c). rewrite Hc in Ht. destruct (hp !! c) as [cl'|]; [|done].
    destruct Ht as [_ Ht]. rewrite Ht; [done|]. intros Hin. destruct (HX c Hin) as (cl0 & Hc0 & Hb0). congruence. }
  assert (forall c cl', hp !! c = Some cl' -> exists cl, heap st2 !! c = Some cl /\ c_board cl = c_board cl') as Hback.
  { intros c cl' Hc. specialize (Ht c). rewrite Hc in Ht. destruct (heap st2 !! c) as [cl|]; [|done].
    destruct Ht as [(_ & _ & _ & E) _]. eauto. }
  split; rewrite ?E1, ?E2, ?E3.
  - intros c Hc. destruct (H1 c Hc) as (cl & Hcl & Hb & ?). exists cl. split; [by apply Hsame|done].
  - intros c cl' Hc Hb Hn. destruct (Hback c cl' Hc) as (cl & Hcl & Eb). rewrite Hb in Eb.
    pose proof (Hsame c cl Hcl Eb) as E. rewrite Hc in E. injection E as ->. by apply (H2 c).
  - intros id c Hid. destruct (H3 id c Hid) as [Hin (cl & Hcl & Eid)]. split; [done|]. exists cl. split; [|done].
    apply Hsame; [done|]. destruct (H1 c Hin) as (cl0 & Hcl0 & Hb & _). congruence.
Qed.

(** The effect of a handler of the board at [a]. *)
Record board_step (a : nat) (bo bo' : Board) (st' : state (list event)) h : Prop := {
  bs_id : bo_id bo' = bo_id bo;
  bs_quit : bo_quit bo' = bo_quit bo;
  bs_phase : bo_phase bo' = bo_phase bo \/ bo_phase bo = Running /\ bo_phase bo' = Closing /\ bo_quit bo = true;
  bs_inv : board_inv a st';
  bs_empty : bo_phase bo' <> Running -> clients st' = ∅;
  bs_heap : exists X, touches X (h_clients h) (heap st') /\ forall c, c ∈ X ->
    (exists cl, h_clients h !! c = Some cl /\ c_board cl = a) /\
    (forall s, h_serve h !! c = Some s -> s_pc s <> SRegister);
  bs_events : exists l, Forall delivery_event l /\ metrics st' = h_trace h ++ l;
}.

Lemma alive_step a bo bo' st' h : board_step a bo bo' st' h -> alive bo' = alive bo.
Proof using Type.
  intros []. unfold alive. destruct bs_phase0 as [->|(-> & -> & _)]; done.
Qed.

Lemma Inv_board a bo bo' st' h : Inv h -> h_objects h !! a = Some bo -> board_step a bo bo' st' h ->
  Inv (put_board a bo' st' h).
Proof using Type.
  intros Hinv Ha Hst. pose proof (alive_step _ _ _ _ _ Hst) as Hal. destruct Hst, Hinv.
  destruct bs_events0 as (l & Hl & Em). destruct (total_delivery l Hl) as [Ec Eb].
  destruct bs_heap0 as (X & Ht & HX).
  set (new := {| bo_id := bo_id bo'; bo_phase := bo_phase bo'; bo_quit := bo_quit bo';
                 bo_clients := clients st'; bo_byID := byID st' |}).
  assert (alive new = alive bo) as Ealive by done.
  pose proof (i_board0 a bo Ha) as [Hi _].
  split; simpl; fold new; try done.
  - intros k Hk. destruct (i_fresh0 k Hk) as (H1 & H2 & H3). split_and!; [|specialize (Ht k)|done].
    + rewrite lookup_insert_ne; [done|]. intros ->. congruence.
    + rewrite H2 in Ht. by destruct (heap st' !! k).
  - intros k cl' Hcl'. specialize (Ht k). rewrite Hcl' in Ht. destruct (h_clients h !! k) as [cl|] eqn:Ek; [|done].
    destruct Ht as [(_ & _ & _ & ->) _]. by apply (i_born0 k).
  - intros a' bo2. rewrite lookup_insert. case_decide as E.
    + intros [= <-]. subst a'. split; [|done]. destruct bs_inv0. by split.
    + intros Ha'. destruct (i_board0 a' bo2 Ha') as [Hi' He']. split; [|done].
      apply (board_inv_other a a' (board_state bo h) (board_state bo2 h) _ (heap st')); try done.
      exists X. split; [done|]. intros c Hc. by apply HX.
  - intros k s Hs. destruct (i_session0 k s Hs) as (H1 & cl & H2 & H3 & H4). split.
    + rewrite lookup_insert. by case_decide.
    + specialize (Ht k). rewrite H2 in Ht. destruct (heap st' !! k) as [cl'|]; [|done].
      destruct Ht as [(_ & _ & _ & Eb') Hn]. exists cl'. split_and!; [done|congruence|].
      intros Hr. destruct (H4 Hr) as [Hp Ho]. rewrite Hn; [done|]. intros Hin.
      by apply (proj2 (HX k Hin) s).
  - intros id e He. destruct (i_entry0 id e He) as (bo2 & H1 & H2 & H3 & H4).
    rewrite lookup_insert. case_decide as E; [|by exists bo2]. exists new. rewrite <-E, Ha in H1. injection H1 as <-.
    split_and!; [done|simpl; congruence|simpl; congruence|done].
  - intros Hcl k s Hs Hh. destruct (i_held0 Hcl k s Hs Hh) as (bo2 & e & H1 & H2 & H3).
    rewrite lookup_insert. case_decide as E; [|by exists bo2, e]. exists new, e. rewrite <-E, Ha in H1.
    injection H1 as <-. split_and!; [done|simpl; by rewrite bs_id0|done].
  - intros a' bo2. rewrite lookup_insert. case_decide as E; [|apply i_phase0].
    intros [= <-]. simpl. rewrite bs_quit0. destruct bs_phase0 as [->|(_ & _ & ->)]; [by apply (i_phase0 a)|done].
  - intros a' bo2. rewrite lookup_insert. case_decide as E; [|apply i_quit0].
    intros [= <-]. simpl. rewrite bs_quit0, bs_id0. subst a'. by apply i_quit0.
  - rewrite Em, total_app, Ec, i_conns0. lia.
  - rewrite Em, total_app, Eb, i_boards0, (mcount_insert _ a bo) by done. rewrite Ealive. lia.
Qed.

Lemma members_board a bo h : Inv h -> h_objects h !! a = Some bo -> forall c, c ∈ bo_clients bo ->
  (exists cl, h_clients h !! c = Some cl /\ c_board cl = a) /\
  (forall s, h_serve h !! c = Some s -> s_pc s <> SRegister).
Proof using Type.
  intros Hi Ha c Hc. destruct (i_board h Hi a bo Ha) as [Hb _].
  destruct (bi_in a _ Hb c Hc) as (cl & Hcl & Hbd & Hp & _). split; [by exists cl|].
  intros s Hs E. destruct (i_session h Hi c s Hs) as (_ & cl' & Hcl' & _ & H'). destruct (H' E). simpl in Hcl. congruence.
Qed.

Lemma relays_step a bo st' h : Inv h -> h_objects h !! a = Some bo -> bo_phase bo = Running ->
  relays a (board_state bo h) st' -> board_step a bo bo st' h.
Proof using Type.
  intros Hi Ha Hp [H1 H2 H3 (l & Hl & Em)]. split; try done; [by left| |].
  { exists (bo_clients bo). split; [done|]. by apply members_board. }
  exists l. split; [done|]. rewrite Em. apply emit_all_trace.
Qed.

Lemma on_board_inv a f h r : on_board a f h = Some r -> exists bo,
  h_objects h !! a = Some bo /\ bo_phase bo = Running /\
  r = (fun st => put_board a bo st h) <$> f (board_state bo h).
Proof using Type.
  unfold on_board. intros (bo & Ha & E)%bind_Some. case_bool_decide; [|done]. injection E as <-. eauto.
Qed.
End invariant.

(** ** Preservation *)

Section preservation.
Context {B S : Type} {BR : Broker B} {ST : Store S} {F : Float64}.
Abbreviation Hub := (Hub B S).
Implicit Types h : Hub.

(** Solves the standing conditions of [Inv_session]. *)
Ltac standing E := rewrite E; simpl; (done || by split).

Lemma Inv_start a bo b st h : Inv h -> h_objects h !! a = Some bo -> bo_phase bo = Starting ->
  Inv (set_object a (set_phase Running bo) (set_services b st h)).
Proof using Type.
  intros [] Ha Hp. split; simpl; try done.
  - intros k Hk. destruct (i_fresh0 k Hk) as (? & ? & ?). split_and!; [|done..].
    rewrite lookup_insert_ne; [done|]. intros ->. congruence.
  - intros a' bo'. rewrite lookup_insert. case_decide as E; [|apply i_board0].
    intros [= <-]. subst a'. destruct (i_board0 a bo Ha) as [[] _]. split; [by split|done].
  - intros k s Hs. destruct (i_session0 k s Hs) as [? ?]. split; [|done]. rewrite lookup_insert. by case_decide.
  - intros id e He. destruct (i_entry0 id e He) as (bo2 & H1 & H2). rewrite lookup_insert.
    case_decide as E; [|by exists bo2]. rewrite <-E, Ha in H1. injection H1 as <-. by exists (set_phase Running bo).
  - intros Hcl k s Hs Hh. destruct (i_held0 Hcl k s Hs Hh) as (bo2 & e & H1 & H2). rewrite lookup_insert.
    case_decide as E; [|by exists bo2, e]. rewrite <-E, Ha in H1. injection H1 as <-. by exists (set_phase Running bo), e.
  - intros a' bo'. rewrite lookup_insert. case_decide; [intros [= <-]; by intros [|]|apply i_phase0].
  - intros a' bo'. rewrite lookup_insert. case_decide as E; [|apply i_quit0].
    intros [= <-]. subst a'. simpl. apply (i_quit0 a bo Ha).
  - rewrite (mcount_insert _ a bo), i_boards0 by done. unfold alive. simpl. rewrite Hp. simpl. lia.
Qed.

(** A board that is not registered is told to quit. *)
Lemma Inv_closeQuit a bo h : Inv h -> h_objects h !! a = Some bo ->
  (forall id e, h_boards h !! id = Some e -> be_board e <> a) -> Inv (set_object a (closeQuit bo) h).
Proof using Type.
  intros [] Ha Hn. split; simpl; try done.
  - intros k Hk. destruct (i_fresh0 k Hk) as (? & ? & ?). split_and!; [|done..].
    rewrite lookup_insert_ne; [done|]. intros ->. congruence.
  - intros a' bo'. rewrite lookup_insert. case_decide as E; [|apply i_board0].
    intros [= <-]. subst a'. apply (i_board0 a bo Ha).
  - intros k s Hs. destruct (i_session0 k s Hs) as [? ?]. split; [|done]. rewrite lookup_insert. by case_decide.
  - intros id e He. destruct (i_entry0 id e He) as (bo2 & H1 & H2). rewrite lookup_insert_ne; [by exists bo2|].
    intros E. by apply (Hn id e).
  - intros Hcl k s Hs Hh. destruct (i_held0 Hcl k s Hs Hh) as (bo2 & e & H1 & H2 & H3). exists bo2, e.
    rewrite lookup_insert_ne; [done|]. intros E. apply (Hn _ e H2). congruence.
  - intros a' bo'. rewrite lookup_insert. case_decide; [by intros [= <-]|apply i_phase0].
  - intros a' bo'. rewrite lookup_insert. case_decide; [by intros [= <-]|apply i_quit0].
  - by rewrite (mcount_insert _ a bo), i_boards0 by done; unfold alive; simpl; lia.
Qed.

Lemma Inv_persist a bo b st h : Inv h -> h_objects h !! a = Some bo -> bo_phase bo = Closing ->
  Inv (emit_hub EBoardClosed (set_object a (set_phase Stopped bo) (set_services b st h))).
Proof using Type.
  intros [] Ha Hp. pose proof (i_phase0 a bo Ha (or_introl Hp)) as Hq. split; simpl; try done.
  - intros k Hk. destruct (i_fresh0 k Hk) as (? & ? & ?). split_and!; [|done..].
    rewrite lookup_insert_ne; [done|]. intros ->. congruence.
  - intros a' bo'. rewrite lookup_insert. case_decide as E.
    + intros [= <-]. subst a'. destruct (i_board0 a bo Ha) as [[] He]. split; [by split|].
      intros _. apply He. by rewrite Hp.
    + intros Ha'. destruct (i_board0 a' bo' Ha') as [[] He]. by split; [split|].
  - intros k s Hs. destruct (i_session0 k s Hs) as [? ?]. split; [|done]. rewrite lookup_insert. by case_decide.
  - intros id e He. destruct (i_entry0 id e He) as (bo2 & H1 & H2 & H3 & H4). rewrite lookup_insert.
    case_decide as E; [|by exists bo2]. rewrite <-E, Ha in H1. congruence.
  - intros Hcl k s Hs Hh. destruct (i_held0 Hcl k s Hs Hh) as (bo2 & e & H1 & H2 & H3). rewrite lookup_insert.
    case_decide as E; [|by exists bo2, e]. destruct (i_entry0 _ e H2) as (bo3 & H4 & _ & H5 & _).
    rewrite H3, <-E, Ha in H4. congruence.
  - intros a' bo'. rewrite lookup_insert. case_decide; [by intros [= <-]|apply i_phase0].
  - intros a' bo'. rewrite lookup_insert. case_decide as E; [|apply i_quit0].
    intros [= <-]. simpl. congruence.
  - rewrite total_app. simpl. rewrite i_conns0. lia.
  - rewrite total_app. simpl. rewrite (mcount_insert _ a bo), i_boards0 by done. unfold alive. simpl.
    rewrite Hp. simpl. lia.
Qed.

Lemma Inv_set_shut p h : Inv h -> h_closing h = true ->
  (forall todo all a bo, h_shut h = HClosing todo all -> a ∈ todo -> h_objects h !! a = Some bo ->
     bo_quit bo = false -> exists todo' all', p = HClosing todo' all' /\ a ∈ todo') ->
  Inv (set_shut p h).
Proof using Type.
  intros [] Hc Hp. split; simpl; try done; [intros E; congruence|].
  intros a bo Ha Hq. destruct (i_quit0 a bo Ha Hq) as [?|[?|(todo & all & E & Hin)]]; [by left|by right; left|].
  right; right. by apply (Hp todo all a bo).
Qed.

Lemma Inv_beginShutdown order h : Inv h -> h_closing h = false ->
  order ≡ₚ (fun kv : string * boardEntry => be_board kv.2) <$> map_to_list (h_boards h) ->
  Inv (beginShutdown order h).
Proof using Type.
  intros [] Hc Ho. split; simpl; try done.
  - intros a bo Ha Hq. destruct (i_quit0 a bo Ha Hq) as [(e & He & Ea)|[?|(todo & all & E & _)]].
    + right; right. exists order, order. split; [done|]. rewrite Ho, list_elem_of_fmap.
      exists (bo_id bo, e). split; [done|]. by apply elem_of_map_to_list.
    + by right; left.
    + rewrite (i_shut0 Hc) in E. done.
Qed.

(** A session whose standing changes, its board being released, or closed. *)
Lemma Inv_left k s h : Inv h -> h_serve h !! k = Some s -> s_pc s = SLeave Done ->
  Inv (set_session k (at_pc SRelease s) (emit_hub EConnClosed h)).
Proof using Type.
  intros [] Hs Hp.
  assert (forall a, mcount (holds a) (<[k := at_pc SRelease s]> (h_serve h)) = mcount (holds a) (h_serve h)) as Hc.
  { intros a. rewrite (mcount_insert _ k s) by done. unfold holds. simpl. rewrite Hp. simpl. lia. }
  split; simpl; try done.
  - intros k' Hk'. destruct (i_fresh0 k' Hk') as (? & ? & ?). split_and!; [done..|].
    rewrite lookup_insert_ne; [done|]. intros ->. congruence.
  - intros a bo Ha. destruct (i_board0 a bo Ha) as [[] He]. by split; [split|].
  - intros k' s1. rewrite lookup_insert. case_decide as E; [|apply i_session0].
    intros [= <-]. subst k'. destruct (i_session0 k s Hs) as (H1 & cl & H2 & H3 & _). split; [done|]. by exists cl.
  - intros id e He. destruct (i_entry0 id e He) as (bo & ? & ? & ? & ?). exists bo. rewrite Hc. by split_and!.
  - intros Hcl k' s1. rewrite lookup_insert. case_decide as E; [|by apply i_held0].
    intros [= <-] _. apply (i_held0 Hcl k s Hs). by rewrite Hp.
  - intros a bo Ha Hq. destruct (i_quit0 a bo Ha Hq) as [?|[(k' & s1 & H1 & H2 & H3)|?]]; [by left| |by right; right].
    right; left. exists k', s1. rewrite lookup_insert_ne; [done|]. intros <-. congruence.
  - intros k' s1. rewrite lookup_insert. case_decide as E; [by intros [= <-]|apply i_orphan0].
  - by rewrite (mcount_insert _ k s), i_sessions0 by done; lia.
  - rewrite total_app, (mcount_insert _ k s) by done. simpl. rewrite Hp, i_conns0. simpl. lia.
  - rewrite total_app. simpl. rewrite i_boards0. lia.
Qed.

Lemma Inv_end k s h : Inv h -> h_serve h !! k = Some s -> s_pc s = SEnd ->
  Inv (add_sessions (-1) (end_session k h)).
Proof using Type.
  intros [] Hs Hp.
  assert (forall a, mcount (holds a) (delete k (h_serve h)) = mcount (holds a) (h_serve h)) as Hc.
  { intros a. rewrite (mcount_delete _ k s) by done. unfold holds. rewrite Hp, andb_false_r. simpl. lia. }
  split; simpl; try done.
  - intros k' Hk'. destruct (i_fresh0 k' Hk') as (? & ? & Hn). split_and!; [done..|].
    by rewrite lookup_delete_None; right.
  - intros k' s1 [_ Hs1]%lookup_delete_Some. by apply i_session0.
  - intros id e He. destruct (i_entry0 id e He) as (bo & ? & ? & ? & ?). exists bo. rewrite Hc. by split_and!.
  - intros Hcl k' s1 [_ Hs1]%lookup_delete_Some. by apply (i_held0 Hcl k').
  - intros a bo Ha Hq. destruct (i_quit0 a bo Ha Hq) as [?|[(k' & s1 & H1 & H2 & H3)|?]]; [by left| |by right; right].
    right; left. exists k', s1. rewrite lookup_delete_ne; [done|]. intros <-. congruence.
  - intros k' s1 [_ Hs1]%lookup_delete_Some. by apply (i_orphan0 k').
  - rewrite (mcount_delete _ k s), i_sessions0 by done. simpl. lia.
  - rewrite (mcount_delete _ k s) by done. rewrite Hp, i_conns0. simpl. lia.
Qed.

(** Closing quit, last of all. *)
Lemma Inv_close_quit k s bo h : Inv h -> h_serve h !! k = Some s -> s_pc s = SCloseQuit ->
  h_objects h !! s_board s = Some bo ->
  Inv (set_session k (at_pc SEnd s) (set_object (s_board s) (closeQuit bo) h)).
Proof using Type.
  intros Hi Hs Hp Ha. pose proof (i_orphan h Hi k s Hs Hp) as Hn.
  pose proof (Inv_closeQuit (s_board s) bo h Hi Ha Hn) as Hi'. destruct Hi'. simpl in *.
  assert (forall a, mcount (holds a) (<[k := at_pc SEnd s]> (h_serve h)) = mcount (holds a) (h_serve h)) as Hc.
  { intros a. rewrite (mcount_insert _ k s) by done. unfold holds. simpl. rewrite Hp, !andb_false_r. simpl. lia. }
  split; simpl; try done.
  - intros k' Hk'. destruct (i_fresh0 k' Hk') as (? & ? & ?). split_and!; [done..|].
    rewrite lookup_insert_ne; [done|]. intros ->. congruence.
  - intros k' s1. rewrite lookup_insert. case_decide as E; [|apply i_session0].
    intros [= <-]. subst k'. destruct (i_session0 k s Hs) as (H1 & cl & H2 & H3 & _). split; [done|]. by exists cl.
  - intros id e He. destruct (i_entry0 id e He) as (bo' & ? & ? & ? & ?). exists bo'. rewrite Hc. by split_and!.
  - intros Hcl k' s1. rewrite lookup_insert. case_decide as E; [|by apply i_held0]. by intros [= <-].
  - intros a bo' Ha' Hq. destruct (i_quit0 a bo' Ha' Hq) as [?|[(k' & s1 & H1 & H2 & H3)|?]]; [by left| |by right; right].
    right; left. exists k', s1. rewrite lookup_insert_ne; [done|]. intros <-.
    rewrite Hs in H1. injection H1 as <-. subst a. rewrite lookup_insert_eq in Ha'. injection Ha' as <-. done.
  - intros k' s1. rewrite lookup_insert. case_decide as E; [by intros [= <-]|apply i_orphan0].
  - by rewrite (mcount_insert _ k s), i_sessions0 by done; lia.
  - rewrite (mcount_insert _ k s) by done. simpl. rewrite Hp, i_conns0. simpl. lia.
Qed.

(** The locked part of [release], in its three cases: the board is not the
    registered one, it is and the session is the last, it is and others stay. *)
Section release.
Context (h : Hub) (k : nat) (s : Session) (bo : Board).
Context (Hi : Inv h) (Hs : h_serve h !! k = Some s) (Hp : s_pc s = SRelease).
Context (Ha : h_objects h !! s_board s = Some bo).

Lemma release_count p a : holding p = false ->
  mcount (holds a) (<[k := at_pc p s]> (h_serve h)) =
  mcount (holds a) (h_serve h) - b2z (bool_decide (s_board s = a)).
Proof using Hs Hp.
  intros Hh. rewrite (mcount_insert _ k s) by done. unfold holds. simpl.
  rewrite Hp, Hh, andb_false_r, andb_true_r. simpl. lia.
Qed.

Lemma release_sessions p : p <> SRegister ->
  forall k' s', <[k := at_pc p s]> (h_serve h) !! k' = Some s' ->
  is_Some (h_objects h !! s_board s') /\
  exists cl, h_clients h !! k' = Some cl /\ c_board cl = s_board s' /\
    (s_pc s' = SRegister -> c_present cl = false /\ c_closed cl = false).
Proof using Hi Hs.
  intros Hr k' s'. rewrite lookup_insert. case_decide as E; [|apply (i_session h Hi)].
  intros [= <-]. subst k'. destruct (i_session h Hi k s Hs) as (H1 & cl & H2 & H3 & _).
  split; [done|]. by exists cl.
Qed.

Lemma release_fresh p k' : (h_next h <= k')%nat ->
  h_objects h !! k' = None /\ h_clients h !! k' = None /\ <[k := at_pc p s]> (h_serve h) !! k' = None.
Proof using Hi Hs.
  intros Hk'. destruct (i_fresh h Hi k' Hk') as (? & ? & ?). split_and!; [done..|].
  rewrite lookup_insert_ne; [done|]. intros ->. congruence.
Qed.

Lemma release_counters p : connected p = false ->
  h_sessions h = mcount (fun _ => true) (<[k := at_pc p s]> (h_serve h)) /\
  total event_conns (h_trace h) = mcount (fun s => connected (s_pc s)) (<[k := at_pc p s]> (h_serve h)).
Proof using Hi Hs Hp.
  intros Hc. rewrite !(mcount_insert _ k s) by done. simpl. rewrite Hp, Hc, (i_conns h Hi), (i_sessions h Hi).
  simpl. lia.
Qed.

(** A session at [SCloseQuit] is another one, and stays where it is. *)
Lemma release_pending p a : 
  (exists k' s', h_serve h !! k' = Some s' /\ s_board s' = a /\ s_pc s' = SCloseQuit) ->
  exists k' s', <[k := at_pc p s]> (h_serve h) !! k' = Some s' /\ s_board s' = a /\ s_pc s' = SCloseQuit.
Proof using Hs Hp.
  intros (k' & s' & H1 & H2 & H3). exists k', s'. rewrite lookup_insert_ne; [done|]. intros <-. congruence.
Qed.

(** The entries of other identifiers are for other boards. *)
Lemma release_other id e : h_boards h !! id = Some e -> id <> bo_id bo -> be_board e <> s_board s.
Proof using Hi Ha.
  intros He Hne E. destruct (i_entry h Hi id e He) as (bo2 & G1 & G2 & _). rewrite E, Ha in G1.
  injection G1 as <-. congruence.
Qed.

Lemma Inv_release_gone p : holding p = false -> connected p = false -> p <> SCloseQuit -> p <> SRegister ->
  (forall e, h_boards h !! bo_id bo = Some e -> be_board e <> s_board s) ->
  Inv (set_session k (at_pc p s) h).
Proof using Hi Hs Hp Ha.
  intros Hh Hco Hq Hr Hn. destruct (release_counters p Hco) as [Hcs Hcc]. pose proof Hi as [].
  split; simpl; try done.
  - apply release_fresh.
  - by apply release_sessions.
  - intros id e He. destruct (i_entry0 id e He) as (bo' & H1 & H2 & ? & ?). exists bo'.
    rewrite release_count by done. rewrite bool_decide_false; [simpl; rewrite Z.sub_0_r; by split_and!|].
    intros E. apply (Hn e); [|done]. rewrite <-E, Ha in H1. injection H1 as <-. by rewrite H2.
  - intros Hcl' k' s1. rewrite lookup_insert. case_decide as E; [|by apply i_held0].
    intros [= <-]. simpl. congruence.
  - intros a bo' Ha' Hq'. destruct (i_quit0 a bo' Ha' Hq') as [?|[?|?]]; [by left| |by right; right].
    right; left. by apply release_pending.
  - intros k' s1. rewrite lookup_insert. case_decide as E; [by intros [= <-]|apply i_orphan0].
Qed.

Context (e : boardEntry) (He : h_boards h !! bo_id bo = Some e) (Ebe : be_board e = s_board s).

Lemma release_entry_count : be_count e = mcount (holds (s_board s)) (h_serve h).
Proof using Hi He Ebe. destruct (i_entry h Hi _ e He) as (bo' & _ & _ & _ & H4). by rewrite H4, Ebe. Qed.

Lemma Inv_release_last : be_count e - 1 = 0 ->
  Inv (set_session k (at_pc SCloseQuit s) (set_registry (delete (bo_id bo) (h_boards h)) h)).
Proof using Hi Hs Hp Ha He Ebe.
  intros Elast. pose proof release_entry_count as Hcount.
  destruct (release_counters SCloseQuit eq_refl) as [Hcs Hcc]. pose proof Hi as []. split; simpl; try done.
  - apply release_fresh.
  - by apply release_sessions.
  - intros id e' [Hne He']%lookup_delete_Some. destruct (i_entry0 id e' He') as (bo2 & G1 & G2 & G3 & G4).
    exists bo2. rewrite release_count by done. rewrite bool_decide_false; [simpl; rewrite Z.sub_0_r; by split_and!|].
    apply not_eq_sym. by apply (release_other id).
  - intros Hclo k' s1. rewrite lookup_insert. case_decide as E; [by intros [= <-]|].
    intros Hs1 Hh1. destruct (i_held0 Hclo k' s1 Hs1 Hh1) as (bo2 & e2 & G1 & G2 & G3). exists bo2, e2.
    rewrite lookup_delete_ne; [done|]. intros Eid. rewrite <-Eid, He in G2. injection G2 as <-.
    assert (0 < mcount (holds (s_board s)) (delete k (h_serve h))) as Hpos.
    { apply (mcount_pos _ _ k' s1); [by rewrite lookup_delete_ne by congruence|].
      unfold holds. rewrite bool_decide_true by congruence. by rewrite Hh1. }
    rewrite (mcount_delete _ k s) in Hpos by done. unfold holds in Hpos at 2.
    rewrite bool_decide_true, Hp in Hpos by done. simpl in Hpos. lia.
  - intros Hclo. by rewrite (i_closing0 Hclo) in He.
  - intros a bo' Ha' Hq'. destruct (i_quit0 a bo' Ha' Hq') as [(e' & G1 & G2)|[?|?]]; [| |by right; right].
    + destruct (decide (bo_id bo' = bo_id bo)) as [Eid|Hne].
      * right; left. rewrite Eid, He in G1. injection G1 as <-. exists k, (at_pc SCloseQuit s).
        rewrite lookup_insert_eq. simpl. split_and!; [done|congruence|done].
      * left. exists e'. by rewrite lookup_delete_ne by congruence.
    + right; left. by apply release_pending.
  - intros k' s1. rewrite lookup_insert. case_decide as E.
    + intros [= <-] _ id e' [Hne He']%lookup_delete_Some. simpl. by apply (release_other id).
    + intros Hs1 Hp1 id e' [_ He']%lookup_delete_Some. by apply (i_orphan0 k' s1 Hs1 Hp1 id).
Qed.

Lemma Inv_release_more : be_count e - 1 <> 0 ->
  Inv (set_session k (at_pc SUnregister s)
    (set_registry (<[bo_id bo := {| be_board := be_board e; be_count := be_count e - 1 |}]> (h_boards h)) h)).
Proof using Hi Hs Hp Ha He Ebe.
  intros Elast. pose proof release_entry_count as Hcount.
  destruct (release_counters SUnregister eq_refl) as [Hcs Hcc]. pose proof Hi as []. split; simpl; try done.
  - apply release_fresh.
  - by apply release_sessions.
  - intros id e'. rewrite lookup_insert. case_decide as Eid.
    + intros [= <-]. simpl. rewrite Ebe. destruct (i_entry0 _ e He) as (bo' & G1 & G2 & G3 & _).
      rewrite Ebe in G1. exists bo'. rewrite release_count, <-Hcount, bool_decide_true by done. simpl.
      split_and!; try done. congruence.
    + intros He'. destruct (i_entry0 id e' He') as (bo2 & G1 & G2 & G3 & G4).
      exists bo2. rewrite release_count by done.
      rewrite bool_decide_false; [simpl; rewrite Z.sub_0_r; by split_and!|].
      apply not_eq_sym. apply (release_other id); [done|congruence].
  - intros Hclo k' s1. rewrite lookup_insert. case_decide as E; [by intros [= <-]|].
    intros Hs1 Hh1. destruct (i_held0 Hclo k' s1 Hs1 Hh1) as (bo2 & e2 & G1 & G2 & G3).
    destruct (decide (bo_id bo2 = bo_id bo)) as [Eid|Hne].
    + rewrite Eid, He in G2. injection G2 as <-. exists bo2. eexists. rewrite Eid, lookup_insert_eq. done.
    + exists bo2, e2. by rewrite lookup_insert_ne by congruence.
  - intros Hclo. by rewrite (i_closing0 Hclo) in He.
  - intros a bo' Ha' Hq'. destruct (i_quit0 a bo' Ha' Hq') as [(e' & G1 & G2)|[?|?]]; [| |by right; right].
    + left. destruct (decide (bo_id bo' = bo_id bo)) as [Eid|Hne].
      * rewrite Eid, He in G1. injection G1 as <-. eexists. rewrite Eid, lookup_insert_eq. done.
      * exists e'. by rewrite lookup_insert_ne by congruence.
    + right; left. by apply release_pending.
  - intros k' s1. rewrite lookup_insert. case_decide as E; [by intros [= <-]|].
    intros Hs1 Hp1 id e'. rewrite lookup_insert. case_decide as Eid; [|by apply (i_orphan0 k' s1)].
    intros [= <-]. simpl. by apply (i_orphan0 k' s1 Hs1 Hp1 (bo_id bo)).
Qed.
End release.

Lemma Inv_release k s h : Inv h -> h_serve h !! k = Some s -> s_pc s = SRelease -> Inv (release k s h).
Proof using Type.
  intros Hi Hs Hp. unfold release. destruct (i_session h Hi k s Hs) as ([bo Ha] & _). rewrite Ha.
  destruct (h_boards h !! bo_id bo) as [e|] eqn:He.
  - case_bool_decide as Ebe; [case_bool_decide as Elast|].
    + by eapply Inv_release_last.
    + by eapply Inv_release_more.
    + apply (Inv_release_gone h k s bo); try done. intros e' He'. rewrite He in He'. by injection He' as <-.
  - apply (Inv_release_gone h k s bo); try done. intros e' He'. by rewrite He in He'.
Qed.

(** A board is created for an identifier, with nobody on it yet. *)
Lemma Inv_open id h a h1 : Inv h -> h_closing h = false -> h_boards h !! id = None -> alloc h = (a, h1) ->
  Inv (set_registry (<[id := {| be_board := a; be_count := 0 |}]> (h_boards h1))
    (emit_hub EBoardOpened (set_object a (newBoard id) h1))).
Proof using Type.
  intros Hi Hcl Hid [= <- <-]. pose proof Hi as []. destruct (i_fresh0 (h_next h)) as (F1 & F2 & F3); [done|].
  assert (forall k s, h_serve h !! k = Some s -> s_board s <> h_next h) as Hnb.
  { intros k s Hs E. destruct (i_session0 k s Hs) as [[bo Ha] _]. congruence. }
  split; simpl; try done.
  - intros k Hk. destruct (i_fresh0 k) as (? & ? & ?); [lia|]. split_and!; [|done..].
    rewrite lookup_insert_ne; [done|lia].
  - intros k cl Hk. apply i_born0 in Hk. lia.
  - intros a bo. rewrite lookup_insert. case_decide as E.
    + intros [= <-]. subst a. split; [|done]. split; simpl.
      * intros c Hc. by apply elem_of_empty in Hc.
      * intros c cl Hc Hb _. apply i_born0 in Hc. lia.
      * intros id' c. by rewrite lookup_empty.
    + intros Ha. destruct (i_board0 a bo Ha) as [[] He]. by split; [split|].
  - intros k s Hs. destruct (i_session0 k s Hs) as [[bo Ha] ?]. split; [|done].
    rewrite lookup_insert_ne; [by exists bo|]. intros E. by apply (Hnb k s).
  - intros id' e. rewrite lookup_insert. case_decide as E.
    + intros [= <-]. simpl. exists (newBoard id). rewrite lookup_insert_eq. split_and!; [done..|].
      symmetry. apply mcount_zero. intros k s Hs. unfold holds. rewrite bool_decide_false; [done|]. by apply (Hnb k).
    + intros He. destruct (i_entry0 id' e He) as (bo & H1 & H2). exists bo. rewrite lookup_insert_ne; [done|].
      intros Ee. congruence.
  - intros _ k s Hs Hh. destruct (i_held0 Hcl k s Hs Hh) as (bo & e & H1 & H2 & H3). exists bo, e.
    rewrite !lookup_insert_ne; [done|congruence|]. intros E. by apply (Hnb k s).
  - intros E. congruence.
  - intros a bo. rewrite lookup_insert. case_decide; [intros [= <-]; by intros [|]|apply i_phase0].
  - intros a bo. rewrite lookup_insert. case_decide as E.
    + intros [= <-] _. left. simpl. rewrite lookup_insert_eq. by eexists.
    + intros Ha Hq. destruct (i_quit0 a bo Ha Hq) as [(e & H1 & H2)|?]; [|by right].
      left. exists e. rewrite lookup_insert_ne; [done|]. congruence.
  - intros k s Hs Hp id' e. rewrite lookup_insert. case_decide; [|by apply (i_orphan0 k s)].
    intros [= <-]. simpl. apply not_eq_sym. by apply (Hnb k s).
  - rewrite total_app. simpl. rewrite i_conns0. lia.
  - rewrite total_app, mcount_insert_new by done. simpl. rewrite i_boards0. unfold alive. simpl. lia.
Qed.

(** A session is admitted to a registered board. *)
Lemma Inv_admit id e bo cid name color h : Inv h -> h_closing h = false -> h_boards h !! id = Some e ->
  h_objects h !! be_board e = Some bo ->
  let a := be_board e in
  let k := h_next h in
  let c := {| c_id := cid; c_name := name; c_color := color; c_board := a;
              c_send := []; c_closed := false; c_conn := false; c_present := false |} in
  Inv (emit_hub EConnOpened (set_session k {| s_board := a; s_pc := SRegister; s_pump := WNone |}
    (set_client k c (alloc (set_registry (<[id := {| be_board := a; be_count := be_count e + 1 |}]> (h_boards h))
      (add_sessions 1 h))).2))).
Proof using Type.
  intros Hi Hcl He Ha a k c. pose proof Hi as []. destruct (i_fresh0 k) as (F1 & F2 & F3); [done|].
  set (s := {| s_board := a; s_pc := SRegister; s_pump := WNone |}).
  assert (forall a', mcount (holds a') (<[k := s]> (h_serve h)) =
    b2z (bool_decide (a = a')) + mcount (holds a') (h_serve h)) as Hc.
  { intros a'. rewrite mcount_insert_new by done. unfold holds, s. simpl. by rewrite andb_true_r. }
  destruct (i_entry0 id e He) as (bo' & G1 & G2 & G3 & G4). rewrite Ha in G1. injection G1 as <-.
  split; simpl; fold a k c s; try done.
  - intros k' Hk'. destruct (i_fresh0 k') as (? & ? & ?); [lia|]. split_and!; [done|..];
      (rewrite lookup_insert_ne; [done|lia]).
  - intros k' cl'. rewrite lookup_insert. case_decide; [|intros Hk%i_born0; lia].
    intros [= <-]. simpl. destruct (decide (a < k)%nat) as [|Hge]; [lia|].
    destruct (i_fresh0 a) as (G & _); [lia|]. subst a. congruence.
  - intros a' bo2 Ha'. destruct (i_board0 a' bo2 Ha') as [Hbi Hem]. split; [|done].
    destruct (fresh_inv a' k c (board_state bo2 h) Hbi F2 eq_refl) as [H1 H2 H3]. by split.
  - intros k' s'. rewrite lookup_insert. case_decide as E.
    + intros [= <-]. simpl. split; [by exists bo|]. exists c. subst k'. by rewrite lookup_insert_eq.
    + intros Hs'. destruct (i_session0 k' s' Hs') as [? ?]. split; [done|]. by rewrite lookup_insert_ne.
  - intros id' e'. rewrite lookup_insert. case_decide as E.
    + intros [= <-]. simpl. exists bo. rewrite Hc, bool_decide_true by done. simpl. rewrite G4.
      split_and!; [done|congruence|done|]. unfold a. lia.
    + intros He'. destruct (i_entry0 id' e' He') as (bo2 & K1 & K2 & K3 & K4). exists bo2. rewrite Hc.
      rewrite bool_decide_false; [by split_and!|]. intros Ea. rewrite <-Ea in K1. unfold a in K1. rewrite Ha in K1.
      injection K1 as <-. congruence.
  - intros _ k' s'. rewrite lookup_insert. case_decide as E.
    + intros [= <-] _. simpl. exists bo. eexists. rewrite G2, lookup_insert_eq. done.
    + intros Hs' Hh. destruct (i_held0 Hcl k' s' Hs' Hh) as (bo2 & e2 & K1 & K2 & K3). exists bo2.
      destruct (decide (bo_id bo2 = id)) as [Eid|Hne].
      * eexists. rewrite Eid, lookup_insert_eq. split_and!; [done|done|]. simpl. rewrite Eid, He in K2. unfold a. congruence.
      * exists e2. by rewrite lookup_insert_ne.
  - intros E. congruence.
  - intros a' bo2 Ha' Hq. destruct (i_quit0 a' bo2 Ha' Hq) as [(e2 & K1 & K2)|[(k' & s' & K1 & K2 & K3)|?]]; [| |by right; right].
    + left. destruct (decide (bo_id bo2 = id)) as [Eid|Hne].
      * eexists. rewrite Eid, lookup_insert_eq. split; [done|]. simpl. rewrite Eid, He in K1. unfold a. congruence.
      * exists e2. by rewrite lookup_insert_ne.
    + right; left. exists k', s'. rewrite lookup_insert_ne; [done|]. intros ->. congruence.
  - intros k' s'. rewrite lookup_insert. case_decide; [by intros [= <-]|].
    intros Hs' Hp id' e'. rewrite lookup_insert. case_decide; [|by apply (i_orphan0 k' s' Hs' Hp)].
    intros [= <-]. exact (i_orphan0 k' s' Hs' Hp id e He).
  - rewrite mcount_insert_new by done. rewrite i_sessions0. simpl. lia.
  - rewrite total_app, mcount_insert_new by done. simpl. rewrite i_conns0. lia.
  - rewrite total_app. simpl. rewrite i_boards0. lia.
Qed.

Lemma Inv_serve id name color rnd h : Inv h -> exists h', serve id name color rnd h = Some h' /\ Inv h'.
Proof using Type.
  intros Hi. unfold serve, beginSession. destruct (h_closing h) eqn:Hcl; [by exists h|].
  destruct (defaultColor_spec color (newID rnd)) as (col & Ecol & _).
  simpl h_boards. destruct (h_boards h !! id) as [e|] eqn:He.
  - rewrite Ecol. simpl. eexists. split; [done|]. destruct (i_entry h Hi id e He) as (bo & Ha & _).
    by apply (Inv_admit id e bo).
  - destruct (alloc h) as [a h1] eqn:Ea. pose proof (Inv_open id h a h1 Hi Hcl He Ea) as Hi1.
    simpl in Ea. injection Ea as <- <-. simpl. rewrite Ecol. simpl. eexists. split; [done|].
    set (h2 := set_registry _ _) in Hi1.
    pose proof (Inv_admit id {| be_board := h_next h; be_count := 0 |} (newBoard id) (newID rnd)
      (defaultName name) col h2 Hi1 Hcl) as Hadm.
    simpl in Hadm. rewrite lookup_insert_eq in Hadm. specialize (Hadm eq_refl).
    rewrite lookup_insert_eq in Hadm. specialize (Hadm eq_refl).
    unfold set_registry, emit_hub, set_session, set_client, add_sessions, alloc in *. simpl in *.
    rewrite insert_insert_eq in Hadm. exact Hadm.
Qed.
End preservation.

(** ** Every step keeps the invariant, and none panics *)

Section safety.
Context {B S : Type} {BR : Broker B} {ST : Store S} {F : Float64}.
Abbreviation Hub := (Hub B S).
Implicit Types h : Hub.

Lemma Inv_on_board a f h r : Inv h -> on_board a f h = Some r ->
  (forall bo, h_objects h !! a = Some bo -> bo_phase bo = Running -> board_inv a (board_state bo h) ->
     exists st', f (board_state bo h) = Some st' /\ board_step a bo bo st' h) ->
  exists h', r = Some h' /\ Inv h' /\ h_serve h' = h_serve h.
Proof using Type.
  intros Hi (bo & Ha & Hp & ->)%on_board_inv Hf. destruct (i_board h Hi a bo Ha) as [Hb _].
  destruct (Hf bo Ha Hp Hb) as (st' & -> & Hst). simpl. eexists. split; [done|]. split; [|done].
  by apply (Inv_board a bo).
Qed.

(** Registration: the rendezvous and the session's move are one step. *)
Lemma Inv_register k s p cl h r : Inv h -> h_serve h !! k = Some s -> s_pc s = SRegister ->
  h_clients h !! k = Some cl -> on_board (s_board s) (join k) h = Some r ->
  exists h', set_session k (at_pc (SOnboard p) s) <$> r = Some h' /\ Inv h'.
Proof using Type.
  intros Hi Hs Hp Hcl (bo & Ha & Hph & ->)%on_board_inv.
  destruct (i_session h Hi k s Hs) as (_ & cl' & Hcl' & Hbd & Hreg). rewrite Hcl in Hcl'. injection Hcl' as <-.
  destruct (Hreg Hp) as [Hpres Hopen]. destruct (i_board h Hi _ bo Ha) as [Hb _].
  assert (k ∉ clients (board_state bo h)) as Hn.
  { intros Hin. destruct (bi_in _ _ Hb k Hin) as (cl0 & Hc0 & _ & Hp0 & _). simpl in Hc0. congruence. }
  destruct (join_spec (s_board s) k cl (board_state bo h) Hb Hcl Hbd Hopen Hn)
    as (st' & E & Hi' & Hc' & Hid' & Hh' & Hm'). rewrite E. simpl. eexists. split; [done|].
  set (s' := at_pc (SOnboard p) s).
  assert (Inv (set_session k s' h)) as Hi2 by (apply (Inv_session k s); try done; by rewrite Hp).
  change (Inv (put_board (s_board s) bo st' (set_session k s' h))).
  apply (Inv_board _ bo); [done|done|]. split; try done; [by left|..].
  - exists {[k]}. split.
    + rewrite Hh'. simpl. eapply touches_one; [done|by rewrite lookup_insert_eq|done|set_solver|].
      intros c' Hne. by rewrite lookup_insert_ne.
    + intros c. rewrite elem_of_singleton. intros ->. split; [by exists cl|].
      intros s0. simpl. rewrite lookup_insert_eq. by intros [= <-].
  - exists []. split; [done|]. rewrite Hm'. by rewrite app_nil_r.
Qed.

Lemma Inv_quit a bo order h : Inv h -> h_objects h !! a = Some bo -> bo_phase bo = Running ->
  bo_quit bo = true -> enumerates order (board_state bo h) ->
  exists h', (fun st => put_board a (set_phase Closing bo) st h) <$> shutdown order (board_state bo h) = Some h' /\ Inv h'.
Proof using Type.
  intros Hi Ha Hp Hq [Hn He]. destruct (i_board h Hi a bo Ha) as [Hb _].
  destruct (shutdown_spec order (board_state bo h) Hn) as (st' & -> & Hd & Hm).
  { intros c Hc%He. by apply (inv_live a). }
  simpl. eexists. split; [done|]. apply (Inv_board a bo); [done|done|].
  pose proof (dropped_inv a order true _ st' Hb Hd) as Hb'. destruct Hd as [D1 D2 D3].
  split; simpl; try done; [by right| | |].
  - intros _. rewrite D1. simpl. apply set_eq. intros c. rewrite elem_of_difference, elem_of_list_to_set, He.
    simpl. set_solver.
  - exists (bo_clients bo). split; [|by apply members_board].
    apply (touches_fmap _ _ _ (fun c cl => if bool_decide (c ∈ order) then removed true cl else cl)); [done|..].
    + intros c cl. by case_bool_decide.
    + intros c cl _ Hc. rewrite bool_decide_false; [done|]. by rewrite He.
  - exists []. split; [done|]. by rewrite Hm, app_nil_r.
Qed.

Lemma session_client k s h : Inv h -> h_serve h !! k = Some s -> exists cl,
  h_clients h !! k = Some cl /\ c_board cl = s_board s.
Proof using Type. intros Hi Hs. destruct (i_session h Hi k s Hs) as (_ & cl & ? & ? & _). eauto. Qed.

Lemma running_standing p q back : running p = Some (q, back) -> forall q',
  holding (back q') = holding p /\ connected (back q') = connected p /\ back q' <> SRegister /\
  p <> SCloseQuit /\ back q' <> SCloseQuit.
Proof using Type. destruct p; try done; by intros [= _ <-]. Qed.

(** Advancing a session's program. *)
Lemma Inv_advance k s q back q' h : Inv h -> h_serve h !! k = Some s -> running (s_pc s) = Some (q, back) ->
  Inv (set_session k (at_pc (back q') s) h).
Proof using Type.
  intros Hi Hs Hr. destruct (running_standing _ _ _ Hr q') as (H1 & H2 & H3 & H4 & H5).
  apply (Inv_session k s); try done; by split.
Qed.

Lemma Inv_request {X} f (r : request X) h h' x : Inv h -> request_step f r h = (h', x) ->
  Inv h' /\ h_serve h' = h_serve h.
Proof using Type.
  intros Hi. unfold request_step. destruct (perform f r (h_broker h)) as [b y].
  assert (Inv (set_services b (h_store h) h)) as Hi' by (by apply Inv_services).
  destruct r; intros [= <- <-]; split; try done. by apply Inv_emit.
Qed.

Lemma shut_closing h : Inv h -> h_shut h <> HNone -> h_closing h = true.
Proof using Type. intros Hi Hs. destruct (h_closing h) eqn:E; [done|]. by destruct (i_shut h Hi E). Qed.

(** Shutdown moves on, past its first loop. *)
Lemma Inv_shut_move p h : Inv h -> h_shut h <> HNone -> (forall todo all, h_shut h <> HClosing todo all) ->
  Inv (set_shut p h).
Proof using Type.
  intros Hi Hs Hn. apply Inv_set_shut; [done|by apply shut_closing|].
  intros todo all a bo E. by destruct (Hn todo all).
Qed.

(** The board takes a message for a client, or takes a client off. *)
Lemma Inv_direct k s data r h : Inv h -> h_serve h !! k = Some s -> on_board (s_board s) (direct k data) h = Some r ->
  exists h', r = Some h' /\ Inv h' /\ h_serve h' = h_serve h.
Proof using Type.
  intros Hi Hs Hr. destruct (session_client k s h Hi Hs) as (cl & Hcl & Hb).
  apply (Inv_on_board _ _ _ _ Hi Hr). intros bo Ha Hph Hbi.
  destruct (direct_relays (s_board s) k cl data _ Hbi Hcl Hb) as (st' & E & Hre).
  exists st'. split; [done|]. by apply relays_step.
Qed.

Lemma Inv_detach k s closeConn r h : Inv h -> h_serve h !! k = Some s -> on_board (s_board s) (detach k closeConn) h = Some r ->
  exists h', r = Some h' /\ Inv h' /\ h_serve h' = h_serve h.
Proof using Type.
  intros Hi Hs Hr. destruct (session_client k s h Hi Hs) as (cl & Hcl & Hb).
  apply (Inv_on_board _ _ _ _ Hi Hr). intros bo Ha Hph Hbi.
  destruct (detach_relays (s_board s) k cl closeConn _ Hbi Hcl Hb) as (st' & E & Hre & _).
  exists st'. split; [done|]. by apply relays_step.
Qed.

Lemma Inv_dispatch a bo order msg r h : Inv h -> h_objects h !! a = Some bo -> enumerates order (board_state bo h) ->
  on_board a (dispatch order msg) h = Some r -> exists h', r = Some h' /\ Inv h' /\ h_serve h' = h_serve h.
Proof using Type.
  intros Hi Ha He Hr. apply (Inv_on_board _ _ _ _ Hi Hr).
  intros bo' Ha' Hph Hbi. rewrite Ha in Ha'. injection Ha' as <-.
  destruct (dispatch_relays a order msg _ Hbi He) as (st' & E & Hre). exists st'. split; [done|]. by apply relays_step.
Qed.

(** Shutdown tells one more board to quit. *)
Lemma Inv_shut_quit a bo todo all h : Inv h -> h_shut h = HClosing (a :: todo) all -> h_objects h !! a = Some bo ->
  Inv (set_shut (HClosing todo all) (set_object a (closeQuit bo) h)).
Proof using Type.
  intros Hi Hsh Ha. assert (h_closing h = true) as Hc by (apply shut_closing; [done|by rewrite Hsh]).
  apply Inv_set_shut; simpl; [apply Inv_closeQuit; [done|done|]|done|].
  - intros id e. by rewrite (i_closing h Hi Hc), lookup_empty.
  - intros todo' all' a' bo' E Hin. rewrite Hsh in E. injection E as <- <-. rewrite lookup_insert.
    case_decide as Ea; [by intros [= <-]|]. intros _ _. exists todo, all. split; [done|]. set_solver.
Qed.

Lemma Inv_shut_quitted all h : Inv h -> h_shut h = HClosing [] all -> Inv (set_shut (HWaitBoards all all) h).
Proof using Type.
  intros Hi Hsh. apply Inv_set_shut; [done|apply shut_closing; [done|by rewrite Hsh]|].
  intros todo' all' a' bo' E Hin. rewrite Hsh in E. injection E as <- <-. by apply elem_of_nil in Hin.
Qed.

(** One step: no panic, and the invariant again. *)
Lemma step_inv h o : Inv h -> step h o -> exists h', o = Some h' /\ Inv h'.
Proof using Type.
  intros Hi Hst.
  destruct Hst as [id name color rnd _|k s cl bo r Hs Hp Hcl Ha Hr|k s X r next back f h' x Hs Hp Hd Hr
    |k s data next back r Hs Hp Hr|k s data next back Hs Hp _|k s Hs Hp|k s cl bo data Hs Hp Hcl Ha _|k s Hs Hp _|k s Hs Hp
    |k s cl msg q Hs Hp Hcl Hq|k s Hs Hp _|k s cl Hs Hp Hcl|k s cl bo Hs Hp Hw Hcl Ha|k s Hs Hp|k s Hs Hp|k s bo Hs Hp Ha
    |k s r Hs Hp Hr|k s bo Hs Hp Ha Hph|k s Hs Hp|a bo f1 f2 Ha Hp|a bo order msg r Ha He Hr _|a bo order Ha Hp Hq He
    |a bo f1 f2 Ha Hp|id f1 f2 _|order Hcl Ho _|a bo todo all Hsh Ha|all Hsh|a bo todo all Hsh Ha Hp|all Hsh|all Hsh Hn|all Hsh _].
  all: try (eexists; split; [done|]; solve [apply (Inv_session k s); simpl; rewrite ?Hp; done]).
  all: try (eexists; split; [done|]; solve [apply Inv_shut_move; [done|by rewrite Hsh..]]).
  - by apply Inv_serve.
  - by apply (Inv_register k s _ cl h).
  - eexists. split; [done|]. destruct (Inv_request f r h h' x Hi Hr) as [Hi' Hs'].
    eapply (Inv_advance k s); [done|by rewrite Hs'|done].
  - destruct (Inv_direct k s data r h Hi Hs Hr) as (h' & -> & Hi' & Hs').
    eexists. split; [done|]. eapply (Inv_advance k s); [done|by rewrite Hs'|done].
  - eexists. split; [done|]. by eapply (Inv_advance k s).
  - eexists. split; [done|]. by apply (Inv_client k cl).
  - eexists. split; [done|]. apply (Inv_session k s); simpl; rewrite ?Hp; try done. by apply (Inv_client k cl).
  - eexists. split; [done|]. by apply Inv_left.
  - eexists. split; [done|]. by apply Inv_release.
  - eexists. split; [done|]. by apply Inv_close_quit.
  - destruct (Inv_detach k s false r h Hi Hs Hr) as (h' & -> & Hi' & Hs').
    eexists. split; [done|]. apply (Inv_session k s); simpl; rewrite ?Hp; try done. by rewrite Hs'.
  - eexists. split; [done|]. by apply (Inv_end k s).
  - eexists. split; [done|]. destruct (hydrate_board_services f1 f2 (bo_id bo) h) as (b & st & ->). by apply Inv_start.
  - destruct (Inv_dispatch a bo order msg r h Hi Ha He Hr) as (h' & -> & Hi' & _). by exists h'.
  - by apply Inv_quit.
  - eexists. split; [done|]. destruct (persist_board_services f1 f2 (bo_id bo) h) as (b & st & ->). by apply Inv_persist.
  - eexists. split; [done|]. destruct (persist_board_services f1 f2 id h) as (b & st & ->). by apply Inv_services.
  - eexists. split; [done|]. by apply Inv_beginShutdown.
  - eexists. split; [done|]. by apply Inv_shut_quit.
  - eexists. split; [done|]. by apply Inv_shut_quitted.
  - eexists. split; [done|]. apply Inv_shut_move; [done|by destruct Hsh as [[todo ->]| ->]..].
Qed.

Lemma reachable_inv b st h : reachable b st h -> Inv h.
Proof using Type.
  induction 1 as [|h h' _ IH Hst]; [apply Inv_new|].
  destruct (step_inv h (Some h') IH Hst) as (h2 & [= <-] & ?). done.
Qed.
End safety.
