(* ===== verification/PumpHub.v ===== *)
(** The write pump in time refines the write pump of the hub: what [Pump] does
    to a session's queue and to its own state, [System] allows. *)

From S2P Require Import Prelude Strconv Utf8 Json JsonFacts JsonLocal Protocol Broker Store Persistence Metrics Board Conn Client Pump Hub System.
Local Open Scope Z_scope.

Section refinement.
Context {B S : Type} {BR : Broker B} {ST : Store S} {F : Float64}.
Context {C : Type} {CN : Conn C}.
Abbreviation Hub := (Hub B S).
Implicit Types (h : Hub) (p : Pump C).

(** The pump [p] is the one of session [k]: the same queue, closed or not, and
    returned or not. *)
Definition pump_at (k : nat) p h : Prop := exists s cl,
  h_serve h !! k = Some s /\ s_pump s = (if p_end p is Some _ then WEnd else WRun) /\
  h_clients h !! k = Some cl /\ c_send cl = p_queue p /\ c_closed cl = p_closed p.

(** Nothing else in the process. *)
Definition pump_only (k : nat) h h' : Prop := exists s' cl', h' = set_client k cl' (set_session k s' h).

Lemma set_session_id k s h : h_serve h !! k = Some s -> set_session k s h = h.
Proof using Type. intros Hs. destruct h; simpl in *. unfold set_session. simpl. by rewrite insert_id. Qed.

Lemma set_client_id k cl h : h_clients h !! k = Some cl -> set_client k cl h = h.
Proof using Type. intros Hs. destruct h; simpl in *. unfold set_client. simpl. by rewrite insert_id. Qed.

(** The pump's end. *)
Lemma ends_refines k p e h : pump_at k p h -> p_end p = None ->
  exists h', goes h h' /\ pump_at k (ends e p) h' /\ pump_only k h h'.
Proof using Type.
  intros (s & cl & Hs & Hp & Hcl & Hq & Hc) E. rewrite E in Hp.
  exists (set_session k (at_pump WEnd s) h). split_and!.
  - apply step_pump_end; auto.
  - exists (at_pump WEnd s), cl. simpl. by rewrite lookup_insert_eq.
  - exists (at_pump WEnd s), cl. by rewrite set_client_id.
Qed.

(** A message taken from the queue. *)
Lemma pop_refines k p p' data q h : pump_at k p h -> p_end p = None -> p_queue p = data :: q ->
  p_queue p' = q -> p_closed p' = p_closed p -> p_end p' = None ->
  exists h', goes h h' /\ pump_at k p' h' /\ pump_only k h h'.
Proof using Type.
  intros (s & cl & Hs & Hp & Hcl & Hq & Hc) E Eq Eq' Ec' E'. rewrite E in Hp.
  exists (set_client k (set_send q cl) h). split_and!.
  - eapply step_write; [done..|]. by rewrite Hq.
  - exists s, (set_send q cl). simpl. rewrite lookup_insert_eq, E', Eq', Ec'. done.
  - exists s, (set_send q cl). by rewrite set_session_id.
Qed.

Lemma pump_at_same k p p' h : pump_at k p h -> p_queue p' = p_queue p -> p_closed p' = p_closed p -> p_end p' = p_end p ->
  pump_at k p' h.
Proof using Type. intros (s & cl & H) E1 E2 E3. exists s, cl. by rewrite E1, E2, E3. Qed.

Lemma pump_only_refl k p h : pump_at k p h -> pump_only k h h.
Proof using Type. intros (s & cl & Hs & _ & Hcl & _). exists s, cl. by rewrite set_session_id, set_client_id. Qed.

Lemma pump_only_trans k h1 h2 h3 : pump_only k h1 h2 -> pump_only k h2 h3 -> pump_only k h1 h3.
Proof using Type.
  intros (s1 & c1 & ->) (s2 & c2 & ->). exists s2, c2. unfold set_client, set_session. simpl. by rewrite !insert_insert_eq.
Qed.

Lemma ends_after k p p' e h : (exists h', rtc goes h h' /\ pump_at k p' h' /\ pump_only k h h') -> p_end p' = None ->
  p = ends e p' -> exists h', rtc goes h h' /\ pump_at k p h' /\ pump_only k h h'.
Proof using Type.
  intros (h1 & Hr & Hp & Ho) E ->. destruct (ends_refines k p' e h1 Hp E) as (h2 & Hg & Hp2 & Ho2).
  exists h2. split_and!; [by eapply rtc_r|done|by eapply pump_only_trans].
Qed.

(** Every step of the pump is nothing, or a write, or the end of the pump, or
    a write and the end, of the hub. *)
Lemma own_step_refines k p p' h : pump_at k p h -> own_step p p' ->
  exists h', rtc goes h h' /\ pump_at k p' h' /\ pump_only k h h'.
Proof using Type.
  intros Hp Hs.
  assert (exists h', rtc goes h h' /\ pump_at k p h' /\ pump_only k h h') as Hstay.
  { exists h. split_and!; [done|done|by eapply pump_only_refl]. }
  assert (forall p1, p_queue p1 = p_queue p -> p_closed p1 = p_closed p -> p_end p1 = p_end p ->
    exists h', rtc goes h h' /\ pump_at k p1 h' /\ pump_only k h h') as Hsame.
  { intros p1 E1 E2 E3. exists h. split_and!; [done|by eapply pump_at_same|by eapply pump_only_refl]. }
  destruct Hs as [x E Hr|t E _ _]; [|by apply Hsame]. destruct x; simpl.
  - destruct (p_queue p) as [|data q] eqn:Eq; [by eapply ends_after|].
    destruct (Write _ _ _ _) as [[c t] r].
    assert (exists h', rtc goes h h' /\ pump_at k (at_time t (set_pump_conn c (set_queue q p))) h' /\ pump_only k h h') as Hpop.
    { destruct (pop_refines k p (at_time t (set_pump_conn c (set_queue q p))) data q h) as (h' & Hg & H'); [done..|].
      exists h'. split; [by apply rtc_once|done]. }
    destruct r; [done|by eapply ends_after].
  - destruct (Ping _ _ _) as [[c t] r].
    pose proof (Hsame (at_time t (set_pump_conn c (set_tick false p))) eq_refl eq_refl eq_refl). destruct r; [done|by eapply ends_after].
  - by eapply ends_after.
Qed.
End refinement.
