(* ===== verification/Sessions.v ===== *)
(** The life of a session, one connection's goroutines: what each step of the
    hub does to the sessions, to the boards' client sets and to the clients'
    connections. *)

From S2P Require Import Prelude Strconv Utf8 Json JsonFacts JsonLocal Protocol Broker Store Persistence Metrics Board Client Hub System.
Local Open Scope Z_scope.

(** ** The length of a program *)

(** [within n p]: the program [p] makes at most [n] requests, whatever it is
    answered. *)
Fixpoint within (n : nat) (p : prog) {struct p} : Prop :=
  match p with
  | Done => True
  | Client.Step r k => match n with O => False | Datatypes.S n => forall x, within n (k x) end
  end.

Lemma within_mono n m p : (n <= m)%nat -> within n p -> within m p.
Proof.
  revert n m. induction p as [|X r k IH]; intros n m Hle; simpl; [done|].
  destruct n as [|n], m as [|m]; try done; [lia|]. intros H x. apply (IH x n); [lia|done].
Qed.

Lemma within_andThen n m p q : within n p -> within m q -> within (n + m) (andThen p q).
Proof.
  revert n. induction p as [|X r k IH]; intros n Hp Hq; simpl in *; [by apply (within_mono m); [lia|]|].
  destruct n as [|n]; [done|]. simpl. intros x. by apply IH.
Qed.

Lemma within_request {X} n (r : request X) : (0 < n)%nat -> within n (request_ r).
Proof. by destruct n; [lia|]. Qed.

Section lengths.
Context `{Float64}.

Lemma onboard_within bid cl : within 6 (onboard bid cl).
Proof using Type.
  unfold onboard. apply (within_andThen 2); [|apply (within_andThen 2 2)].
  - apply (within_andThen 1 1); by case_match.
  - intros [snap|e]; [|done]. by case_match.
  - intros [roster|e]; [|done]. by case_match.
Qed.

Lemma handle_within bid cl data : within 3 (handle bid cl data).
Proof using Type.
  unfold handle. destruct (Unmarshal _ _ _) as [env [e|]]; [done|].
  apply (within_andThen 1 2); [done|]. case_bool_decide; [|case_bool_decide; [|done]].
  - unfold applyShapeOp. destruct (DecodePayload _ _ _) as [op [e|]]; [done|]. case_bool_decide; [done|].
    intros [seq|e]; [|done]. by case_match.
  - unfold publishCursor. destruct (DecodePayload _ _ _) as [cur [e|]]; [done|]. by case_match.
Qed.

Lemma leavePresence_within bid cl : within 2 (leavePresence bid cl).
Proof using Type. unfold leavePresence. apply (within_andThen 1 1); [done|]. by case_match. Qed.
End lengths.

(** ** The life of a session

    [moves s s']: what the goroutines of a session, the one of [Serve] and its
    write pump, may do next. *)

Section sessions.
Context `{Float64}.

Inductive moves (s : Session) : Session -> Prop :=
  | mv_register bid cl : s_pc s = SRegister -> moves s (at_pc (SOnboard (onboard bid cl)) s)
  | mv_request X (r : request X) next back x : running (s_pc s) = Some (Client.Step r next, back) ->
      moves s (at_pc (back (next x)) s)
  | mv_onboarded : s_pc s = SOnboard Done -> moves s (at_pump WRun (at_pc SRead s))
  | mv_read bid cl data : s_pc s = SRead -> moves s (at_pc (SHandle (handle bid cl data)) s)
  | mv_read_error : s_pc s = SRead -> moves s (at_pc SStop s)
  | mv_handled : s_pc s = SHandle Done -> moves s (at_pc SRead s)
  | mv_pump_end : s_pump s = WRun -> moves s (at_pump WEnd s)
  | mv_stop : s_pc s = SStop -> moves s (at_pc SWait s)
  | mv_wait bid cl : s_pc s = SWait -> s_pump s = WEnd -> moves s (at_pc (SLeave (leavePresence bid cl)) s)
  | mv_left : s_pc s = SLeave Done -> moves s (at_pc SRelease s)
  | mv_release q : s_pc s = SRelease -> q = SCloseQuit \/ q = SUnregister \/ q = SEnd -> moves s (at_pc q s)
  | mv_close_quit : s_pc s = SCloseQuit -> moves s (at_pc SEnd s)
  | mv_unregister : s_pc s = SUnregister -> moves s (at_pc SEnd s).

(** A session begins before its registration, and ends at [SEnd]. *)
Definition changes (o o' : option Session) : Prop :=
  match o, o' with
  | Some s, Some s' => s' = s \/ moves s s'
  | None, Some s' => s_pc s' = SRegister /\ s_pump s' = WNone
  | Some s, None => s_pc s = SEnd
  | None, None => True
  end.

(** The read loop and what follows it up to the wait for the write pump. *)
Definition pumping (p : pc) : bool :=
  match p with SRead | SHandle _ | SStop | SWait => true | _ => false end.
(** Between the registration and the end of the read loop. *)
Definition attached (p : pc) : bool := match p with SOnboard _ | SRead | SHandle _ => true | _ => false end.

(** A session's program is short, and its write pump started with its reads. *)
Definition sane (s : Session) : Prop :=
  (forall p back, running (s_pc s) = Some (p, back) -> within 6 p) /\
  (pumping (s_pc s) = true -> s_pump s <> WNone) /\ (s_pc s = SRegister -> s_pump s = WNone).

Lemma running_next p X (r : request X) next back x q back' :
  running p = Some (Client.Step r next, back) -> running (back (next x)) = Some (q, back') -> q = next x /\ back' = back.
Proof using Type. destruct p; try done; intros [= -> <-]; by intros [= <- <-]. Qed.

Lemma pumping_back p q back q' : running p = Some (q, back) -> pumping (back q') = pumping p.
Proof using Type. destruct p; try done; by intros [= _ <-]. Qed.

Lemma moves_sane s s' : sane s -> moves s s' -> sane s'.
Proof using Type.
  intros (H1 & H2 & H3) Hm. destruct Hm as [bid cl Hp|X r next back x Hp|Hp|bid cl data Hp|Hp|Hp|Hp|Hp|bid cl Hp Hw|Hp|q Hp Hq|Hp|Hp];
    (split; [|split]); simpl; try done; try (rewrite Hp in H2; by apply H2).
  - intros p back [= <- _]. apply onboard_within.
  - intros p back' Hr. destruct (running_next _ _ _ _ _ x _ _ Hp Hr) as [-> _].
    specialize (H1 _ _ Hp). simpl in H1. apply (within_mono 5); [lia|done].
  - rewrite (pumping_back _ _ _ _ Hp). exact H2.
  - by destruct (s_pc s); try done; simplify_eq/=.
  - intros p back [= <- _]. apply (within_mono 3); [lia|]. apply handle_within.
  - intros E. specialize (H3 E). congruence.
  - intros p back [= <- _]. apply (within_mono 2); [lia|]. apply leavePresence_within.
  - by destruct Hq as [->|[->| ->]].
  - by destruct Hq as [->|[->| ->]].
  - by destruct Hq as [->|[->| ->]].
Qed.

Lemma changes_sane o s' : (forall s, o = Some s -> sane s) -> changes o (Some s') -> sane s'.
Proof using Type.
  intros Ho. destruct o as [s|]; simpl.
  - intros [->|Hm]; [by apply Ho|]. eapply moves_sane; [by apply Ho|done].
  - intros [Hp Hw]. unfold sane. by rewrite Hp.
Qed.
End sessions.

(** ** What a step does to the sessions and the client sets *)

Section effects.
Context {B S : Type} {BR : Broker B} {ST : Store S} {F : Float64}.
Abbreviation Hub := (Hub B S).
Implicit Types h : Hub.

(** The board at [a] has the client [c] in its set. *)
Definition member (a c : nat) h : Prop := exists bo, h_objects h !! a = Some bo /\ c ∈ bo_clients bo.

(** One session at most moves, along its life; one that gets past its
    registration is in its board's set then. *)
Definition session_effect h h' : Prop := exists k,
  (forall k', k' <> k -> h_serve h' !! k' = h_serve h !! k') /\ changes (h_serve h !! k) (h_serve h' !! k) /\
  (forall s s', h_serve h !! k = Some s -> s_pc s = SRegister -> h_serve h' !! k = Some s' -> s_pc s' <> SRegister ->
     member (s_board s) k h').

Lemma effect_none h h' : h_serve h' = h_serve h -> session_effect h h'.
Proof using Type.
  intros E. exists 0%nat. rewrite E. split_and!; [done|destruct (h_serve h !! 0%nat); [by left|done]|congruence].
Qed.

Lemma effect_moves k s s' h h' : h_serve h !! k = Some s -> h_serve h' = <[k := s']> (h_serve h) -> moves s s' ->
  (s_pc s = SRegister -> s_pc s' = SRegister \/ member (s_board s) k h') -> session_effect h h'.
Proof using Type.
  intros Hs E Hm Hj. exists k. rewrite E, Hs, lookup_insert_eq. split_and!; [|by right|].
  - intros k' Hne. by rewrite lookup_insert_ne.
  - intros ? ? [= <-] Hp [= <-] Hn. by destruct (Hj Hp).
Qed.

Lemma session_step h h' : Inv h -> goes h h' -> session_effect h h'.
Proof using Type.
  intros Hi Hst.
  assert (forall p q back, running p = Some (q, back) -> p <> SRegister) as Hrun by (by intros []).
  unfold goes in Hst. remember (Some h') as o eqn:Eo.
  destruct Hst; try (injection Eo as <-); try (by apply effect_none);
    try (by (eapply effect_moves; [done|done|constructor; done|]; try congruence; auto)).
  - unfold serve, beginSession in Eo. destruct (h_closing h); [injection Eo as <-; by apply effect_none|].
    destruct (defaultColor_spec color (newID rnd)) as (col & Ecol & _). simpl in Eo.
    assert (forall k, (h_next h <= k)%nat -> h_serve h !! k = None) as Hnew by (intros k Hk; by apply (i_fresh h Hi k)).
    destruct (h_boards h !! id) as [e|] eqn:He; rewrite Ecol in Eo; injection Eo as <-;
      eexists; (split; [intros k' Hne; simpl; rewrite lookup_insert_ne; [done|]; intros <-; by destruct Hne|]);
      simpl; rewrite lookup_insert_eq, Hnew by lia; by split.
  - apply on_board_inv in H3 as (bo' & _ & _ & ->). destruct (join _ _) as [st'|] eqn:Ej; [|done]. injection Eo as <-.
    eapply effect_moves; [done|done|by constructor|]. intros _. right. unfold member. simpl. rewrite lookup_insert_eq.
    eexists. split; [done|]. simpl.
    unfold join in Ej. simpl in Ej. rewrite H1 in Ej. simpl in Ej. unfold update in Ej. simpl in Ej. rewrite H1 in Ej.
    injection Ej as <-. simpl. set_solver.
  - unfold request_step in H2. destruct (perform f r (h_broker h)) as [? ?]. injection H2 as <- <-.
    eapply (effect_moves k s); [done|by destruct r|by econstructor|]. intros E. by destruct (Hrun _ _ _ H0).
  - apply on_board_inv in H1 as (bo' & _ & _ & ->). destruct (direct _ _ _); [|done]. injection Eo as <-.
    eapply effect_moves; [done|done|by apply (mv_request s _ (RDirect data) next back tt)|].
    intros E. by destruct (Hrun _ _ _ H0).
  - eapply effect_moves; [done|done|by apply (mv_request s _ (RDirect data) next back tt)|].
    intros E. by destruct (Hrun _ _ _ H0).
  - unfold release. repeat case_match; try (by apply effect_none);
      (eapply effect_moves; [done|done|apply mv_release; [done|auto]|congruence]).
  - apply on_board_inv in H1 as (bo' & _ & _ & ->). destruct (detach _ _ _); [|done]. injection Eo as <-.
    eapply effect_moves; [done|done|by constructor|congruence].
  - exists k. simpl. rewrite lookup_delete_eq, H. split_and!; [|done|done]. intros k' Hne. by rewrite lookup_delete_ne.
  - apply effect_none. by destruct (hydrate_board_services (S := S) f1 f2 (bo_id bo) h) as (x & y & ->).
  - apply on_board_inv in H1 as (bo' & _ & _ & ->). destruct (dispatch _ _ _); [|done]. injection Eo as <-.
    by apply effect_none.
  - destruct (shutdown _ _); [|done]. injection Eo as <-. by apply effect_none.
  - apply effect_none. by destruct (persist_board_services (S := S) f1 f2 (bo_id bo) h) as (x & y & ->).
  - apply effect_none. by destruct (persist_board_services (S := S) f1 f2 id h) as (x & y & ->).
Qed.

Lemma moves_board s s' : moves s s' -> s_board s' = s_board s.
Proof using Type. by destruct 1. Qed.

(** What becomes of one session. *)
Lemma session_next h h' k s : Inv h -> goes h h' -> h_serve h !! k = Some s ->
  match h_serve h' !! k with
  | Some s' => (s' = s \/ moves s s') /\ (s_pc s = SRegister -> s_pc s' = SRegister \/ member (s_board s) k h')
  | None => s_pc s = SEnd
  end.
Proof using Type.
  intros Hi Hst Hs. destruct (session_step h h' Hi Hst) as (k0 & Hf & Hc & Hj). destruct (decide (k = k0)) as [<-|Hne].
  - rewrite Hs in Hc. destruct (h_serve h' !! k) as [s'|]; [|done]. split; [done|]. intros Hp.
    destruct (s_pc s') eqn:E; try (by left); right; apply (Hj s s'); congruence.
  - rewrite Hf, Hs by done. split; [by left|]. intros Hp. by left.
Qed.

(** And where a session comes from. *)
Lemma session_previous h h' k s' : Inv h -> goes h h' -> h_serve h' !! k = Some s' ->
  changes (h_serve h !! k) (Some s').
Proof using Type.
  intros Hi Hst Hs. destruct (session_step h h' Hi Hst) as (k0 & Hf & Hc & _). destruct (decide (k = k0)) as [<-|Hne].
  - by rewrite <-Hs.
  - rewrite <-(Hf k Hne), Hs. by left.
Qed.

(** [spares out h h']: a client that a step takes off a board, apart from
    those of [out], has its connection closed. *)
(** Every board's index is complete. *)
Definition indexed h : Prop := forall a bo, h_objects h !! a = Some bo -> index_complete (board_state bo h).

Record spares (out : gset nat) h h' : Prop := {
  sp_set : forall a c, member a c h -> c ∉ out -> member a c h' \/ conn_closed c h';
  sp_conn : forall c, conn_closed c h -> conn_closed c h';
  sp_same : forall c cl, h_clients h !! c = Some cl -> exists cl', h_clients h' !! c = Some cl' /\ same_client cl cl';
  sp_index : ids_unique (h_clients h) -> indexed h -> indexed h';
  (** at most one client is new, and its identifier freshly drawn *)
  sp_new : forall c cl, h_clients h' !! c = Some cl -> h_clients h !! c = None -> (exists rnd, c_id cl = newID rnd) /\
    forall c2, is_Some (h_clients h' !! c2) -> h_clients h !! c2 = None -> c2 = c;
}.

(** An index does not depend on other boards' clients, nor on a client's queue. *)
Lemma index_clients bo bo' h h' : bo_clients bo' = bo_clients bo -> bo_byID bo' = bo_byID bo ->
  (forall c, c ∈ bo_clients bo -> is_Some (h_clients h !! c)) ->
  (forall c cl, h_clients h !! c = Some cl -> exists cl', h_clients h' !! c = Some cl' /\ same_client cl cl') ->
  index_complete (board_state bo h) -> index_complete (board_state bo' h').
Proof using Type.
  intros E1 E2 Hin Hs Hx c cl'. simpl. rewrite E1, E2. intros Hc Hcl'. destruct (Hin c Hc) as [cl Hcl].
  destruct (Hs c cl Hcl) as (cl2 & Hcl2 & Ei & _). rewrite Hcl' in Hcl2. injection Hcl2 as <-. rewrite Ei.
  by apply (Hx c cl).
Qed.

Lemma clients_some a bo h : Inv h -> h_objects h !! a = Some bo -> forall c, c ∈ bo_clients bo -> is_Some (h_clients h !! c).
Proof using Type. intros Hi Ha c Hc. destruct (members_board a bo h Hi Ha c Hc) as [(cl & ? & _) _]. by exists cl. Qed.

Lemma spares_same out h h' : h_objects h' = h_objects h -> h_clients h' = h_clients h -> spares out h h'.
Proof using Type.
  intros E1 E2. split; unfold member, conn_closed, indexed, board_state; rewrite ?E1, ?E2; auto; try congruence.
  intros c cl Hc. exists cl. by split.
Qed.

(** A board other than by its handlers, a client other than by its queue or
    by closing its connection. *)
Lemma spares_object out a bo bo' h h' : Inv h -> h_objects h !! a = Some bo -> bo_clients bo' = bo_clients bo ->
  bo_byID bo' = bo_byID bo ->
  h_objects h' = <[a := bo']> (h_objects h) -> h_clients h' = h_clients h -> spares out h h'.
Proof using Type.
  intros Hi Ha Ec Eb E1 E2. split; unfold member, conn_closed, indexed; rewrite ?E1, ?E2; [|auto| | |congruence].
  - intros a' c (bo2 & Ha2 & Hc) _. left. rewrite lookup_insert. case_decide as E; [|by exists bo2].
    subst a'. rewrite Ha in Ha2. injection Ha2 as <-. exists bo'. by rewrite Ec.
  - intros c cl Hc. by exists cl.
  - intros _ Hx a' bo2. rewrite lookup_insert. intros Ha2.
    assert (forall c cl, h_clients h !! c = Some cl -> exists cl', h_clients h' !! c = Some cl' /\ same_client cl cl') as Hs.
    { intros c cl Hc. rewrite E2. by exists cl. }
    case_decide as E; [|eapply index_clients; [done|done|by eapply clients_some|done|by apply (Hx a')]].
    injection Ha2 as <-. eapply (index_clients bo); [done|done|by eapply clients_some|done|by apply (Hx a)].
Qed.

Lemma spares_client out k cl cl' h h' : Inv h -> h_clients h !! k = Some cl -> (c_conn cl = true -> c_conn cl' = true) ->
  same_client cl cl' ->
  h_objects h' = h_objects h -> h_clients h' = <[k := cl']> (h_clients h) -> spares out h h'.
Proof using Type.
  intros Hi Hk Hc Hs E1 E2.
  assert (forall c cl, h_clients h !! c = Some cl -> exists cl', h_clients h' !! c = Some cl' /\ same_client cl cl') as Hsame.
  { intros c cl2 Hc2. rewrite E2, lookup_insert. case_decide as E; [subst c; exists cl'; split; congruence|by exists cl2]. }
  split; unfold member, conn_closed, indexed; rewrite ?E1; [auto| |done| |].
  - intros c (cl2 & Hc2 & Hcn). rewrite E2, lookup_insert. case_decide as E; [|by exists cl2].
    subst c. rewrite Hk in Hc2. injection Hc2 as <-. exists cl'. auto.
  - intros _ Hx a bo Ha. eapply index_clients; [done|done|by eapply clients_some|done|by apply (Hx a)].
  - intros c cl2. rewrite E2, lookup_insert. case_decide; congruence.
Qed.

(** A handler of the board at [a]. *)
Lemma spares_board out a bo bo' st' h h' : Inv h -> h_objects h !! a = Some bo -> lets_go out (board_state bo h) st' ->
  h_objects h' = h_objects (put_board a bo' st' h) -> h_clients h' = heap st' -> spares out h h'.
Proof using Type.
  intros Hi Ha [H1 H2 H3 H4] E1 E2.
  assert (forall c cl, h_clients h !! c = Some cl -> exists cl', h_clients h' !! c = Some cl' /\ same_client cl cl') as Hsame.
  { intros c cl Hc. specialize (H3 c). simpl in H3. rewrite Hc in H3. rewrite E2. destruct (heap st' !! c) as [cl'|]; [|done].
    by exists cl'. }
  split; unfold member, conn_closed, indexed; rewrite ?E1; simpl; [| |done| |].
  - intros a' c (bo2 & Ha2 & Hc) Ho. rewrite E2, lookup_insert. case_decide as E; [|left; by exists bo2].
    subst a'. rewrite Ha in Ha2. injection Ha2 as <-. destruct (H1 c Hc Ho) as [?|?]; [|by right]. left. by eexists.
  - intros c (cl & Hcl & Hcn). rewrite E2. destruct (H2 c cl Hcl Hcn) as (cl' & ? & ?). by exists cl'.
  - intros Hu Hx a' bo2. rewrite lookup_insert. intros Ha2.
    case_decide as E; [|eapply index_clients; [done|done|by eapply clients_some|done|by apply (Hx a')]].
    injection Ha2 as <-. intros c cl. simpl. rewrite E2. apply (H4 Hu (Hx a bo Ha)).
  - intros c cl. rewrite E2. intros Hc Hn. specialize (H3 c). simpl in H3. by rewrite Hn, Hc in H3.
Qed.
End effects.

Section invariant.
Context {B S : Type} {BR : Broker B} {ST : Store S} {F : Float64}.
Abbreviation Hub := (Hub B S).
Implicit Types h : Hub.

Definition leaving (out : gset nat) h : Prop :=
  forall k, k ∈ out -> exists s, h_serve h !! k = Some s /\ s_pc s = SUnregister.

(** A new client, on an old board or a new one. *)
Lemma spares_new id rnd h h1 k cl : Inv h ->
  h_clients h1 = <[k := cl]> (h_clients h) -> c_id cl = newID rnd -> (h_next h <= k)%nat ->
  (forall a bo, h_objects h !! a = Some bo -> h_objects h1 !! a = Some bo) ->
  (forall a bo, h_objects h1 !! a = Some bo -> h_objects h !! a = Some bo \/ bo = newBoard id) -> spares ∅ h h1.
Proof using Type.
  intros Hi E Eid Hk Ho1 Ho2. destruct (i_fresh h Hi k Hk) as (_ & Hnc & _).
  assert (forall c cl, h_clients h !! c = Some cl -> h_clients h1 !! c = Some cl) as Hc1.
  { intros c cl0 Hc. rewrite E, lookup_insert_ne; [done|]. intros ->. congruence. }
  split.
  - intros a c (bo & Ha & Hm) _. left. exists bo. split; [by apply Ho1|done].
  - intros c (cl0 & Hc & Hcn). exists cl0. split; [by apply Hc1|done].
  - intros c cl0 Hc. exists cl0. split; [by apply Hc1|done].
  - intros _ Hx a bo Ha. destruct (Ho2 a bo Ha) as [Ha'| ->]; [|intros c cl0; simpl; set_solver].
    eapply index_clients; [done|done|by eapply clients_some| |by apply (Hx a)].
    intros c cl0 Hc. exists cl0. split; [by apply Hc1|done].
  - intros c cl0. rewrite E, lookup_insert. case_decide as Ec; [|congruence]. intros [= <-] _. split; [by exists rnd|].
    intros c2 [cl2 Hc2] Hn2. rewrite lookup_insert in Hc2. case_decide; congruence.
Qed.

Lemma serve_spares id name color rnd h h' : Inv h -> serve id name color rnd h = Some h' -> spares ∅ h h'.
Proof using Type.
  intros Hi. unfold serve, beginSession. destruct (h_closing h); [intros [= <-]; by apply spares_same|].
  destruct (defaultColor_spec color (newID rnd)) as (col & Ecol & _). simpl.
  destruct (h_boards h !! id) as [e|] eqn:Hb; rewrite Ecol; intros [= <-].
  - eapply (spares_new id rnd); [done|done|done|done|done|by left].
  - destruct (i_fresh h Hi (h_next h) ltac:(done)) as (Hn & _ & _). eapply (spares_new id rnd); [done|done|done| | |].
    + simpl. lia.
    + intros a bo Ha. simpl. rewrite lookup_insert_ne; [done|]. intros <-. congruence.
    + intros a bo. simpl. rewrite lookup_insert. case_decide; [intros [= <-]; by right|by left].
Qed.

(** A handler of a running board has changed that board. *)
Lemma on_board_opens a f h h1 : Inv h -> on_board a f h = Some (Some h1) -> exists bo st',
  h_objects h !! a = Some bo /\ board_inv a (board_state bo h) /\ f (board_state bo h) = Some st' /\ h1 = put_board a bo st' h.
Proof using Type.
  intros Hi (bo & Ha & _ & Er)%on_board_inv. destruct (f (board_state bo h)) as [st'|] eqn:Ef; [|done]. injection Er as ->.
  destruct (i_board h Hi _ bo Ha) as [Hbi _]. by exists bo, st'.
Qed.

(** A session that registers is on no board, so its board takes it as new. *)
Lemma register_lets_go k s cl bo st' h : Inv h -> h_serve h !! k = Some s -> s_pc s = SRegister -> h_clients h !! k = Some cl ->
  board_inv (s_board s) (board_state bo h) -> join k (board_state bo h) = Some st' ->
  lets_go ∅ (board_state bo h) st' /\ queued (heap st') = queued (h_clients h).
Proof using Type.
  intros Hi Hs Hp Hcl Hbi Ej. destruct (i_session h Hi k s Hs) as (_ & cl' & Hcl' & Hbd & Hreg).
  rewrite Hcl in Hcl'. injection Hcl' as <-. destruct (Hreg Hp) as [Hpr Hop].
  assert (k ∉ clients (board_state bo h)) as Hn.
  { intros Hin. destruct (bi_in _ _ Hbi k Hin) as (cl0 & Hc0 & _ & Hp0 & _). simpl in Hc0. congruence. }
  exact (join_lets_go _ k cl _ st' Hbi Hcl Hbd Hop Hn Ej).
Qed.

Lemma on_board_spares out a f h h1 h' : Inv h -> on_board a f h = Some (Some h1) ->
  (forall bo st', h_objects h !! a = Some bo -> board_inv a (board_state bo h) -> f (board_state bo h) = Some st' ->
     lets_go out (board_state bo h) st') ->
  h_objects h' = h_objects h1 -> h_clients h' = h_clients h1 -> spares out h h'.
Proof using Type.
  intros Hi Ho Hf E1 E2. destruct (on_board_opens a f h h1 Hi Ho) as (bo & st' & Ha & Hbi & Ef & ->).
  apply (spares_board out a bo bo st' h h'); [done|done|by apply Hf|done|done].
Qed.

(** Only a session that unregisters is let go with its connection as it is;
    that session has closed it before. *)
Lemma step_spares h h' : Inv h -> goes h h' -> exists out, spares out h h' /\ leaving out h.
Proof using Type.
  intros Hi Hst.
  assert (spares ∅ h h' -> exists out, spares out h h' /\ leaving out h) as Hok.
  { intros ?. exists ∅. split; [done|]. intros k Hk. set_solver. }
  unfold goes in Hst. remember (Some h') as o eqn:Eo.
  destruct Hst; try (injection Eo as <-); try (apply Hok; by apply spares_same).
  - apply Hok. by eapply serve_spares.
  - apply Hok. destruct r as [h1|]; [|done]. injection Eo as <-.
    eapply on_board_spares; [done|done| |done|done]. intros bo' st' _ Hbi Ej.
    by destruct (register_lets_go k s cl bo' st' h) as [Hl _].
  - apply Hok. unfold request_step in H2. destruct (perform f r (h_broker h)) as [? ?]. injection H2 as <- _.
    apply spares_same; by destruct r.
  - apply Hok. destruct r as [h1|]; [|done]. injection Eo as <-. destruct (session_client k s h Hi H) as (cl & Hcl & Hbd).
    eapply on_board_spares; [done|done| |done|done]. intros bo st' _ Hbi Ed.
    by destruct (direct_lets_go _ k cl data _ st' Hbi Hcl Hbd Ed) as [Hl _].
  - apply Hok. by eapply (spares_client _ k cl (set_send q cl)).
  - apply Hok. by eapply (spares_client _ k cl (set_conn cl)).
  - apply Hok. unfold release. repeat case_match; by apply spares_same.
  - apply Hok. by eapply (spares_object _ (s_board s) bo (closeQuit bo)).
  - destruct r as [h1|]; [|done]. injection Eo as <-. destruct (session_client k s h Hi H) as (cl & Hcl & Hbd).
    exists {[k]}. split; [|intros k'; rewrite elem_of_singleton; intros ->; by exists s].
    eapply on_board_spares; [done|done| |done|done]. intros bo st' _ Hbi Ed.
    by destruct (detach_lets_go _ k false cl _ st' Hbi Hcl Hbd Ed) as [Hl _].
  - apply Hok. destruct (hydrate_board_services (S := S) f1 f2 (bo_id bo) h) as (x & y & ->).
    by eapply (spares_object _ a bo (set_phase Running bo)).
  - apply Hok. subst r. eapply on_board_spares; [done|done| |done|done]. intros bo' st' Ha Hbi Ed.
    rewrite H in Ha. injection Ha as <-. by eapply dispatch_lets_go.
  - destruct (shutdown _ _) as [st'|] eqn:Es; [|done]. injection Eo as <-. destruct (i_board h Hi _ bo H) as [Hbi _].
    destruct (shutdown_lets_go _ _ _ st' Hbi H2 Es) as [Hl _].
    apply Hok. by eapply (spares_board _ a bo (set_phase Closing bo) st').
  - apply Hok. destruct (persist_board_services (S := S) f1 f2 (bo_id bo) h) as (x & y & ->).
    by eapply (spares_object _ a bo (set_phase Stopped bo)).
  - apply Hok. destruct (persist_board_services (S := S) f1 f2 id h) as (x & y & ->). by apply spares_same.
  - apply Hok. by eapply (spares_object _ a bo (closeQuit bo)).
Qed.
End invariant.
