(* ===== verification/Identity.v ===== *)
(** Identifiers over a whole run of the hub: as long as the random draws of
    [newID] do not collide, no two clients ever share one, and every board's
    index finds each of its clients. *)

From S2P Require Import Prelude Strconv Utf8 Json JsonFacts JsonLocal Protocol Broker Store Persistence Metrics Board Client Hub System Sessions.
Local Open Scope Z_scope.

Section identity.
Context {B S : Type} {BR : Broker B} {ST : Store S} {F : Float64}.
Abbreviation Hub := (Hub B S).
Implicit Types h : Hub.

(** A new client's identifier is none that has been drawn before. *)
Definition no_collision h h' : Prop := forall k cl', h_clients h' !! k = Some cl' -> h_clients h !! k = None ->
  forall j cl, h_clients h !! j = Some cl -> c_id cl <> c_id cl'.

Definition goes_apart h h' : Prop := goes h h' /\ no_collision h h'.

Record identified h : Prop := {
  id_unique : ids_unique (h_clients h);
  id_indexed : indexed h;
  id_drawn : forall k cl, h_clients h !! k = Some cl -> exists rnd, c_id cl = newID rnd;
}.

Lemma identified_new b st : identified (New b st).
Proof using Type.
  split; [intros c1 c2 cl1 cl2|intros a bo|intros k cl]; simpl; by rewrite lookup_empty.
Qed.

Lemma identified_step h h' : Inv h -> goes_apart h h' -> identified h -> identified h'.
Proof using Type.
  intros Hi [Hg Ha] [Hu Hx Hd]. destruct (step_spares h h' Hi Hg) as (out & [_ _ Hs Hix Hn] & _).
  assert (forall k cl', h_clients h' !! k = Some cl' ->
    (exists cl, h_clients h !! k = Some cl /\ c_id cl' = c_id cl) \/ h_clients h !! k = None) as Hold.
  { intros k cl' Hk. destruct (h_clients h !! k) as [cl|] eqn:E; [left|by right].
    destruct (Hs k cl E) as (cl2 & Hk2 & Ei & _). exists cl. split; [done|congruence]. }
  split; [|by apply Hix|].
  - intros c1 c2 cl1 cl2 H1 H2 E.
    destruct (Hold c1 cl1 H1) as [(o1 & O1 & E1)|N1], (Hold c2 cl2 H2) as [(o2 & O2 & E2)|N2].
    + apply (Hu c1 c2 o1 o2); congruence.
    + destruct (Ha c2 cl2 H2 N2 c1 o1 O1). congruence.
    + destruct (Ha c1 cl1 H1 N1 c2 o2 O2). congruence.
    + apply (proj2 (Hn c2 cl2 H2 N2)); [by exists cl1|done].
  - intros k cl' Hk. destruct (Hold k cl' Hk) as [(cl & O & ->)|N]; [by apply (Hd k)|by apply (Hn k)].
Qed.

Lemma apart_identified b st h : rtc goes_apart (New b st) h -> reachable b st h /\ identified h.
Proof using Type.
  apply (rtc_ind_r (fun h => reachable b st h /\ identified h)).
  - split; [apply reachable_new|apply identified_new].
  - intros h1 h2 _ Hg [Hre Hid]. split; [eapply reachable_step; [done|by destruct Hg]|].
    by eapply identified_step; [eapply reachable_inv|..].
Qed.

(** ** Cursors *)

Definition first_publication (p : prog) : list string := match p with Client.Step r _ => published r | Done => [] end.

Context {FL : Float64Laws}.

(** What a connection publishes as a cursor carries its own identifier. *)
Lemma published_cursor bid cl env msg : utf8 (c_id cl) -> publishCursor bid cl env = request_ (RPublish bid msg) ->
  is_cursor msg = true /\ cursor_origin msg = c_id cl.
Proof using FL.
  intros Hu E. destruct (publishCursor_stamped bid cl env Hu) as [E0|(msg' & E' & Hc)]; [by rewrite E0 in E|].
  rewrite E' in E. apply (f_equal first_publication) in E. simpl in E. injection E as ->. done.
Qed.

Lemma cursor_shared_with_others h a bo k cl bid env msg order : Inv h -> identified h ->
  h_objects h !! a = Some bo -> bo_phase bo = Running -> k ∈ bo_clients bo -> h_clients h !! k = Some cl ->
  publishCursor bid cl env = request_ (RPublish bid msg) -> enumerates order (board_state bo h) ->
  exists h', on_board a (dispatch order msg) h = Some (Some h') /\ h_clients h' !! k = Some cl /\
    forall k' cl', k' <> k -> k' ∈ bo_clients bo -> h_clients h !! k' = Some cl' ->
      h_clients h' !! k' = Some (if room cl' then enqueue msg cl' else cl').
Proof using FL.
  intros Hi Hid Ha Hp Hk Hcl Hpub He. destruct (id_drawn h Hid k cl Hcl) as [rnd Er].
  destruct (published_cursor bid cl env msg) as [Hc Ho]; [rewrite Er; apply newID_utf8|done|].
  destruct (i_board h Hi a bo Ha) as [Hbi _].
  destruct (dispatch_cursor a order k cl msg _ Hbi (id_indexed h Hid a bo Ha) He Hk Hcl Hc Ho) as (st' & E & _ & H1 & H2).
  exists (put_board a bo st' h). split_and!; [|done|done].
  unfold on_board. rewrite Ha. simpl. rewrite bool_decide_true by done. by rewrite E.
Qed.
End identity.
