(* ===== verification/Lifecycle.v ===== *)
(** What the interleaved hub guarantees: progress of its goroutines, consistent
    counters, what Shutdown waits for, and the two races it leaves open. *)

From S2P Require Import Prelude Strconv Utf8 Json JsonFacts JsonLocal Protocol Broker Store Persistence Metrics Board Client Hub System Sessions.
Local Open Scope Z_scope.

Section lifecycle.
Context {B S : Type} {BR : Broker B} {ST : Store S} {F : Float64}.
Abbreviation Hub := (Hub B S).
Implicit Types h : Hub.

(** ** Joining *)

(** Until Shutdown, a session that is about to register finds its board in
    the registry, open, and in its loop or on its way there. *)
Lemma register_open b st h k s : reachable b st h -> h_closing h = false ->
  h_serve h !! k = Some s -> s_pc s = SRegister ->
  exists bo e, h_objects h !! s_board s = Some bo /\ h_boards h !! bo_id bo = Some e /\
    be_board e = s_board s /\ bo_quit bo = false /\ (bo_phase bo = Starting \/ bo_phase bo = Running).
Proof using Type.
  intros Hre Hcl Hs Hp. pose proof (reachable_inv b st h Hre) as Hi.
  destruct (i_held h Hi Hcl k s Hs) as (bo & e & Ha & He & Ee); [by rewrite Hp|].
  exists bo, e. destruct (i_entry h Hi _ e He) as (bo' & Ha' & _ & Hq & _). rewrite Ee, Ha in Ha'.
  injection Ha' as <-. split_and!; [done..|]. destruct (bo_phase bo) eqn:E; auto.
  - pose proof (i_phase h Hi _ bo Ha (or_introl E)). congruence.
  - pose proof (i_phase h Hi _ bo Ha (or_intror E)). congruence.
Qed.

Lemma set_object_lookup a (bo : Board) h : h_objects (set_object a bo h) !! a = Some bo.
Proof using Type. apply lookup_insert_eq. Qed.

(** A board in its loop takes the registration. *)
Lemma register_enabled e h k s bo : Inv h -> h_serve h !! k = Some s -> s_pc s = SRegister ->
  h_objects h !! s_board s = Some bo -> bo_phase bo = Running ->
  exists h' s' p, steps e h (Some h') /\ h_serve h' !! k = Some s' /\ s_pc s' = SOnboard p /\
    exists bo, h_objects h' !! s_board s = Some bo /\ k ∈ bo_clients bo.
Proof using Type.
  intros Hi Hs Hp Ha Hph. destruct (i_session h Hi k s Hs) as (_ & cl & Hcl & Hb & Hreg).
  destruct (Hreg Hp) as [Hpr Ho]. destruct (i_board h Hi _ bo Ha) as [Hbi _].
  assert (k ∉ clients (board_state bo h)) as Hn.
  { intros Hin. destruct (bi_in _ _ Hbi k Hin) as (cl0 & Hc0 & _ & Hp0 & _). simpl in Hc0. congruence. }
  destruct (join_spec _ k cl _ Hbi Hcl Hb Ho Hn) as (st' & E & _ & Hc & _).
  assert (on_board (s_board s) (join k) h = Some (Some (put_board (s_board s) bo st' h))) as Eon.
  { unfold on_board. rewrite Ha. simpl. rewrite bool_decide_true by done. by rewrite E. }
  pose proof (step_register (e := e) h k s cl bo _ Hs Hp Hcl Ha Eon) as Hst. simpl in Hst.
  eexists _, _, _. split; [exact Hst|]. split; [simpl; by rewrite lookup_insert_eq|]. split; [done|].
  eexists. simpl. rewrite lookup_insert_eq. split; [done|]. simpl. rewrite Hc. set_solver.
Qed.

(** So its join is never lost: it completes in at most two steps. *)
Lemma register_completes b st h k s : reachable b st h -> h_closing h = false ->
  h_serve h !! k = Some s -> s_pc s = SRegister ->
  exists h' s' p, rtc goes h h' /\ h_serve h' !! k = Some s' /\ s_pc s' = SOnboard p /\
    exists bo, h_objects h' !! s_board s = Some bo /\ k ∈ bo_clients bo.
Proof using Type.
  intros Hre Hcl Hs Hp.
  destruct (register_open b st h k s Hre Hcl Hs Hp) as (bo & e & Ha & _ & _ & _ & [Hph|Hph]).
  - set (h1 := set_object (s_board s) (set_phase Running bo) (hydrate_board Delivered Delivered (bo_id bo) h)).
    assert (goes h h1) as Hg by (by apply step_start).
    pose proof (reachable_inv b st h1 (reachable_step b st h h1 Hre Hg)) as Hi1.
    destruct (register_enabled Busy h1 k s (set_phase Running bo) Hi1) as (h' & s' & p & Hg' & H'); [|done| |done|].
    + unfold h1. destruct (hydrate_board_services (S := S) Delivered Delivered (bo_id bo) h) as (x & y & ->). done.
    + apply set_object_lookup.
    + exists h', s', p. split; [|done]. eapply rtc_l; [exact Hg|]. by apply rtc_once.
  - destruct (register_enabled Busy h k s bo (reachable_inv b st h Hre) Hs Hp Ha Hph) as (h' & s' & p & Hg' & H').
    exists h', s', p. split; [|done]. by apply rtc_once.
Qed.

(** ** Leaving *)

(** A board in its loop takes the unregistration. *)
Lemma unregister_enabled e h k s bo : Inv h -> h_serve h !! k = Some s -> s_pc s = SUnregister ->
  h_objects h !! s_board s = Some bo -> bo_phase bo = Running ->
  exists h' s', steps e h (Some h') /\ h_serve h' !! k = Some s' /\ s_pc s' = SEnd.
Proof using Type.
  intros Hi Hs Hp Ha Hph. destruct (session_client k s h Hi Hs) as (cl & Hcl & Hb).
  destruct (i_board h Hi _ bo Ha) as [Hbi _].
  destruct (detach_relays (s_board s) k cl false _ Hbi Hcl Hb) as (st' & E & _).
  assert (on_board (s_board s) (detach k false) h = Some (Some (put_board (s_board s) bo st' h))) as Eon.
  { unfold on_board. rewrite Ha. simpl. rewrite bool_decide_true by done. by rewrite E. }
  pose proof (step_unregister (e := e) h k s _ Hs Hp Eon) as Hst. simpl in Hst.
  eexists _, _. split; [exact Hst|]. simpl. by rewrite lookup_insert_eq.
Qed.

(** The send on unregister cannot block for ever, whatever the board is
    doing: the session is past it after at most two steps. *)
Lemma unregister_completes b st h k s : reachable b st h -> h_serve h !! k = Some s -> s_pc s = SUnregister ->
  exists h' s', rtc goes h h' /\ h_serve h' !! k = Some s' /\ s_pc s' = SEnd.
Proof using Type.
  intros Hre Hs Hp. pose proof (reachable_inv b st h Hre) as Hi.
  destruct (i_session h Hi k s Hs) as ([bo Ha] & _).
  destruct (bo_phase bo) eqn:Hph.
  - set (h1 := set_object (s_board s) (set_phase Running bo) (hydrate_board Delivered Delivered (bo_id bo) h)).
    assert (goes h h1) as Hg by (by apply step_start).
    destruct (unregister_enabled Busy h1 k s (set_phase Running bo)) as (h' & s' & Hg' & H').
    + exact (reachable_inv b st h1 (reachable_step b st h h1 Hre Hg)).
    + unfold h1. destruct (hydrate_board_services (S := S) Delivered Delivered (bo_id bo) h) as (x & y & ->). done.
    + done.
    + apply set_object_lookup.
    + done.
    + exists h', s'. split; [|done]. eapply rtc_l; [exact Hg|]. by apply rtc_once.
  - destruct (unregister_enabled Busy h k s bo Hi Hs Hp Ha Hph) as (h' & s' & Hg' & H'). exists h', s'. split; [|done]. by apply rtc_once.
  - set (h1 := emit_hub EBoardClosed (set_object (s_board s) (set_phase Stopped bo)
      (persist_board Delivered Delivered (bo_id bo) h))).
    assert (goes h h1) as Hg by (by apply step_persist).
    assert (h_serve h1 !! k = Some s) as Hs1.
    { unfold h1. destruct (persist_board_services (S := S) Delivered Delivered (bo_id bo) h) as (x & y & ->). done. }
    eexists _, _. split; [eapply rtc_l; [exact Hg|]; apply rtc_once|].
    + apply (step_unregister_done h1 k s (set_phase Stopped bo) Hs1 Hp); [|done]. apply lookup_insert_eq.
    + simpl. by rewrite lookup_insert_eq.
  - eexists _, _. split; [apply rtc_once, (step_unregister_done h k s bo Hs Hp Ha Hph)|].
    simpl. by rewrite lookup_insert_eq.
Qed.

(** ** The registry *)

Definition entries_positive h : Prop := forall id e, h_boards h !! id = Some e -> 0 < be_count e.

(** A registered board has at least one session. *)
Lemma entries_positive_step h h' : Inv h -> entries_positive h -> goes h h' -> entries_positive h'.
Proof using Type.
  intros Hi Hpos Hst. unfold goes in Hst. remember (Some h') as o eqn:Eo. destruct Hst; try (injection Eo as <-);
    try exact Hpos.
  - unfold serve, beginSession in Eo. destruct (h_closing h); [by injection Eo as <-|].
    destruct (defaultColor_spec color (newID rnd)) as (col & Ecol & _). simpl in Eo.
    destruct (h_boards h !! id) as [e|] eqn:He; rewrite Ecol in Eo; injection Eo as <-;
      intros id' e'; simpl; rewrite lookup_insert; case_decide; try (by apply Hpos); intros [= <-]; simpl; [|done].
    pose proof (Hpos _ _ He). lia.
  - apply on_board_inv in H3 as (bo' & _ & _ & ->). destruct (join _ _); [|done]. injection Eo as <-. exact Hpos.
  - unfold request_step in H2. destruct (perform f r (h_broker h)) as [? ?]. injection H2 as <- _.
    by destruct r.
  - apply on_board_inv in H1 as (bo' & _ & _ & ->). destruct (direct _ _ _); [|done]. injection Eo as <-. exact Hpos.
  - unfold release. destruct (h_objects h !! s_board s) as [bo|]; [|done].
    destruct (h_boards h !! bo_id bo) as [e|] eqn:He; [|done]. case_bool_decide as Ebe; [|done].
    destruct (i_entry h Hi _ e He) as (_ & _ & _ & _ & Hc).
    assert (0 < mcount (holds (be_board e)) (h_serve h)) as Hm.
    { apply (mcount_pos _ _ k s H). unfold holds. by rewrite bool_decide_true, H0. }
    case_bool_decide as El; intros id' e'; simpl.
    + intros [_ He']%lookup_delete_Some. by apply (Hpos id').
    + rewrite lookup_insert. case_decide; [|by apply Hpos]. intros [= <-]. simpl. lia.
  - apply on_board_inv in H1 as (bo' & _ & _ & ->). destruct (detach _ _ _); [|done]. injection Eo as <-. exact Hpos.
  - unfold hydrate_board. by destruct (h_store h).
  - apply on_board_inv in H1 as (bo' & _ & _ & ->). destruct (dispatch _ _ _); [|done]. injection Eo as <-. exact Hpos.
  - destruct (shutdown _ _); [|done]. injection Eo as <-. exact Hpos.
  - destruct (persist_board_services (S := S) f1 f2 (bo_id bo) h) as (x & y & ->). exact Hpos.
  - destruct (persist_board_services (S := S) f1 f2 id h) as (x & y & ->). exact Hpos.
  - intros id e. simpl. by rewrite lookup_empty.
Qed.

Lemma reachable_positive b st h : reachable b st h -> entries_positive h.
Proof using Type.
  induction 1 as [|h h' Hre IH Hst]; [intros id e; simpl; by rewrite lookup_empty|].
  eapply entries_positive_step; [by eapply reachable_inv|done|done].
Qed.
End lifecycle.

(** ** The life of a board *)

Definition rank (p : phase) : Z := match p with Starting => 0 | Running => 1 | Closing => 2 | Stopped => 3 end.

Section boards.
Context {B S : Type} {BR : Broker B} {ST : Store S} {F : Float64}.
Abbreviation Hub := (Hub B S).
Implicit Types h : Hub.

(** [ages bo bo']: the same board, later. *)
Definition ages (bo bo' : Board) : Prop :=
  bo_id bo' = bo_id bo /\ rank (bo_phase bo) <= rank (bo_phase bo') /\ (bo_quit bo = true -> bo_quit bo' = true).

Definition ageing h h' : Prop := forall a bo, h_objects h !! a = Some bo ->
  exists bo', h_objects h' !! a = Some bo' /\ ages bo bo'.

Lemma ageing_same h h' : h_objects h' = h_objects h -> ageing h h'.
Proof using Type. intros E a bo Ha. exists bo. rewrite E. split; [done|]. split_and!; [done|lia|done]. Qed.

Lemma ageing_insert h h' a0 bo0 bo0' : h_objects h !! a0 = Some bo0 ->
  h_objects h' = <[a0 := bo0']> (h_objects h) -> ages bo0 bo0' -> ageing h h'.
Proof using Type.
  intros H0 E Hag a bo Ha. rewrite E, lookup_insert. case_decide as Ea.
  - subst a. rewrite H0 in Ha. injection Ha as <-. eauto.
  - exists bo. split; [done|]. split_and!; [done|lia|done].
Qed.

Lemma ageing_on_board a f h r h' : on_board a f h = Some r -> r = Some h' -> ageing h h'.
Proof using Type.
  intros (bo & Ha & Hp & ->)%on_board_inv E. destruct (f _) as [st|]; [|done]. injection E as <-.
  eapply ageing_insert; [done|done|]. by split_and!.
Qed.

(** A board's phases only move forward, its quit signal is permanent and its
    identifier fixed. *)
Lemma step_ageing h h' : Inv h -> goes h h' -> ageing h h'.
Proof using Type.
  intros Hi Hst. unfold goes in Hst. remember (Some h') as o eqn:Eo.
  destruct Hst; try (injection Eo as <-); try (by apply ageing_same).
  - unfold serve, beginSession in Eo. destruct (h_closing h); [by injection Eo as <-; apply ageing_same|].
    destruct (defaultColor_spec color (newID rnd)) as (col & Ecol & _). simpl in Eo.
    destruct (h_boards h !! id) as [e|] eqn:He; rewrite Ecol in Eo; injection Eo as <-; [by apply ageing_same|].
    intros a bo Ha. exists bo. simpl. rewrite lookup_insert_ne.
    + split; [done|]. split_and!; [done|lia|done].
    + intros <-. destruct (i_fresh h Hi (h_next h)) as (G & _); [done|]. congruence.
  - destruct r as [h1|]; [|done]. injection Eo as <-.
    exact (ageing_on_board _ _ _ _ _ H3 eq_refl).
  - unfold request_step in H2. destruct (perform f r (h_broker h)) as [? ?]. injection H2 as <- _.
    destruct r; by apply ageing_same.
  - destruct r as [h1|]; [|done]. injection Eo as <-. exact (ageing_on_board _ _ _ _ _ H1 eq_refl).
  - unfold release. repeat case_match; by apply ageing_same.
  - eapply ageing_insert; [done|done|]. split_and!; [done|simpl; lia|done].
  - destruct r as [h1|]; [|done]. injection Eo as <-. exact (ageing_on_board _ _ _ _ _ H1 eq_refl).
  - eapply (ageing_insert _ _ a bo (set_phase Running bo)); [done| |].
    + destruct (hydrate_board_services (S := S) f1 f2 (bo_id bo) h) as (x & y & ->). done.
    + unfold ages. rewrite H0. by split_and!.
  - by eapply ageing_on_board.
  - destruct (shutdown _ _) as [st|]; [|done]. injection Eo as <-.
    eapply ageing_insert; [done|done|]. unfold ages. rewrite H0. by split_and!.
  - eapply (ageing_insert _ _ a bo (set_phase Stopped bo)); [done| |].
    + destruct (persist_board_services (S := S) f1 f2 (bo_id bo) h) as (x & y & ->). done.
    + unfold ages. rewrite H0. by split_and!.
  - destruct (persist_board_services (S := S) f1 f2 id h) as (x & y & ->). by apply ageing_same.
  - eapply ageing_insert; [done|done|]. split_and!; [done|simpl; lia|done].
Qed.

Lemma stopped_step h h' a : Inv h -> goes h h' -> stopped a h -> stopped a h'.
Proof using Type.
  intros Hi Hst (bo & Ha & Hp). destruct (step_ageing h h' Hi Hst a bo Ha) as (bo' & Ha' & _ & Hr & _).
  exists bo'. split; [done|]. rewrite Hp in Hr. by destruct (bo_phase bo').
Qed.

(** ** Closing *)

(** Once closing, always closing, and no session is admitted any more. *)
Lemma closing_step h h' : goes h h' -> h_closing h = true ->
  h_closing h' = true /\ forall k, h_serve h !! k = None -> h_serve h' !! k = None.
Proof using Type.
  intros Hst Hc. unfold goes in Hst. remember (Some h') as o eqn:Eo.
  assert (forall k k' (s s' : Session), h_serve h !! k' = Some s -> h_serve h !! k = None ->
    <[k' := s']> (h_serve h) !! k = None) as Hins.
  { intros k k' s s' Hk' Hk. rewrite lookup_insert_ne; [done|]. intros ->. congruence. }
  destruct Hst; try (injection Eo as <-); try (by split);
    try (split; [done|]; intros k'; simpl; by eapply Hins).
  - unfold serve, beginSession in Eo. rewrite Hc in Eo. by injection Eo as <-.
  - apply on_board_inv in H3 as (bo' & _ & _ & ->). destruct (join _ _); [|done]. injection Eo as <-.
    split; [done|]. intros k'. simpl. by eapply Hins.
  - unfold request_step in H2. destruct (perform f r (h_broker h)) as [? ?]. injection H2 as <- _.
    split; [by destruct r|]. intros k'. destruct r; simpl; by eapply Hins.
  - apply on_board_inv in H1 as (bo' & _ & _ & ->). destruct (direct _ _ _); [|done]. injection Eo as <-.
    split; [done|]. intros k'. simpl. by eapply Hins.
  - split; [unfold release; by repeat case_match|]. intros k'.
    unfold release. repeat case_match; simpl; try by eapply Hins. done.
  - apply on_board_inv in H1 as (bo' & _ & _ & ->). destruct (detach _ _ _); [|done]. injection Eo as <-.
    split; [done|]. intros k'. simpl. by eapply Hins.
  - split; [done|]. intros k' Hk'. simpl. apply lookup_delete_None. by right.
  - destruct (hydrate_board_services (S := S) f1 f2 (bo_id bo) h) as (x & y & ->). by split.
  - apply on_board_inv in H1 as (bo' & _ & _ & ->). destruct (dispatch _ _ _); [|done]. by injection Eo as <-.
  - destruct (shutdown _ _); [|done]. by injection Eo as <-.
  - destruct (persist_board_services (S := S) f1 f2 (bo_id bo) h) as (x & y & ->). by split.
  - destruct (persist_board_services (S := S) f1 f2 id h) as (x & y & ->). by split.
Qed.
End boards.

(** ** Shutdown *)

Section shutdown.
Context {B S : Type} {BR : Broker B} {ST : Store S} {F : Float64}.
Abbreviation Hub := (Hub B S).
Implicit Types h : Hub.

(** Shutdown's own moves; every other step leaves it alone. *)
Inductive shut_moves (e : surroundings) h : shutpc -> Prop :=
  | sm_begin order : order ≡ₚ (fun kv : string * boardEntry => be_board kv.2) <$> map_to_list (h_boards h) ->
      h_shut h = HNone -> inputs e = true -> shut_moves e h (HClosing order order)
  | sm_quit a todo all : h_shut h = HClosing (a :: todo) all -> shut_moves e h (HClosing todo all)
  | sm_wait all : h_shut h = HClosing [] all -> shut_moves e h (HWaitBoards all all)
  | sm_board a todo all : h_shut h = HWaitBoards (a :: todo) all -> stopped a h -> shut_moves e h (HWaitBoards todo all)
  | sm_boards all : h_shut h = HWaitBoards [] all -> shut_moves e h (HWaitSessions all)
  | sm_sessions all : h_shut h = HWaitSessions all -> h_sessions h = 0 -> shut_moves e h (HReturned true all)
  | sm_timeout all : (exists todo, h_shut h = HWaitBoards todo all) \/ h_shut h = HWaitSessions all ->
      inputs e = true -> shut_moves e h (HReturned false all).

Lemma shut_step e h h' : Inv h -> steps e h (Some h') ->
  h_shut h' = h_shut h /\ h_closing h' = h_closing h \/ shut_moves e h (h_shut h') /\ h_closing h' = true.
Proof using Type.
  intros Hi Hst. assert (forall p, h_shut h = p -> p <> HNone -> h_closing h = true) as Hcl.
  { intros p <- Hp. by apply shut_closing. }
  remember (Some h') as o eqn:Eo. destruct Hst; try (injection Eo as <-); try (by left).
  - left. unfold serve, beginSession in Eo. destruct (h_closing h) eqn:Hc; [by injection Eo as <-|].
    destruct (defaultColor_spec color (newID rnd)) as (col & Ecol & _). simpl in Eo.
    destruct (h_boards h !! id) as [be|] eqn:He; rewrite Ecol in Eo; by injection Eo as <-.
  - apply on_board_inv in H3 as (bo' & _ & _ & ->). destruct (join _ _); [|done]. injection Eo as <-. by left.
  - left. unfold request_step in H2. destruct (perform f r (h_broker h)) as [? ?]. injection H2 as <- _. by destruct r.
  - apply on_board_inv in H1 as (bo' & _ & _ & ->). destruct (direct _ _ _); [|done]. injection Eo as <-. by left.
  - left. unfold release. by repeat case_match.
  - apply on_board_inv in H1 as (bo' & _ & _ & ->). destruct (detach _ _ _); [|done]. injection Eo as <-. by left.
  - left. by destruct (hydrate_board_services (S := S) f1 f2 (bo_id bo) h) as (x & y & ->).
  - apply on_board_inv in H1 as (bo' & _ & _ & ->). destruct (dispatch _ _ _); [|done]. injection Eo as <-. by left.
  - destruct (shutdown _ _); [|done]. injection Eo as <-. by left.
  - left. by destruct (persist_board_services (S := S) f1 f2 (bo_id bo) h) as (x & y & ->).
  - left. by destruct (persist_board_services (S := S) f1 f2 id h) as (x & y & ->).
  - right. split; [|done]. apply sm_begin; [done|by apply (i_shut h Hi)|done].
  - right. split; [by eapply sm_quit|]. by apply (Hcl _ H).
  - right. split; [by eapply sm_wait|]. by apply (Hcl _ H).
  - right. split; [eapply sm_board; [done|by exists bo]|]. by apply (Hcl _ H).
  - right. split; [by eapply sm_boards|]. by apply (Hcl _ H).
  - right. split; [by eapply sm_sessions|]. by apply (Hcl _ H).
  - right. split; [by eapply sm_timeout|]. destruct H as [[todo H]|H]; by apply (Hcl _ H).
Qed.

Definition shut_inv h : Prop :=
  match h_shut h with
  | HWaitBoards todo all => forall a, a ∈ all -> a ∈ todo \/ stopped a h
  | HWaitSessions all => forall a, a ∈ all -> stopped a h
  | HReturned true all => (forall a, a ∈ all -> stopped a h) /\ h_serve h = ∅
  | _ => True
  end.

Lemma serve_empty_step h h' : goes h h' -> h_closing h = true -> h_serve h = ∅ -> h_serve h' = ∅.
Proof using Type.
  intros Hst Hc He. destruct (closing_step h h' Hst Hc) as [_ Hn]. apply map_eq. intros k.
  rewrite lookup_empty. apply Hn. by rewrite He, lookup_empty.
Qed.

Lemma shut_same h h' : Inv h -> goes h h' -> h_shut h' = h_shut h -> shut_inv h -> shut_inv h'.
Proof using Type.
  intros Hi Hst E H0. unfold shut_inv in *. rewrite E. destruct (h_shut h) as [| |todo all|all|[] all] eqn:Es; try done.
  - intros a Ha. destruct (H0 a Ha); [by left|]. right. by eapply stopped_step.
  - intros a Ha. eapply stopped_step; [done..|]. by apply H0.
  - destruct H0 as [H1 H2]. split; [intros a Ha; eapply stopped_step; [done..|]; by apply H1|].
    apply (serve_empty_step h); [done| |done]. apply shut_closing; [done|]. by rewrite Es.
Qed.

Lemma shut_inv_step h h' : Inv h -> goes h h' -> shut_inv h -> shut_inv h'.
Proof using Type.
  intros Hi Hst H0. destruct (shut_step Busy h h' Hi Hst) as [[E _]|[Hm Hc]]; [by apply (shut_same h)|].
  assert (forall a, stopped a h -> stopped a h') as Hstop by (intros a; by apply stopped_step).
  unfold shut_inv in *. destruct Hm as [order _ E _|b todo all E|all E|b todo all E Hb|all E|all E En|all E _]; try rewrite E in H0; try done.
  - auto.
  - intros a Ha. destruct (H0 a Ha) as [[->|?]%elem_of_cons|?]; auto.
  - intros a Ha. destruct (H0 a Ha) as [Hin|?]; [by apply elem_of_nil in Hin|auto].
  - split; [auto|]. apply (serve_empty_step h); [done|apply shut_closing; [done|by rewrite E]|].
    apply map_eq. intros k. rewrite lookup_empty. destruct (h_serve h !! k) as [s|] eqn:Es; [|done]. exfalso.
    pose proof (mcount_pos (fun _ => true) _ k s Es eq_refl). rewrite <-(i_sessions h Hi) in *. lia.
Qed.

Lemma reachable_shut b st h : reachable b st h -> shut_inv h.
Proof using Type.
  induction 1 as [|h h' Hre IH Hst]; [done|]. eapply shut_inv_step; [by eapply reachable_inv|done|done].
Qed.

(** ** A join that Shutdown overtakes *)

(** The session is about to register with a board whose goroutine is gone. *)
Definition stuck (k : nat) h : Prop :=
  exists s, h_serve h !! k = Some s /\ s_pc s = SRegister /\ stopped (s_board s) h.

Lemma stuck_step h h' k : Inv h -> goes h h' -> stuck k h -> stuck k h'.
Proof using Type.
  intros Hi Hst (s & Hs & Hp & Hstop). pose proof (stopped_step h h' (s_board s) Hi Hst Hstop) as Hstop'.
  pose proof (session_next h h' k s Hi Hst Hs) as Hn. destruct (h_serve h' !! k) as [s'|] eqn:Hs'; [|congruence].
  destruct Hn as [Hm Hj]. assert (s_board s' = s_board s) as Eb by (destruct Hm as [->|Hm]; [done|by apply moves_board]).
  destruct (Hj Hp) as [Hp'|(bo & Ha & Hin)]; [exists s'; by rewrite Eb|].
  destruct Hstop' as (bo' & Ha' & Hph). rewrite Ha in Ha'. injection Ha' as <-.
  destruct (step_inv h (Some h') Hi Hst) as (h2 & [= <-] & Hi').
  destruct (i_board h' Hi' _ bo Ha) as [_ He]. rewrite He in Hin by congruence. set_solver.
Qed.

(** Once stuck, for ever: the session never leaves, and no Shutdown returns nil. *)
Lemma stuck_forever b st h h' k : reachable b st h -> stuck k h -> rtc goes h h' ->
  reachable b st h' /\ stuck k h' /\ forall all, h_shut h' <> HReturned true all.
Proof using Type.
  intros Hre Hst Hrtc. assert (reachable b st h' /\ stuck k h') as [Hre' Hst'].
  { induction Hrtc as [|h h1 h' Hg _ IH]; [done|]. apply IH; [by eapply reachable_step|].
    eapply stuck_step; [by eapply reachable_inv|done|done]. }
  split_and!; [done|done|]. intros all E. pose proof (reachable_shut b st h' Hre') as Hsh.
  unfold shut_inv in Hsh. rewrite E in Hsh. destruct Hsh as [_ Hsh].
  destruct Hst' as (s & Hs & _). by rewrite Hsh, lookup_empty in Hs.
Qed.
End shutdown.

(** ** Counters *)

Section counters.
Context {B S : Type} {BR : Broker B} {ST : Store S} {F : Float64}.
Abbreviation Hub := (Hub B S).
Implicit Types h : Hub.

(** When the last session is gone the registry is empty and every board the
    hub ever made has stopped or been told to. *)
Lemma quiescent b st h : reachable b st h -> h_closing h = false -> h_serve h = ∅ ->
  h_boards h = ∅ /\ (forall a bo, h_objects h !! a = Some bo -> bo_quit bo = true) /\
  h_sessions h = 0 /\ total event_conns (h_trace h) = 0.
Proof using Type.
  intros Hre Hcl Hs. pose proof (reachable_inv b st h Hre) as Hi.
  pose proof (reachable_positive b st h Hre) as Hpos.
  assert (h_boards h = ∅) as Hb.
  { apply map_eq. intros id. rewrite lookup_empty. destruct (h_boards h !! id) as [e|] eqn:He; [|done]. exfalso.
    destruct (i_entry h Hi id e He) as (_ & _ & _ & _ & Hc). pose proof (Hpos id e He).
    rewrite Hs, mcount_empty in Hc. lia. }
  split_and!; [done| | |].
  - intros a bo Ha. destruct (bo_quit bo) eqn:Hq; [done|]. exfalso.
    destruct (i_quit h Hi a bo Ha Hq) as [(e & He & _)|[(k & s & Hk & _)|(todo & all & E & _)]].
    + by rewrite Hb, lookup_empty in He.
    + by rewrite Hs, lookup_empty in Hk.
    + by rewrite (i_shut h Hi Hcl) in E.
  - by rewrite (i_sessions h Hi), Hs, mcount_empty.
  - by rewrite (i_conns h Hi), Hs, mcount_empty.
Qed.
End counters.
