(* ===== verification/Liveness.v ===== *)
(** What the hub does by itself: left alone by its surroundings, it comes to
    rest after finitely many steps, however its goroutines are scheduled,
    whatever the broker and the store answer and whichever connections break
    meanwhile; and where it comes to rest nobody is stuck. *)

From S2P Require Import Prelude Strconv Utf8 Json JsonFacts JsonLocal Protocol Broker Store Persistence Metrics Board Client Hub System Sessions Lifecycle.
Local Open Scope Z_scope.

(** ** The invariant *)

Section invariant.
Context {B S : Type} {BR : Broker B} {ST : Store S} {F : Float64}.
Abbreviation Hub := (Hub B S).
Implicit Types h : Hub.

(** The sessions are sane; one that is attached is in its board's client set,
    unless its connection has been closed; the boards Shutdown has to visit
    exist. *)
Definition to_visit (p : shutpc) : list nat :=
  match p with HClosing todo all => todo ++ all | HWaitBoards todo _ => todo | _ => [] end.

Record Live h : Prop := {
  lv_sane : forall k s, h_serve h !! k = Some s -> sane s;
  lv_member : forall k s, h_serve h !! k = Some s -> attached (s_pc s) = true ->
    member (s_board s) k h \/ conn_closed k h;
  lv_shut : h_closing h = true -> h_shut h <> HNone;
  lv_visit : forall a, a ∈ to_visit (h_shut h) -> is_Some (h_objects h !! a);
}.

Lemma Live_new b st : Live (New b st).
Proof using Type.
  split; simpl; try done; [intros k s; by rewrite lookup_empty..|]. intros a. by rewrite elem_of_nil.
Qed.

Lemma attached_moves s s' : moves s s' -> attached (s_pc s') = true -> attached (s_pc s) = true \/ s_pc s = SRegister.
Proof using Type.
  destruct 1 as [bid cl Hp|X r next back x Hp|Hp|bid cl data Hp|Hp|Hp|Hp|Hp|bid cl Hp Hw|Hp|q Hp Hq|Hp|Hp]; simpl; try done;
    rewrite ?Hp; auto.
  - destruct (s_pc s); try done; injection Hp as _ <-; auto.
  - by destruct Hq as [->|[->| ->]].
Qed.
Lemma visit_moves e h p : Inv h -> shut_moves e h p -> (forall a, a ∈ to_visit (h_shut h) -> is_Some (h_objects h !! a)) ->
  forall a, a ∈ to_visit p -> is_Some (h_objects h !! a).
Proof using Type.
  intros Hi Hm H0 a Ha. destruct Hm as [order Ho E _|b todo all E|all E|b todo all E _|all E|all E _|all E _]; simpl in *;
    try (by apply elem_of_nil in Ha).
  - assert (a ∈ order) as Hin by (apply elem_of_app in Ha; tauto).
    rewrite Ho in Hin. apply list_elem_of_fmap in Hin as ([id be] & -> & He). apply elem_of_map_to_list in He.
    destruct (i_entry h Hi id be He) as (bo & ? & _). by exists bo.
  - apply H0. rewrite E. by right.
  - apply H0. by rewrite E.
  - apply H0. rewrite E. by right.
Qed.

Lemma Live_step h h' : Inv h -> goes h h' -> Live h -> Live h'.
Proof using Type.
  intros Hi Hst [H1 H2 H3 H4]. split.
  - intros k s' Hs'. apply (changes_sane (h_serve h !! k)); [by intros s Hs; apply (H1 k)|].
    by apply (session_previous h h').
  - intros k s' Hs' Hatt. pose proof (session_previous h h' k s' Hi Hst Hs') as Hc.
    destruct (h_serve h !! k) as [s|] eqn:Hs; simpl in Hc; [|destruct Hc as [Hp _]; by rewrite Hp in Hatt].
    assert (s_board s' = s_board s) as -> by (destruct Hc as [->|Hm]; [done|by apply moves_board]).
    assert (attached (s_pc s) = true -> member (s_board s) k h' \/ conn_closed k h') as Hkeep.
    { intros Ha. destruct (step_spares h h' Hi Hst) as (out & [S1 S2] & Hl).
      destruct (H2 k s Hs Ha) as [Hm|?]; [|right; by apply S2]. apply S1; [done|]. intros Hin.
      destruct (Hl k Hin) as (s0 & Hs0 & Hp). rewrite Hs in Hs0. injection Hs0 as <-. by rewrite Hp in Ha. }
    pose proof (session_next h h' k s Hi Hst Hs) as Hn. rewrite Hs' in Hn. destruct Hn as [_ Hj].
    destruct Hc as [->|Hm]; [by apply Hkeep|]. destruct (attached_moves s s' Hm Hatt) as [?|Hp]; [by apply Hkeep|].
    destruct (Hj Hp) as [Hp'|?]; [by rewrite Hp' in Hatt|by left].
  - destruct (shut_step Busy h h' Hi Hst) as [[-> ->]|[Hm _]]; [done|]. intros _. by destruct Hm.
  - intros a Ha. assert (is_Some (h_objects h !! a)) as [bo Hbo].
    { destruct (shut_step Busy h h' Hi Hst) as [[E _]|[Hm _]]; [apply H4; by rewrite <-E|]. by eapply visit_moves. }
    destruct (step_ageing h h' Hi Hst a bo Hbo) as (bo' & ? & _). by exists bo'.
Qed.

Lemma reachable_live b st h : reachable b st h -> Live h.
Proof using Type.
  induction 1 as [|h h' Hre IH Hst]; [apply Live_new|]. apply (Live_step h); [by eapply reachable_inv|done|done].
Qed.
End invariant.

(** ** The measure

    A session's remaining work, when its program has at most [d] requests left
    (each hands over one message at most); a board's and Shutdown's. *)

Definition pc_cost (d : nat) (p : pc) : Z :=
  match p with
  | SRegister => 26
  | SOnboard _ => 13 + 2 * Z.of_nat d
  | SHandle _ => 12 + 2 * Z.of_nat d
  | SRead => 11
  | SStop => 10
  | SWait => 9
  | SLeave _ => 4 + 2 * Z.of_nat d
  | SRelease => 3
  | SCloseQuit | SUnregister => 2
  | SEnd => 1
  end.

Definition session_cost (d : nat) (s : Session) : Z := pc_cost d (s_pc s) + (if s_pump s is WRun then 1 else 0).

Definition board_cost (bo : Board) : Z :=
  match bo_phase bo with Starting => 3 | Running => 2 | Closing => 1 | Stopped => 0 end.

Definition shut_cost (p : shutpc) : Z :=
  match p with
  | HNone | HReturned _ _ => 0
  | HClosing todo all => Z.of_nat (length todo) + Z.of_nat (length all) + 3
  | HWaitBoards todo _ => Z.of_nat (length todo) + 2
  | HWaitSessions _ => 1
  end.

Lemma session_cost_nonneg d s : 0 <= session_cost d s.
Proof. unfold session_cost, pc_cost. destruct (s_pc s), (s_pump s); lia. Qed.

Section measure.
Context {B S : Type} {BR : Broker B} {ST : Store S} {F : Float64}.
Abbreviation Hub := (Hub B S).
Implicit Types (h : Hub) (phi : nat -> nat).

Definition rest_cost h : Z :=
  msum (fun _ => board_cost) (h_objects h) + queued (h_clients h) + shut_cost (h_shut h).

Definition sessions_cost phi h : Z := msum (fun k => session_cost (phi k)) (h_serve h).

(** [phi] bounds the length of every session's program. *)
Definition fits phi h : Prop := forall k s p back,
  h_serve h !! k = Some s -> running (s_pc s) = Some (p, back) -> within (phi k) p.

Definition weighs (n : nat) h : Prop := exists phi, fits phi h /\ n = Z.to_nat (sessions_cost phi h + rest_cost h).

Lemma cost_nonneg phi h : 0 <= sessions_cost phi h + rest_cost h.
Proof using Type.
  unfold sessions_cost, rest_cost, queued.
  pose proof (msum_nonneg (fun k => session_cost (phi k)) (h_serve h) (fun k s => session_cost_nonneg (phi k) s)).
  pose proof (msum_nonneg (fun _ => board_cost) (h_objects h)) as H1. lapply H1; [|intros _ bo; unfold board_cost; by case_match].
  pose proof (msum_nonneg (fun _ cl => Z.of_nat (length (c_send cl))) (h_clients h)) as H2. lapply H2; [|intros; lia].
  intros ? ?. assert (0 <= shut_cost (h_shut h)) by (unfold shut_cost; case_match; lia). lia.
Qed.

(** A session moves on and the rest of the process does not gain as much as
    the session loses. *)
Lemma weighs_session n k s s' h h' : weighs n h -> h_serve h !! k = Some s -> h_serve h' = <[k := s']> (h_serve h) ->
  (forall phi, fits phi h -> exists d, (forall p back, running (s_pc s') = Some (p, back) -> within d p) /\
     session_cost d s' + rest_cost h' < session_cost (phi k) s + rest_cost h) ->
  exists m, (m < n)%nat /\ weighs m h'.
Proof using Type.
  intros (phi & Hf & ->) Hs E Hc. destruct (Hc phi Hf) as (d & Hd & Hlt).
  set (phi' := fun k' => if decide (k' = k) then d else phi k').
  assert (phi' k = d) as Ek by (unfold phi'; by rewrite decide_True).
  exists (Z.to_nat (sessions_cost phi' h' + rest_cost h')). split.
  - pose proof (cost_nonneg phi' h'). pose proof (cost_nonneg phi h).
    assert (sessions_cost phi' h' = sessions_cost phi h - session_cost (phi k) s + session_cost d s') as Es; [|lia].
    unfold sessions_cost. rewrite E, (msum_update (fun k => session_cost (phi k)) _ k s); [by rewrite Ek|done|].
    intros k' x Hne. unfold phi'. by rewrite decide_False.
  - exists phi'. split; [|done]. intros k' s0 p back. rewrite E, lookup_insert. case_decide as Ec.
    + subst k'. rewrite Ek. intros [= <-]. apply Hd.
    + unfold phi'. rewrite decide_False by done. apply Hf.
Qed.

(** The rest of the process loses something, the sessions nothing. *)
Lemma weighs_rest n h h' : weighs n h -> h_serve h' = h_serve h -> rest_cost h' < rest_cost h ->
  exists m, (m < n)%nat /\ weighs m h'.
Proof using Type.
  intros (phi & Hf & ->) E Hc. exists (Z.to_nat (sessions_cost phi h' + rest_cost h')). split.
  - pose proof (cost_nonneg phi h'). pose proof (cost_nonneg phi h). unfold sessions_cost in *. rewrite E in *. lia.
  - exists phi. split; [|done]. intros k s p back. rewrite E. apply Hf.
Qed.

Lemma rest_same h h' : h_objects h' = h_objects h -> h_clients h' = h_clients h -> h_shut h' = h_shut h ->
  rest_cost h' = rest_cost h.
Proof using Type. unfold rest_cost. by intros -> -> ->. Qed.

(** A board's handler costs what it adds to the queues. *)
Lemma rest_board a bo bo' st' h h' d : h_objects h !! a = Some bo -> h_objects h' = h_objects (put_board a bo' st' h) ->
  h_clients h' = heap st' -> h_shut h' = h_shut h -> queued (heap st') <= queued (h_clients h) + d ->
  rest_cost h' <= rest_cost h + d - board_cost bo + board_cost bo'.
Proof using Type.
  intros Ha E1 E2 E3 Hq. unfold rest_cost. rewrite E1, E2, E3. simpl. rewrite (msum_insert _ a bo) by done.
  unfold board_cost. simpl. lia.
Qed.

Lemma rest_object a bo bo' h h' : h_objects h !! a = Some bo -> h_objects h' = <[a := bo']> (h_objects h) ->
  h_clients h' = h_clients h -> rest_cost h' = rest_cost h - board_cost bo + board_cost bo' - shut_cost (h_shut h) + shut_cost (h_shut h').
Proof using Type.
  intros Ha E1 E2. unfold rest_cost. rewrite E1, E2, (msum_insert _ a bo) by done. lia.
Qed.

Lemma rest_client k cl cl' h h' : h_clients h !! k = Some cl -> h_clients h' = <[k := cl']> (h_clients h) ->
  h_objects h' = h_objects h -> h_shut h' = h_shut h ->
  rest_cost h' = rest_cost h - Z.of_nat (length (c_send cl)) + Z.of_nat (length (c_send cl')).
Proof using Type.
  intros Hk E1 E2 E3. unfold rest_cost, queued. rewrite E1, E2, E3, (msum_insert _ k cl) by done. lia.
Qed.

(** A request consumes one of the program's. *)
Lemma next_cost phi k s X (r : request X) next back h : fits phi h -> h_serve h !! k = Some s ->
  running (s_pc s) = Some (Client.Step r next, back) -> exists d, phi k = Datatypes.S d /\
    (forall x, within d (next x)) /\ forall x, session_cost d (at_pc (back (next x)) s) = session_cost (phi k) s - 2.
Proof using Type.
  intros Hf Hs Hr. pose proof (Hf k s _ _ Hs Hr) as Hw. destruct (phi k) as [|d] eqn:Ed; [done|]. simpl in Hw.
  exists d. split_and!; [done|done|]. intros x. unfold session_cost.
  destruct (s_pc s) eqn:Hp; try done; injection Hr as _ <-; unfold pc_cost; simpl; lia.
Qed.
End measure.

(** ** The hub's own steps end *)

Section work.
Context {B S : Type} {BR : Broker B} {ST : Store S} {F : Float64}.
Abbreviation Hub := (Hub B S).
Implicit Types h : Hub.

(** What the hub does by itself, and what it can always do. *)
Definition works h h' : Prop := steps Quiet h (Some h').
Definition can_go h h' : Prop := steps Still h (Some h').

Lemma works_goes h h' : works h h' -> goes h h'.
Proof using Type. by apply steps_mono. Qed.

Lemma can_go_goes h h' : can_go h h' -> goes h h'.
Proof using Type. by apply steps_mono. Qed.

(** A session's move that changes nothing else, with its new program's length. *)
Lemma weighs_move n k s s' d h h' : weighs n h -> h_serve h !! k = Some s -> h_serve h' = <[k := s']> (h_serve h) ->
  (forall p back, running (s_pc s') = Some (p, back) -> within d p) -> rest_cost h' <= rest_cost h ->
  (forall d0, session_cost d s' < session_cost d0 s) -> exists m, (m < n)%nat /\ weighs m h'.
Proof using Type.
  intros Hw Hs E Hd Hr Hc. eapply weighs_session; [done..|]. intros phi _. exists d. split; [done|].
  specialize (Hc (phi k)). lia.
Qed.

Ltac move_cost :=
  intros d0; unfold session_cost; simpl;
  repeat match goal with E : s_pc _ = _ |- _ => rewrite E | E : s_pump _ = _ |- _ => rewrite E end; simpl;
  try destruct (s_pump _); lia.

(** A step of a session with its own program. *)
Lemma request_weighs n k s X (r : request X) next back x h h1 : weighs n h -> h_serve h !! k = Some s ->
  running (s_pc s) = Some (Client.Step r next, back) -> h_serve h1 = h_serve h -> rest_cost h1 <= rest_cost h + 1 ->
  exists m, (m < n)%nat /\ weighs m (set_session k (at_pc (back (next x)) s) h1).
Proof using Type.
  intros Hw Hs Hp E Hr. eapply (weighs_session _ k s); [done|done|by simpl; rewrite E|]. intros phi Hf.
  destruct (next_cost phi k s X r next back h Hf Hs Hp) as (d & _ & Hd & Hc). exists d. split.
  - intros p back' Hr'. by destruct (running_next _ _ _ _ _ x _ _ Hp Hr') as [-> _].
  - rewrite Hc, (rest_same h1) by done. lia.
Qed.

(** The board's handlers a session calls. *)
Lemma handler_cost a bo st' h : h_objects h !! a = Some bo -> forall d, queued (heap st') <= queued (h_clients h) + d ->
  rest_cost (put_board a bo st' h) <= rest_cost h + d.
Proof using Type. intros Ha d Hq. pose proof (rest_board a bo bo st' h _ d Ha eq_refl eq_refl eq_refl Hq). lia. Qed.

Lemma register_weighs n k s cl bo h h1 : Inv h -> weighs n h -> h_serve h !! k = Some s -> s_pc s = SRegister ->
  h_clients h !! k = Some cl -> on_board (s_board s) (join k) h = Some (Some h1) ->
  exists m, (m < n)%nat /\ weighs m (set_session k (at_pc (SOnboard (onboard (bo_id bo) cl)) s) h1).
Proof using Type.
  intros Hi Hw Hs Hp Hcl (bo' & st' & Ha & Hbi & Ej & ->)%on_board_opens; [|done].
  destruct (register_lets_go k s cl bo' st' h Hi Hs Hp Hcl Hbi Ej) as [_ Hq].
  eapply (weighs_move _ k s _ 6); [done|done|done| | |move_cost].
  - intros p back [= <- _]. apply onboard_within.
  - pose proof (handler_cost (s_board s) bo' st' h Ha 0). rewrite (rest_same (put_board (s_board s) bo' st' h)) by done. lia.
Qed.

Lemma direct_weighs n k s data next back h h1 : Inv h -> weighs n h -> h_serve h !! k = Some s ->
  running (s_pc s) = Some (Client.Step (RDirect data) next, back) -> on_board (s_board s) (direct k data) h = Some (Some h1) ->
  exists m, (m < n)%nat /\ weighs m (set_session k (at_pc (back (next tt)) s) h1).
Proof using Type.
  intros Hi Hw Hs Hp (bo & st' & Ha & Hbi & Ed & ->)%on_board_opens; [|done].
  destruct (session_client k s h Hi Hs) as (cl & Hcl & Hbd).
  destruct (direct_lets_go _ k cl data _ st' Hbi Hcl Hbd Ed) as [_ Hq].
  eapply (request_weighs n k s _ (RDirect data)); [done..|]. by apply (handler_cost (s_board s) bo st' h Ha).
Qed.

Lemma detach_weighs n k s h h1 : Inv h -> weighs n h -> h_serve h !! k = Some s -> s_pc s = SUnregister ->
  on_board (s_board s) (detach k false) h = Some (Some h1) -> exists m, (m < n)%nat /\ weighs m (set_session k (at_pc SEnd s) h1).
Proof using Type.
  intros Hi Hw Hs Hp (bo & st' & Ha & Hbi & Ed & ->)%on_board_opens; [|done].
  destruct (session_client k s h Hi Hs) as (cl & Hcl & Hbd).
  destruct (detach_lets_go _ k false cl _ st' Hbi Hcl Hbd Ed) as [_ Hq]. simpl in Hq.
  eapply (weighs_move _ k s _ 0); [done|done|done|done| |move_cost].
  pose proof (handler_cost (s_board s) bo st' h Ha 0). rewrite (rest_same (put_board (s_board s) bo st' h)) by done. lia.
Qed.

Lemma release_weighs n k s h : Inv h -> weighs n h -> h_serve h !! k = Some s -> s_pc s = SRelease ->
  exists m, (m < n)%nat /\ weighs m (release k s h).
Proof using Type.
  intros Hi Hw Hs Hp. destruct (i_session h Hi k s Hs) as ([bo Ha] & _). unfold release. rewrite Ha.
  repeat case_match; (eapply (weighs_move _ k s _ 0); [done|done|done|done|rewrite (rest_same h) by done; lia|move_cost]).
Qed.

Lemma end_weighs n k s h : weighs n h -> h_serve h !! k = Some s ->
  exists m, (m < n)%nat /\ weighs m (add_sessions (-1) (end_session k h)).
Proof using Type.
  intros (phi & Hf & ->) Hs. set (h' := add_sessions _ _).
  exists (Z.to_nat (sessions_cost phi h' + rest_cost h')). split.
  - pose proof (cost_nonneg phi h') as H'. pose proof (cost_nonneg phi h). rewrite (rest_same h h') in * by done.
    assert (sessions_cost phi h' = sessions_cost phi h - session_cost (phi k) s) as E by (by apply (msum_delete (fun k => session_cost (phi k)))).
    assert (0 < session_cost (phi k) s) by (unfold session_cost, pc_cost; destruct (s_pc s), (s_pump s); lia). lia.
  - exists phi. split; [|done]. intros k' s0 p back. simpl. intros [_ Hs0]%lookup_delete_Some. by apply (Hf k').
Qed.

Lemma quit_weighs n a bo order h h' : Inv h -> weighs n h -> h_objects h !! a = Some bo -> bo_phase bo = Running ->
  enumerates order (board_state bo h) ->
  (fun st => put_board a (set_phase Closing bo) st h) <$> shutdown order (board_state bo h) = Some h' ->
  exists m, (m < n)%nat /\ weighs m h'.
Proof using Type.
  intros Hi Hw Ha Hp He. destruct (shutdown _ _) as [st'|] eqn:Es; [|done]. intros [= <-].
  destruct (i_board h Hi _ bo Ha) as [Hbi _]. destruct (shutdown_lets_go _ _ _ st' Hbi He Es) as [_ Hq]. simpl in Hq.
  apply (weighs_rest n h); [done|done|].
  pose proof (rest_board a bo (set_phase Closing bo) st' h _ 0 Ha eq_refl eq_refl eq_refl) as Hr.
  unfold board_cost in Hr. simpl in Hr. rewrite Hp in Hr. lia.
Qed.

(** A board's goroutine, apart from its handlers, and Shutdown. *)
Lemma phase_weighs n a bo bo' h h' : weighs n h -> h_objects h !! a = Some bo -> h_objects h' = <[a := bo']> (h_objects h) ->
  h_clients h' = h_clients h -> h_serve h' = h_serve h ->
  board_cost bo' + shut_cost (h_shut h') < board_cost bo + shut_cost (h_shut h) -> exists m, (m < n)%nat /\ weighs m h'.
Proof using Type.
  intros Hw Ha E1 E2 E3 Hc. apply (weighs_rest n h); [done|done|]. rewrite (rest_object a bo bo' h h' Ha E1 E2). lia.
Qed.

Lemma shut_weighs n p h : weighs n h -> shut_cost p < shut_cost (h_shut h) -> exists m, (m < n)%nat /\ weighs m (set_shut p h).
Proof using Type. intros Hw Hc. apply (weighs_rest n h); [done|done|]. unfold rest_cost. simpl. lia. Qed.

Lemma works_weighs n h h' : Inv h -> weighs n h -> works h h' -> exists m, (m < n)%nat /\ weighs m h'.
Proof using Type.
  intros Hi Hw Hst. unfold works in Hst. remember (Some h') as o eqn:Eo.
  destruct Hst as [id name color rnd ?|k s cl bo r Hs Hp Hcl Ha Hr|k s X r next back f h1 x Hs Hp Hd Hr
    |k s data next back r Hs Hp Hr|k s data next back Hs Hp _|k s Hs Hp|k s cl bo data Hs Hp Hcl Ha ?|k s Hs Hp _|k s Hs Hp
    |k s cl msg q Hs Hp Hcl Hq|k s Hs Hp _|k s cl Hs Hp Hcl|k s cl bo Hs Hp Hpu Hcl Ha|k s Hs Hp|k s Hs Hp|k s bo Hs Hp Ha
    |k s r Hs Hp Hr|k s bo Hs Hp Ha Hph|k s Hs Hp|a bo f1 f2 Ha Hp|a bo order msg r Ha He Hr ?|a bo order Ha Hp Hq He
    |a bo f1 f2 Ha Hp|id f1 f2 ?|order Hcl Ho ?|a bo todo all Hsh Ha|all Hsh|a bo todo all Hsh Ha Hp|all Hsh|all Hsh Hn|all Hsh ?];
    try done; try injection Eo as <-;
    try (by eapply (weighs_move _ k s _ 0); [done|done|done|done|rewrite (rest_same h) by done; lia|move_cost]);
    try (by apply shut_weighs; [done|rewrite Hsh; simpl; lia]).
  - destruct r as [h1|]; [|done]. injection Eo as <-. by eapply register_weighs.
  - assert (h_serve h1 = h_serve h /\ rest_cost h1 = rest_cost h) as [E1 E2].
    { unfold request_step in Hr. destruct (perform f r (h_broker h)) as [? ?]. injection Hr as <- _. by destruct r. }
    eapply (request_weighs n k s X r); [done..|lia].
  - destruct r as [h1|]; [|done]. injection Eo as <-. by eapply direct_weighs.
  - eapply (request_weighs n k s _ (RDirect data)); [done..|lia].
  - apply (weighs_rest n h); [done|done|]. rewrite (rest_client k cl (set_send q cl) h) by done. rewrite Hq. simpl. lia.
  - eapply (weighs_session _ k s); [done..|]. intros phi Hf. exists (phi k). split; [intros p back; by apply (Hf k s)|].
    rewrite (rest_same h) by done. unfold session_cost. simpl. rewrite Hp. lia.
  - eapply (weighs_move _ k s _ 0); [done|done|done|done| |move_cost].
    pose proof (rest_client k cl (set_conn cl) h (set_client k (set_conn cl) h) Hcl eq_refl eq_refl eq_refl) as E. simpl in E.
    rewrite (rest_same (set_client k (set_conn cl) h)) by done. lia.
  - eapply (weighs_move _ k s _ 2); [done|done|done| |rewrite (rest_same h) by done; lia|move_cost].
    intros p back [= <- _]. apply leavePresence_within.
  - by apply release_weighs.
  - eapply (weighs_move _ k s _ 0); [done|done|done|done| |move_cost].
    pose proof (rest_object (s_board s) bo (closeQuit bo) h (set_object (s_board s) (closeQuit bo) h) Ha eq_refl eq_refl) as E.
    unfold board_cost in E. simpl in E. rewrite (rest_same (set_object (s_board s) (closeQuit bo) h)) by done. lia.
  - destruct r as [h1|]; [|done]. injection Eo as <-. by eapply detach_weighs.
  - by apply (end_weighs n k s).
  - destruct (hydrate_board_services (S := S) f1 f2 (bo_id bo) h) as (x & y & ->).
    apply (phase_weighs n a bo (set_phase Running bo) h); [done..|]. unfold board_cost. simpl. rewrite Hp. lia.
  - by eapply quit_weighs.
  - destruct (persist_board_services (S := S) f1 f2 (bo_id bo) h) as (x & y & ->).
    apply (phase_weighs n a bo (set_phase Stopped bo) h); [done..|]. unfold board_cost. simpl. rewrite Hp. lia.
  - apply (phase_weighs n a bo (closeQuit bo) h); [done..|]. unfold board_cost. simpl. rewrite Hsh. simpl. lia.
Qed.

(** Every state has a weight. *)
Lemma Live_weighs h : Live h -> exists n, weighs n h.
Proof using Type.
  intros Hl. eexists. exists (fun _ => 6%nat). split; [|done]. intros k s p back Hs. by apply (lv_sane h Hl k s Hs).
Qed.
End work.

(** ** Where the hub comes to rest *)

Section rest.
Context {B S : Type} {BR : Broker B} {ST : Store S} {F : Float64}.
Abbreviation Hub := (Hub B S).
Implicit Types h : Hub.

(** A session that reads from an open connection, whose client the running
    board has in its set and, if its write pump still runs, has been sent
    everything. *)
Record listening (k : nat) (s : Session) h : Prop := {
  ln_pc : s_pc s = SRead;
  ln_member : exists bo, h_objects h !! s_board s = Some bo /\ bo_phase bo = Running /\ k ∈ bo_clients bo;
  ln_client : exists cl, h_clients h !! k = Some cl /\ c_conn cl = false /\ (s_pump s = WRun -> c_send cl = []);
}.

(** A session whose board has stopped before it could register. *)
Definition left_behind (s : Session) h : Prop := s_pc s = SRegister /\ stopped (s_board s) h.

Definition board_rests (bo : Board) : Prop := bo_phase bo = Running /\ bo_quit bo = false \/ bo_phase bo = Stopped.

Record settled h : Prop := {
  se_session : forall k s, h_serve h !! k = Some s -> listening k s h \/ left_behind s h;
  se_board : forall a bo, h_objects h !! a = Some bo -> board_rests bo;
  se_shut : match h_shut h with
    | HNone | HReturned _ _ => True
    | HWaitSessions _ => h_sessions h <> 0
    | _ => False
    end;
}.

Definition progresses h : Prop := exists h', can_go h h'.

Lemma board_progress a bo h : Inv h -> h_objects h !! a = Some bo -> board_rests bo \/ progresses h.
Proof using Type.
  intros Hi Ha. unfold board_rests. destruct (bo_phase bo) eqn:Hp.
  - right. eexists. by apply (step_start _ _ a bo Delivered Delivered).
  - destruct (bo_quit bo) eqn:Hq; [|by left; left]. right.
    destruct (Inv_quit a bo (elements (bo_clients bo)) h Hi Ha Hp Hq) as (h' & E & _); [apply (enumerates_elements (board_state bo h))|].
    exists h'. unfold can_go. rewrite <-E. apply step_quit; try done. apply (enumerates_elements (board_state bo h)).
  - right. eexists. by apply (step_persist _ _ a bo Delivered Delivered).
  - by left; right.
Qed.

(** A board takes or refuses what it is sent, now or after a step. *)
Lemma board_answers a bo h : h_objects h !! a = Some bo -> bo_phase bo = Running \/ stopped a h \/ progresses h.
Proof using Type.
  intros Ha. destruct (bo_phase bo) eqn:Hp; [right; right|by left|right; right|right; left; by exists bo].
  - eexists. by apply (step_start _ _ a bo Delivered Delivered).
  - eexists. by apply (step_persist _ _ a bo Delivered Delivered).
Qed.

(** The program of a session goes on. *)
Lemma program_progress k s X (r : request X) next back h : Inv h -> h_serve h !! k = Some s ->
  running (s_pc s) = Some (Client.Step r next, back) -> progresses h.
Proof using Type.
  intros Hi Hs Hr. destruct (is_direct r) eqn:Hd.
  2: { destruct (request_step Delivered r h) as [h' x] eqn:E. eexists. by eapply step_request. }
  destruct r; try done. destruct (i_session h Hi k s Hs) as ([bo Ha] & cl & Hcl & Hb & _).
  destruct (board_answers _ bo h Ha) as [Hp|[Hst|?]]; [|eexists; eapply step_direct_skip; eauto|done].
  destruct (i_board h Hi _ bo Ha) as [Hbi _]. destruct (direct_relays _ k cl data _ Hbi Hcl Hb) as (st' & E & _).
  eexists. eapply (step_direct _ h k s data next back (Some _)); [done|done|].
  unfold on_board. rewrite Ha. simpl. rewrite bool_decide_true by done. by rewrite E.
Qed.

Lemma listen_progress k s h : Inv h -> Live h -> h_serve h !! k = Some s -> s_pc s = SRead ->
  listening k s h \/ progresses h.
Proof using Type.
  intros Hi Hl Hs Hp. destruct (i_session h Hi k s Hs) as ([bo Ha] & cl & Hcl & _).
  destruct (c_conn cl) eqn:Hc.
  { right. eexists. apply (step_read_error _ _ k s Hs Hp). right. by exists cl. }
  destruct (lv_member h Hl k s Hs) as [(bo' & Ha' & Hin)|(cl' & Hcl' & ?)]; [by rewrite Hp| |congruence].
  rewrite Ha in Ha'. injection Ha' as <-.
  assert (bo_phase bo = Running) as Hph.
  { destruct (i_board h Hi _ bo Ha) as [_ He]. destruct (decide (bo_phase bo = Running)) as [|Hn]; [done|].
    rewrite (He Hn) in Hin. set_solver. }
  destruct (s_pump s) eqn:Hw; [| |left; split; [done|by exists bo|exists cl; split_and!; [done|done|congruence]]].
  - by destruct (lv_sane h Hl k s Hs) as (_ & H & _); rewrite Hp in H; destruct (H eq_refl).
  - destruct (c_send cl) as [|msg q] eqn:Hq; [|right; eexists; by eapply step_write].
    left. split; [done|by exists bo|]. by exists cl.
Qed.

Lemma session_progress k s h : Inv h -> Live h -> h_serve h !! k = Some s ->
  (listening k s h \/ left_behind s h) \/ progresses h.
Proof using Type.
  intros Hi Hl Hs. destruct (i_session h Hi k s Hs) as ([bo Ha] & cl & Hcl & _).
  destruct (s_pc s) as [|p| |p| | |p| | | |] eqn:Hp.
  - destruct (board_answers _ bo h Ha) as [Hph|[Hst|?]]; [|by left; right|by right]. right.
    destruct (register_enabled Still h k s bo Hi Hs Hp Ha Hph) as (h' & _ & _ & H & _). by exists h'.
  - right. destruct p as [|X r next]; [eexists; by eapply step_onboarded|]. by eapply (program_progress k s X r next SOnboard); rewrite ?Hp.
  - destruct (listen_progress k s h Hi Hl Hs Hp); auto.
  - right. destruct p as [|X r next]; [eexists; by eapply step_handled|]. by eapply (program_progress k s X r next SHandle); rewrite ?Hp.
  - right. eexists. by eapply step_stop.
  - right. destruct (s_pump s) eqn:Hw.
    + by destruct (lv_sane h Hl k s Hs) as (_ & H & _); rewrite Hp in H; destruct (H eq_refl).
    + eexists. apply (step_pump_end _ _ k s Hs Hw). auto.
    + eexists. by eapply step_wait.
  - right. destruct p as [|X r next]; [eexists; by eapply step_left|]. by eapply (program_progress k s X r next SLeave); rewrite ?Hp.
  - right. eexists. by eapply step_release.
  - right. eexists. by eapply step_close_quit.
  - right. destruct (board_answers _ bo h Ha) as [Hph|[(bo' & Ha' & Hst)|?]]; [| |done].
    + destruct (unregister_enabled Still h k s bo Hi Hs Hp Ha Hph) as (h' & _ & H & _). by exists h'.
    + eexists. by eapply step_unregister_done.
  - right. eexists. by eapply step_end.
Qed.

(** In a closing hub at rest every board has stopped. *)
Lemma rest_stopped h : Inv h -> h_closing h = true -> (forall todo all, h_shut h <> HClosing todo all) ->
  (forall k s, h_serve h !! k = Some s -> s_pc s <> SCloseQuit) ->
  (forall a bo, h_objects h !! a = Some bo -> board_rests bo) -> forall a bo, h_objects h !! a = Some bo -> bo_phase bo = Stopped.
Proof using Type.
  intros Hi Hc Hsh Hse Hbo a bo Ha. destruct (Hbo a bo Ha) as [[_ Hq]|?]; [|done]. exfalso.
  destruct (i_quit h Hi a bo Ha Hq) as [(e & He & _)|[(k & s & Hs & _ & Hp)|(todo & all & E & _)]].
  - by rewrite (i_closing h Hi Hc), lookup_empty in He.
  - by apply (Hse k s).
  - by apply (Hsh todo all).
Qed.

Lemma rest_or_progress h : Inv h -> Live h -> settled h \/ progresses h.
Proof using Type.
  intros Hi Hl.
  destruct (map_Forall_or_exists (fun k s => listening k s h \/ left_behind s h) (fun _ _ => progresses h) (h_serve h))
    as [Hse|(_ & _ & _ & ?)]; [intros k s; by apply session_progress| |by right].
  destruct (map_Forall_or_exists (fun _ bo => board_rests bo) (fun _ _ => progresses h) (h_objects h))
    as [Hbo|(_ & _ & _ & ?)]; [intros a bo; by apply board_progress| |by right].
  assert (forall a, a ∈ to_visit (h_shut h) -> is_Some (h_objects h !! a)) as Hv by apply (lv_visit h Hl).
  destruct (h_shut h) as [|[|a todo] all|[|a todo] all|all|ok all] eqn:Hsh.
  - left. split; [done..|by rewrite Hsh].
  - right. eexists. by apply step_shutdown_wait.
  - right. destruct (Hv a) as [bo Ha]; [simpl; set_solver|]. eexists. by eapply step_shutdown_quit.
  - right. eexists. by apply step_shutdown_boards.
  - right. destruct (Hv a) as [bo Ha]; [simpl; set_solver|]. eexists. eapply step_shutdown_board; [done|done|].
    apply (rest_stopped h Hi) with (a := a); [apply shut_closing; [done|by rewrite Hsh]|by rewrite Hsh| |done|done].
    intros k s Hs Hp. destruct (Hse k s Hs) as [[]|[]]; congruence.
  - destruct (decide (h_sessions h = 0)) as [E|E]; [right; eexists; by eapply step_shutdown_sessions|].
    left. split; [done..|by rewrite Hsh].
  - left. split; [done..|by rewrite Hsh].
Qed.

(** And at rest it stays: nothing can be done without the surroundings. *)
Lemma settled_rests h : Inv h -> Live h -> settled h -> ~ progresses h.
Proof using Type.
  intros Hi Hl [Hse Hbo Hsh] [h' Hst]. unfold can_go in Hst. remember (Some h') as o eqn:Eo.
  assert (forall k s, h_serve h !! k = Some s -> s_pc s = SRead \/ s_pc s = SRegister) as Hpc.
  { intros k s Hs. destruct (Hse k s Hs) as [[]|[]]; auto. }
  assert (forall k s p q back, h_serve h !! k = Some s -> running (s_pc s) = Some (q, back) -> s_pc s = p -> False) as Hrun.
  { intros k s p q back Hs Hr _. by destruct (Hpc k s Hs) as [E|E]; rewrite E in Hr. }
  destruct Hst; try done; try (by (eapply Hrun; eauto));
    try (match goal with Hs : h_serve h !! ?k = Some ?s |- _ => destruct (Hpc k s Hs); congruence end).
  - destruct (Hse k s H) as [[]|[_ (bo' & Ha & Hp)]]; [congruence|].
    apply on_board_inv in H3 as (bo2 & Ha2 & Hp2 & _). congruence.
  - destruct (Hse k s H) as [[_ _ (cl & Hcl & Hc & _)]|[]]; [|congruence].
    destruct H1 as [|(cl' & Hcl' & Hc')]; [done|congruence].
  - destruct (Hse k s H) as [[_ _ (cl' & Hcl' & _ & Hq)]|[Hp _]].
    + rewrite H1 in Hcl'. injection Hcl' as <-. by rewrite Hq in H2.
    + destruct (lv_sane h Hl k s H) as (_ & _ & E). rewrite (E Hp) in H0. done.
  - destruct (Hse k s H) as [[Hp (bo & Ha & _ & Hin) _]|[Hp _]].
    + destruct H1 as [|[?|(cl & Hcl & Hc & _)]]; [done|congruence|]. destruct (i_board h Hi _ bo Ha) as [Hb _].
      destruct (bi_in _ _ Hb k Hin) as (cl' & Hcl' & _ & _ & Ho). simpl in Hcl'. congruence.
    + destruct (lv_sane h Hl k s H) as (_ & _ & E). rewrite (E Hp) in H0. done.
  - destruct (Hbo a bo H) as [[? _]|?]; congruence.
  - destruct (Hbo a bo H) as [[_ ?]|?]; congruence.
  - destruct (Hbo a bo H) as [[? _]|?]; congruence.
  - by rewrite H in Hsh.
  - by rewrite H in Hsh.
  - by rewrite H in Hsh.
  - by rewrite H in Hsh.
  - by rewrite H in Hsh.
Qed.

(** ** What is inevitable *)

Lemma reachable_works b st h h' : reachable b st h -> works h h' -> reachable b st h'.
Proof using Type. intros Hre Hw. eapply reachable_step; [done|]. by apply works_goes. Qed.

(** The hub comes to rest, keeping whatever its own steps keep. *)
Lemma settles b st (P : Hub -> Prop) h : (forall h1 h2, Inv h1 -> P h1 -> works h1 h2 -> P h2) -> reachable b st h -> P h ->
  inevitably can_go works (fun h' => reachable b st h' /\ P h' /\ settled h') h.
Proof using Type.
  intros HP Hre Hp.
  assert (forall h1 h2, reachable b st h1 /\ P h1 -> works h1 h2 -> reachable b st h2 /\ P h2) as Hinv.
  { intros h1 h2 [Hre1 Hp1] Hw. split; [by eapply reachable_works|]. by eapply HP; [eapply reachable_inv|..]. }
  eapply inevitably_mono, (inevitably_inv _ _ _ Hinv settled); [by intros h' [[? ?] ?]|done|].
  apply (inevitably_measure _ _ _ Hinv _ weighs); [| |by eapply Live_weighs, reachable_live|done].
  - intros h1 n h2 [Hre1 _]. apply works_weighs. by eapply reachable_inv.
  - intros h1 [Hre1 _]. apply rest_or_progress; [by eapply reachable_inv|by eapply reachable_live].
Qed.

(** Until Shutdown begins, everybody is served there. *)
Definition served h : Prop :=
  (forall k s, h_serve h !! k = Some s -> listening k s h) /\
  (forall a bo, h_objects h !! a = Some bo -> bo_phase bo = Stopped \/
     bo_phase bo = Running /\ exists e, h_boards h !! bo_id bo = Some e /\ be_board e = a).

Lemma settled_served b st h : reachable b st h -> settled h -> h_closing h = false -> served h.
Proof using Type.
  intros Hre [Hse Hbo _] Hc. pose proof (reachable_inv b st h Hre) as Hi. split.
  - intros k s Hs. destruct (Hse k s Hs) as [?|[Hp (bo & Ha & Hst)]]; [done|].
    destruct (register_open b st h k s Hre Hc Hs Hp) as (bo' & e & Ha' & _ & _ & _ & Hph).
    rewrite Ha in Ha'. injection Ha' as <-. by destruct Hph; congruence.
  - intros a bo Ha. destruct (Hbo a bo Ha) as [[Hp Hq]|?]; [right|by left]. split; [done|].
    destruct (i_quit h Hi a bo Ha Hq) as [?|[(k & s & Hs & _ & Hp')|(todo & all & E & _)]]; [done| |].
    + destruct (Hse k s Hs) as [[]|[]]; congruence.
    + by rewrite (i_shut h Hi Hc) in E.
Qed.

(** Once Shutdown has begun, everybody is gone, but for the joins it overtook. *)
Definition emptied h : Prop :=
  (forall a bo, h_objects h !! a = Some bo -> bo_phase bo = Stopped) /\ h_serve h = ∅.

Lemma settled_emptied b st h : reachable b st h -> settled h -> h_closing h = true ->
  (forall all, h_shut h <> HReturned false all) ->
  emptied h /\ (exists all, h_shut h = HReturned true all) \/ exists k, stuck k h.
Proof using Type.
  intros Hre [Hse Hbo Hsh] Hc Hf. pose proof (reachable_inv b st h Hre) as Hi.
  assert (forall a bo, h_objects h !! a = Some bo -> bo_phase bo = Stopped) as Hst.
  { apply (rest_stopped h Hi Hc); [|intros k s Hs Hp; destruct (Hse k s Hs) as [[]|[]]; congruence|done].
    intros todo all E. by rewrite E in Hsh. }
  destruct (map_choose_or_empty (h_serve h)) as [(k & s & Hs)|He].
  - right. exists k, s. split; [done|]. destruct (Hse k s Hs) as [[_ (bo & Ha & Hp & _) _]|[? ?]]; [|done].
    by rewrite (Hst _ bo Ha) in Hp.
  - left. split; [done|]. pose proof (lv_shut h (reachable_live b st h Hre) Hc) as Hn.
    assert (h_sessions h = 0) as E0 by (by rewrite (i_sessions h Hi), He, mcount_empty).
    destruct (h_shut h) as [| | |all|[] all]; try done; [by exists all|]. by destruct (Hf all).
Qed.

(** Without its deadline Shutdown does not give up, and nobody starts a join. *)
Definition shutting_down h : Prop := h_closing h = true /\ forall all, h_shut h <> HReturned false all.

Lemma shutting_down_works h h' : Inv h -> shutting_down h -> works h h' -> shutting_down h'.
Proof using Type.
  intros Hi [Hc Hf] Hw. destruct (shut_step Quiet h h' Hi Hw) as [[E1 E2]|[Hm E2]]; unfold shutting_down.
  - by rewrite E1, E2.
  - split; [done|]. intros all E. rewrite E in Hm. by inversion Hm.
Qed.

Definition nobody_joins h : Prop := forall k s, h_serve h !! k = Some s -> s_pc s <> SRegister.

Lemma nobody_joins_works h h' : Inv h -> h_closing h = true -> nobody_joins h -> works h h' -> nobody_joins h'.
Proof using Type.
  intros Hi Hc Hn Hw k s' Hs' Hp. pose proof (works_goes h h' Hw) as Hg.
  destruct (closing_step h h' Hg Hc) as [_ Hnew]. pose proof (session_previous h h' k s' Hi Hg Hs') as Hch.
  destruct (h_serve h !! k) as [s|] eqn:Hs; [|by rewrite (Hnew k Hs) in Hs'].
  destruct Hch as [->|Hm]; [by apply (Hn k s)|].
  destruct Hm as [| | | | | | | | | |q Hq Hor| |]; simpl in *; try done.
  - destruct (s_pc s); try done; by simplify_eq/=.
  - by apply (Hn k s).
  - by destruct Hor as [->|[->| ->]].
Qed.

Lemma shuts_down b st h : reachable b st h -> shutting_down h ->
  inevitably can_go works (fun h' => emptied h' /\ (exists all, h_shut h' = HReturned true all) \/ exists k, stuck k h') h.
Proof using Type.
  intros Hre Hs. eapply inevitably_mono, (settles b st shutting_down); [|by apply shutting_down_works|done|done].
  intros h' (Hre' & [Hc Hf] & Hset). by apply (settled_emptied b st).
Qed.

(** With no join in flight there is nobody to overtake. *)
Lemma shuts_down_clean b st h : reachable b st h -> shutting_down h -> nobody_joins h ->
  inevitably can_go works (fun h' => emptied h' /\ exists all, h_shut h' = HReturned true all) h.
Proof using Type.
  intros Hre Hs Hn.
  eapply inevitably_mono, (settles b st (fun h => shutting_down h /\ nobody_joins h)); [| |done|done].
  - intros h' (Hre' & [[Hc Hf] Hn'] & Hset). destruct (settled_emptied b st h') as [?|(k & s & Hk & Hp & _)]; [done..|].
    by destruct (Hn' k s Hk).
  - intros h1 h2 Hi [Hs1 Hn1] Hw. split; [by eapply shutting_down_works|].
    eapply nobody_joins_works; [done|by destruct Hs1|done..].
Qed.

(** Before Shutdown, everybody is served in the end. *)
Lemma open_works h h' : Inv h -> h_closing h = false -> works h h' -> h_closing h' = false.
Proof using Type.
  intros Hi Hc Hw. destruct (shut_step Quiet h h' Hi Hw) as [[_ ->]|[Hm _]]; [done|].
  pose proof (i_shut h Hi Hc) as E. inversion Hm; try done; congruence.
Qed.

Lemma serves b st h : reachable b st h -> h_closing h = false -> inevitably can_go works served h.
Proof using Type.
  intros Hre Hc. eapply inevitably_mono, (settles b st (fun h => h_closing h = false)); [|by apply open_works|done|done].
  intros h' (Hre' & Hc' & Hset). by apply (settled_served b st).
Qed.
End rest.
