(* ===== verification/Schedule.v ===== *)
(** Executable schedules of the hub: a function that takes one named action,
    sound for the step relation, so that concrete runs can be evaluated. *)

From S2P Require Import Prelude Strconv Utf8 Json JsonFacts JsonLocal Protocol Broker Store Persistence Metrics Board Client Hub System.
Local Open Scope Z_scope.

Inductive action :=
  | AServe (id name color : string) (rnd : list ascii)
  | AStart (a : nat)
  | ARegister (k : nat)
  | ARequest (k : nat)        (* one request of the session's program, delivered *)
  | ADirect (k : nat)
  | AOnboarded (k : nat)
  | ARead (k : nat) (data : string)
  | AReadError (k : nat)
  | AHandled (k : nat)
  | AWrite (k : nat)
  | APumpEnd (k : nat)
  | AStop (k : nat)
  | AWait (k : nat)
  | ALeft (k : nat)
  | ARelease (k : nat)
  | ACloseQuit (k : nat)
  | AUnregister (k : nat)
  | AEnd (k : nat)
  | ADispatch (a : nat) (msg : string)
  | AQuit (a : nat)
  | APersist (a : nat)
  | AShutdown
  | AShutQuit
  | AShutWait
  | AShutBoard
  | AShutBoards
  | AShutSessions.

(** Opens what an action's definition matches on. *)
Ltac open_act := repeat match goal with
  | H : _ ≫= _ = Some _ |- _ => apply bind_Some in H as (? & ? & H)
  | H : context [match ?x with _ => _ end] |- _ =>
      match type of H with _ = Some _ => destruct x eqn:?; try done end
  | H : Some _ = Some _ |- _ => injection H as <-
  end.

Section schedule.
Context {B S : Type} {BR : Broker B} {ST : Store S} {F : Float64}.
Abbreviation Hub := (Hub B S).
Implicit Types h : Hub.

(** The state after an action, [None] if it is not enabled. *)
Definition act (x : action) h : option Hub :=
  match x with
  | AServe id name color rnd => serve id name color rnd h
  | AStart a =>
      bo ← h_objects h !! a;
      if decide (bo_phase bo = Starting)
      then Some (set_object a (set_phase Running bo) (hydrate_board Delivered Delivered (bo_id bo) h)) else None
  | ARegister k =>
      s ← h_serve h !! k; cl ← h_clients h !! k; bo ← h_objects h !! s_board s;
      match s_pc s with
      | SRegister =>
          r ← on_board (s_board s) (join k) h;
          set_session k (at_pc (SOnboard (onboard (bo_id bo) cl)) s) <$> r
      | _ => None
      end
  | ARequest k =>
      s ← h_serve h !! k;
      match running (s_pc s) with
      | Some (Client.Step r next, back) =>
          if is_direct r then None
          else let '(h', x) := request_step Delivered r h in
               Some (set_session k (at_pc (back (next x)) s) h')
      | _ => None
      end
  | ADirect k =>
      s ← h_serve h !! k;
      match running (s_pc s) with
      | Some (Client.Step r next, back) =>
          match r in request X return (X -> prog) -> option Hub with
          | RDirect data => fun next =>
              r ← on_board (s_board s) (direct k data) h; set_session k (at_pc (back (next tt)) s) <$> r
          | _ => fun _ => None
          end next
      | _ => None
      end
  | AOnboarded k =>
      s ← h_serve h !! k;
      match s_pc s with SOnboard Done => Some (set_session k (at_pump WRun (at_pc SRead s)) h) | _ => None end
  | ARead k data =>
      s ← h_serve h !! k; cl ← h_clients h !! k; bo ← h_objects h !! s_board s;
      match s_pc s with
      | SRead => Some (set_session k (at_pc (SHandle (handle (bo_id bo) cl data)) s) h) | _ => None end
  | AReadError k =>
      s ← h_serve h !! k; match s_pc s with SRead => Some (set_session k (at_pc SStop s) h) | _ => None end
  | AHandled k =>
      s ← h_serve h !! k; match s_pc s with SHandle Done => Some (set_session k (at_pc SRead s) h) | _ => None end
  | AWrite k =>
      s ← h_serve h !! k; cl ← h_clients h !! k;
      match s_pump s, c_send cl with WRun, _ :: q => Some (set_client k (set_send q cl) h) | _, _ => None end
  | APumpEnd k =>
      s ← h_serve h !! k; match s_pump s with WRun => Some (set_session k (at_pump WEnd s) h) | _ => None end
  | AStop k =>
      s ← h_serve h !! k; cl ← h_clients h !! k;
      match s_pc s with
      | SStop => Some (set_session k (at_pc SWait s) (set_client k (set_conn cl) h)) | _ => None end
  | AWait k =>
      s ← h_serve h !! k; cl ← h_clients h !! k; bo ← h_objects h !! s_board s;
      match s_pc s, s_pump s with
      | SWait, WEnd => Some (set_session k (at_pc (SLeave (leavePresence (bo_id bo) cl)) s) h)
      | _, _ => None
      end
  | ALeft k =>
      s ← h_serve h !! k;
      match s_pc s with SLeave Done => Some (set_session k (at_pc SRelease s) (emit_hub EConnClosed h)) | _ => None end
  | ARelease k => s ← h_serve h !! k; match s_pc s with SRelease => Some (release k s h) | _ => None end
  | ACloseQuit k =>
      s ← h_serve h !! k; bo ← h_objects h !! s_board s;
      match s_pc s with
      | SCloseQuit => Some (set_session k (at_pc SEnd s) (set_object (s_board s) (closeQuit bo) h)) | _ => None end
  | AUnregister k =>
      s ← h_serve h !! k;
      match s_pc s with
      | SUnregister => r ← on_board (s_board s) (detach k false) h; set_session k (at_pc SEnd s) <$> r
      | _ => None
      end
  | AEnd k =>
      s ← h_serve h !! k; match s_pc s with SEnd => Some (add_sessions (-1) (end_session k h)) | _ => None end
  | ADispatch a msg =>
      bo ← h_objects h !! a; r ← on_board a (dispatch (elements (bo_clients bo)) msg) h; r
  | AQuit a =>
      bo ← h_objects h !! a;
      if decide (bo_phase bo = Running /\ bo_quit bo = true)
      then (fun st => put_board a (set_phase Closing bo) st h) <$>
             shutdown (elements (bo_clients bo)) (board_state bo h)
      else None
  | APersist a =>
      bo ← h_objects h !! a;
      if decide (bo_phase bo = Closing)
      then Some (emit_hub EBoardClosed (set_object a (set_phase Stopped bo)
             (persist_board Delivered Delivered (bo_id bo) h))) else None
  | AShutdown =>
      if h_closing h then None
      else Some (beginShutdown ((fun kv : string * boardEntry => be_board kv.2) <$> map_to_list (h_boards h)) h)
  | AShutQuit =>
      match h_shut h with
      | HClosing (a :: todo) all =>
          bo ← h_objects h !! a; Some (set_shut (HClosing todo all) (set_object a (closeQuit bo) h))
      | _ => None
      end
  | AShutWait => match h_shut h with HClosing [] all => Some (set_shut (HWaitBoards all all) h) | _ => None end
  | AShutBoard =>
      match h_shut h with
      | HWaitBoards (a :: todo) all =>
          bo ← h_objects h !! a;
          if decide (bo_phase bo = Stopped) then Some (set_shut (HWaitBoards todo all) h) else None
      | _ => None
      end
  | AShutBoards => match h_shut h with HWaitBoards [] all => Some (set_shut (HWaitSessions all) h) | _ => None end
  | AShutSessions =>
      match h_shut h with
      | HWaitSessions all => if decide (h_sessions h = 0) then Some (set_shut (HReturned true all) h) else None
      | _ => None
      end
  end.

Fixpoint run (l : list action) h : option Hub :=
  match l with [] => Some h | x :: l' => h' ← act x h; run l' h' end.

(** Every action is a step of the process. *)
Lemma act_sound x h h' : act x h = Some h' -> step h (Some h').
Proof using Type.
  destruct x; cbn [act]; intros E.
  - rewrite <-E. by apply step_serve.
  - open_act. by apply step_start.
  - open_act. rewrite <-E. by eapply step_register.
  - open_act. by eapply step_request.
  - open_act. rewrite <-E. by eapply step_direct.
  - open_act. by apply step_onboarded.
  - open_act. by apply step_read.
  - open_act. apply step_read_error; auto.
  - open_act. by apply step_handled.
  - open_act. by eapply step_write.
  - open_act. apply step_pump_end; auto.
  - open_act. by apply step_stop.
  - open_act. by eapply step_wait.
  - open_act. by apply step_left.
  - open_act. by apply step_release.
  - open_act. by apply step_close_quit.
  - open_act. rewrite <-E. by eapply step_unregister.
  - open_act. by eapply step_end.
  - apply bind_Some in E as (bo & Ha & E). apply bind_Some in E as (r & Hr & ->).
    eapply step_dispatch; [done| |exact Hr|done]. apply (enumerates_elements (board_state bo h)).
  - apply bind_Some in E as (bo & Ha & E). case_decide as Hq; [|done]. destruct Hq. rewrite <-E.
    apply step_quit; try done. apply (enumerates_elements (board_state bo h)).
  - open_act. by apply step_persist.
  - open_act. by apply step_shutdown.
  - open_act. by eapply step_shutdown_quit.
  - open_act. by eapply step_shutdown_wait.
  - open_act. by eapply step_shutdown_board.
  - open_act. by eapply step_shutdown_boards.
  - open_act. by eapply step_shutdown_sessions.
Qed.

Lemma run_reachable b st l h h' : reachable b st h -> run l h = Some h' -> reachable b st h'.
Proof using Type.
  revert h. induction l as [|x l IH]; intros h Hre; simpl; [by intros [= <-]|].
  intros (h1 & Ha & Hr)%bind_Some. eapply IH; [|done]. eapply reachable_step; [done|]. by apply (act_sound x).
Qed.
End schedule.
