(* ===== verification/Fleet.v ===== *)
(** The whole deployment: any number of server processes ([System]), each with
    its hub, on one broker and one store; processes start, run interleaved, and
    die.  Its every step is one of the durable tier ([Durable]). *)

From S2P Require Import Prelude Strconv Utf8 Json JsonFacts JsonLocal Protocol Broker Store Persistence Ledger Durable Metrics Board Client Hub System Sessions Lifecycle Schedule.
Local Open Scope Z_scope.

(** ** A session applies operations to its own board only *)

Definition own {X} (bid : string) (r : request X) : Prop :=
  match r with RApplyShape b _ _ _ => b = bid | _ => True end.

Fixpoint confined_to (bid : string) (p : prog) : Prop :=
  match p with Done => True | Client.Step r k => own bid r /\ forall x, confined_to bid (k x) end.

Lemma confined_andThen bid p q : confined_to bid p -> confined_to bid q -> confined_to bid (andThen p q).
Proof. induction p as [|X r k IH]; [done|]. simpl. intros [Hr Hk] Hq. split; [done|]. intros x. by apply IH. Qed.

Section programs.
Context `{Float64}.

Lemma onboard_confined bid cl : confined_to bid (onboard bid cl).
Proof using Type.
  unfold onboard. apply confined_andThen; [|apply confined_andThen].
  - unfold joinPresence. apply confined_andThen; by case_match.
  - simpl. split; [done|]. intros [snap|e]; [|done]. by case_match.
  - simpl. split; [done|]. intros [roster|e]; [|done]. by case_match.
Qed.

Lemma handle_confined bid cl data : confined_to bid (handle bid cl data).
Proof using Type.
  unfold handle. destruct (Unmarshal _ _ _) as [env [e|]]; [done|]. simpl. split; [done|]. intros _.
  case_bool_decide; [|case_bool_decide; [|done]].
  - unfold applyShapeOp. destruct (DecodePayload _ _ _) as [op [e|]]; [done|]. case_bool_decide; [done|].
    simpl. split; [done|]. intros [seq|e]; [|done]. by case_match.
  - unfold publishCursor. destruct (DecodePayload _ _ _) as [cur [e|]]; [done|]. by case_match.
Qed.

Lemma leavePresence_confined bid cl : confined_to bid (leavePresence bid cl).
Proof using Type. unfold leavePresence. apply confined_andThen; [done|]. by case_match. Qed.
End programs.

Section hubs.
Context {B S : Type} {BR : Broker B} {ST : Store S} {F : Float64}.
Abbreviation Hub := (Hub B S).
Implicit Types h : Hub.

(** A session that has registered is on a board that has hydrated, and what it
    still has to do concerns that board. *)
Definition fits h (s : Session) : Prop := exists bo, h_objects h !! s_board s = Some bo /\ bo_phase bo <> Starting /\
  forall p back, running (s_pc s) = Some (p, back) -> confined_to (bo_id bo) p.

Definition settled h : Prop := forall k s, h_serve h !! k = Some s -> s_pc s <> SRegister -> fits h s.

Lemma fits_idle h s s' : fits h s -> s_board s' = s_board s -> running (s_pc s') = None -> fits h s'.
Proof using Type. intros (bo & Ha & Hp & _) E Er. exists bo. rewrite E, Er. by split_and!. Qed.

Lemma fits_next h s p back q : fits h s -> running (s_pc s) = Some (p, back) -> (forall bid, confined_to bid p -> confined_to bid q) ->
  fits h (at_pc (back q) s).
Proof using Type.
  intros (bo & Ha & Hp & Hc) Er Hq. exists bo. split_and!; [done..|]. intros p' back'.
  pose proof (Hc _ _ Er). simpl. destruct (s_pc s); try done; injection Er as <- <-; intros [= <- _]; by apply Hq.
Qed.

Lemma fits_later h h' s : ageing h h' -> fits h s -> fits h' s.
Proof using Type.
  intros Hag (bo & Ha & Hp & Hc). destruct (Hag _ _ Ha) as (bo' & Ha' & Eid & Hr & _). exists bo'. rewrite Eid.
  split_and!; [done| |done]. intros E. rewrite E in Hr. destruct (bo_phase bo); simpl in Hr; (done || lia).
Qed.

Lemma settled_same h h' : ageing h h' -> h_serve h' = h_serve h -> settled h -> settled h'.
Proof using Type. intros Hag E Hs k s. rewrite E. intros Hk Hp. by eapply fits_later, Hs. Qed.

Lemma settled_session h h' k s : ageing h h' -> h_serve h' = <[k := s]> (h_serve h) -> (s_pc s <> SRegister -> fits h s) ->
  settled h -> settled h'.
Proof using Type.
  intros Hag E Hf Hs k' s'. rewrite E, lookup_insert. case_decide; [intros [= <-] Hp; by eapply fits_later, Hf|].
  intros Hk Hp. by eapply fits_later, Hs.
Qed.

Lemma on_board_running a f h r : on_board a f h = Some r -> exists bo, h_objects h !! a = Some bo /\ bo_phase bo = Running.
Proof using Type. intros (bo & ? & ? & _)%on_board_inv. eauto. Qed.

Lemma running_past s p back : running (s_pc s) = Some (p, back) -> s_pc s <> SRegister.
Proof using Type. by destruct (s_pc s). Qed.

Lemma settled_step h h' : Inv h -> goes h h' -> settled h -> settled h'.
Proof using Type.
  intros Hi Hst Hs. pose proof (step_ageing h h' Hi Hst) as Hag. unfold goes in Hst. remember (Some h') as o eqn:Eo.
  assert (forall k s, h_serve h !! k = Some s -> forall p back, running (s_pc s) = Some (p, back) -> fits h s) as Hrun
    by (intros k s Hk p back Er; eapply Hs; [done|by eapply running_past]).
  destruct Hst as [id name color rnd _|k s cl bo r Hk Hp Hc Ha Hr|k s X r next back f h1 x Hk Hp _ Hq|k s data next back r Hk Hp Hr|
    k s data next back Hk Hp _|k s Hk Hp|k s cl bo data Hk Hp Hc Ha _|k s Hk Hp _|k s Hk Hp|k s cl msg q Hk Hp Hc Hq|k s Hk Hp _|
    k s cl Hk Hp Hc|k s cl bo Hk Hp Hw Hc Ha|k s Hk Hp|k s Hk Hp|k s bo Hk Hp Ha|k s r Hk Hp Hr|k s bo Hk Hp Ha _|k s Hk Hp|
    a bo f1 f2 Ha Hp|a bo order msg r Ha He Hr _|a bo order Ha Hp Hq He|a bo f1 f2 Ha Hp|id f1 f2 _|order Hc Ho _|
    a bo todo all Hh Ha|all Hh|a bo todo all Hh Ha Hp|all Hh|all Hh Hz|all Hh _];
    try (injection Eo as <-); try (by eapply settled_same);
    try (by (eapply (settled_session h); [done|done| |done]; intros _; eapply (fits_idle h s); [by eapply Hs; [|congruence]|done|done])).
  - unfold serve, beginSession in Eo. destruct (h_closing h); [by injection Eo as <-; eapply settled_same|].
    destruct (defaultColor_spec color (newID rnd)) as (col & Ecol & _). simpl in Eo.
    destruct (h_boards h !! id) as [e|] eqn:He; rewrite Ecol in Eo; injection Eo as <-; by eapply (settled_session h).
  - destruct (on_board_running _ _ _ _ Hr) as (bo' & Ha' & Hp'). apply on_board_inv in Hr as (? & _ & _ & ->).
    destruct (join _ _); [|done]. injection Eo as <-. eapply (settled_session h); [done|done| |done]. intros _.
    exists bo. rewrite Ha in Ha'. injection Ha' as <-. split_and!; [done|by rewrite Hp'|]. intros p back [= <- _]. apply onboard_confined.
  - unfold request_step in Hq. destruct (perform f r (h_broker h)) as [b y]. injection Hq as <- <-.
    eapply (settled_session h); [done|by destruct r| |done]. intros _. eapply fits_next; [by eapply Hrun|done|]. intros bid [_ H]. apply H.
  - apply on_board_inv in Hr as (? & _ & _ & ->). destruct (direct _ _ _); [|done]. injection Eo as <-.
    eapply (settled_session h); [done|done| |done]. intros _. eapply fits_next; [by eapply Hrun|done|]. intros bid [_ H]. apply H.
  - eapply (settled_session h); [done|done| |done]. intros _. eapply fits_next; [by eapply Hrun|done|]. intros bid [_ H]. apply H.
  - eapply (settled_session h); [done|done| |done]. intros _. destruct (Hs k s Hk) as (bo' & Ha' & Hp' & _); [congruence|].
    exists bo'. rewrite Ha in Ha'. injection Ha' as <-. split_and!; [done..|]. intros p back [= <- _]. apply handle_confined.
  - eapply (settled_session h); [done|done| |done]. intros Hn. destruct (Hs k s Hk) as (bo & Ha & Hph & Hr); [done|]. by exists bo.
  - eapply (settled_session h); [done|done| |done]. intros _. destruct (Hs k s Hk) as (bo' & Ha' & Hp' & _); [congruence|].
    exists bo'. rewrite Ha in Ha'. injection Ha' as <-. split_and!; [done..|]. intros p back [= <- _]. apply leavePresence_confined.
  - unfold release in *. repeat case_match; try (by eapply settled_same);
      (eapply (settled_session h); [done|done| |done]; intros _; eapply (fits_idle h s); [by eapply Hs; [|congruence]|done|done]).
  - apply on_board_inv in Hr as (? & _ & _ & ->). destruct (detach _ _ _); [|done]. injection Eo as <-.
    eapply (settled_session h); [done|done| |done]. intros _. eapply (fits_idle h s); [by eapply Hs; [|congruence]|done|done].
  - intros k' s'. simpl. intros [_ Hk']%lookup_delete_Some Hp'. by eapply fits_later, Hs.
  - eapply settled_same; [done| |done]. by destruct (hydrate_board_services (S := S) f1 f2 (bo_id bo) h) as (x & y & ->).
  - apply on_board_inv in Hr as (? & _ & _ & ->). destruct (dispatch _ _ _); [|done]. injection Eo as <-. by eapply settled_same.
  - destruct (shutdown _ _); [|done]. injection Eo as <-. by eapply settled_same.
  - eapply settled_same; [done| |done]. by destruct (persist_board_services (S := S) f1 f2 (bo_id bo) h) as (x & y & ->).
  - eapply settled_same; [done| |done]. by destruct (persist_board_services (S := S) f1 f2 id h) as (x & y & ->).
Qed.
End hubs.

(** ** What a step of a hub is to the durable tier *)

Section effects.
Context {B S : Type} {BR : Broker B} {ST : Store S} {F : Float64}.
Abbreviation Hub := (Hub B S).
Implicit Types h : Hub.

(** The task of the board at an address: past its hydration it serves, and
    may do so for as long as its process lives. *)
Definition task_at h (a : nat) : option (string * task) :=
  bo ← h_objects h !! a; Some (bo_id bo, match bo_phase bo with Starting => TLoad | _ => TServe end).

Definition same_services h h' : Prop := h_broker h' = h_broker h /\ h_store h' = h_store h.

Inductive effect h h' : Prop :=
  | ef_none : same_services h h' -> (forall a, task_at h' a = task_at h a) -> effect h h'
  | ef_open a id : same_services h h' -> task_at h a = None ->
      (forall a', task_at h' a' = if decide (a' = a) then Some (id, TLoad) else task_at h a') -> effect h h'
  | ef_start a bo f1 f2 : h_objects h !! a = Some bo -> bo_phase bo = Starting ->
      h_objects h' !! a = Some (set_phase Running bo) ->
      same_services (hydrate_board f1 f2 (bo_id bo) h) h' ->
      (forall a', task_at h' a' = if decide (a' = a) then Some (bo_id bo, TServe) else task_at h a') -> effect h h'
  | ef_request k s X (r : request X) next back f x : h_serve h !! k = Some s ->
      running (s_pc s) = Some (Client.Step r next, back) -> perform f r (h_broker h) = (h_broker h', x) ->
      h_store h' = h_store h -> (forall a, task_at h' a = task_at h a) -> effect h h'
  | ef_persist id f1 f2 : same_services (persist_board f1 f2 id h) h' -> (forall a, task_at h' a = task_at h a) -> effect h h'.

Lemma task_at_same h h' : h_objects h' = h_objects h -> forall a, task_at h' a = task_at h a.
Proof using Type. intros E a. unfold task_at. by rewrite E. Qed.

Lemma task_at_insert h h' a bo bo' : h_objects h !! a = Some bo -> h_objects h' = <[a := bo']> (h_objects h) ->
  bo_id bo' = bo_id bo -> (bo_phase bo' = Starting <-> bo_phase bo = Starting) -> forall a', task_at h' a' = task_at h a'.
Proof using Type.
  intros Ha E Eid Hp a'. unfold task_at. rewrite E, lookup_insert. case_decide as Ea; [|done]. subst a'. rewrite Ha. simpl.
  rewrite Eid. destruct (bo_phase bo), (bo_phase bo'); try done; naive_solver.
Qed.

Lemma effect_on_board a f h r h1 h' : on_board a f h = Some r -> r = Some h1 -> h_objects h' = h_objects h1 ->
  same_services h1 h' -> effect h h'.
Proof using Type.
  intros (bo & Ha & Hp & ->)%on_board_inv E Eo [E1 E2]. destruct (f _) as [st|]; [|done]. injection E as <-.
  apply ef_none; [by split|]. eapply task_at_insert; [exact Ha|exact Eo|done|done].
Qed.

Lemma effect_serve id name color rnd h h' : Inv h -> serve id name color rnd h = Some h' -> effect h h'.
Proof using Type.
  intros Hi E. unfold serve, beginSession in E. destruct (h_closing h); [by injection E as <-; apply ef_none|].
  destruct (defaultColor_spec color (newID rnd)) as (col & Ecol & _). simpl in E.
  destruct (h_boards h !! id) as [e|]; rewrite Ecol in E; injection E as <-; [by apply ef_none|].
  destruct (i_fresh h Hi (h_next h)) as (Hn & _); [done|].
  apply (ef_open _ _ (h_next h) id); [by split|by unfold task_at; rewrite Hn|]. intros a'. unfold task_at. simpl.
  destruct (decide (a' = h_next h)) as [->|Ha]; [by rewrite lookup_insert_eq|by rewrite lookup_insert_ne].
Qed.

Lemma step_effect h h' : Inv h -> goes h h' -> effect h h'.
Proof using Type.
  intros Hi Hst. unfold goes in Hst. remember (Some h') as o eqn:Eo.
  destruct Hst as [id name color rnd _|k s cl bo r Hk Hp Hc Ha Hr|k s X r next back f h1 x Hk Hp _ Hq|k s data next back r Hk Hp Hr|
    k s data next back Hk Hp _|k s Hk Hp|k s cl bo data Hk Hp Hc Ha _|k s Hk Hp _|k s Hk Hp|k s cl msg q Hk Hp Hc Hq|k s Hk Hp _|
    k s cl Hk Hp Hc|k s cl bo Hk Hp Hw Hc Ha|k s Hk Hp|k s Hk Hp|k s bo Hk Hp Ha|k s r Hk Hp Hr|k s bo Hk Hp Ha _|k s Hk Hp|
    a bo f1 f2 Ha Hp|a bo order msg r Ha He Hr _|a bo order Ha Hp Hq He|a bo f1 f2 Ha Hp|id f1 f2 _|order Hc Ho _|
    a bo todo all Hh Ha|all Hh|a bo todo all Hh Ha Hp|all Hh|all Hh Hz|all Hh _];
    try (injection Eo as <-); try (by apply ef_none; [|apply task_at_same]).
  - by eapply effect_serve.
  - destruct r as [h1|]; [|done]. injection Eo as <-. by eapply (effect_on_board _ _ h).
  - unfold request_step in Hq. destruct (perform f r (h_broker h)) as [b y] eqn:Ep. injection Hq as <- <-.
    apply (ef_request h _ k s X r next back f y); [done|done| | |]; destruct r; try done; by apply task_at_same.
  - destruct r as [h1|]; [|done]. injection Eo as <-. by eapply (effect_on_board _ _ h).
  - unfold release. repeat case_match; by apply ef_none; [|apply task_at_same].
  - apply ef_none; [done|]. by eapply (task_at_insert h).
  - destruct r as [h1|]; [|done]. injection Eo as <-. by eapply (effect_on_board _ _ h).
  - destruct (hydrate_board_services (S := S) f1 f2 (bo_id bo) h) as (x & y & E).
    apply (ef_start h _ a bo f1 f2); [done|done|simpl; by rewrite lookup_insert_eq|by rewrite E|].
    intros a'. unfold task_at. simpl. rewrite E. simpl.
    destruct (decide (a' = a)) as [->|Hne]; [by rewrite lookup_insert_eq|by rewrite lookup_insert_ne].
  - by eapply (effect_on_board _ _ h).
  - destruct (shutdown _ _); [|done]. injection Eo as <-. apply ef_none; [by split|]. eapply (task_at_insert h); [done|done|done|].
    simpl. by rewrite Hp.
  - destruct (persist_board_services (S := S) f1 f2 (bo_id bo) h) as (x & y & E). apply (ef_persist h _ (bo_id bo) f1 f2); [by rewrite E|].
    eapply (task_at_insert h); [done|by rewrite E|done|]. simpl. by rewrite Hp.
  - apply (ef_persist h _ id f1 f2); [done|]. destruct (persist_board_services (S := S) f1 f2 id h) as (x & y & ->). by apply task_at_same.
  - apply ef_none; [done|]. by eapply (task_at_insert h).
Qed.
End effects.

(** ** Processes on shared services *)

Section fleet.
Context {B S : Type} {BR : Broker B} {BL : BrokerLaws B} {ST : Store S} {SL : StoreLaws S} {SD : StoreDomain S} {F : Float64}.
Abbreviation Hub := (Hub B S).
Implicit Types h : Hub.

Record Fleet := { fl_broker : B; fl_store : S; fl_hubs : gmap nat Hub }.
Implicit Types fl : Fleet.

(** A process sees the services as they are now. *)
Definition attach fl h : Hub := set_services (fl_broker fl) (Some (fl_store fl)) h.

(** A board that starts its loop in this step has had its hydration through. *)
Definition hydrated fl h h' : Prop := forall a bo bo', h_objects h !! a = Some bo -> bo_phase bo = Starting ->
  h_objects h' !! a = Some bo' -> bo_phase bo' = Running ->
  h_broker h' = hydrate Delivered Delivered (bo_id bo) (fl_broker fl) (fl_store fl).

(** Boards stay within what broker and store can hold. *)
Definition within_limits (b b' : B) : Prop := forall o, v_seq (br_view b o) < br_limit /\ storable (S := S) (br_view b' o).

(** The runs considered: hydrations come through, and the broker is lost only
    while no process runs.  Everything else that [System] allows may happen,
    and a process may die at any time. *)
Inductive fleet_step fl : Fleet -> Prop :=
  | fs_start i : fl_hubs fl !! i = None ->
      fleet_step fl {| fl_broker := fl_broker fl; fl_store := fl_store fl;
                       fl_hubs := <[i := New (fl_broker fl) (Some (fl_store fl))]> (fl_hubs fl) |}
  | fs_step i h h' s' : fl_hubs fl !! i = Some h -> goes (attach fl h) h' -> h_store h' = Some s' ->
      hydrated fl h h' -> within_limits (fl_broker fl) (h_broker h') ->
      fleet_step fl {| fl_broker := h_broker h'; fl_store := s'; fl_hubs := <[i := h']> (fl_hubs fl) |}
  | fs_crash i :
      fleet_step fl {| fl_broker := fl_broker fl; fl_store := fl_store fl; fl_hubs := delete i (fl_hubs fl) |}
  | fs_lose b : fl_hubs fl = ∅ -> br_inv b -> (forall bid, br_fresh b bid = true) ->
      fleet_step fl {| fl_broker := b; fl_store := fl_store fl; fl_hubs := fl_hubs fl |}.

Abbreviation Tier := (Tier B S (nat * nat)).
Implicit Types t : Tier.

Definition fleet_task fl (g : nat * nat) : option (string * task) := h ← fl_hubs fl !! g.1; task_at h g.2.

Record tier_of fl t : Prop := {
  tf_broker : ti_broker t = fl_broker fl;
  tf_store : ti_store t = fl_store fl;
  tf_tasks : forall g, ti_tasks t !! g = fleet_task fl g;
}.

Record fleet_ok fl t : Prop := {
  fo_tier : tier_of fl t;
  fo_ok : tier_ok t;
  fo_ledger : forall o, exists l, tied false o l t;
  fo_hubs : forall i h, fl_hubs fl !! i = Some h -> Inv h /\ settled h;
}.

Abbreviation tier_steps := (rtc (tier_step true false)).

(** What is stored can be loaded. *)
Lemma stored_loadable t bid snap l : tied false bid l t -> st_view (ti_store t) bid = Some snap -> snap_ok snap /\ sn_Seq snap <= br_limit.
Proof using Type.
  intros Ht E. pose proof (td_safe _ _ _ _ Ht) as Hs. rewrite E in Hs. split; [apply Hs|]. rewrite (snap_like_seq _ _ Hs).
  pose proof (td_length _ _ _ _ Ht). destruct (intact_faded _ _ _ (td_intact _ _ _ _ Ht)) as [? _]. lia.
Qed.

(** [hydrate] is the load and, of a stored board, the hydration. *)
Lemma hydrate_tier t g bid : tier_ok t -> (exists l, tied false bid l t) -> ti_tasks t !! g = Some (bid, TLoad) ->
  storable (S := S) (br_view (hydrate Delivered Delivered bid (ti_broker t) (ti_store t)) bid) ->
  tier_steps t (with_task g bid TServe (with_broker (hydrate Delivered Delivered bid (ti_broker t) (ti_store t)) t)).
Proof using Type.
  intros [Hb Hs] [l Ht] Hg Hroom. unfold hydrate in *. pose proof (LoadSnapshot_law Delivered bid _ Hs) as L.
  destruct (st_LoadSnapshot Delivered bid (ti_store t)) as [[snap ok]|e] eqn:El; simpl in L; [|done]. destruct ok.
  - destruct (st_view (ti_store t) bid) as [snap'|] eqn:Ev; simplify_eq. destruct (stored_loadable t bid snap' l Ht Ev) as [Hok Hlim].
    pose proof (Hydrate_law Delivered bid snap' _ Hb Hok Hlim) as Lh.
    destruct (br_Hydrate Delivered bid snap' (ti_broker t)) as [b r] eqn:Eh. destruct Lh as (_ & [-> _]%outcome_delivered & _).
    cbn [fst] in Hroom |- *.
    eapply rtc_l; [by eapply ts_load|]. apply rtc_once.
    replace (with_task g bid TServe (with_broker b t)) with (with_task g bid TServe (with_broker b (with_task g bid (THydrate snap') t))).
    + refine (ts_hydrate true false (with_task g bid (THydrate snap') t) g bid snap' Delivered b _ _ Eh _ Hroom); [simpl; apply lookup_insert_eq|done].
    + unfold with_task, with_broker. simpl. by rewrite insert_insert_eq.
  - apply rtc_once. replace (with_broker (ti_broker t) t) with t by (by destruct t). by eapply ts_load_none.
Qed.

(** [save] is the reading of the snapshot and, if that succeeds, the saving. *)
Lemma save_tier t g bid f1 f2 b s : tier_ok t -> (exists l, tied false bid l t) -> ti_tasks t !! g = None ->
  save f1 f2 bid (ti_broker t) (ti_store t) = (b, s) -> tier_steps t (with_broker b (with_store s t)).
Proof using Type.
  intros [Hb Hs] [l Ht] Hg E. unfold save in E. pose proof (Snapshot_law f1 bid _ Hb) as L.
  destruct (br_Snapshot f1 bid (ti_broker t)) as [b' [snap|e]] eqn:El; destruct L as (L1 & L2 & _).
  - destruct (st_SaveSnapshot f2 bid snap (ti_store t)) as [s' r] eqn:Es. injection E as <- <-.
    eapply rtc_l; [by eapply (ts_read _ _ _ g)|]. apply rtc_once.
    replace (with_broker b' (with_store s' t)) with (end_task g (with_store s' (with_task g bid (TSave snap) (with_broker b' t)))).
    + refine (ts_save true false (with_task g bid (TSave snap) (with_broker b' t)) g bid snap f2 s' r _ Es). simpl. apply lookup_insert_eq.
    + unfold end_task, with_store, with_task, with_broker. simpl. by rewrite delete_insert_id.
  - injection E as <- <-. apply rtc_once. replace (with_broker b' (with_store (ti_store t) t)) with (with_broker b' t) by (by destruct t).
    by apply ts_other; [|apply unread].
Qed.

(** A request of a session, on a board that has hydrated. *)
Lemma request_tier t g bid X (r : request X) f b x : tier_ok t -> ti_tasks t !! g = Some (bid, TServe) -> own bid r ->
  perform f r (ti_broker t) = (b, x) -> within_limits (ti_broker t) b -> tier_steps t (with_broker b t).
Proof using Type.
  intros [Hb _] Hg Ho E Hw.
  assert (forall b', br_inv b' -> (forall o, br_view b' o = br_view (ti_broker t) o /\ br_fresh b' o = br_fresh (ti_broker t) o) ->
    tier_steps t (with_broker b' t)) as Hread by (intros; apply rtc_once; by apply ts_other; [|apply unread]).
  assert (forall bid' b', br_inv b' -> (forall o, br_fresh b' o = br_fresh (ti_broker t) o) ->
    (forall o, o <> bid' -> br_view b' o = br_view (ti_broker t) o) ->
    v_seq (br_view b' bid') = v_seq (br_view (ti_broker t) bid') /\ v_shapes (br_view b' bid') = v_shapes (br_view (ti_broker t) bid') ->
    tier_steps t (with_broker b' t)) as Hroster.
  { intros bid' b' H1 H2 H3 [H4 H5]. apply rtc_once, ts_other; [done|]. intros o.
    destruct (decide (o = bid')) as [->|Hne]; [done|]. by rewrite H3 by done. }
  destruct r as [bid' id shape del|bid' msg|bid'|bid' cid data|bid' cid|bid'|data|]; simpl in E.
  - simpl in Ho. subst bid'. apply rtc_once. apply (ts_apply _ _ t g bid f id shape del b x); [done|apply Hw|done|apply Hw].
  - pose proof (Publish_law f bid' msg _ Hb) as L. rewrite E in L. destruct L as (L1 & L2 & _). by apply Hread.
  - pose proof (Snapshot_law f bid' _ Hb) as L. rewrite E in L. destruct L as (L1 & L2 & _). by apply Hread.
  - pose proof (SetPresence_law f bid' cid data _ Hb) as L. rewrite E in L. destruct L as (L1 & L2 & L3 & L4).
    apply (Hroster bid'); try done. by destruct L2 as [[_ ->]|(_ & _ & [->| ->])].
  - pose proof (RemovePresence_law f bid' cid _ Hb) as L. rewrite E in L. destruct L as (L1 & L2 & L3 & L4).
    apply (Hroster bid'); try done. by destruct L2 as [[_ ->]|(_ & _ & [->| ->])].
  - pose proof (Presence_law f bid' _ Hb) as L. rewrite E in L. destruct L as (L1 & L2 & _). by apply Hread.
  - injection E as <- _. by apply Hread.
  - injection E as <- _. by apply Hread.
Qed.

Lemma task_at_attach fl h a : task_at (attach fl h) a = task_at h a.
Proof using Type. done. Qed.

(** The tasks of the fleet after a step of one of its processes. *)
Lemma fleet_task_step fl i h h' b s g : fl_hubs fl !! i = Some h ->
  fleet_task {| fl_broker := b; fl_store := s; fl_hubs := <[i := h']> (fl_hubs fl) |} g =
  if decide (g.1 = i) then task_at h' g.2 else fleet_task fl g.
Proof using Type.
  intros Hi. unfold fleet_task. simpl. destruct g as [j a]. simpl.
  destruct (decide (j = i)) as [->|Hne]; [by rewrite lookup_insert_eq|by rewrite lookup_insert_ne].
Qed.

Lemma fleet_task_same fl i h h' b s : fl_hubs fl !! i = Some h -> (forall a, task_at h' a = task_at h a) -> forall g,
  fleet_task {| fl_broker := b; fl_store := s; fl_hubs := <[i := h']> (fl_hubs fl) |} g = fleet_task fl g.
Proof using Type.
  intros Hi Ht g. rewrite (fleet_task_step fl i h) by done. case_decide as E; [|done]. unfold fleet_task. by rewrite E, Hi.
Qed.

Lemma fleet_task_insert fl (i : nat) h h' (b : B) (s : S) (a : nat) (p : option (string * task)) (m : gmap (nat * nat) (string * task)) : fl_hubs fl !! i = Some h ->
  (forall a', task_at h' a' = if decide (a' = a) then p else task_at h a') -> (forall g, m !! g = fleet_task fl g) -> forall q, p = Some q ->
  forall g, <[(i, a) := q]> m !! g = fleet_task {| fl_broker := b; fl_store := s; fl_hubs := <[i := h']> (fl_hubs fl) |} g.
Proof using Type.
  intros Hi Ht Hm q -> [j a']. rewrite (fleet_task_step fl i h) by done. simpl. destruct (decide (j = i)) as [->|Hne].
  - rewrite Ht. destruct (decide (a' = a)) as [->|Ha]; [by rewrite lookup_insert_eq|].
    rewrite lookup_insert_ne by congruence. rewrite Hm. unfold fleet_task. simpl. by rewrite Hi.
  - rewrite lookup_insert_ne by congruence. apply Hm.
Qed.

(** Every step of a process is some of the tier. *)
Lemma process_tier fl t i h h' s' : fleet_ok fl t -> fl_hubs fl !! i = Some h -> goes (attach fl h) h' -> h_store h' = Some s' ->
  hydrated fl h h' -> within_limits (fl_broker fl) (h_broker h') ->
  exists t', tier_steps t t' /\ tier_of {| fl_broker := h_broker h'; fl_store := s'; fl_hubs := <[i := h']> (fl_hubs fl) |} t'.
Proof using Type.
  intros [Hof Hok Hl Hh] Hi Hst Es Hhy Hw. destruct Hof as [Eb Est Ht]. destruct (Hh i h Hi) as [Hinv Hset].
  assert (Inv (attach fl h)) as Hinv' by (by apply Inv_services).
  destruct (step_effect (attach fl h) h' Hinv' Hst) as
    [[E1 E2] Hta|a id [E1 E2] Hn Hta|a bo f1 f2 Ha Hp Ha' [E1 E2] Hta|k s X r next back f x Hk Hr Hq E2 Hta|id f1 f2 [E1 E2] Hta];
    simpl in E2; rewrite Es in E2.
  - injection E2 as ->. exists t. split; [done|]. split; [by rewrite Eb, E1|done|]. intros g.
    by rewrite (fleet_task_same fl i h) by done.
  - injection E2 as ->. exists (with_task (i, a) id TLoad t). split.
    + apply rtc_once, ts_open. rewrite Ht. unfold fleet_task. simpl. rewrite Hi. exact Hn.
    + split; [by simpl; rewrite Eb, E1|done|]. simpl. by apply (fleet_task_insert fl i h h' _ _ a (Some (id, TLoad))).
  - assert (h_broker h' = hydrate Delivered Delivered (bo_id bo) (fl_broker fl) (fl_store fl)) as Ehy by (by apply (Hhy a bo (set_phase Running bo))).
    unfold hydrate_board in E2. simpl in E2. injection E2 as ->.
    exists (with_task (i, a) (bo_id bo) TServe (with_broker (h_broker h') t)). split.
    + rewrite Ehy, <-Eb, <-Est. apply hydrate_tier; [done|done| |].
      * rewrite Ht. unfold fleet_task, task_at. simpl. rewrite Hi. simpl in Ha |- *. rewrite Ha. simpl. by rewrite Hp.
      * rewrite Eb, Est, <-Ehy. apply Hw.
    + split; [done|done|]. simpl. by apply (fleet_task_insert fl i h h' _ _ a (Some (bo_id bo, TServe))).
  - injection E2 as ->. exists (with_broker (h_broker h') t). split; [|split; [done|done|intros g; by rewrite (fleet_task_same fl i h)]].
    destruct (Hset k s Hk) as (bo & Ha & Hph & Hc); [by eapply running_past|]. destruct (Hc _ _ Hr) as [Ho _].
    rewrite <-Eb in Hw. apply (request_tier t (i, s_board s) (bo_id bo) X r f _ x Hok); [|done|by rewrite Eb|done].
    rewrite Ht. unfold fleet_task, task_at. simpl. rewrite Hi. simpl in Ha |- *. rewrite Ha. simpl. by destruct (bo_phase bo).
  - unfold persist_board in E1, E2. simpl in E1, E2.
    destruct (save f1 f2 id (fl_broker fl) (fl_store fl)) as [b s] eqn:Esv. simpl in E1, E2. injection E2 as ->.
    exists (with_broker b (with_store s t)). split.
    + apply (save_tier t (i, h_next h) id f1 f2); [done|done| |by rewrite Eb, Est]. rewrite Ht. unfold fleet_task, task_at. simpl. rewrite Hi. simpl.
      by destruct (i_fresh h Hinv (h_next h)) as (-> & _).
    + split; [done|done|]. simpl. intros g. by rewrite (fleet_task_same fl i h).
Qed.

(** All tasks of a process that dies end. *)
Lemma end_tasks (gs : list (nat * nat)) t : exists t', tier_steps t t' /\ ti_broker t' = ti_broker t /\ ti_store t' = ti_store t /\
  forall g, ti_tasks t' !! g = if decide (g ∈ gs) then None else ti_tasks t !! g.
Proof using Type.
  revert t. induction gs as [|g gs IH]; intros t; [by exists t|].
  destruct (IH (end_task g t)) as (t' & Hst & Eb & Es & Ht). exists t'. split_and!; [|done|done|].
  - eapply rtc_l; [apply ts_end|done].
  - intros g'. rewrite Ht. simpl. destruct (decide (g' = g)) as [->|Hne].
    + rewrite lookup_delete_eq. destruct (decide (g ∈ g :: gs)) as [|Hn]; [by case_decide|destruct Hn; left].
    + rewrite lookup_delete_ne by done. apply decide_ext. set_solver.
Qed.

Lemma crash_tier fl t i : tier_of fl t -> exists t', tier_steps t t' /\
  tier_of {| fl_broker := fl_broker fl; fl_store := fl_store fl; fl_hubs := delete i (fl_hubs fl) |} t'.
Proof using Type.
  intros [Eb Es Ht]. destruct (end_tasks (filter (fun g => g.1 = i) (map_to_list (ti_tasks t)).*1) t) as (t' & Hst & Eb' & Es' & Ht').
  exists t'. split; [done|]. split; [by rewrite Eb'|by rewrite Es'|]. intros g. rewrite Ht'. unfold fleet_task. simpl. case_decide as Hg.
  - apply list_elem_of_filter in Hg as [<- _]. by rewrite lookup_delete_eq.
  - destruct (decide (g.1 = i)) as [<-|Hne]; [|rewrite lookup_delete_ne by done; apply Ht]. rewrite lookup_delete_eq. simpl.
    destruct (ti_tasks t !! g) as [p|] eqn:E; [|done]. destruct Hg. apply list_elem_of_filter. split; [done|].
    apply (list_elem_of_fmap_2 fst _ (g, p)). by apply elem_of_map_to_list.
Qed.

(** Every step of the fleet is some of the tier, *)
Lemma fleet_step_tier fl fl' t : fleet_ok fl t -> fleet_step fl fl' ->
  exists t', tier_steps t t' /\ tier_of fl' t' /\ forall i h, fl_hubs fl' !! i = Some h -> Inv h /\ settled h.
Proof using Type.
  intros Hok Hst. pose proof Hok as [[Eb Es Ht] Htok Hl Hh]. destruct Hst as [i Hi|i h h' s' Hi Hst Est Hhy Hw|i|b He Hb Hf].
  - exists t. split; [done|]. split; [split; [done|done|]|].
    + intros [j a]. rewrite Ht. unfold fleet_task. simpl. destruct (decide (j = i)) as [->|Hne]; [|by rewrite lookup_insert_ne].
      by rewrite Hi, lookup_insert_eq.
    + intros j h. simpl. rewrite lookup_insert. case_decide; [|apply Hh]. intros [= <-]. split; [apply Inv_new|]. intros k s. simpl. by rewrite lookup_empty.
  - destruct (process_tier fl t i h h' s' Hok Hi Hst Est Hhy Hw) as (t' & H1 & H2). exists t'. split_and!; [done..|].
    intros j h0. simpl. rewrite lookup_insert. case_decide; [|apply Hh]. intros [= <-]. destruct (Hh i h Hi) as [Hinv Hset].
    assert (Inv (attach fl h)) as Hinv' by (by apply Inv_services). split; [|by apply (settled_step (attach fl h))].
    by destruct (step_inv (attach fl h) (Some h') Hinv' Hst) as (? & [= <-] & ?).
  - destruct (crash_tier fl t i) as (t' & H1 & H2); [done|]. exists t'. split_and!; [done..|].
    intros j h. simpl. intros [_ Hj]%lookup_delete_Some. by apply (Hh j).
  - exists (with_broker b t). split; [|split; [|done]].
    + apply rtc_once, ts_lose; [done|done|]. intros _. apply map_eq. intros g. rewrite Ht. unfold fleet_task. by rewrite He, !lookup_empty.
    + by split.
Qed.

(** and so is every run. *)
Lemma fleet_steps_tier fl fl' t : rtc fleet_step fl fl' -> fleet_ok fl t -> exists t', tier_steps t t' /\ fleet_ok fl' t'.
Proof using Type.
  intros Hst. revert t. induction Hst as [fl|fl fl1 fl2 Hst _ IH]; intros t Hok; [by exists t|].
  destruct (fleet_step_tier fl fl1 t Hok Hst) as (t1 & H1 & H2 & H3).
  destruct (tier_steps_ok false t t1 H1 (fo_ok _ _ Hok) (fo_ledger _ _ Hok)) as [Hok1 Hc].
  destruct (IH t1) as (t2 & H4 & H5).
  - split; [done|done| |done]. intros o. destruct (fo_ledger _ _ Hok o) as [l Hl]. destruct (Hc o l Hl) as (l' & _ & ?). by exists l'.
  - exists t2. split; [by etrans|done].
Qed.

(** ** From the beginning *)

Definition fleet_start (b : B) (s : S) : Fleet := {| fl_broker := b; fl_store := s; fl_hubs := ∅ |}.

Lemma fleet_start_ok b s : blank b s -> fleet_ok (fleet_start b s) (tier_start b s).
Proof using Type.
  intros Hb. split; [split; [done|done|]|by apply blank_ok|intros o; exists (Ledger [] []); by apply blank_tied|].
  - intros g. simpl. unfold fleet_task. simpl. by rewrite !lookup_empty.
  - intros i h. simpl. by rewrite lookup_empty.
Qed.

Lemma fleet_serves fl t i h a bo : fleet_ok fl t -> fl_hubs fl !! i = Some h -> h_objects h !! a = Some bo -> bo_phase bo <> Starting ->
  ti_tasks t !! (i, a) = Some (bo_id bo, TServe).
Proof using Type.
  intros Hok Hi Ha Hp. rewrite (tf_tasks _ _ (fo_tier _ _ Hok)). unfold fleet_task, task_at. simpl. rewrite Hi. simpl. rewrite Ha. simpl.
  by destruct (bo_phase bo).
Qed.
End fleet.

(** ** Schedules of a deployment *)

Inductive fleet_action :=
  | FStart (i : nat)
  | FAct (i : nat) (x : action)
  | FCrash (i : nat)
  | FLose.

Section schedule.
Context {B S : Type} {BR : Broker B} {BL : BrokerLaws B} {ST : Store S} {SL : StoreLaws S} {SD : StoreDomain S} {F : Float64}.
(** Decides that all boards have room; a broker just started. *)
Context (roomy : B -> bool) (fresh : B).
Implicit Types fl : Fleet (B := B) (S := S).

Definition fleet_act (x : fleet_action) fl : option (Fleet (B := B) (S := S)) :=
  match x with
  | FStart i =>
      match fl_hubs fl !! i with
      | Some _ => None
      | None => Some {| fl_broker := fl_broker fl; fl_store := fl_store fl;
                        fl_hubs := <[i := New (fl_broker fl) (Some (fl_store fl))]> (fl_hubs fl) |}
      end
  | FAct i x =>
      h ← fl_hubs fl !! i; h' ← act x (attach fl h); s ← h_store h';
      if roomy (fl_broker fl) && roomy (h_broker h')
      then Some {| fl_broker := h_broker h'; fl_store := s; fl_hubs := <[i := h']> (fl_hubs fl) |} else None
  | FCrash i => Some {| fl_broker := fl_broker fl; fl_store := fl_store fl; fl_hubs := delete i (fl_hubs fl) |}
  | FLose =>
      if decide (map_to_list (fl_hubs fl) = [])
      then Some {| fl_broker := fresh; fl_store := fl_store fl; fl_hubs := fl_hubs fl |} else None
  end.

Fixpoint fleet_run (l : list fleet_action) fl : option (Fleet (B := B) (S := S)) :=
  match l with [] => Some fl | x :: l' => fl' ← fleet_act x fl; fleet_run l' fl' end.

(** Only [AStart] takes a board into its loop, and its hydration comes through. *)
Definition none_starts (h h' : Hub B S) : Prop := forall a bo bo', h_objects h !! a = Some bo -> bo_phase bo = Starting ->
  h_objects h' !! a = Some bo' -> bo_phase bo' = Starting.

Lemma none_same h h' : h_objects h' = h_objects h -> none_starts h h'.
Proof using Type. intros E a bo bo' Ha Hp. rewrite E, Ha. by intros [= <-]. Qed.

Lemma none_insert h h' a bo bo' : h_objects h !! a = Some bo -> h_objects h' = <[a := bo']> (h_objects h) ->
  (bo_phase bo = Starting -> bo_phase bo' = Starting) -> none_starts h h'.
Proof using Type.
  intros Ha E Hp a1 b1 b2 Ha1 Hp1. rewrite E, lookup_insert. case_decide as Ea; [intros [= <-]; subst a1; simplify_eq; auto|].
  rewrite Ha1. by intros [= <-].
Qed.

Lemma none_on_board a f h r (g : Hub B S -> Hub B S) h' : on_board a f h = Some r -> g <$> r = Some h' ->
  (forall h1, h_objects (g h1) = h_objects h1) -> none_starts h h'.
Proof using Type.
  intros (bo & Ha & Hp & ->)%on_board_inv E Eg. destruct (f _) as [st|]; [|done]. injection E as <-.
  eapply none_insert; [exact Ha|by rewrite Eg|done].
Qed.

Lemma none_hydrated (fl : Fleet (B := B) (S := S)) h h' : none_starts (attach fl h) h' -> hydrated fl h h'.
Proof using Type. intros Hn a bo bo' Ha Hp Ha' Hp'. rewrite (Hn a bo bo' Ha Hp Ha') in Hp'. done. Qed.

Lemma act_hydrated x (fl : Fleet (B := B) (S := S)) h h' : Inv h -> act x (attach fl h) = Some h' -> hydrated fl h h'.
Proof using Type.
  intros Hi E. assert (Inv (attach fl h)) as Hi' by (by apply Inv_services).
  destruct x; cbn [act] in E; try (apply none_hydrated; by (open_act; apply none_same)).
  - apply none_hydrated. unfold serve, beginSession in E. destruct (h_closing (attach fl h)); [by injection E as <-; apply none_same|].
    destruct (defaultColor_spec color (newID rnd)) as (col & Ecol & _). simpl in E.
    destruct (h_boards h !! id) as [e|]; rewrite Ecol in E; injection E as <-; [by apply none_same|].
    intros a1 b1 b2 Ha1 Hp1. simpl in *. rewrite lookup_insert. case_decide; [by intros [= <-]|]. rewrite Ha1. by intros [= <-].
  - apply bind_Some in E as (bo & Ha & E). case_decide as Hp; [|done]. injection E as <-. intros a1 b1 b2 Ha1 Hp1 Ha2 Hp2.
    simpl in *. rewrite lookup_insert in Ha2. case_decide as Ea; [subst a1; by simplify_eq|simplify_eq; congruence].
  - apply none_hydrated. open_act. by eapply none_on_board.
  - apply none_hydrated. open_act. unfold request_step in *. destruct (perform _ _ _) as [b y]. simplify_eq. destruct r; by apply none_same.
  - apply none_hydrated. open_act. by eapply none_on_board.
  - apply none_hydrated. open_act. unfold release. repeat case_match; by apply none_same.
  - apply none_hydrated. open_act. by eapply none_insert.
  - apply none_hydrated. open_act. by eapply none_on_board.
  - apply none_hydrated. apply bind_Some in E as (bo & Ha & E). apply bind_Some in E as (r & Hr & ->).
    eapply (none_on_board _ _ _ _ id); [exact Hr|done|done].
  - apply none_hydrated. apply bind_Some in E as (bo & Ha & E). case_decide as Hp; [|done]. destruct (shutdown _ _); [|done]. injection E as <-.
    eapply none_insert; [exact Ha|done|]. simpl. destruct Hp. congruence.
  - apply none_hydrated. apply bind_Some in E as (bo & Ha & E). case_decide as Hp; [|done]. injection E as <-.
    destruct (persist_board_services (S := S) Delivered Delivered (bo_id bo) (attach fl h)) as (y & z & Ep).
    eapply none_insert; [exact Ha|simpl; by rewrite Ep|]. simpl. congruence.
  - apply none_hydrated. open_act. by eapply none_insert.
Qed.

Context (Hroomy : forall b, roomy b = true -> forall o, v_seq (br_view b o) < br_limit /\ storable (S := S) (br_view b o)).
Context (Hfresh : br_inv fresh /\ forall bid, br_fresh fresh bid = true).

Lemma fleet_act_sound x fl fl' : (forall i h, fl_hubs fl !! i = Some h -> Inv h) -> fleet_act x fl = Some fl' -> fleet_step fl fl'.
Proof using Hroomy Hfresh.
  intros Hi E. destruct x as [i|i x|i|]; simpl in E.
  - destruct (fl_hubs fl !! i) eqn:Ei; [done|]. injection E as <-. by apply fs_start.
  - apply bind_Some in E as (h & Eh & E). apply bind_Some in E as (h' & Ea & E). apply bind_Some in E as (s & Es & E).
    destruct (roomy (fl_broker fl)) eqn:R1; [|done]. destruct (roomy (h_broker h')) eqn:R2; [|done]. injection E as <-.
    eapply fs_step; [done|by eapply act_sound|done|eapply act_hydrated; [by eapply Hi|done]|].
    intros o. split; [by apply (Hroomy _ R1)|by apply (Hroomy _ R2)].
  - injection E as <-. apply fs_crash.
  - case_decide as Hm; [|done]. injection E as <-. destruct Hfresh. apply fs_lose; [by apply map_to_list_empty_iff|done..].
Qed.

(** A schedule that runs is a run. *)
Lemma fleet_run_sound l fl fl' t : fleet_ok fl t -> fleet_run l fl = Some fl' -> rtc fleet_step fl fl'.
Proof using Hroomy Hfresh.
  revert fl t. induction l as [|x l IH]; intros fl t Hok; simpl; [by intros [= <-]|]. intros (fl1 & Ea & Er)%bind_Some.
  assert (fleet_step fl fl1) as Hst by (apply (fleet_act_sound x); [|done]; intros i h Hi; by apply (fo_hubs _ _ Hok i h)).
  destruct (fleet_steps_tier fl fl1 t (rtc_once _ _ Hst) Hok) as (t1 & _ & Hok1).
  eapply rtc_l; [done|]. by apply (IH fl1 t1).
Qed.
End schedule.
