(* ===== verification/Coordinator.v ===== *)
(** The snapshot coordinator of the hub (internal/hub/hub.go: the options of
    [New], [Close], [stopCoordinator], [snapshotLoop], [snapshotAllBoards]): a
    goroutine that saves every registered board at each tick, the channel that
    stops it, and any number of concurrent callers of [Close], run together
    with the hub of [System]. *)

From S2P Require Import Prelude Strconv Utf8 Json JsonFacts JsonLocal Protocol Broker Store Persistence Metrics Board Client Hub System Lifecycle.
Local Open Scope Z_scope.

(** ** Options *)

Section options.
Context {S M : Type} `{Metrics M}.

(** The fields of a hub that options set; [cfg_metrics] starts as the no-op. *)
Record config := { cfg_store : option S; cfg_metrics : M + nopMetrics }.

Definition Option_ : Type := config -> config.

Definition WithStore (s : option S) : Option_ := fun c => {| cfg_store := s; cfg_metrics := cfg_metrics c |}.

Definition WithMetrics (m : option M) : Option_ := fun c =>
  match m with
  | Some m => {| cfg_store := cfg_store c; cfg_metrics := inl m |}
  | None => c
  end.

Definition configure (opts : list Option_) : config :=
  fold_left (fun c opt => opt c) opts {| cfg_store := None; cfg_metrics := inr NopMetrics |}.
End options.

(** ** State *)

(** Where the goroutine of [snapshotLoop] is: in its select, in the loop of
    [snapshotAllBoards], or returned. *)
Inductive loop := LSelect | LSave (todo : list string) | LEnd.

(** A [sync.Once]: unused, running its function, or done. *)
Inductive once := OnceNew | OnceBusy | OnceDone.

(** Where a caller of [Close] is: before [stopOnce.Do], in the function given
    to it, before [wg.Wait], or returned. *)
Inductive closer := KOnce | KClose | KWait | KReturned.

Record Coord := {
  co_stop : option bool;            (* nil, or whether the channel is closed *)
  co_once : once;
  co_wg : Z;
  co_loop : loop;
  co_closers : gmap nat closer;
  co_saved : list string;           (* the boards it has saved, in order *)
}.

(** What [New] starts: nothing unless there is a store. *)
Definition start {S} (store : option S) : Coord :=
  match store with
  | None => {| co_stop := None; co_once := OnceNew; co_wg := 0; co_loop := LEnd; co_closers := ∅; co_saved := [] |}
  | Some _ => {| co_stop := Some false; co_once := OnceNew; co_wg := 1; co_loop := LSelect; co_closers := ∅; co_saved := [] |}
  end.

Definition set_loop (l : loop) (c : Coord) : Coord :=
  {| co_stop := co_stop c; co_once := co_once c; co_wg := co_wg c; co_loop := l;
     co_closers := co_closers c; co_saved := co_saved c |}.
Definition set_closer (k : nat) (p : closer) (c : Coord) : Coord :=
  {| co_stop := co_stop c; co_once := co_once c; co_wg := co_wg c; co_loop := co_loop c;
     co_closers := <[k := p]> (co_closers c); co_saved := co_saved c |}.
Definition set_once (o : once) (c : Coord) : Coord :=
  {| co_stop := co_stop c; co_once := o; co_wg := co_wg c; co_loop := co_loop c;
     co_closers := co_closers c; co_saved := co_saved c |}.
Definition saved_one (id : string) (c : Coord) : Coord :=
  {| co_stop := co_stop c; co_once := co_once c; co_wg := co_wg c; co_loop := co_loop c;
     co_closers := co_closers c; co_saved := co_saved c ++ [id] |}.

(** [close(h.stop)]: [None] is the panic of a second close. *)
Definition close_stop (c : Coord) : option Coord :=
  match co_stop c with
  | Some false => Some {| co_stop := Some true; co_once := co_once c; co_wg := co_wg c; co_loop := co_loop c;
                          co_closers := co_closers c; co_saved := co_saved c |}
  | _ => None
  end.

(** [h.wg.Done()]: a negative counter panics. *)
Definition wg_done (c : Coord) : option Coord :=
  if 0 <? co_wg c
  then Some {| co_stop := co_stop c; co_once := co_once c; co_wg := co_wg c - 1; co_loop := co_loop c;
               co_closers := co_closers c; co_saved := co_saved c |}
  else None.

Section steps.
Context {B S : Type} {BR : Broker B} {ST : Store S} {F : Float64}.
Abbreviation Hub := (Hub B S).
Implicit Types (h : Hub) (c : Coord).

(** The first part of [snapshotAllBoards]: the identifiers in the registry, in
    whatever order Go iterates over it. *)
Definition board_ids (ids : list string) h : Prop := ids ≡ₚ (map_to_list (h_boards h)).*1.

(** [snapshotAllBoards] without interference. *)
Definition snapshotAllBoards (ids : list string) h : Hub :=
  fold_left (fun h id => persist_board Delivered Delivered id h) ids h.

(** The goroutine of [snapshotLoop]. *)
Inductive loop_step : Hub * Coord -> option (Hub * Coord) -> Prop :=
  | ls_save h c id todo f1 f2 : co_loop c = LSave (id :: todo) ->
      loop_step (h, c) (Some (persist_board f1 f2 id h, saved_one id (set_loop (LSave todo) c)))
  | ls_pass h c : co_loop c = LSave [] -> loop_step (h, c) (Some (h, set_loop LSelect c))
  | ls_stop h c : co_loop c = LSelect -> co_stop c = Some true ->
      loop_step (h, c) ((fun c => (h, set_loop LEnd c)) <$> wg_done c).

(** The callers of [stopCoordinator]; a caller that finds [stopOnce] busy
    waits for it. *)
Inductive closer_step : Hub * Coord -> option (Hub * Coord) -> Prop :=
  | ks_once h c k : co_closers c !! k = Some KOnce -> co_once c = OnceNew ->
      closer_step (h, c) (Some (h, set_closer k KClose (set_once OnceBusy c)))
  | ks_skip h c k : co_closers c !! k = Some KOnce -> co_once c = OnceDone ->
      closer_step (h, c) (Some (h, set_closer k KWait c))
  | ks_close h c k : co_closers c !! k = Some KClose ->
      closer_step (h, c) ((fun c => (h, set_closer k KWait (set_once OnceDone c))) <$> close_stop c)
  | ks_wait h c k : co_closers c !! k = Some KWait -> co_wg c = 0 ->
      closer_step (h, c) (Some (h, set_closer k KReturned c)).

(** Steps that need no event from outside. *)
Definition quiet s s' : Prop := loop_step s (Some s') \/ closer_step s (Some s').

(** All steps: the rest of the process, in which [step_snapshot] now stands
    for the coordinators of other instances on the same services, a tick, and
    a new call of [Close], from [Shutdown] or directly. *)
Inductive cstep : Hub * Coord -> option (Hub * Coord) -> Prop :=
  | cs_hub h c r : step h r -> cstep (h, c) ((fun h' => (h', c)) <$> r)
  | cs_tick h c ids : co_loop c = LSelect -> board_ids ids h -> cstep (h, c) (Some (h, set_loop (LSave ids) c))
  | cs_call h c k : co_closers c !! k = None ->
      cstep (h, c) (Some (h, set_closer k (match co_stop c with None => KReturned | Some _ => KOnce end) c))
  | cs_loop s r : loop_step s r -> cstep s r
  | cs_closer s r : closer_step s r -> cstep s r.

Definition cgoes s s' : Prop := cstep s (Some s').

Inductive creachable (b : B) (st : option S) : Hub * Coord -> Prop :=
  | creachable_new : creachable b st (New b st, start st)
  | creachable_step s s' : creachable b st s -> cgoes s s' -> creachable b st s'.
End steps.

(** ** The invariant *)

Definition all_closers (P : closer -> Prop) (c : Coord) : Prop := map_Forall (fun _ p => P p) (co_closers c).

Record cinv (c : Coord) : Prop := {
  (** without a store there is nothing to stop *)
  ci_nil : co_stop c = None -> co_loop c = LEnd /\ co_once c = OnceNew /\ all_closers (fun p => p = KReturned) c;
  (** the channel is closed exactly when the [Once] has run, by one caller *)
  ci_once : is_Some (co_stop c) ->
    match co_once c with
    | OnceNew => co_stop c = Some false /\ all_closers (fun p => p = KOnce) c
    | OnceBusy => co_stop c = Some false /\ all_closers (fun p => p = KOnce \/ p = KClose) c /\
        exists k, co_closers c !! k = Some KClose /\ forall k', co_closers c !! k' = Some KClose -> k' = k
    | OnceDone => co_stop c = Some true /\ all_closers (fun p => p <> KClose) c
    end;
  ci_wg : co_wg c = match co_loop c with LEnd => 0 | _ => 1 end;
  ci_returned : forall k, co_closers c !! k = Some KReturned -> co_loop c = LEnd;
}.

Lemma cinv_start {S} (st : option S) : cinv (start st).
Proof.
  destruct st; split; simpl; try done; intros; unfold all_closers; simpl; split_and!; try done; apply map_Forall_empty.
Qed.

(** Closing and counting down never panic. *)
Lemma cinv_close c k : cinv c -> co_closers c !! k = Some KClose ->
  co_stop c = Some false /\ co_once c = OnceBusy.
Proof.
  intros Hc Hk. destruct (co_stop c) as [b|] eqn:Es.
  - pose proof (ci_once c Hc) as H. rewrite Es in H. specialize (H ltac:(done)).
    destruct (co_once c); [destruct H as [_ H]|by destruct H|destruct H as [_ H]]; by specialize (H k _ Hk).
  - destruct (ci_nil c Hc Es) as (_ & _ & H). by specialize (H k _ Hk).
Qed.

Lemma cinv_stopped c : cinv c -> co_stop c = Some true -> co_once c = OnceDone.
Proof.
  intros Hc Es. pose proof (ci_once c Hc) as H. rewrite Es in H. specialize (H ltac:(done)).
  by destruct (co_once c); [destruct H|destruct H|].
Qed.

Lemma cinv_some c k p : cinv c -> co_closers c !! k = Some p -> p <> KReturned -> is_Some (co_stop c).
Proof.
  intros Hc Hk Hp. destruct (co_stop c) eqn:Es; [done|]. destruct (ci_nil c Hc Es) as (_ & _ & H).
  by specialize (H k p Hk).
Qed.

Lemma cinv_loop c l : cinv c -> co_loop c <> LEnd -> l <> LEnd -> cinv (set_loop l c).
Proof.
  intros [H1 H2 H3 H4] Hl Hl'. split; simpl; try done.
  - intros E. by destruct (H1 E).
  - rewrite H3. by destruct (co_loop c), l.
  - intros k Hk. by destruct Hl; apply (H4 k).
Qed.

Lemma cinv_saved c id : cinv c -> cinv (saved_one id c).
Proof. by intros [H1 H2 H3 H4]. Qed.

Section proofs.
Context {B S : Type} {BR : Broker B} {ST : Store S} {F : Float64}.
Abbreviation Hub := (Hub B S).
Implicit Types (h : Hub) (c : Coord).

Lemma loop_step_cinv h c r : cinv c -> loop_step (h, c) r -> exists h' c', r = Some (h', c') /\ cinv c'.
Proof using Type.
  intros Hc Hst. inversion Hst; subst.
  - eexists _, _. split; [done|]. apply cinv_saved, cinv_loop; congruence.
  - eexists _, _. split; [done|]. apply cinv_loop; congruence.
  - unfold wg_done. rewrite (ci_wg c Hc). match goal with E : co_loop c = _ |- _ => rewrite E end. simpl.
    eexists _, _. split; [done|]. split; simpl; try done.
    + intros E. rewrite E in *. done.
    + by apply (ci_once c Hc).
Qed.

Lemma all_closers_insert k p (P : closer -> Prop) c : P p -> all_closers P c -> all_closers P (set_closer k p c).
Proof using Type. intros Hp Hc. by apply map_Forall_insert_2. Qed.

Lemma closer_step_cinv h c r : cinv c -> closer_step (h, c) r -> exists c', r = Some (h, c') /\ cinv c'.
Proof using Type.
  intros Hc Hst. inversion Hst as [? ? k Hk Ho|? ? k Hk Ho|? ? k Hk|? ? k Hk Hw]; subst.
  - destruct (cinv_some c k _ Hc Hk) as [b Es]; [done|]. pose proof (ci_once c Hc) as H.
    rewrite Es, Ho in H. destruct H as [[= ->] H]; [done|]. eexists; split; [done|].
    split; simpl; [by rewrite Es| |apply Hc|].
    + intros _. rewrite Es. split_and!; [done| |].
      * apply (all_closers_insert k KClose (fun p => p = KOnce \/ p = KClose) (set_once OnceBusy c)); [by right|].
        intros k' p Hp. left. by apply (H k').
      * exists k. split; [apply lookup_insert_eq|]. intros k' [[-> _]|[_ Hk']]%lookup_insert_Some; [done|].
        by specialize (H k' _ Hk').
    + intros k' [[_ ?]|[_ Hk']]%lookup_insert_Some; [done|]. by apply (ci_returned c Hc k').
  - destruct (cinv_some c k _ Hc Hk) as [b Es]; [done|]. pose proof (ci_once c Hc) as H.
    rewrite Es, Ho in H. destruct H as [[= ->] H]; [done|]. eexists; split; [done|].
    split; simpl; [by rewrite Es| |apply Hc|].
    + intros _. rewrite Es, Ho. split; [done|]. by apply (all_closers_insert k KWait (fun p => p <> KClose)).
    + intros k' [[_ ?]|[_ Hk']]%lookup_insert_Some; [done|]. by apply (ci_returned c Hc k').
  - destruct (cinv_close c k Hc Hk) as [Es Ho]. unfold close_stop. rewrite Es. simpl. eexists; split; [done|].
    pose proof (ci_once c Hc) as H. rewrite Es, Ho in H. destruct H as (_ & H & k0 & Hk0 & Hu); [done|].
    split; simpl; [done| |apply Hc|].
    + intros _. split; [done|]. intros k' p. simpl. intros [[_ <-]|[Hne Hp]]%lookup_insert_Some; [done|].
      intros ->. destruct Hne. rewrite (Hu k Hk). symmetry. by apply Hu.
    + intros k' [[_ ?]|[_ Hk']]%lookup_insert_Some; [done|]. by apply (ci_returned c Hc k').
  - destruct (cinv_some c k _ Hc Hk) as [b Es]; [done|]. pose proof (ci_once c Hc) as H. rewrite Es in H.
    specialize (H ltac:(done)). assert (co_loop c = LEnd) as El.
    { pose proof (ci_wg c Hc) as E. rewrite Hw in E. by destruct (co_loop c). }
    eexists; split; [done|]. split; simpl; [by rewrite Es| |apply Hc|done].
    intros _. destruct (co_once c).
    + destruct H as [_ H]. by specialize (H k _ Hk).
    + destruct H as (_ & H & _). specialize (H k _ Hk). simpl in H. naive_solver.
    + destruct H as [E H]. split; [congruence|]. by apply (all_closers_insert k KReturned (fun p => p <> KClose)).
Qed.

Lemma cinv_tick c ids : cinv c -> co_loop c = LSelect -> cinv (set_loop (LSave ids) c).
Proof using Type. intros Hc El. apply cinv_loop; congruence. Qed.

Lemma cinv_call c k : cinv c -> co_closers c !! k = None ->
  cinv (set_closer k (match co_stop c with None => KReturned | Some _ => KOnce end) c).
Proof using Type.
  intros Hc Hk. destruct (co_stop c) as [b|] eqn:Es.
  - pose proof (ci_once c Hc) as H. rewrite Es in H. specialize (H ltac:(done)). split; simpl.
    + by rewrite Es.
    + intros _. rewrite Es. destruct (co_once c).
      * destruct H as [-> H]. split; [done|]. by apply (all_closers_insert k KOnce (fun p => p = KOnce)).
      * destruct H as (-> & H & k0 & Hk0 & Hu). split_and!; [done| |].
        { apply (all_closers_insert k KOnce (fun p => p = KOnce \/ p = KClose)); [by left|done]. }
        exists k0. split; [rewrite lookup_insert_ne; [done|]; congruence|].
        intros k' [[_ ?]|[_ Hk']]%lookup_insert_Some; [done|by apply Hu].
      * destruct H as [-> H]. split; [done|]. by apply (all_closers_insert k KOnce (fun p => p <> KClose)).
    + apply Hc.
    + intros k' [[_ ?]|[_ Hk']]%lookup_insert_Some; [done|]. by apply (ci_returned c Hc k').
  - destruct (ci_nil c Hc Es) as (H1 & H2 & H3). split; simpl; [|by rewrite Es; intros []|apply Hc|done].
    intros _. split_and!; [done..|]. by apply (all_closers_insert k KReturned (fun p => p = KReturned)).
Qed.

(** Every step of the process and its coordinator preserves both invariants
    and panics nowhere. *)
Lemma cstep_inv h c r : Inv h -> cinv c -> cstep (h, c) r -> exists h' c', r = Some (h', c') /\ Inv h' /\ cinv c'.
Proof using Type.
  intros Hi Hc Hst. inversion Hst as [? ? r' Hs|? ? ids El Hids|? ? k Hk|? ? Hs|? ? Hs]; subst.
  - destruct (step_inv h r' Hi Hs) as (h' & -> & Hi'). by exists h', c.
  - exists h, (set_loop (LSave ids) c). split_and!; [done..|by apply cinv_tick].
  - eexists h, _. split_and!; [done..|by apply cinv_call].
  - destruct (loop_step_cinv h c r Hc Hs) as (h' & c' & -> & Hc'). exists h', c'. split_and!; [done| |done].
    inversion Hs; subst; try done.
    + destruct (step_inv h _ Hi (step_snapshot (e := Busy) h id f1 f2 eq_refl)) as (h1 & E & Hi1). by injection E as ->.
    + unfold wg_done in *. by destruct (0 <? co_wg c); simplify_eq/=.
  - destruct (closer_step_cinv h c r Hc Hs) as (c' & -> & Hc'). by exists h, c'.
Qed.

Lemma creachable_inv b st s : creachable b st s -> Inv s.1 /\ cinv s.2.
Proof using Type.
  induction 1 as [|[h c] s' _ [Hi Hc] Hst]; [split; [apply Inv_new|apply cinv_start]|].
  by destruct (cstep_inv h c _ Hi Hc Hst) as (h' & c' & [= ->] & ? & ?).
Qed.

(** ** The coordinator refines the hub's snapshot steps *)

Lemma cstep_hub h c h' c' : cgoes (h, c) (h', c') -> h' = h \/ goes h h'.
Proof using Type.
  intros Hst. inversion Hst as [? ? r' Hs E1 E2|? ?|? ?|? ? Hs|? ? Hs]; subst; try by left.
  - destruct r'; simplify_eq/=. by right.
  - inversion Hs; subst; [right; by apply step_snapshot|by left|]. unfold wg_done in *.
    destruct (0 <? co_wg c); simplify_eq/=. by left.
  - inversion Hs; subst; try by left. destruct (close_stop c); simplify_eq/=. by left.
Qed.

Lemma creachable_hub b st s : creachable b st s -> reachable b st s.1.
Proof using Type.
  induction 1 as [|[h c] [h' c'] _ IH Hst]; [apply reachable_new|].
  destruct (cstep_hub _ _ _ _ Hst) as [->|Hg]; [done|]. by eapply reachable_step.
Qed.

(** ** Once [Close] has returned *)

Definition stopped_for_good (c : Coord) : Prop := co_loop c = LEnd.

Lemma cgoes_stopped h c h' c' : stopped_for_good c -> cgoes (h, c) (h', c') ->
  stopped_for_good c' /\ co_saved c' = co_saved c.
Proof using Type.
  unfold stopped_for_good. intros El Hst.
  inversion Hst as [? ? r' Hs E1 E2|? ? ? El'|? ?|? ? Hs|? ? Hs]; subst; try done; try congruence.
  - destruct r'; by simplify_eq/=.
  - inversion Hs; congruence.
  - inversion Hs; subst; try done. unfold close_stop in *. destruct (co_stop c) as [[]|]; by simplify_eq/=.
Qed.

Lemma stopped_rtc s s' : stopped_for_good s.2 -> rtc cgoes s s' ->
  stopped_for_good s'.2 /\ co_saved s'.2 = co_saved s.2.
Proof using Type.
  intros El Hr. induction Hr as [s|[h c] [h1 c1] s' Hg _ IH]; [done|].
  destruct (cgoes_stopped _ _ _ _ El Hg) as [El1 Es1]. destruct (IH El1) as [? Es]. split; [done|].
  by rewrite Es, <-Es1.
Qed.

(** ** [Close] returns *)

Definition at_least (n : nat) (p : closer) : bool :=
  match p with KOnce => n <=? 3 | KClose => n <=? 2 | KWait => n <=? 1 | KReturned => n <=? 0 end%nat.

Definition loop_work (l : loop) : Z :=
  match l with LSave todo => Z.of_nat (length todo) + 2 | LSelect => 1 | LEnd => 0 end.

(** How many steps the coordinator and its callers have left, unless a tick or
    a new call comes in. *)
Definition work (c : Coord) : Z :=
  loop_work (co_loop c) + mcount (at_least 1) (co_closers c) + mcount (at_least 2) (co_closers c) +
  mcount (at_least 3) (co_closers c).

Lemma quiet_work s s' : quiet s s' -> work s'.2 < work s.2.
Proof using Type.
  intros [Hst|Hst]; inversion Hst; subst; unfold work; simpl.
  - match goal with E : co_loop _ = _ |- _ => rewrite E end. simpl. lia.
  - match goal with E : co_loop _ = _ |- _ => rewrite E end. simpl. lia.
  - unfold wg_done in *. destruct (0 <? co_wg c); simplify_eq/=.
    match goal with E : co_loop _ = _ |- _ => rewrite E end. simpl. lia.
  - rewrite !(mcount_insert _ k KOnce) by done. simpl. lia.
  - rewrite !(mcount_insert _ k KOnce) by done. simpl. lia.
  - unfold close_stop in *. destruct (co_stop c) as [[]|]; simplify_eq/=.
    rewrite !(mcount_insert _ k KClose) by done. simpl. lia.
  - rewrite !(mcount_insert _ k KWait) by done. simpl. lia.
Qed.

Lemma work_nonneg c : 0 <= work c.
Proof using Type.
  unfold work. pose proof (mcount_nonneg (at_least 1) (co_closers c)).
  pose proof (mcount_nonneg (at_least 2) (co_closers c)). pose proof (mcount_nonneg (at_least 3) (co_closers c)).
  assert (0 <= loop_work (co_loop c)) by (destruct (co_loop c); simpl; lia). lia.
Qed.

Lemma quiet_bounded n s s' : nsteps quiet n s s' -> Z.of_nat n + work s'.2 <= work s.2.
Proof using Type.
  induction 1 as [|n s s1 s' Hq _ IH]; [lia|]. pose proof (quiet_work _ _ Hq). lia.
Qed.

(** As long as a caller has not returned, some quiet step is possible: no
    deadlock between the [Once], the channel and the wait group. *)
Lemma quiet_progress h c k p : cinv c -> co_closers c !! k = Some p -> p <> KReturned -> exists s', quiet (h, c) s'.
Proof using Type.
  intros Hc Hk Hp. destruct (cinv_some c k p Hc Hk Hp) as [b Es].
  pose proof (ci_once c Hc) as Ho. rewrite Es in Ho. specialize (Ho ltac:(done)).
  destruct (co_once c) eqn:Eo.
  - destruct Ho as [_ Ho]. specialize (Ho k p Hk). simpl in Ho. subst p.
    eexists. right. by apply (ks_once h c k).
  - destruct Ho as ([= ->] & _ & k0 & Hk0 & _). eexists (_, _). right.
    pose proof (ks_close h c k0 Hk0) as H. unfold close_stop in H. rewrite Es in H. exact H.
  - destruct Ho as [[= ->] Ho]. destruct p; try done.
    + eexists. right. by apply (ks_skip h c k).
    + by specialize (Ho k _ Hk).
    + destruct (co_loop c) as [|[|id todo]|] eqn:El.
      * eexists (_, _). left. pose proof (ls_stop h c El Es) as H. unfold wg_done in H.
        rewrite (ci_wg c Hc), El in H. exact H.
      * eexists. left. by apply ls_pass.
      * eexists. left. by apply (ls_save h c id todo Delivered Delivered).
      * eexists. right. apply (ks_wait h c k); [done|]. by rewrite (ci_wg c Hc), El.
Qed.

Lemma quiet_cgoes s s' : quiet s s' -> cgoes s s'.
Proof using Type. intros [H|H]; [by apply cs_loop|by apply cs_closer]. Qed.

Lemma quiet_closer s s' k : quiet s s' -> is_Some (co_closers s.2 !! k) -> is_Some (co_closers s'.2 !! k).
Proof using Type.
  intros [Hst|Hst] Hk; inversion Hst; subst; simpl in *; try done.
  - unfold wg_done in *. by destruct (0 <? co_wg c); simplify_eq/=.
  - rewrite lookup_insert. by case_decide.
  - rewrite lookup_insert. by case_decide.
  - unfold close_stop in *. destruct (co_stop c) as [[]|]; simplify_eq/=. rewrite lookup_insert. by case_decide.
  - rewrite lookup_insert. by case_decide.
Qed.

(** ** A pass over the boards *)

(** Run by itself, the coordinator's loop is [snapshotAllBoards]. *)
Lemma pass_steps h c ids : co_loop c = LSave ids ->
  exists c', nsteps quiet (Datatypes.S (length ids)) (h, c) (snapshotAllBoards ids h, c') /\
    co_loop c' = LSelect /\ co_saved c' = co_saved c ++ ids /\ co_stop c' = co_stop c.
Proof using Type.
  revert h c. induction ids as [|id ids IH]; intros h c El.
  - exists (set_loop LSelect c). split_and!; [|done|by rewrite app_nil_r|done].
    eapply nsteps_l; [left; by apply ls_pass|apply nsteps_O].
  - destruct (IH (persist_board Delivered Delivered id h) (saved_one id (set_loop (LSave ids) c)) eq_refl)
      as (c' & Hn & H1 & H2 & H3).
    exists c'. split_and!; [|done|by rewrite H2, cons_middle, app_assoc|done].
    eapply nsteps_l; [left; by apply (ls_save h c id ids Delivered Delivered)|exact Hn].
Qed.
End proofs.

(** ** What a pass leaves in the store *)

Section pass.
Context {B S : Type} {BR : Broker B} {BL : BrokerLaws B} {ST : Store S} {SL : StoreLaws S} {F : Float64}.
Abbreviation Hub := (Hub B S).

(** The store takes every snapshot of the boards [ids] of [b]. *)
Definition accepts (ids : list string) (b : B) : Prop :=
  forall id snap (s : S), id ∈ ids -> is_snapshot (br_view b id) snap -> st_inv s ->
    st_valid snap /\ (st_SaveSnapshot Delivered id snap s).2 = Ok tt.

(** The board [id] of [b] is stored: a snapshot of it, unless the store [s0]
    already had a newer one. *)
Definition checkpointed (b : B) (s0 s : S) (id : string) : Prop :=
  exists snap stored, is_snapshot (br_view b id) snap /\ snap_sim st_sim snap stored /\
    st_view s id = Some (save_guard (st_view s0 id) stored).

Lemma save_delivered id (b : B) (s : S) : br_inv b -> st_inv s -> accepts [id] b ->
  let '(b', s') := save Delivered Delivered id b s in
  br_inv b' /\ (forall o, br_view b' o = br_view b o) /\ st_inv s' /\
  (forall o, o <> id -> st_view s' o = st_view s o) /\ checkpointed b s s' id.
Proof using Type.
  intros Hb Hs Ha. unfold save. pose proof (Snapshot_law Delivered id b Hb) as Hl.
  destruct (br_Snapshot Delivered id b) as [b' [snap|e]]; destruct Hl as (H1 & H2 & H3); [|by destruct H3].
  simpl in H3. destruct (Ha id snap s ltac:(by left) H3 Hs) as [Hv Hok].
  pose proof (SaveSnapshot_law Delivered id snap s Hs Hv) as Hsv.
  destruct (st_SaveSnapshot Delivered id snap s) as [s' r]. simpl in Hok |- *. subst r.
  destruct Hsv as (S1 & S2 & _ & S4). destruct (S4 eq_refl) as (stored & ? & ?).
  split_and!; [done|by intros o; apply H2|done|done|]. by exists snap, stored.
Qed.

Lemma accepts_view ids ids' (b b' : B) : ids' ⊆ ids -> (forall o, br_view b' o = br_view b o) ->
  accepts ids b -> accepts ids' b'.
Proof using Type. intros Hsub E Ha id snap s Hid. rewrite E. apply Ha. by apply Hsub. Qed.

Lemma pass_spec ids (h : Hub) s : h_store h = Some s -> NoDup ids ->
  br_inv (h_broker h) -> st_inv s -> accepts ids (h_broker h) ->
  exists b' s', snapshotAllBoards ids h = set_services b' (Some s') h /\
    (forall o, br_view b' o = br_view (h_broker h) o) /\
    (forall id, id ∈ ids -> checkpointed (h_broker h) s s' id) /\
    (forall id, id ∉ ids -> st_view s' id = st_view s id).
Proof using Type.
  revert h s. induction ids as [|id ids IH]; intros h s Es Hn Hb Hs Ha.
  { exists (h_broker h), s. split_and!; [|done|by intros ? ?%not_elem_of_nil|done].
    destruct h; simpl in *. by subst. }
  apply NoDup_cons in Hn as [Hid Hn]. 
  change (snapshotAllBoards (id :: ids) h) with (snapshotAllBoards ids (persist_board Delivered Delivered id h)).
  unfold persist_board. rewrite Es.
  pose proof (save_delivered id (h_broker h) s Hb Hs) as Hd. destruct (save _ _ _ _ _) as [b1 s1].
  destruct Hd as (Hb1 & Ev1 & Hs1 & Eo1 & Hc1).
  { eapply accepts_view; [|done|exact Ha]. set_solver. }
  destruct (IH (set_services b1 (Some s1) h) s1 eq_refl Hn Hb1 Hs1) as (b2 & s2 & E2 & Ev2 & Hc2 & Eo2).
  { eapply accepts_view; [|exact Ev1|exact Ha]. set_solver. }
  simpl in *. exists b2, s2. split_and!; [by rewrite E2|intros o; by rewrite Ev2| |].
  - intros o [->|Ho]%elem_of_cons.
    + destruct Hc1 as (snap & stored & ? & ? & ?). exists snap, stored. by rewrite Eo2.
    + destruct (Hc2 o Ho) as (snap & stored & H1 & H2 & H3). exists snap, stored. rewrite <-Ev1, <-Eo1; [done|].
      by intros ->.
  - intros o [Hne Ho]%not_elem_of_cons. rewrite Eo2 by done. by apply Eo1.
Qed.
End pass.
