(* ===== verification/Url.v ===== *)
(** The parts of Go's [net/url] and of [net/http]'s router that the server's
    handlers use: percent decoding, [Query().Get], and the single-segment
    wildcard of the route ["GET /ws/{board}"]; and the encoder of the browser's
    URLs ([encodeURIComponent], web/src/App.tsx). *)

From S2P Require Import Prelude Strconv Utf8 Json JsonFacts.
Local Open Scope Z_scope.

(** ** Decoding

    [url.unescape]: with [plus] as in a query component, without as in a path
    segment; [None] is its error. *)
Fixpoint unescape (plus : bool) (s : string) : option string :=
  match s with
  | "" => Some ""
  | String c s' =>
      if ceq c "%" then
        match s' with
        | String a (String b s2) =>
            if is_hex a && is_hex b
            then String (chr (hex_val a * 16 + hex_val b)) <$> unescape plus s2
            else None
        | _ => None
        end
      else String (if plus && ceq c "+" then " "%char else c) <$> unescape plus s'
  end.

Definition QueryUnescape : string -> option string := unescape true.
Definition PathUnescape : string -> option string := unescape false.

(** The pieces of a string between separators. *)
Fixpoint split (c : ascii) (s : string) : list string :=
  match s with
  | "" => [""]
  | String d s' =>
      if ceq d c then "" :: split c s'
      else match split c s' with
           | x :: l => String d x :: l
           | [] => [str1 d]
           end
  end.

Fixpoint contains (c : ascii) (s : string) : bool :=
  match s with "" => false | String d s' => ceq d c || contains c s' end.

(** One pair of a query, [None] for one that [ParseQuery] skips. *)
Definition query_pair (s : string) : option (string * string) :=
  if contains ";" s then None
  else if bool_decide (s = "") then None
  else
    let '(key, value) := match cut "=" s with Some kv => kv | None => (s, "") end in
    key ← QueryUnescape key; value ← QueryUnescape value; Some (key, value).

(** [url.ParseQuery], its error ignored as [URL.Query] does. *)
Definition Query (raw : string) : list (string * string) := omap query_pair (split "&" raw).

(** [Values.Get] *)
Definition Get (vs : list (string * string)) (key : string) : string :=
  match list_find (fun kv => kv.1 = key) vs with Some (_, kv) => kv.2 | None => "" end.

(** ** Routing

    The router matches the segments of the escaped path, each of them decoded;
    a path that is not clean (empty segments, [.] and [..]) it redirects before,
    and a segment that decodes to a slash it takes for a trailing one. *)

Definition segment (s : string) : string := default s (PathUnescape s).

(** The value of [{board}] when the path matches ["/ws/{board}"]. *)
Definition match_ws (path : string) : option string :=
  match split "/" path with
  | [""; ws; seg] =>
      if bool_decide (segment ws = "ws" /\ seg <> "" /\ segment seg <> "/") then Some (segment seg) else None
  | _ => None
  end.

Definition match_static (name path : string) : bool :=
  match split "/" path with [""; seg] => bool_decide (segment seg = name) | _ => false end.

(** The routes of [run] in cmd/server/main.go. *)
Inductive handler := HHealthz | HWs (board : string) | HMetrics | HNotFound | HMethodNotAllowed.

Definition route (method path : string) : handler :=
  let h := if match_static "healthz" path then HHealthz
           else if match_static "metrics" path then HMetrics
           else match match_ws path with Some b => HWs b | None => HNotFound end in
  match h with
  | HNotFound => HNotFound
  | _ => if bool_decide (method ∈ ["GET"; "HEAD"]) then h else HMethodNotAllowed
  end.

(** ** Encoding *)

Definition is_alnum (c : ascii) : bool :=
  between 48 57 (ord c) || between 65 90 (ord c) || between 97 122 (ord c).

(** The characters [encodeURIComponent] leaves alone. *)
Definition unreserved (c : ascii) : bool :=
  is_alnum c || bool_decide (c ∈ ["-"; "_"; "."; "!"; "~"; "*"; "'"; "("; ")"]%char).

Definition upper_hex (z : Z) : ascii := chr (if z <? 10 then 48 + z else 55 + z).

Definition encode_char (c : ascii) (s : string) : string :=
  if unreserved c then String c s else String "%" (String (upper_hex (ord c / 16)) (String (upper_hex (ord c mod 16)) s)).

(** [encodeURIComponent] of a string given as its UTF-8 bytes. *)
Fixpoint encodeURIComponent (s : string) : string :=
  match s with "" => "" | String c s' => encode_char c (encodeURIComponent s') end.

(** ** Round trips *)

Lemma upper_hex_spec z : 0 <= z < 16 -> is_hex (upper_hex z) = true /\ hex_val (upper_hex z) = z.
Proof.
  intros Hz. rewrite <-(Z2Nat.id z) by lia. assert (Z.to_nat z < 16)%nat as Hn by lia. revert Hn. clear Hz.
  generalize (Z.to_nat z). intros n Hn. do 16 (destruct n as [|n]; [by vm_compute|]). lia.
Qed.

(** A character the encoder leaves alone is none of those the decoder and the
    parsers treat specially. *)
Lemma unreserved_plain c : unreserved c = true -> c ∉ ["%"; "+"; "&"; ";"; "="; "/"]%char.
Proof.
  intros Hu Hin. assert (forall d, c = d -> unreserved d = false -> False) as Hno by (intros d -> Hd; congruence).
  rewrite !elem_of_cons, elem_of_nil in Hin. destruct_or! Hin; try done; by eapply Hno; [exact Hin|].
Qed.

Lemma upper_hex_plain z : 0 <= z < 16 -> unreserved (upper_hex z) = true.
Proof.
  intros Hz. rewrite <-(Z2Nat.id z) by lia. assert (Z.to_nat z < 16)%nat as Hn by lia. revert Hn. clear Hz.
  generalize (Z.to_nat z). intros n Hn. do 16 (destruct n as [|n]; [by vm_compute|]). lia.
Qed.

Lemma ord_hex c : 0 <= ord c / 16 < 16 /\ 0 <= ord c mod 16 < 16 /\ ord c / 16 * 16 + ord c mod 16 = ord c.
Proof.
  pose proof (ord_range c). pose proof (Z.div_mod (ord c) 16). pose proof (Z.mod_pos_bound (ord c) 16).
  split_and!; lia.
Qed.

(** What is encoded decodes to itself, in a path and in a query. *)
Lemma unescape_encode plus s : unescape plus (encodeURIComponent s) = Some s.
Proof.
  induction s as [|c s IH]; [done|]. cbn [encodeURIComponent]. unfold encode_char. destruct (unreserved c) eqn:Hu.
  - pose proof (unreserved_plain c Hu) as Hp. cbn [unescape].
    rewrite (proj2 (ceq_false c "%")) by set_solver. rewrite (proj2 (ceq_false c "+")) by set_solver.
    rewrite andb_false_r, IH. done.
  - destruct (ord_hex c) as (H1 & H2 & H3). destruct (upper_hex_spec _ H1) as [E1 V1]. destruct (upper_hex_spec _ H2) as [E2 V2].
    cbn [unescape]. rewrite ceq_refl, E1, E2, V1, V2, H3, chr_ord, IH. done.
Qed.

(** The encoder's output holds none of the characters of [l]. *)
Definition avoids (c : ascii) (s : string) : Prop := contains c s = false.

Lemma encode_avoids c s : c ∈ ["+"; "&"; ";"; "="; "/"]%char -> avoids c (encodeURIComponent s).
Proof.
  intros Hc. unfold avoids. induction s as [|d s IH]; [done|]. cbn [encodeURIComponent]. unfold encode_char.
  assert (forall e, unreserved e = true -> ceq e c = false) as Hne.
  { intros e He. apply ceq_false. intros ->. pose proof (unreserved_plain c He). set_solver. }
  destruct (unreserved d) eqn:Hu; cbn [contains].
  - by rewrite Hne, IH.
  - destruct (ord_hex d) as (H1 & H2 & _). 
    rewrite (proj2 (ceq_false "%" c)) by (intros <-; apply (bool_decide_pack _) in Hc; by vm_compute in Hc).
    by rewrite !Hne, IH by (by apply upper_hex_plain).
Qed.

Lemma split_avoids c s : avoids c s -> split c s = [s].
Proof.
  unfold avoids. induction s as [|d s IH]; [done|]. cbn [contains split]. intros [Hd Hs]%orb_false_iff.
  by rewrite Hd, IH.
Qed.

Lemma split_app c s t : avoids c s -> split c (s +:+ String c t) = s :: split c t.
Proof.
  unfold avoids. induction s as [|d s IH]; str_norm.
  - intros _. cbn [split]. by rewrite ceq_refl.
  - cbn [contains split]. intros [Hd Hs]%orb_false_iff. by rewrite Hd, IH.
Qed.

Lemma cut_avoids c s t : avoids c s -> cut c (s +:+ String c t) = Some (s, t).
Proof.
  intros Hs. apply cut_app. induction s as [|d s IH]; [done|]. unfold avoids in *. cbn [contains str_forall] in *.
  apply orb_false_iff in Hs as [Hd Hs]. rewrite IH by done. rewrite bool_decide_false; [done|]. by apply ceq_false.
Qed.

Lemma contains_app c s t : contains c (s +:+ t) = contains c s || contains c t.
Proof. induction s as [|d s IH]; str_norm; [done|]. cbn [contains]. by rewrite IH, orb_assoc. Qed.

Lemma encode_nonempty s : s <> "" -> encodeURIComponent s <> "".
Proof. destruct s as [|c s]; [done|]. intros _. cbn. unfold encode_char. by destruct (unreserved c). Qed.

(** A pair as the browser writes it. *)
Lemma query_pair_encode key value : key <> "" ->
  query_pair (encodeURIComponent key +:+ String "=" (encodeURIComponent value)) = Some (key, value).
Proof.
  intros Hk. unfold query_pair. rewrite contains_app. cbn [contains].
  rewrite !(encode_avoids ";") by (apply (bool_decide_unpack _); by vm_compute). cbn [orb].
  change (ceq "=" ";") with false. cbn [orb]. rewrite bool_decide_false.
  - rewrite cut_avoids by (apply encode_avoids, (bool_decide_unpack _); by vm_compute).
    unfold QueryUnescape. rewrite !unescape_encode. done.
  - destruct (encodeURIComponent key) eqn:E; [by apply encode_nonempty in E|]. by str_norm.
Qed.

(** And a board in a path. *)
Lemma match_ws_encode board : board <> "" -> board <> "/" -> match_ws ("/ws/" +:+ encodeURIComponent board) = Some board.
Proof.
  intros H1 H2. unfold match_ws. change ("/ws/" +:+ ?s) with ("" +:+ String "/" ("ws" +:+ String "/" s)).
  rewrite !split_app by done. rewrite split_avoids by (apply encode_avoids, (bool_decide_unpack _); by vm_compute).
  unfold segment, PathUnescape. rewrite unescape_encode. simpl. rewrite bool_decide_true; [done|].
  split_and!; [done|by apply encode_nonempty|done].
Qed.

(** ** The browser's URLs

    [wsURL] in web/src/App.tsx, past the host: the path and the raw query. *)
Definition wsURL (board name : string) : string * string :=
  ("/ws/" +:+ encodeURIComponent board,
   if bool_decide (name = "") then "" else "name=" +:+ encodeURIComponent name).

(** What the query of the browser's URL gives: its name, and no colour. *)
Lemma Get_wsURL board name :
  Get (Query (wsURL board name).2) "name" = name /\ Get (Query (wsURL board name).2) "color" = "".
Proof.
  unfold wsURL, Query. case_bool_decide as E; [by subst|]. simpl snd.
  change ("name=" +:+ ?s) with (encodeURIComponent "name" +:+ String "=" s). rewrite split_avoids.
  - cbn [omap list_omap]. by rewrite (query_pair_encode "name" name) by done.
  - unfold avoids. rewrite contains_app. cbn [contains].
    by rewrite (encode_avoids "&" name) by (apply (bool_decide_unpack _); by vm_compute).
Qed.

Lemma route_wsURL board name : board <> "" -> board <> "/" -> route "GET" (wsURL board name).1 = HWs board.
Proof.
  intros H1 H2. unfold route, match_static. simpl fst. rewrite (match_ws_encode board) by done.
  change ("/ws/" +:+ ?s) with ("" +:+ String "/" ("ws" +:+ String "/" s)). rewrite !split_app by done.
  by rewrite split_avoids by (apply encode_avoids, (bool_decide_unpack _); by vm_compute).
Qed.
