(* ===== verification/Server.v ===== *)
(** The server process (cmd/server/main.go: configuration, wiring, the life of
    the process, its resources), and the upgrade handler that hands a
    connection to the hub (internal/ws/websocket.go). *)

From S2P Require Import Prelude Strconv Utf8 Json JsonFacts JsonLocal Protocol Broker Store Persistence Metrics Board Conn Client Hub System Lifecycle Url.
Local Open Scope Z_scope.

(** ** Configuration *)

(** The environment of the process. *)
Abbreviation environment := (gmap string string).

Record config := {
  addr : string;
  redisAddr : string;
  databaseURL : string;
  shutdownTimeout : Z;      (* nanoseconds *)
}.

Definition getenv (env : environment) (key fallback : string) : string :=
  match env !! key with Some v => v | None => fallback end.

Definition loadConfig (env : environment) : config :=
  {| addr := getenv env "WB_ADDR" ":8080";
     redisAddr := getenv env "WB_REDIS_ADDR" "";
     databaseURL := getenv env "WB_DATABASE_URL" "";
     shutdownTimeout := 15 * 10 ^ 9 |}.

(** ** Effects

    What the process opens and must close again, what it does with it, and, as
    an argument, how the world answers. *)

Inductive resource := Signals | RedisClient | PingTimer | PgPool | TheHub | DrainTimer.

#[export] Instance resource_eq_dec : EqDecision resource.
Proof. solve_decision. Defined.

Inductive effect :=
  | Open (r : resource)
  | Shut (r : resource)
  | Ping                (* rdb.Ping *)
  | ExecSchema          (* pool.Exec(schema) *)
  | Listen              (* the HTTP server starts *)
  | HTTPShutdown
  | HubShutdown.

#[export] Instance effect_eq_dec : EqDecision effect.
Proof. solve_decision. Defined.

Record world := {
  w_ping : result unit;
  w_pool : result unit;                (* pgxpool.New *)
  w_schema : result unit;
  w_served : option (result unit);     (* the server died by itself, or [None]: a signal came first *)
  w_http : result unit;
  w_hub : result unit;
}.

Definition act (A : Type) : Type := list effect * result A.

#[export] Instance act_ret : MRet act := fun A a => ([], Ok a).
#[export] Instance act_bind : MBind act := fun A B f m =>
  match m.2 with Ok a => (m.1 ++ (f a).1, (f a).2) | Err e => (m.1, Err e) end.

Definition perform (e : effect) (r : result unit) : act unit := ([e], r).
Definition emit (e : effect) : act unit := perform e (Ok tt).
Definition fail {A} (e : error) : act A := ([], Err e).

(** [defer]: [d] runs after [m], on every path. *)
Definition deferring {A} (d : list effect) (m : act A) : act A := (m.1 ++ d, m.2).

(** ** Wiring *)

Inductive broker_kind := BMemory | BRedis.

(** [broker.NewRedis] only wraps the client; its [Close] closes it. *)
Definition close_broker (b : broker_kind) : list effect :=
  match b with BMemory => [] | BRedis => [Shut RedisClient] end.

Definition newBroker (w : world) (cfg : config) : act broker_kind :=
  if bool_decide (redisAddr cfg = "") then mret BMemory
  else
    emit (Open RedisClient) ;;
    deferring [Shut PingTimer] (
      emit (Open PingTimer) ;;
      match perform Ping (w_ping w) with
      | (l, Err e) => (l ++ [Shut RedisClient], Err e)
      | (l, Ok _) => (l, Ok BRedis)
      end).

(** [store.NewPostgres]: whether there is a store to close. *)
Definition NewPostgres (w : world) : act unit :=
  match w_pool w with
  | Err e => fail e
  | Ok _ =>
      emit (Open PgPool) ;;
      match perform ExecSchema (w_schema w) with
      | (l, Err e) => (l ++ [Shut PgPool], Err e)
      | (l, Ok _) => (l, Ok tt)
      end
  end.

Definition close_store (st : option unit) : list effect :=
  match st with None => [] | Some _ => [Shut PgPool] end.

Definition newStore (w : world) (cfg : config) : act (option unit) :=
  if bool_decide (databaseURL cfg = "") then mret None
  else pg ← NewPostgres w; mret (Some pg).

(** ** The life of the process *)

Definition run (env : environment) (w : world) : act unit :=
  let cfg := loadConfig env in
  emit (Open Signals) ;;
  deferring [Shut Signals] (
    b ← newBroker w cfg;
    deferring (close_broker b) (
      st ← newStore w cfg;
      deferring (close_store st) (
        emit (Open TheHub) ;;
        deferring [Shut TheHub] (
          emit Listen ;;
          match w_served w with
          | Some r => ([], r)
          | None =>
              emit (Open DrainTimer) ;;
              deferring [Shut DrainTimer] (
                match perform HTTPShutdown (w_http w) with (l, _) => (l, Ok tt) end ;;
                perform HubShutdown (w_hub w))
          end)))).

(** The exit status of [main]. *)
Definition main (env : environment) (w : world) : Z := if is_ok (run env w).2 then 0 else 1.

(** ** Resources are used while they are open, and closed once

    The hub writes through the broker and the store, so neither may be closed
    under it. *)

Definition needs (e : effect) : list resource :=
  match e with
  | Ping => [RedisClient]
  | ExecSchema => [PgPool]
  | Listen | HTTPShutdown => [TheHub]
  | HubShutdown => [TheHub; DrainTimer]
  | Open _ | Shut _ => []
  end.

Definition users (r : resource) : list resource :=
  match r with RedisClient | PgPool => [TheHub] | _ => [] end.

(** The resources open after the effects, [None] if one is opened twice,
    closed while it is not open or still used, or used while it is not open. *)
Fixpoint opened (l : list effect) (live : list resource) : option (list resource) :=
  match l with
  | [] => Some live
  | Open r :: l' => if bool_decide (r ∈ live) then None else opened l' (r :: live)
  | Shut r :: l' =>
      if bool_decide (r ∈ live /\ Forall (fun u => u ∉ live) (users r))
      then opened l' (filter (.≠ r) live) else None
  | e :: l' => if bool_decide (Forall (fun r => r ∈ live) (needs e)) then opened l' live else None
  end.

(** The services a configuration asks for are there. *)
Definition started (cfg : config) (w : world) : bool :=
  (bool_decide (redisAddr cfg = "") || is_ok (w_ping w)) &&
  (bool_decide (databaseURL cfg = "") || (is_ok (w_pool w) && is_ok (w_schema w))).

Lemma run_effects env w : opened (run env w).1 [] = Some [].
Proof.
  unfold run. set (cfg := loadConfig env). cbv zeta. unfold newBroker, newStore, NewPostgres, perform.
  destruct (bool_decide (redisAddr cfg = "")), (bool_decide (databaseURL cfg = "")), w as [[[]|] [[]|] [[]|] [[[]|]|] wh [[]|]];
    by vm_compute.
Qed.

Lemma run_ok env w : (run env w).2 = Ok tt <->
  started (loadConfig env) w = true /\
  match w_served w with Some r => r = Ok tt | None => w_hub w = Ok tt end.
Proof.
  unfold run, started. set (cfg := loadConfig env). cbv zeta. unfold newBroker, newStore, NewPostgres, perform.
  destruct (bool_decide (redisAddr cfg = "")), (bool_decide (databaseURL cfg = "")), w as [[[]|] [[]|] [[]|] [[[]|]|] wh [[]|]];
    simpl; naive_solver.
Qed.

(** The hub is drained exactly when a signal ended a process that had started,
    after the HTTP server has stopped accepting. *)
Lemma run_drains env w : HubShutdown ∈ (run env w).1 <-> started (loadConfig env) w = true /\ w_served w = None.
Proof.
  unfold run, started. set (cfg := loadConfig env). cbv zeta. unfold newBroker, newStore, NewPostgres, perform.
  destruct (bool_decide (redisAddr cfg = "")), (bool_decide (databaseURL cfg = "")), w as [[[]|] [[]|] [[]|] [[[]|]|] wh [[]|]];
    simpl; rewrite ?elem_of_cons, ?elem_of_nil; naive_solver.
Qed.

(** The HTTP server is shut down right before the hub is. *)
Fixpoint shut_first (l : list effect) : bool :=
  match l with
  | [] => false
  | e :: l' => match e, l' with HTTPShutdown, HubShutdown :: _ => true | _, _ => shut_first l' end
  end.

Lemma shut_first_split l : shut_first l = true -> exists l1 l2, l = l1 ++ HTTPShutdown :: HubShutdown :: l2.
Proof.
  induction l as [|e l IH]; [done|]. intros Hl.
  assert ((exists l2, e :: l = HTTPShutdown :: HubShutdown :: l2) \/ shut_first l = true) as [[l2 ->]|Hl'].
  { destruct e; try by right. destruct l as [|[] l]; try by right. left. by exists l. }
  - by exists [], l2.
  - destruct (IH Hl') as (l1 & l2 & ->). by exists (e :: l1), l2.
Qed.

Lemma run_drain_order env w : HubShutdown ∈ (run env w).1 -> shut_first (run env w).1 = true.
Proof.
  unfold run. set (cfg := loadConfig env). cbv zeta. unfold newBroker, newStore, NewPostgres, perform.
  destruct (bool_decide (redisAddr cfg = "")), (bool_decide (databaseURL cfg = "")), w as [[[]|] [[]|] [[]|] [[[]|]|] wh [[]|]];
    intros Hin; apply (bool_decide_pack _) in Hin; vm_compute in Hin |- *; done.
Qed.

(** ** The upgrade handler *)

Section handler.
Context {B S W : Type} `{Broker B} `{Store S} `{Websocket W} `{Float64}.

(** A request as the router hands it on: the value of [{board}], the raw query,
    and what [websocket.Accept] makes of it. *)
Record request := { rq_board : string; rq_query : string; rq_accept : result W }.

Inductive response := BadRequest | NotAccepted | Upgraded (c : conn W).

(** The handler up to the first blocking operation of [Serve], with the
    connection it hands to it; [None] is a panic. *)
Definition Handler (r : request) (rnd : list ascii) (h : Hub B S) : response * option (Hub B S) :=
  if bool_decide (rq_board r = "") then (BadRequest, Some h)
  else match rq_accept r with
  | Err _ => (NotAccepted, Some h)
  | Ok w =>
      let c := ws_SetReadLimit maxMessageBytes w in
      let q := Query (rq_query r) in
      (Upgraded {| ws := c |}, serve (rq_board r) (Get q "name") (Get q "color") rnd h)
  end.
End handler.
#[global] Arguments request : clear implicits.
#[global] Arguments response : clear implicits.

(** ** What an upgrade adds to the hub *)

Section admission.
Context {B S : Type} {BR : Broker B} {ST : Store S} {F : Float64}.

(** The session of address [k] on the board [id]: registered, the board object
    [a] its registry entry, and its client as the request described it. *)
Definition admitted (id name color : string) (rnd : list ascii) (k : nat) (h : Hub B S) : Prop :=
  exists e bo cl col,
    h_boards h !! id = Some e /\ 1 <= be_count e /\
    h_objects h !! be_board e = Some bo /\ bo_id bo = id /\
    h_serve h !! k = Some {| s_board := be_board e; s_pc := SRegister; s_pump := WNone |} /\
    h_clients h !! k = Some cl /\ c_board cl = be_board e /\
    c_id cl = newID rnd /\ c_name cl = defaultName name /\ c_color cl = col /\
    (if bool_decide (color <> "") then col = color else col ∈ palette).

Lemma serve_admits b st id name color rnd (h : Hub B S) : reachable b st h -> h_closing h = false ->
  exists k h', serve id name color rnd h = Some h' /\ h_serve h !! k = None /\ admitted id name color rnd k h' /\
    h_sessions h' = h_sessions h + 1.
Proof.
  intros Hre Hcl. pose proof (reachable_inv b st h Hre) as Hi. unfold serve, beginSession. rewrite Hcl.
  destruct (defaultColor_spec color (newID rnd)) as (col & Ecol & Hcol).
  assert (forall n, (h_next h <= n)%nat -> h_serve h !! n = None) as Hfresh by (intros n Hn; by apply (i_fresh h Hi)).
  simpl h_boards. destruct (h_boards h !! id) as [e|] eqn:He.
  - rewrite Ecol. simpl. destruct (i_entry h Hi id e He) as (bo & Ha & Hid & _).
    pose proof (reachable_positive b st h Hre id e He). eexists (h_next h), _.
    split_and!; [done|by apply Hfresh| |done]. eexists _, bo, _, col. simpl. rewrite !lookup_insert_eq.
    split_and!; try done; simpl in *; lia.
  - simpl. rewrite Ecol. simpl. eexists (Datatypes.S (h_next h)), _.
    split_and!; [done|apply Hfresh; lia| |done]. eexists _, (newBoard id), _, col. simpl. rewrite !lookup_insert_eq.
    split_and!; try done; simpl in *; by rewrite ?lookup_insert_eq.
Qed.
End admission.
