(* ===== verification/JsMap.v ===== *)
(** JavaScript's [Map] with string keys, as far as the browser uses it: an
    association list in the order in which keys were first set; the finite map
    it represents. *)

From S2P Require Import Prelude.
Local Open Scope Z_scope.

Abbreviation jsmap A := (list (string * A)).

Section jsmap.
Context {A : Type}.
Implicit Types l : jsmap A.

Fixpoint js_get (k : string) l : option A :=
  match l with
  | [] => None
  | (k', a) :: l' => if decide (k = k') then Some a else js_get k l'
  end.

(** A key that is there keeps its place. *)
Fixpoint js_set (k : string) (a : A) l : jsmap A :=
  match l with
  | [] => [(k, a)]
  | (k', a') :: l' => if decide (k = k') then (k, a) :: l' else (k', a') :: js_set k a l'
  end.

Definition js_delete (k : string) l : jsmap A := filter (fun p => p.1 <> k) l.

Definition js_keys l : list string := l.*1.

(** [for (const a of xs) m.set(key(a), val(a))]. *)
Definition js_set_all {X} (key : X -> string) (val : X -> A) (xs : list X) l : jsmap A :=
  fold_left (fun l x => js_set (key x) (val x) l) xs l.

(** ** The finite map *)

Definition contents l : gmap string A := list_to_map l.

Lemma contents_get k l : js_get k l = contents l !! k.
Proof.
  induction l as [|[k' a] l IH]; simpl; [by rewrite lookup_empty|].
  destruct (decide (k = k')) as [->|Hne]; [by rewrite lookup_insert_eq|by rewrite lookup_insert_ne, IH by done].
Qed.

Lemma contents_set k a l : contents (js_set k a l) = <[k := a]> (contents l).
Proof.
  induction l as [|[k' a'] l IH]; simpl; [done|].
  destruct (decide (k = k')) as [->|Hne]; simpl; [by rewrite insert_insert_eq|].
  change (list_to_map ?l) with (contents l). by rewrite IH, insert_insert_ne.
Qed.

Lemma contents_delete k l : contents (js_delete k l) = delete k (contents l).
Proof.
  unfold js_delete, contents. induction l as [|[k' a] l IH]; [symmetry; apply delete_empty|].
  rewrite filter_cons. simpl. case_decide as Hk; simpl.
  - by rewrite IH, delete_insert_ne.
  - assert (k' = k) as -> by (by destruct (decide (k' = k))). by rewrite IH, delete_insert_eq.
Qed.

Lemma contents_set_all {X} (key : X -> string) (val : X -> A) xs l :
  contents (js_set_all key val xs l) = fold_left (fun m x => <[key x := val x]> m) xs (contents l).
Proof. unfold js_set_all. revert l. induction xs as [|x xs IH]; intros l; [done|]. simpl. by rewrite IH, contents_set. Qed.

(** ** Order *)

Lemma js_set_keys k a l : js_keys (js_set k a l) = if decide (k ∈ js_keys l) then js_keys l else js_keys l ++ [k].
Proof.
  unfold js_keys. induction l as [|[k' a'] l IH]; [done|]. cbn [js_set].
  destruct (decide (k = k')) as [->|Hne]; cbn [fmap list_fmap fst].
  - by rewrite decide_True by left.
  - rewrite IH. destruct (decide (k ∈ l.*1)) as [H|H]; [by rewrite decide_True by (by right)|].
    by rewrite decide_False by (rewrite elem_of_cons; naive_solver).
Qed.

Lemma js_set_NoDup k a l : NoDup (js_keys l) -> NoDup (js_keys (js_set k a l)).
Proof.
  intros Hn. rewrite js_set_keys. destruct (decide (k ∈ js_keys l)) as [|H]; [done|].
  apply NoDup_app. split_and!; [done| |apply NoDup_singleton]. intros x Hx ->%list_elem_of_singleton. done.
Qed.

Lemma js_delete_NoDup k l : NoDup (js_keys l) -> NoDup (js_keys (js_delete k l)).
Proof.
  unfold js_keys, js_delete. induction l as [|[k' a] l IH]; [done|]. rewrite filter_cons. cbn [fmap list_fmap fst].
  intros [Hk Hn]%NoDup_cons. case_decide; [|by apply IH]. cbn [fmap list_fmap fst]. apply NoDup_cons. split; [|by apply IH].
  intros ((k2, a2) & -> & [_ Hin]%list_elem_of_filter)%list_elem_of_fmap. apply Hk. simpl. by apply (list_elem_of_fmap_2 fst _ (k2, a2)).
Qed.
End jsmap.
