(* ===== verification/Browser.v ===== *)
(** What the browser makes of the messages it is sent (web/src/App.tsx,
    [draw_step], as far as shapes are concerned): a replica of the board's
    shapes, which should agree with the broker's. *)

From S2P Require Import Prelude Strconv Utf8 Json JsonFacts JsonLocal Protocol Broker Metrics Board Client JsMap.
Local Open Scope Z_scope.

(** ** The replica *)

(** [StoredShape], by shape identifier. *)
Abbreviation canvas := (gmap string (Z * string)).

Section browser.
Context {F : Float64}.

(** What a message says to the browser.  A shape that is missing or falsy in
    JavaScript is [None]. *)
Inductive wire :=
  | WSnapshot (shapes : list (string * (Z * string)))
  | WSet (seq : Z) (id : string) (shape : option string)     (* shape.create, shape.update *)
  | WDelete (id : string)
  | WCursor (c : Cursor)
  | WState (self : Presence) (others : list Presence)
  | WJoin (p : Presence)
  | WLeave (id : string)
  | WOther.

(** What it does to the shapes. *)
Definition draw_step (m : wire) (c : canvas) : canvas :=
  match m with
  | WSnapshot shapes => fold_left (fun c s => <[s.1 := s.2]> c) shapes ∅
  | WSet seq id (Some shape) =>
      match c !! id with
      | Some cur => if cur.1 <=? seq then <[id := (seq, shape)]> c else c
      | None => <[id := (seq, shape)]> c
      end
  | WSet _ _ None => c
  | WDelete id => delete id c
  | _ => c
  end.

Definition draw_all (ms : list wire) (c : canvas) : canvas := fold_left (fun c m => draw_step m c) ms c.

(** What the replica should be. *)
Definition canvas_of (v : view) : canvas := (fun e => (e_seq e, e_blob e)) <$> v_shapes v.

(** ** The messages *)

(** The relayed message of the operation [o] under sequence [seq]. *)
Definition wire_of (seq : Z) (o : op) : wire :=
  if o_del o then WDelete (o_id o) else WSet seq (o_id o) (Some (o_blob o)).

(** The messages of the operations [ops], the first of which is number [n + 1]. *)
Definition wires (n : nat) (ops : list op) : list wire := imap (fun i o => wire_of (Z.of_nat (n + i) + 1) o) ops.

Definition wire_of_snapshot (snap : Snapshot) : wire :=
  WSnapshot ((fun s => (ss_ID s, (ss_Seq s, bytes_text (ss_Shape s)))) <$> sn_Shapes snap).

(** The content of the bytes of an envelope; the program writes the field names
    the browser reads.  [truthy] is JavaScript's test of a JSON value. *)
Definition wire_of_bytes (truthy : string -> bool) (data : string) : wire :=
  match Unmarshal dec_Envelope data Envelope_zero with
  | (_, Some _) => WOther
  | (env, None) =>
      let op := (DecodePayload dec_ShapeOp env ShapeOp_zero).1 in
      let p := (DecodePayload dec_Presence env Presence_zero).1 in
      if bool_decide (Type_ env = TypeSnapshot) then wire_of_snapshot (DecodePayload dec_Snapshot env Snapshot_zero).1
      else if bool_decide (Type_ env ∈ [TypeShapeCreate; TypeShapeUpdate])
      then WSet (Seq env) (ID op) (s ← Shape op; if truthy s then Some s else None)
      else if bool_decide (Type_ env = TypeShapeDelete) then WDelete (ID op)
      else if bool_decide (Type_ env = TypeCursor) then WCursor (DecodePayload dec_Cursor env Cursor_zero).1
      else if bool_decide (Type_ env = TypePresenceState)
      then let ps := (DecodePayload (c_dec (A := PresenceState)) env c_zero).1 in WState (Self ps) (Others ps)
      else if bool_decide (Type_ env = TypePresenceJoin) then WJoin p
      else if bool_decide (Type_ env = TypePresenceLeave) then WLeave (ClientID p)
      else WOther
  end.

(** ** The whole page

    The four stores of [App], the first three in the order in which they are
    drawn.  A name or colour the server leaves out is the empty string. *)

Record LiveCursor := { lc_x : float64; lc_y : float64; lc_color : string; lc_name : string }.

Record App := {
  app_shapes : jsmap (Z * string);
  app_cursors : jsmap LiveCursor;
  app_presence : jsmap Presence;
  app_self : Presence;
}.

Definition app_start : App :=
  {| app_shapes := []; app_cursors := []; app_presence := [];
     app_self := {| ClientID := ""; Name := ""; Color := "#334155" |} |}.

Definition set_shapes (m : jsmap (Z * string)) (a : App) : App :=
  {| app_shapes := m; app_cursors := app_cursors a; app_presence := app_presence a; app_self := app_self a |}.
Definition set_cursors (m : jsmap LiveCursor) (a : App) : App :=
  {| app_shapes := app_shapes a; app_cursors := m; app_presence := app_presence a; app_self := app_self a |}.
Definition set_presences (m : jsmap Presence) (a : App) : App :=
  {| app_shapes := app_shapes a; app_cursors := app_cursors a; app_presence := m; app_self := app_self a |}.
Definition set_self (p : Presence) (a : App) : App :=
  {| app_shapes := app_shapes a; app_cursors := app_cursors a; app_presence := app_presence a; app_self := p |}.

(** [p?.color ?? absent]. *)
Definition color_of (p : option Presence) : string :=
  match p with Some p => if bool_decide (Color p = "") then "#888" else Color p | None => "#888" end.

Definition handleMessage (m : wire) (a : App) : App :=
  match m with
  | WSnapshot shapes => set_shapes (js_set_all fst snd shapes []) a
  | WSet seq id shape =>
      let cur := js_get id (app_shapes a) in
      match shape with
      | Some shape =>
          if match cur with None => true | Some cur => cur.1 <=? seq end
          then set_shapes (js_set id (seq, shape) (app_shapes a)) a
          else a
      | None => a
      end
  | WDelete id => set_shapes (js_delete id (app_shapes a)) a
  | WCursor c =>
      let p := js_get (cur_ClientID c) (app_presence a) in
      set_cursors (js_set (cur_ClientID c)
        {| lc_x := X c; lc_y := Y c; lc_color := color_of p; lc_name := default "" (Name <$> p) |} (app_cursors a)) a
  | WState self others => set_presences (js_set_all ClientID id (self :: others) []) (set_self self a)
  | WJoin p => set_presences (js_set (ClientID p) p (app_presence a)) a
  | WLeave id => set_cursors (js_delete id (app_cursors a)) (set_presences (js_delete id (app_presence a)) a)
  | WOther => a
  end.

Definition handle_all (ms : list wire) (a : App) : App := fold_left (fun a m => handleMessage m a) ms a.

(** The shapes of the page are the replica. *)
Lemma handleMessage_shapes m a : contents (app_shapes (handleMessage m a)) = draw_step m (contents (app_shapes a)).
Proof.
  destruct m as [shapes|seq id [s|]|id|c|self os|p|id|]; simpl; try done.
  - by rewrite contents_set_all.
  - rewrite contents_get. destruct (contents (app_shapes a) !! id) as [cur|]; [case_match|]; simpl; [|done|]; apply contents_set.
  - apply contents_delete.
Qed.

Lemma handle_all_shapes ms a : contents (app_shapes (handle_all ms a)) = draw_all ms (contents (app_shapes a)).
Proof. revert a. induction ms as [|m ms IH]; intros a; [done|]. simpl. by rewrite IH, handleMessage_shapes. Qed.

Lemma handle_all_app ms1 ms2 a : handle_all (ms1 ++ ms2) a = handle_all ms2 (handle_all ms1 a).
Proof. apply fold_left_app. Qed.

(** ** In order, the replica catches up *)

Lemma wires_cons n o ops : wires n (o :: ops) = wire_of (Z.of_nat n + 1) o :: wires (S n) ops.
Proof.
  unfold wires. simpl. f_equal; [do 2 f_equal; lia|]. apply imap_ext. intros i x _. simpl. do 2 f_equal. lia.
Qed.

(** Operations on other shapes leave a shape alone. *)
Lemma replay_other ops more id : (forall o, o ∈ more -> o_id o <> id) ->
  v_shapes (replay (ops ++ more)) !! id = v_shapes (replay ops) !! id.
Proof.
  induction more as [|o more IH] using rev_ind; intros Hno; [by rewrite app_nil_r|].
  rewrite app_assoc, replay_snoc. unfold spec_op, spec_apply. simpl.
  assert (o_id o <> id) as Ho by (apply Hno; set_solver).
  assert (v_shapes (replay (ops ++ more)) !! id = v_shapes (replay ops) !! id) as E.
  { apply IH. intros o' Ho'. apply Hno. set_solver. }
  destruct (o_del o); [by rewrite lookup_delete_ne|by rewrite lookup_insert_ne].
Qed.

Lemma replay_last ops o : v_shapes (replay (ops ++ [o])) !! o_id o =
  if o_del o then None else Some (Entry (Z.of_nat (length ops) + 1) (o_blob o)).
Proof.
  rewrite replay_snoc. unfold spec_op, spec_apply. simpl. rewrite replay_seq.
  destruct (o_del o); [apply lookup_delete_eq|apply lookup_insert_eq].
Qed.

(** A replica that still has the messages of [more] to come, after those of
    [ops]: what they do not touch is as it will be in the end, and everything
    in it is old, or as it will be. *)
Definition behind (ops more : list op) (c : canvas) : Prop :=
  let final := canvas_of (replay (ops ++ more)) in
  (forall id, (forall o, o ∈ more -> o_id o <> id) -> c !! id = final !! id) /\
  (forall id s, c !! id = Some s -> s.1 <= Z.of_nat (length ops) \/ c !! id = final !! id).

Lemma behind_step ops o more c : behind ops (o :: more) c ->
  behind (ops ++ [o]) more (draw_step (wire_of (Z.of_nat (length ops) + 1) o) c).
Proof.
  unfold behind. rewrite <-app_assoc. simpl. set (final := canvas_of (replay (ops ++ o :: more))). intros [H1 H2].
  assert (forall id, id <> o_id o -> draw_step (wire_of (Z.of_nat (length ops) + 1) o) c !! id = c !! id) as Hne.
  { intros id Hid. unfold wire_of. destruct (o_del o); simpl; [by rewrite lookup_delete_ne|].
    destruct (c !! o_id o) as [cur|]; [case_match; [by rewrite lookup_insert_ne|done]|by rewrite lookup_insert_ne]. }
  assert ((forall o', o' ∈ more -> o_id o' <> o_id o) -> final !! o_id o =
    if o_del o then None else Some (Z.of_nat (length ops) + 1, o_blob o)) as Hlast.
  { intros Hno. unfold final, canvas_of. rewrite lookup_fmap.
    replace (ops ++ o :: more) with ((ops ++ [o]) ++ more) by (by rewrite <-app_assoc).
    rewrite (replay_other _ _ _ Hno), replay_last. by destruct (o_del o). }
  split.
  - intros id Hno. destruct (decide (id = o_id o)) as [->|Hid].
    + unfold wire_of. destruct (o_del o) eqn:Hd; simpl; [by rewrite lookup_delete_eq, Hlast|].
      destruct (c !! o_id o) as [cur|] eqn:Ec; [|by rewrite lookup_insert_eq, Hlast].
      destruct (Z.leb_spec cur.1 (Z.of_nat (length ops) + 1)); [by rewrite lookup_insert_eq, Hlast|].
      destruct (H2 _ _ Ec) as [?|E]; [lia|]. congruence.
    + rewrite Hne by done. apply H1. intros o' [->|Ho']%elem_of_cons; [congruence|by apply Hno].
  - intros id s Hs. rewrite length_app. simpl. destruct (decide (id = o_id o)) as [->|Hid].
    + unfold wire_of in *. destruct (o_del o); simpl in *; [by rewrite lookup_delete_eq in Hs|].
      destruct (c !! o_id o) as [cur|] eqn:Ec; [destruct (Z.leb_spec cur.1 (Z.of_nat (length ops) + 1))|].
      * rewrite lookup_insert_eq in Hs. injection Hs as <-. simpl. left. lia.
      * right. destruct (H2 _ _ Ec) as [?|E]; [lia|]. congruence.
      * rewrite lookup_insert_eq in Hs. injection Hs as <-. simpl. left. lia.
    + rewrite Hne in * by done. destruct (H2 id s Hs); [left; lia|by right].
Qed.

Lemma behind_catches_up ops more c : behind ops more c ->
  draw_all (wires (length ops) more) c = canvas_of (replay (ops ++ more)).
Proof.
  revert ops c. induction more as [|o more IH]; intros ops c Hc.
  - simpl. destruct Hc as [H1 _]. apply map_eq. intros id. apply H1. by intros o ?%not_elem_of_nil.
  - rewrite wires_cons. simpl. pose proof (IH _ _ (behind_step ops o more c Hc)) as E.
    rewrite length_app in E. simpl in E. rewrite Nat.add_1_r in E. rewrite <-app_assoc in E. exact E.
Qed.

Lemma canvas_old ops id s : canvas_of (replay ops) !! id = Some s -> s.1 <= Z.of_nat (length ops).
Proof.
  unfold canvas_of. rewrite lookup_fmap. destruct (v_shapes (replay ops) !! id) as [e|] eqn:E; [|done].
  intros [= <-]. apply (vo_range _ (view_ok_replay ops)) in E. rewrite replay_seq in E. simpl. lia.
Qed.

(** New operations, and operations the replica already reflects. *)
Lemma catches_up_new ops more :
  draw_all (wires (length ops) more) (canvas_of (replay ops)) = canvas_of (replay (ops ++ more)).
Proof.
  apply behind_catches_up. split.
  - intros id Hno. unfold canvas_of. by rewrite !lookup_fmap, replay_other.
  - intros id s Hs. left. by apply canvas_old in Hs.
Qed.

Lemma catches_up_old ops more :
  draw_all (wires (length ops) more) (canvas_of (replay (ops ++ more))) = canvas_of (replay (ops ++ more)).
Proof. apply behind_catches_up. split; [done|by right]. Qed.

Lemma draw_all_app ms1 ms2 c : draw_all (ms1 ++ ms2) c = draw_all ms2 (draw_all ms1 c).
Proof. apply fold_left_app. Qed.

Lemma wires_app n ops more : wires n (ops ++ more) = wires n ops ++ wires (n + length ops) more.
Proof. unfold wires. rewrite imap_app. f_equal. apply imap_ext. intros i x _. simpl. do 2 f_equal. lia. Qed.

(** ** Snapshots *)

Lemma snapshot_canvas v snap c : is_snapshot v snap -> draw_step (wire_of_snapshot snap) c = canvas_of v.
Proof.
  intros Hs. pose proof (load_snapshot v snap ∅ Hs) as E. apply (f_equal v_shapes) in E. simpl in E.
  unfold canvas_of. rewrite <-E. simpl. clear. generalize (sn_Shapes snap). intros l.
  assert (forall m : gmap string entry,
    fold_left (fun c s => <[s.1 := s.2]> c) ((fun s => (ss_ID s, (ss_Seq s, bytes_text (ss_Shape s)))) <$> l)
      ((fun e => (e_seq e, e_blob e)) <$> m) =
    (fun e => (e_seq e, e_blob e)) <$> fold_left (fun m s => <[ss_ID s := (shape_entry s).2]> m) l m) as H.
  { induction l as [|s l IH]; intros m; [done|]. simpl. rewrite <-IH. by rewrite fmap_insert. }
  rewrite <-H. by rewrite fmap_empty.
Qed.

(** ** The bytes on the wire

    The hub relays a shape's data compacted, the broker keeps it as it came. *)

Definition normal (s : string) : string := match compact s with Ok t => t | Err _ => s end.
Definition norm (p : Z * string) : Z * string := (p.1, normal p.2).

Lemma raw_wire_normal absent s j : parse s = Some j -> raw_wire absent (Some s) = Some (normal s).
Proof. intros Hp. unfold raw_wire, normal, compact. by rewrite Hp. Qed.

Lemma snapshot_bytes_canvas d v snap c : is_snapshot v snap -> blobs_ok d v ->
  draw_step (wire_of_snapshot (c_wire snap)) c = norm <$> canvas_of v.
Proof.
  intros Hs Hok. rewrite <-(snapshot_canvas v snap c Hs).
  unfold wire_of_snapshot. change (sn_Shapes (c_wire snap)) with (c_wire <$> sn_Shapes snap).
  assert (forall s, s ∈ sn_Shapes snap -> bytes_text (ss_Shape (c_wire s)) = normal (bytes_text (ss_Shape s))) as Hn.
  { intros s Hin. pose proof (is_snapshot_elem v snap s Hs Hin) as E. destruct (Hok _ _ E) as (_ & j & Hp & _).
    simpl in Hp |- *. destruct (ss_Shape s) as [t|]; [|by vm_compute in Hp]. simpl in Hp.
    by rewrite (raw_wire_normal _ t j Hp). }
  simpl. assert (forall m : canvas,
    fold_left (fun c s => <[s.1 := s.2]> c)
      ((fun s => (ss_ID s, (ss_Seq s, bytes_text (ss_Shape s)))) <$> (c_wire <$> sn_Shapes snap)) (norm <$> m) =
    norm <$> fold_left (fun c s => <[s.1 := s.2]> c)
      ((fun s => (ss_ID s, (ss_Seq s, bytes_text (ss_Shape s)))) <$> sn_Shapes snap) m) as H.
  { revert Hn. clear. induction (sn_Shapes snap) as [|s l IH]; intros Hn m; [done|]. cbn [fmap list_fmap fold_left].
    rewrite <-IH by (intros s' Hs'; apply Hn; by right). rewrite fmap_insert. do 3 f_equal. unfold norm. simpl.
    f_equal. apply (Hn s). by left. }
  rewrite <-H. by rewrite fmap_empty.
Qed.

Section bytes.
Context (truthy : string -> bool).

Lemma relayed_wire msg t seq op s j : is_shape_msg msg t seq op -> t ∈ [TypeShapeCreate; TypeShapeUpdate] ->
  Shape op = Some s -> parse s = Some j -> truthy (normal s) = true ->
  wire_of_bytes truthy msg = WSet seq (ID op) (Some (normal s)).
Proof using Type.
  intros (e & Hu & Et & Es & Hd) Ht Hs Hp Htr. unfold wire_of_bytes. rewrite Hu, Hd, Et.
  rewrite bool_decide_false by (intros ->; apply (bool_decide_pack _) in Ht; by vm_compute in Ht).
  rewrite bool_decide_true by done. simpl ID. rewrite Es. simpl Shape. rewrite Hs.
  replace (bytes_empty (Some s)) with false
    by (symmetry; apply bool_decide_eq_false; intros Ee; change (s = "") in Ee; subst s; by vm_compute in Hp).
  rewrite (raw_wire_normal _ s j Hp). simpl. by rewrite Htr.
Qed.

Lemma relayed_delete_wire msg seq op : is_shape_msg msg TypeShapeDelete seq op ->
  wire_of_bytes truthy msg = WDelete (ID op).
Proof using Type. intros (e & Hu & Et & Es & Hd). unfold wire_of_bytes. by rewrite Hu, Hd, Et. Qed.

End bytes.

(** The next operation of a board, on its replica. *)
Lemma replica_step v id blob del : view_ok v ->
  draw_step (if del : bool then WDelete id else WSet (v_seq v + 1) id (Some (normal blob))) (norm <$> canvas_of v) =
  norm <$> canvas_of (spec_apply id blob del v).
Proof.
  intros Hv. unfold canvas_of, spec_apply. simpl. destruct del; simpl; [by rewrite !fmap_delete|].
  rewrite !lookup_fmap, !fmap_insert. destruct (v_shapes v !! id) as [e|] eqn:E; [|done]. simpl.
  apply (vo_range v Hv) in E. by replace (e_seq e <=? v_seq v + 1) with true by lia.
Qed.
End browser.
