(* ===== verification/JsJson.v ===== *)
(** The JavaScript side of the wire (web/src/App.tsx): numbers, strings and
    [JSON.stringify], as far as the page uses them, and that Go's decoder reads
    back what it writes.  Strings are their UTF-8 text, as in [Url]. *)

From S2P Require Import Prelude Strconv Utf8 Json JsonFacts.
From Stdlib Require Import SpecFloat.
Local Open Scope Z_scope.

(** ** Numbers

    IEEE doubles, by the specification of the Standard Library. *)

Abbreviation number := spec_float.

Definition js_sub : number -> number -> number := SFsub 53 1024.
Definition js_lt : number -> number -> bool := SFltb.
Definition js_ge (x y : number) : bool := SFleb y x.
Definition js_abs : number -> number := SFabs.

(** [Math.min]: not a number if either is not, and -0 below +0. *)
Definition js_min (x y : number) : number :=
  match x, y with
  | S754_nan, _ | _, S754_nan => S754_nan
  | S754_zero s, S754_zero t => S754_zero (s || t)
  | _, _ => if SFltb y x then y else x
  end.

(** An integer literal. *)
Definition js_int (z : Z) : number := binary_normalize 53 1024 z 0 false.

Definition finite (x : number) : bool :=
  match x with S754_zero _ | S754_finite _ _ _ => true | _ => false end.

(** [Number::toString], a parameter; of a finite number it is a JSON number. *)
Class JsNumber := number_text : number -> string.
Class JsNumberLaws `{JsNumber} : Prop := number_text_ok x : finite x = true -> num_ok (number_text x).

(** ** Strings *)

Definition js_escape (c : ascii) : string :=
  if ceq c dq || ceq c bs then String bs (str1 c)
  else if ceq c "008" then "\b"
  else if ceq c "012" then "\f"
  else if ceq c "010" then "\n"
  else if ceq c "013" then "\r"
  else if ceq c "009" then "\t"
  else if ord c <? 32 then u00 c
  else str1 c.

Fixpoint js_quote (s : string) : string :=
  match s with "" => "" | String c s' => js_escape c +:+ js_quote s' end.

(** ** Values *)

Definition js_number `{JsNumber} (x : number) : json := if finite x then JNum (number_text x) else JNull.
Definition js_string (s : string) : json := JStr (js_quote s).
Definition js_record (l : list (string * json)) : json := JObj (map (fun kv => (js_quote kv.1, (print kv.2, kv.2))) l).

Definition JSON_stringify (j : json) : string := print j.

(** ** What it writes is JSON, and is read back *)

Lemma raw_ok_escape c s : raw_ok s -> raw_ok (js_escape c +:+ s).
Proof.
  intros Hs. unfold js_escape. repeat case_match; try (by apply raw_ok_u00).
  all: str_norm; unfold str1; str_norm; try (by constructor).
  - constructor; [|done]. unfold is_simple_escape. apply orb_true_iff in H as [H|H]; apply ceq_true in H as ->; done.
  - apply orb_false_iff in H as [? ?]. by constructor.
Qed.

Lemma raw_ok_js_quote s : raw_ok (js_quote s).
Proof. induction s as [|c s IH]; [constructor|]. by apply raw_ok_escape. Qed.

#[export] Hint Resolve raw_ok_js_quote : wb.

Lemma js_quote_app s t : js_quote (s +:+ t) = js_quote s +:+ js_quote t.
Proof. induction s as [|c s IH]; [done|]. str_norm. simpl. rewrite IH. by str_norm. Qed.

(** From the second byte of ASCII on, characters stand for themselves. *)
Lemma js_quote_high s : str_forall (fun c => 128 <=? ord c) s = true -> js_quote s = s.
Proof.
  induction s as [|c s IH]; [done|]. simpl. intros [Hc Hs]%andb_true_iff. rewrite IH by done.
  apply Z.leb_le in Hc. assert (forall d : ascii, ord d < 128 -> ceq c d = false) as Hne by (intros d Hd; apply ceq_false; intros ->; lia).
  unfold js_escape. rewrite !Hne by done. replace (ord c <? 32) with false by lia. done.
Qed.

Lemma EncodeRune_bytes r : is_scalar r -> 128 <= r -> str_forall (fun c => 128 <=? ord c) (EncodeRune r) = true.
Proof.
  intros Hs Hr. rewrite EncodeRune_scalar by done. apply scalar_spec in Hs. unfold MaxRune in Hs.
  destruct (Z.ltb_spec r 128); [lia|]. unfold str1.
  repeat case_match; simpl; rewrite ?andb_true_r, ?andb_true_iff; split_and?; apply Z.leb_le; rewrite ord_chr by zlia; zlia.
Qed.

Lemma js_quote_rune r : is_scalar r -> js_quote (EncodeRune r) <> "" /\
  forall t, unquote_tok (js_quote (EncodeRune r) +:+ t) = Some (EncodeRune r, String.length (js_quote (EncodeRune r))).
Proof.
  intros Hs. destruct (decide (128 <= r)) as [Hr|Hr].
  - rewrite js_quote_high by (by apply EncodeRune_bytes). split; [|intros t; by apply unquote_tok_high].
    by destruct (EncodeRune_high r Hs Hr) as (c & e & -> & _).
  - assert (EncodeRune r = str1 (chr r)) as ->.
    { rewrite EncodeRune_scalar by done. by destruct (Z.ltb_spec r 128); [|lia]. }
    apply scalar_spec in Hs. assert (ord (chr r) < 128) as Hc by (rewrite ord_chr; lia).
    generalize (chr r) Hc. clear. intros [b0 b1 b2 b3 b4 b5 b6 b7] Hc.
    destruct b7; [by destruct b0, b1, b2, b3, b4, b5, b6|].
    destruct b0, b1, b2, b3, b4, b5, b6; (split; [done|intros t; reflexivity]).
Qed.

Lemma string_value_js_quote s : utf8 s -> string_value (js_quote s) = s.
Proof.
  intros H. unfold string_value. assert (unquote (js_quote s) = Some s) as ->; [|done]. unfold unquote.
  induction H as [|r s Hr Hs IH]; [done|]. rewrite js_quote_app. destruct (js_quote_rune r Hr) as [Hne Hun].
  by rewrite (tokens_app _ unquote_tok_width _ _ (EncodeRune r)), IH.
Qed.

(** Values as [JSON_stringify] has them: all text in them is what it prints. *)
Definition js_value (d : Z) (j : json) : Prop := wf d j /\ canon j = j.

Section values.
Context {JN : JsNumber} {JL : JsNumberLaws}.

Lemma js_value_number d x : js_value d (js_number x).
Proof using JL. unfold js_number. destruct (finite x) eqn:E; split; try done; constructor. by apply number_text_ok. Qed.

Lemma js_value_string d s : js_value d (js_string s).
Proof using Type. split; [constructor; apply raw_ok_js_quote|done]. Qed.

Lemma js_value_mono d d' j : js_value d j -> d <= d' -> js_value d' j.
Proof using Type. intros [H E] Hd. split; [by eapply wf_mono|done]. Qed.

Lemma js_value_record d l : 1 <= d -> Forall (fun kv => js_value (d - 1) kv.2) l -> js_value d (js_record l).
Proof using Type.
  intros Hd Hl. unfold js_record. split.
  - rewrite Forall_forall in Hl. constructor; [lia|..]; intros m (kv & -> & Hkv)%list_elem_of_fmap; simpl; [auto with wb|by apply Hl].
  - simpl. f_equal. rewrite map_map. apply map_ext_in. intros kv Hkv%list_elem_of_In. simpl.
    rewrite Forall_forall in Hl. by destruct (Hl kv Hkv) as [_ ->].
Qed.

Lemma parse_stringify j : js_value maxNestingDepth j -> parse (JSON_stringify j) = Some j.
Proof using Type. intros [Hw Hc]. unfold JSON_stringify. by rewrite (parse_print j Hw), Hc. Qed.
End values.

#[export] Hint Resolve js_value_number js_value_string : wb.

(** A record is a value if its members are. *)
Ltac js_members := repeat (apply Forall_cons_2; [simpl; auto with wb|]); try apply Forall_nil_2.
