(* ===== verification/Roster.v ===== *)
(** The browser in step with its board (web/src/App.tsx): what the messages of
    clients that come, speak and go do to its shapes, its participants and its
    cursors, from the bytes the hub publishes for them. *)

From S2P Require Import Prelude Strconv Utf8 Json JsonFacts JsonLocal Protocol Broker Metrics Board Client JsMap Browser.
Local Open Scope Z_scope.

(** ** The roster *)

(** The participants of a board, by identifier. *)
Definition roster_of (v : view) : gmap string Presence := omap decode_presence (v_presence v).

(** Every entry decodes, to a presence of its own client. *)
Definition roster_ok (v : view) : Prop :=
  map_Forall (fun cid raw => exists p, decode_presence raw = Some p /\ ClientID p = cid) (v_presence v).

Lemma roster_of_lookup v k p : roster_of v !! k = Some p <-> exists raw, v_presence v !! k = Some raw /\ decode_presence raw = Some p.
Proof. unfold roster_of. rewrite lookup_omap. apply bind_Some. Qed.

Lemma roster_dom v : roster_ok v -> dom (roster_of v) = dom (v_presence v).
Proof.
  intros Hok. apply set_eq. intros k. rewrite !elem_of_dom. split.
  - intros [p (raw & E & _)%roster_of_lookup]. by exists raw.
  - intros [raw E]. destruct (Hok k raw E) as (p & Hp & _). exists p. apply roster_of_lookup. eauto.
Qed.

Lemma roster_of_set cid raw p v : decode_presence raw = Some p -> roster_of (spec_set_presence cid raw v) = <[cid := p]> (roster_of v).
Proof. intros E. unfold roster_of, spec_set_presence. simpl. by apply omap_insert_Some. Qed.

Lemma roster_of_remove cid v : roster_of (spec_remove_presence cid v) = delete cid (roster_of v).
Proof. unfold roster_of, spec_remove_presence. simpl. apply omap_delete. Qed.

Lemma roster_ok_set cid raw p v : roster_ok v -> decode_presence raw = Some p -> ClientID p = cid ->
  roster_ok (spec_set_presence cid raw v).
Proof. intros Hok E Ep. apply map_Forall_insert_2; [by exists p|done]. Qed.

Lemma roster_ok_remove cid v : roster_ok v -> roster_ok (spec_remove_presence cid v).
Proof. intros Hok. by apply map_Forall_delete. Qed.

(** The list a broker answers, and the map. *)
Lemma roster_in v l p : roster_ok v -> is_roster v l -> p ∈ l <-> roster_of v !! ClientID p = Some p.
Proof.
  intros Hok [_ Hl]. rewrite Hl, list_elem_of_omap, roster_of_lookup. split.
  - intros ([cid raw] & Hin%elem_of_map_to_list & E). simpl in E. destruct (Hok cid raw Hin) as (q & Eq & <-).
    rewrite E in Eq. injection Eq as <-. eauto.
  - intros (raw & Hr & E). exists (ClientID p, raw). split; [by apply elem_of_map_to_list|done].
Qed.

Lemma roster_NoDup v l : roster_ok v -> is_roster v l -> NoDup (ClientID <$> l).
Proof.
  intros Hok [_ Hl]. rewrite Hl. clear Hl.
  replace (ClientID <$> omap (fun kv => decode_presence kv.2) (map_to_list (v_presence v))) with ((map_to_list (v_presence v)).*1);
    [apply NoDup_fst_map_to_list|].
  assert (forall kv, kv ∈ map_to_list (v_presence v) -> exists p, decode_presence kv.2 = Some p /\ ClientID p = kv.1) as H
    by (intros [cid raw] Hin%elem_of_map_to_list; apply (Hok cid raw Hin)).
  induction (map_to_list (v_presence v)) as [|kv m IH]; [done|]. simpl.
  destruct (H kv ltac:(by left)) as (p & -> & Ep). simpl. rewrite Ep. apply (f_equal (cons _)), IH. intros kv' Hin. apply H. by right.
Qed.

(** What the browser makes of the list it is sent: everybody, itself included. *)
Lemma state_roster v l p : roster_ok v -> is_roster v l -> p ∈ l ->
  contents (js_set_all ClientID id (p :: others (ClientID p) l) []) = roster_of v.
Proof.
  intros Hok Hl Hp. rewrite contents_set_all. apply map_eq. intros k. apply option_eq. intros q.
  rewrite (fold_insert_lookup ClientID id).
  2: { cbn [fmap list_fmap]. apply NoDup_cons. split.
       - intros (q' & E & [Hne _]%list_elem_of_filter)%list_elem_of_fmap. done.
       - eapply sublist_NoDup; [by eapply roster_NoDup|apply fmap_sublist, sublist_filter]. }
  change (contents []) with (∅ : gmap string Presence). rewrite lookup_empty.
  transitivity (q ∈ l /\ ClientID q = k).
  - split; [|intros [Hq <-]; left].
    + intros [(x & Hx & <- & <-)|[_ ?]]; [|done]. split; [|done].
      apply elem_of_cons in Hx as [->|[_ Hx]%list_elem_of_filter]; done.
    + exists q. split_and!; [|done|done]. apply elem_of_cons. destruct (decide (ClientID q = ClientID p)) as [E|E].
      * left. apply (roster_in v l) in Hq, Hp; try done. congruence.
      * right. by apply list_elem_of_filter.
  - rewrite (roster_in v l) by done. split; [by intros [? <-]|]. intros Hq. pose proof Hq as Hq'.
    apply roster_of_lookup in Hq' as (raw & Hr & E). destruct (Hok k raw Hr) as (q' & Eq & Ek).
    assert (q' = q) as -> by congruence. split; [by rewrite Ek|done].
Qed.

(** ** What clients do *)

(** One thing a client does on a board: come, send a message, go. *)
Inductive activity := Joins (c : Client) | Says (c : Client) (data : string) | Leaves (c : Client).

Section activity.
Context {F : Float64}.

Definition act (bid : string) (x : activity) : prog :=
  match x with Joins c => onboard bid c | Says c data => handle bid c data | Leaves c => leavePresence bid c end.

(** One thing after the other: the broker, and what was published. *)
Fixpoint act_all {B} `{Broker B} (bid : string) (l : list activity) (b : B) : B * list string :=
  match l with
  | [] => (b, [])
  | x :: l' =>
      let '(b, pub, _) := exec (act bid x) b in
      let '(b, pubs) := act_all bid l' b in (b, pub ++ pubs)
  end.

(** A message that if it is a shape operation is a delete, or carries a shape
    that is not falsy in JavaScript; any other bytes will do. *)
Definition paintable (truthy : string -> bool) (data : string) : Prop :=
  forall env op, Unmarshal dec_Envelope data Envelope_zero = (env, None) -> Type_ env ∈ shape_types ->
    DecodePayload dec_ShapeOp env ShapeOp_zero = (op, None) -> ID op <> "" -> Type_ env <> TypeShapeDelete ->
    exists s j, Shape op = Some s /\ parse s = Some j /\ truthy (normal s) = true.

(** Clients come and go under their own names, and speak while they are here. *)
Fixpoint orderly (truthy : string -> bool) (here : gset string) (l : list activity) : Prop :=
  match l with
  | [] => True
  | Joins c :: l' => c_valid 1 (presence c) /\ orderly truthy ({[c_id c]} ∪ here) l'
  | Says c data :: l' => utf8 (c_id c) /\ c_id c ∈ here /\ paintable truthy data /\ orderly truthy here l'
  | Leaves c :: l' => utf8 (c_id c) /\ orderly truthy (here ∖ {[c_id c]}) l'
  end.

(** ** The page in step with its board *)

(** The messages that touch nothing but shapes. *)
Definition draws (w : wire) : bool := match w with WSnapshot _ | WSet _ _ _ | WDelete _ => true | _ => false end.

Record in_step (a : App) (v : view) : Prop := {
  is_shapes : contents (app_shapes a) = norm <$> canvas_of v;
  is_presence : contents (app_presence a) = roster_of v;
  is_cursors : dom (contents (app_cursors a)) ⊆ dom (v_presence v);
}.

Context (truthy : string -> bool).

Lemma presence_wire t p msg : t ∈ [TypePresenceJoin; TypePresenceLeave] -> c_valid 1 p -> Marshal t 0 p = Ok msg ->
  wire_of_bytes truthy msg = if bool_decide (t = TypePresenceJoin) then WJoin p else WLeave (ClientID p).
Proof using Type.
  intros Ht (_ & Hc) Hm. destruct (Marshal_two_stage t 0 p) as (msg' & e & Em & Hu & Et & _ & Hd).
  { rewrite !elem_of_cons, elem_of_nil in Ht. destruct Ht as [->|[->|[]]]; by apply utf8_plain. }
  { done. }
  { by split. }
  rewrite Hm in Em. injection Em as <-. unfold wire_of_bytes. rewrite Hu, Et.
  change (DecodePayload dec_Presence e Presence_zero) with (DecodePayload (c_dec (A := Presence)) e c_zero). rewrite Hd.
  rewrite !elem_of_cons, elem_of_nil in Ht. destruct Ht as [->|[->|[]]]; reflexivity.
Qed.

Lemma cursor_wire id msg : cursor_of id msg -> exists cur, wire_of_bytes truthy msg = WCursor cur /\ cur_ClientID cur = id.
Proof using Type.
  unfold cursor_of, is_cursor, cursor_origin, wire_of_bytes. destruct (Unmarshal _ _ _) as [e [?|]]; [by intros []|].
  intros [Et%bool_decide_eq_true <-]. rewrite Et. by eexists.
Qed.

Lemma relay_wire v msg t op s j : is_shape_msg msg t (v_seq v + 1) op -> t ∈ shape_types ->
  (t <> TypeShapeDelete -> Shape op = Some s /\ parse s = Some j /\ truthy (normal s) = true) ->
  view_ok v -> draw_step (wire_of_bytes truthy msg) (norm <$> canvas_of v) =
    norm <$> canvas_of (spec_apply (ID op) (bytes_text (Shape op)) (bool_decide (t = TypeShapeDelete)) v).
Proof using Type.
  intros Hm Ht Hs Hv. rewrite <-(replica_step _ _ _ _ Hv). f_equal.
  destruct (decide (t = TypeShapeDelete)) as [->|E].
  - rewrite bool_decide_true by done. by apply (relayed_delete_wire truthy msg (v_seq v + 1)).
  - rewrite bool_decide_false by done. destruct (Hs E) as (Es & Hp & Htr). rewrite Es.
    apply (relayed_wire truthy msg t _ op s j); [done| |done..]. unfold shape_types in Ht. set_solver.
Qed.

(** *** One step *)

Context {B : Type} {BR : Broker B} {BL : BrokerLaws B}.

(** What an activity leaves behind: the broker [b'], and the messages that keep
    a page in step. *)
Definition follows (bid : string) (b b' : B) (msgs : list string) : Prop :=
  br_inv b' /\ v_seq (br_view b' bid) <= v_seq (br_view b bid) + 1 /\ roster_ok (br_view b' bid) /\
  forall a, in_step a (br_view b bid) ->
    in_step (handle_all (wire_of_bytes truthy <$> msgs) a) (br_view b' bid) /\
    app_self (handle_all (wire_of_bytes truthy <$> msgs) a) = app_self a.

Lemma sendSnapshot_quiet bid (b : B) : br_inv b -> exists b' d,
  exec (sendSnapshot bid) b = (b', [], d) /\ br_inv b' /\ forall o, br_view b' o = br_view b o.
Proof using Type.
  intros Hb. unfold sendSnapshot. simpl. pose proof (Snapshot_law Delivered bid b Hb) as Hs.
  destruct (br_Snapshot _ _ b) as [b1 [snap|e]]; destruct Hs as (Hb1 & Hf & _);
    [destruct (Marshal TypeSnapshot 0 snap)|]; simpl; eexists b1, _; (split; [done|]; split; [done|]; intros o; apply Hf).
Qed.

Lemma sendPresenceState_quiet bid c (b : B) : br_inv b -> exists b' d,
  exec (sendPresenceState bid c) b = (b', [], d) /\ br_inv b' /\ forall o, br_view b' o = br_view b o.
Proof using Type.
  intros Hb. unfold sendPresenceState. simpl. pose proof (Presence_law Delivered bid b Hb) as Hs.
  destruct (br_Presence _ _ b) as [b1 [l|e]]; destruct Hs as (Hb1 & Hf & _);
    [destruct (Marshal TypePresenceState 0 _)|]; simpl; eexists b1, _; (split; [done|]; split; [done|]; intros o; apply Hf).
Qed.

Lemma joins_follow bid c (b : B) : br_inv b -> roster_ok (br_view b bid) -> c_valid 1 (presence c) ->
  exists b' msgs d, exec (onboard bid c) b = (b', msgs, d) /\ follows bid b b' msgs /\
    dom (v_presence (br_view b' bid)) = {[c_id c]} ∪ dom (v_presence (br_view b bid)).
Proof using Type.
  intros Hb Hok Hc. unfold onboard. rewrite exec_andThen.
  destruct (joinPresence_exec bid c b Hb) as (b1 & data & msg & -> & Hb1 & Ed & Em & Hv & _). cbv beta iota.
  rewrite exec_andThen. destruct (sendSnapshot_quiet bid b1 Hb1) as (b2 & d2 & -> & Hb2 & Hf2). cbv beta iota.
  destruct (sendPresenceState_quiet bid c b2 Hb2) as (b3 & d3 & -> & Hb3 & Hf3).
  pose proof (presence_stored _ _ Hc Ed) as Hd.
  exists b3, [msg]. eexists. split; [done|]. rewrite Hf3, Hf2, Hv. split; [|apply dom_insert_L].
  unfold follows. rewrite Hf3, Hf2, Hv. split_and!; [done|simpl; lia|by apply (roster_ok_set _ _ _ _ Hok Hd)|].
  intros a [H1 H2 H3]. cbn [fmap list_fmap handle_all fold_left].
  rewrite (presence_wire TypePresenceJoin (presence c) msg) by (done || apply (bool_decide_unpack _); by vm_compute).
  simpl. split; [|done]. split; simpl; [done| |].
  - rewrite contents_set, H2. symmetry. by apply roster_of_set.
  - rewrite dom_insert. set_solver.
Qed.

Lemma leaves_follow bid c (b : B) : br_inv b -> roster_ok (br_view b bid) -> utf8 (c_id c) ->
  exists b' msgs d, exec (leavePresence bid c) b = (b', msgs, d) /\ follows bid b b' msgs /\
    dom (v_presence (br_view b' bid)) = dom (v_presence (br_view b bid)) ∖ {[c_id c]}.
Proof using Type.
  intros Hb Hok Hc. destruct (leavePresence_exec bid c b Hb) as (b1 & msg & -> & Hb1 & Em & Hv & _).
  exists b1, [msg]. eexists. split; [done|]. rewrite Hv. split; [|apply dom_delete_L].
  unfold follows. rewrite Hv. split_and!; [done|simpl; lia|by apply roster_ok_remove|].
  intros a [H1 H2 H3]. cbn [fmap list_fmap handle_all fold_left].
  assert (c_valid 1 {| ClientID := c_id c; Name := ""; Color := "" |}) as Hp by (split_and!; [done|done|constructor..]).
  rewrite (presence_wire TypePresenceLeave _ msg) by (done || apply (bool_decide_unpack _); by vm_compute).
  simpl. split; [|done]. split; simpl; [done| |].
  - rewrite contents_delete, H2. symmetry. apply roster_of_remove.
  - rewrite contents_delete, !dom_delete. set_solver.
Qed.

(** Messages that only draw leave the rest of the page alone. *)
Lemma draws_only w a : draws w = true -> app_presence (handleMessage w a) = app_presence a /\
  app_cursors (handleMessage w a) = app_cursors a /\ app_self (handleMessage w a) = app_self a.
Proof using Type. destruct w; try done; intros _; simpl; repeat case_match; done. Qed.

Lemma relay_draws msg t seq op : is_shape_msg msg t seq op -> t ∈ shape_types -> draws (wire_of_bytes truthy msg) = true.
Proof using Type.
  intros (e & Hu & Et & _) Ht. unfold wire_of_bytes. rewrite Hu, Et. unfold shape_types in Ht.
  rewrite !elem_of_cons, elem_of_nil in Ht. destruct Ht as [->|[->|[->|[]]]]; reflexivity.
Qed.

Lemma shape_follows bid c data env op (b : B) : br_inv b -> v_seq (br_view b bid) < br_limit -> roster_ok (br_view b bid) ->
  Unmarshal dec_Envelope data Envelope_zero = (env, None) -> Type_ env ∈ shape_types ->
  DecodePayload dec_ShapeOp env ShapeOp_zero = (op, None) -> ID op <> "" -> paintable truthy data ->
  exists b' msgs d, exec (handle bid c data) b = (b', msgs, d) /\ follows bid b b' msgs /\
    dom (v_presence (br_view b' bid)) = dom (v_presence (br_view b bid)).
Proof using Type.
  intros Hb Hlim Hok Hu Ht Hd Hid Hp.
  destruct (handle_shape_op bid c data env op b Hb Hlim Hu Ht Hd Hid) as (b' & msg & He & Hb' & Hv & Hm & _).
  exists b', [msg], []. split; [done|]. rewrite Hv. split; [|done]. unfold follows. rewrite Hv.
  split_and!; [done|simpl; lia|done|]. intros a [H1 H2 H3].
  assert (exists s j, Type_ env <> TypeShapeDelete -> Shape op = Some s /\ parse s = Some j /\ truthy (normal s) = true) as (s & j & Hs).
  { destruct (decide (Type_ env = TypeShapeDelete)) as [E|E]; [by exists "", JNull|].
    destruct (Hp env op Hu Ht Hd Hid E) as (s & j & H). by exists s, j. }
  pose proof (relay_wire _ msg (Type_ env) op s j Hm Ht Hs (br_view_ok b bid Hb)) as Hw.
  destruct (draws_only _ a (relay_draws msg _ _ op Hm Ht)) as (E1 & E2 & E3). cbn [fmap list_fmap handle_all fold_left].
  split; [|done]. split; [by rewrite handleMessage_shapes, H1|by rewrite E1|by rewrite E2].
Qed.

Context {FL : Float64Laws}.

Lemma cursor_follows bid c env (b : B) : br_inv b -> roster_ok (br_view b bid) ->
  utf8 (c_id c) -> c_id c ∈ dom (v_presence (br_view b bid)) ->
  exists b' msgs d, exec (publishCursor bid c env) b = (b', msgs, d) /\ follows bid b b' msgs /\
    dom (v_presence (br_view b' bid)) = dom (v_presence (br_view b bid)).
Proof using FL.
  intros Hb Hok Hc Hin. destruct (publishCursor_stamped bid c env Hc) as [->|(msg & -> & Hm)].
  { exists b, [], []. split; [done|]. split; [|done]. split_and!; [done|lia|done|by intros a Ha]. }
  simpl. pose proof (Publish_law Delivered bid msg b Hb) as Hpub.
  destruct (br_Publish _ _ _ b) as [b1 r]. destruct Hpub as (Hb1 & Hf & _).
  exists b1, [msg], []. split; [done|]. rewrite (proj1 (Hf bid)). split; [|done]. unfold follows. rewrite (proj1 (Hf bid)).
  split_and!; [done|lia|done|]. intros a [H1 H2 H3]. cbn [fmap list_fmap handle_all fold_left].
  destruct (cursor_wire _ msg Hm) as (cur & -> & E). split; [|done]. split; simpl; [done|done|].
  rewrite contents_set, dom_insert, E. set_solver.
Qed.

Lemma says_follow bid c data (b : B) : br_inv b -> v_seq (br_view b bid) < br_limit -> roster_ok (br_view b bid) ->
  utf8 (c_id c) -> c_id c ∈ dom (v_presence (br_view b bid)) -> paintable truthy data ->
  exists b' msgs d, exec (handle bid c data) b = (b', msgs, d) /\ follows bid b b' msgs /\
    dom (v_presence (br_view b' bid)) = dom (v_presence (br_view b bid)).
Proof using FL.
  intros Hb Hlim Hok Hc Hin Hp.
  assert (exec (handle bid c data) b = (b, [], []) -> exists b' msgs d, exec (handle bid c data) b = (b', msgs, d) /\
    follows bid b b' msgs /\ dom (v_presence (br_view b' bid)) = dom (v_presence (br_view b bid))) as Hsame.
  { intros E. exists b, [], []. split; [done|]. split; [|done]. split_and!; [done|lia|done|by intros a Ha]. }
  destruct (Unmarshal dec_Envelope data Envelope_zero) as [env [e|]] eqn:Hu.
  { apply Hsame, handle_ignored; intros env'; [intros op|]; by rewrite Hu. }
  destruct (decide (Type_ env = TypeCursor)) as [Htc|Htc].
  { replace (exec (handle bid c data) b) with (exec (publishCursor bid c env) b); [by apply cursor_follows|].
    unfold handle. rewrite Hu, Htc. simpl. by destruct (exec (publishCursor bid c env) b) as [[b1 p1] d1]. }
  destruct (decide (Type_ env ∈ shape_types)) as [Ht|Ht].
  - destruct (DecodePayload dec_ShapeOp env ShapeOp_zero) as [op [e|]] eqn:Hd; [|destruct (decide (ID op = "")) as [Hid|Hid]].
    + apply Hsame, handle_ignored; intros env'; [intros op'|]; rewrite Hu; intros [= <-]; [|done]. by rewrite Hd.
    + apply Hsame, handle_ignored; intros env'; [intros op'|]; rewrite Hu; intros [= <-]; [|done]. rewrite Hd. by intros _ [= <-].
    + by eapply shape_follows.
  - apply Hsame, handle_ignored; intros env'; [intros op|]; rewrite Hu; intros [= <-]; done.
Qed.

(** *** Any number of steps *)

Lemma act_all_follows bid l (b : B) a : br_inv b -> v_seq (br_view b bid) + Z.of_nat (length l) <= br_limit ->
  roster_ok (br_view b bid) -> orderly truthy (dom (v_presence (br_view b bid))) l -> in_step a (br_view b bid) ->
  exists b' msgs, act_all bid l b = (b', msgs) /\ in_step (handle_all (wire_of_bytes truthy <$> msgs) a) (br_view b' bid) /\
    roster_ok (br_view b' bid) /\ app_self (handle_all (wire_of_bytes truthy <$> msgs) a) = app_self a.
Proof using FL.
  revert b a. induction l as [|x l IH]; intros b a Hb Hlim Hok Ho Ha; [by exists b, []|]. cbn [length] in Hlim.
  assert (exists here' b1 pub d, orderly truthy here' l /\ exec (act bid x) b = (b1, pub, d) /\ follows bid b b1 pub /\
    dom (v_presence (br_view b1 bid)) = here') as (here' & b1 & pub & d & Ho' & E & (Hb1 & Hs1 & Hok1 & Hf) & Hd).
  { destruct x as [c|c data|c]; [destruct Ho as (Hc & Ho)|destruct Ho as (Hc & Hin & Hp & Ho)|destruct Ho as (Hc & Ho)].
    - destruct (joins_follow bid c b Hb Hok Hc) as (b1 & pub & d & H1 & H2 & H3). by eexists _, _, _, _.
    - destruct (says_follow bid c data b Hb ltac:(lia) Hok Hc Hin Hp) as (b1 & pub & d & H1 & H2 & H3). by eexists _, _, _, _.
    - destruct (leaves_follow bid c b Hb Hok Hc) as (b1 & pub & d & H1 & H2 & H3). by eexists _, _, _, _. }
  destruct (Hf a Ha) as [Ha1 Es1]. subst here'.
  destruct (IH b1 _ Hb1 ltac:(lia) Hok1 Ho' Ha1) as (b2 & pubs & E2 & Ha2 & Hok2 & Es2).
  exists b2, (pub ++ pubs). cbn [act_all]. rewrite E, E2, fmap_app, handle_all_app. split_and!; [done..|congruence].
Qed.
End activity.
