(* ===== verification/Page.v ===== *)
(** The browser's page as a whole (web/src/App.tsx): its stores ([Browser]), its
    WebSockets with the reconnect timer, and the pointer handlers, as an
    executable system of events.  Painting and layout only read this state. *)

From S2P Require Import Prelude Strconv Utf8 Json JsonFacts JsonLocal Protocol Broker Metrics Board Client JsMap Browser JsJson.
From Stdlib Require Import SpecFloat.
Local Open Scope Z_scope.

(** ** The WebSocket lifecycle

    All the sockets the page has made, in order; [wsRef] is the last one.  The
    effect is mounted while not [stopped]; [timers] counts the pending calls
    [setTimeout(connect, 1000)]. *)

Inductive ready_state := CONNECTING | OPEN | CLOSING | CLOSED.
Inductive conn_status := Sconnecting | Sconnected | Sdisconnected.

#[export] Instance ready_state_eq_dec : EqDecision ready_state.
Proof. solve_decision. Defined.
#[export] Instance conn_status_eq_dec : EqDecision conn_status.
Proof. solve_decision. Defined.

Record Net := {
  ws_all : list ready_state;
  wsRef : nat;
  timers : nat;
  stopped : bool;
  status : conn_status;
}.
Implicit Types n : Net.

Definition set_socket (i : nat) (s : ready_state) n : Net :=
  {| ws_all := <[i := s]> (ws_all n); wsRef := wsRef n; timers := timers n; stopped := stopped n; status := status n |}.
Definition set_status (s : conn_status) n : Net :=
  {| ws_all := ws_all n; wsRef := wsRef n; timers := timers n; stopped := stopped n; status := s |}.
Definition set_timers (k : nat) n : Net :=
  {| ws_all := ws_all n; wsRef := wsRef n; timers := k; stopped := stopped n; status := status n |}.
Definition set_stopped n : Net :=
  {| ws_all := ws_all n; wsRef := wsRef n; timers := timers n; stopped := true; status := status n |}.

Definition connect n : Net :=
  {| ws_all := ws_all n ++ [CONNECTING]; wsRef := length (ws_all n); timers := timers n;
     stopped := stopped n; status := status n |}.

(** The effect, when it is mounted. *)
Definition net_start : Net := connect {| ws_all := []; wsRef := 0; timers := 0; stopped := false; status := Sconnecting |}.

Definition onopen n : Net := set_status Sconnected n.

Definition onclose n : Net :=
  let n := set_status Sdisconnected n in
  if stopped n then n else set_timers (S (timers n)) n.

(** [ws.close()]: nothing happens to a socket that is closed already. *)
Definition ws_close (i : nat) n : Net :=
  match ws_all n !! i with
  | Some CLOSED | None => n
  | Some _ => set_socket i CLOSING n
  end.

(** The cleanup of the effect. *)
Definition cleanup n : Net := let n := set_stopped n in ws_close (wsRef n) n.

(** What the browser reports of the sockets, when timers fire, and the
    unmounting. *)
Inductive net_event :=
  | NOpen (i : nat)       (* the connection is established *)
  | NClosing (i : nat)    (* the server has begun to close it: no event yet *)
  | NClose (i : nat)      (* it is closed, was lost, or could not be made *)
  | NTimer
  | NUnmount.

Definition net_step (e : net_event) n : option Net :=
  match e with
  | NOpen i => match ws_all n !! i with Some CONNECTING => Some (onopen (set_socket i OPEN n)) | _ => None end
  | NClosing i => match ws_all n !! i with Some OPEN => Some (set_socket i CLOSING n) | _ => None end
  | NClose i => match ws_all n !! i with Some CLOSED | None => None | Some _ => Some (onclose (set_socket i CLOSED n)) end
  | NTimer => match timers n with O => None | S k => Some (connect (set_timers k n)) end
  | NUnmount => if stopped n then None else Some (cleanup n)
  end.

Definition connected n : bool := bool_decide (ws_all n !! wsRef n = Some OPEN).

(** ** Pointer handling *)

Record DrawState := { startX : number; startY : number; d_x : number; d_y : number }.

(** [Rect] of protocol.ts without its type and colour. *)
Record Rect := { r_x : number; r_y : number; r_w : number; r_h : number }.

Definition normalize (d : DrawState) : Rect :=
  {| r_x := js_min (startX d) (d_x d); r_y := js_min (startY d) (d_y d);
     r_w := js_abs (js_sub (d_x d) (startX d)); r_h := js_abs (js_sub (d_y d) (startY d)) |}.

(** A pointer event, with the position of the canvas at that time. *)
Record pointer := { clientX : number; clientY : number; canvas_left : number; canvas_top : number }.

Definition pointerPos (e : pointer) : number * number :=
  (js_sub (clientX e) (canvas_left e), js_sub (clientY e) (canvas_top e)).

Definition CURSOR_INTERVAL_MS : number := js_int 40.

Section page.
Context {F : Float64} {JN : JsNumber}.

Record Page := {
  pg_app : App;
  pg_draw : option DrawState;
  pg_lastCursorSent : number;
  pg_net : Net;
}.
Implicit Types p : Page.

Definition page_start : Page :=
  {| pg_app := app_start; pg_draw := None; pg_lastCursorSent := js_int 0; pg_net := net_start |}.

Definition set_app (a : App) p : Page :=
  {| pg_app := a; pg_draw := pg_draw p; pg_lastCursorSent := pg_lastCursorSent p; pg_net := pg_net p |}.
Definition set_draw (d : option DrawState) p : Page :=
  {| pg_app := pg_app p; pg_draw := d; pg_lastCursorSent := pg_lastCursorSent p; pg_net := pg_net p |}.
Definition set_lastCursorSent (now : number) p : Page :=
  {| pg_app := pg_app p; pg_draw := pg_draw p; pg_lastCursorSent := now; pg_net := pg_net p |}.
Definition set_net n p : Page :=
  {| pg_app := pg_app p; pg_draw := pg_draw p; pg_lastCursorSent := pg_lastCursorSent p; pg_net := n |}.

(** [self.current.color ?? "#334155"]; an empty colour is one left out. *)
Definition pen p : string := if bool_decide (Color (app_self (pg_app p)) = "") then "#334155" else Color (app_self (pg_app p)).

Definition envelope_json (t : string) (payload : json) : json :=
  js_record [("type", js_string t); ("payload", payload)].

Definition cursor_json (x y : number) : json := js_record [("x", js_number x); ("y", js_number y)].

Definition shape_json (r : Rect) (color : string) : json :=
  js_record [("type", js_string "rect"); ("x", js_number (r_x r)); ("y", js_number (r_y r));
             ("w", js_number (r_w r)); ("h", js_number (r_h r)); ("color", js_string color)].

Definition create_json (id : string) (shape : json) : json := js_record [("id", js_string id); ("shape", shape)].

(** What is given to the socket. *)
Definition send (env : json) p : list string := if connected (pg_net p) then [JSON_stringify env] else [].

Definition onPointerDown (e : pointer) p : Page :=
  let '(x, y) := pointerPos e in set_draw (Some {| startX := x; startY := y; d_x := x; d_y := y |}) p.

Definition move_to (e : pointer) (d : DrawState) : DrawState :=
  let '(x, y) := pointerPos e in {| startX := startX d; startY := startY d; d_x := x; d_y := y |}.

Definition onPointerMove (e : pointer) (now : number) p : Page * list string :=
  let '(x, y) := pointerPos e in
  let p := set_draw (move_to e <$> pg_draw p) p in
  if js_ge (js_sub now (pg_lastCursorSent p)) CURSOR_INTERVAL_MS
  then let p := set_lastCursorSent now p in (p, send (envelope_json TypeCursor (cursor_json x y)) p)
  else (p, []).

(** [r.w < 3 && r.h < 3]: an accidental click. *)
Definition tiny (r : Rect) : bool := js_lt (r_w r) (js_int 3) && js_lt (r_h r) (js_int 3).

(** [id] is what [crypto.randomUUID()] gives. *)
Definition onPointerUp (id : string) p : Page * list string :=
  match pg_draw p with
  | None => (p, [])
  | Some d =>
      let p := set_draw None p in
      let rect := normalize d in
      if tiny rect then (p, [])
      else
        let shape := shape_json rect (pen p) in
        let p := set_app (set_shapes (js_set id (0, JSON_stringify shape) (app_shapes (pg_app p))) (pg_app p)) p in
        (p, send (envelope_json TypeShapeCreate (create_json id shape)) p)
  end.

(** ** The page

    Handlers run one after the other; pointer events need a canvas, messages
    an open socket. *)

Context (truthy : string -> bool).

Inductive page_event :=
  | PNet (e : net_event)
  | PMessage (i : nat) (data : string)
  | PDown (e : pointer)
  | PMove (m : pointer * number)
  | PUp (id : string).

Definition page_step (e : page_event) p : option (Page * list string) :=
  match e with
  | PNet e => n ← net_step e (pg_net p); Some (set_net n p, [])
  | PMessage i data =>
      match ws_all (pg_net p) !! i with
      | Some OPEN => Some (set_app (handleMessage (wire_of_bytes truthy data) (pg_app p)) p, [])
      | _ => None
      end
  | PDown e => if stopped (pg_net p) then None else Some (onPointerDown e p, [])
  | PMove (e, now) => if stopped (pg_net p) then None else Some (onPointerMove e now p)
  | PUp id => if stopped (pg_net p) then None else Some (onPointerUp id p)
  end.

(** A run of events, and all it gives to the sockets. *)
Fixpoint page_run (l : list page_event) p : option (Page * list string) :=
  match l with
  | [] => Some (p, [])
  | e :: l =>
      '(p, sent) ← page_step e p;
      '(p, more) ← page_run l p;
      Some (p, sent ++ more)
  end.

Lemma page_run_app l1 l2 p : page_run (l1 ++ l2) p =
  '(p1, s1) ← page_run l1 p; '(p2, s2) ← page_run l2 p1; Some (p2, s1 ++ s2).
Proof using Type.
  revert p. induction l1 as [|e l1 IH]; intros p; simpl; [by destruct (page_run l2 p) as [[p2 s2]|]|].
  destruct (page_step e p) as [[p1 s1]|]; simpl; [|done]. rewrite IH.
  destruct (page_run l1 p1) as [[p2 s2]|]; simpl; [|done]. destruct (page_run l2 p2) as [[p3 s3]|]; simpl; [|done].
  by rewrite (assoc_L (++)).
Qed.

(** ** One connection at a time *)

Record net_ok n : Prop := {
  no_current : exists s, ws_all n !! wsRef n = Some s /\ timers n = (if decide (s = CLOSED) then 1%nat else 0%nat) /\
    (status n = Sconnected <-> s = OPEN \/ s = CLOSING);
  no_others : forall i s, ws_all n !! i = Some s -> i <> wsRef n -> s = CLOSED;
}.

Lemma net_ok_start : net_ok net_start.
Proof using Type. split; [exists CONNECTING; split_and!; [done..|naive_solver]|]. by intros [|i] s. Qed.

(** A report about the current socket. *)
Lemma net_ok_current n s s' k st : net_ok n -> ws_all n !! wsRef n = Some s -> k = (if decide (s' = CLOSED) then 1%nat else 0%nat) ->
  (st = Sconnected <-> s' = OPEN \/ s' = CLOSING) ->
  net_ok (set_timers k (set_status st (set_socket (wsRef n) s' n))).
Proof using Type.
  intros [_ Ho] Hs Hk Hst. split; simpl.
  - exists s'. split; [|done]. apply list_lookup_insert_eq. by eapply lookup_lt_Some.
  - intros i t Hi Hne. rewrite list_lookup_insert_ne in Hi by done. by eapply Ho.
Qed.

Lemma onclose_stopped n : stopped (onclose n) = stopped n.
Proof using Type. unfold onclose. simpl. by destruct (stopped n) eqn:E. Qed.

Lemma net_step_stopped e n n' : net_step e n = Some n' -> stopped n' = false -> stopped n = false.
Proof using Type.
  destruct e as [i|i|i| |]; simpl; intros H; [..|by destruct (stopped n)]; repeat case_match; simplify_eq;
    by rewrite ?onclose_stopped.
Qed.

Lemma net_ok_step e n n' : net_step e n = Some n' -> (stopped n = false -> net_ok n) -> stopped n' = false -> net_ok n'.
Proof using Type.
  intros Hst Hn Hs. assert (stopped n = false) as Hs0 by (by eapply net_step_stopped).
  specialize (Hn Hs0). pose proof Hn as [(c & Hc & Ht & Hst') Ho].
  assert (forall i s, ws_all n !! i = Some s -> s <> CLOSED -> i = wsRef n) as Hcur.
  { intros i s Hi Hne. destruct (decide (i = wsRef n)); [done|]. by rewrite (Ho i s) in Hne. }
  destruct e as [i|i|i| |]; simpl in Hst.
  - destruct (ws_all n !! i) as [s|] eqn:Hi; [|done]. destruct s; try done. injection Hst as <-.
    assert (i = wsRef n) as -> by (by eapply Hcur). rewrite Hi in Hc. injection Hc as <-.
    replace (onopen _) with (set_timers 0 (set_status Sconnected (set_socket (wsRef n) OPEN n)))
      by (unfold onopen, set_timers, set_status; simpl; by rewrite Ht).
    eapply net_ok_current; [done..|naive_solver].
  - destruct (ws_all n !! i) as [s|] eqn:Hi; [|done]. destruct s; try done. injection Hst as <-.
    assert (i = wsRef n) as -> by (by eapply Hcur). rewrite Hi in Hc. injection Hc as <-.
    replace (set_socket _ _ _) with (set_timers 0 (set_status (status n) (set_socket (wsRef n) CLOSING n)))
      by (unfold set_timers, set_status, set_socket; simpl; by rewrite Ht).
    eapply net_ok_current; [done..|naive_solver].
  - assert (exists s, ws_all n !! i = Some s /\ s <> CLOSED /\ n' = onclose (set_socket i CLOSED n)) as (s & Hi & Hne & ->).
    { destruct (ws_all n !! i) as [s|] eqn:Hi; [|done]. exists s. destruct s; simplify_eq; done. }
    assert (i = wsRef n) as -> by (by eapply Hcur). rewrite Hi in Hc. injection Hc as <-.
    rewrite decide_False in Ht by done.
    replace (onclose _) with (set_timers 1 (set_status Sdisconnected (set_socket (wsRef n) CLOSED n)))
      by (unfold onclose, set_timers, set_status, set_socket; simpl; by rewrite Ht, Hs0).
    eapply net_ok_current; [done..|naive_solver].
  - destruct (timers n) as [|k] eqn:Ek; [done|]. injection Hst as <-. destruct (decide (c = CLOSED)) as [->|]; [|done].
    injection Ht as ->. split; simpl.
    + exists CONNECTING. split_and!; [by rewrite lookup_app_r, Nat.sub_diag by done|done|].
      rewrite Hst'. naive_solver.
    + intros i s [Hi|[? Hi]]%lookup_app_Some Hne; [|by apply list_lookup_singleton_Some in Hi as [? _]; lia].
      destruct (decide (i = wsRef n)) as [->|]; [congruence|by eapply Ho].
  - rewrite Hs0 in Hst. injection Hst as <-. exfalso. revert Hs. unfold cleanup, ws_close. simpl. by rewrite Hc; destruct c.
Qed.

Lemma page_step_net e p p' sent : page_step e p = Some (p', sent) ->
  (exists e', e = PNet e' /\ net_step e' (pg_net p) = Some (pg_net p')) \/ pg_net p' = pg_net p.
Proof using Type.
  destruct e as [e|i data|e|[e now]|id]; simpl; intros H.
  - destruct (net_step e (pg_net p)) as [n|] eqn:E; [|done]. injection H as <- <-. left. by exists e.
  - right. repeat case_match; by simplify_eq.
  - right. destruct (stopped _); [done|]. injection H as <- <-. done.
  - right. destruct (stopped _); [done|]. unfold onPointerMove in H. simpl in H. case_match; by simplify_eq.
  - right. destruct (stopped _); [done|]. unfold onPointerUp in H. repeat case_match; by simplify_eq.
Qed.

Lemma page_run_net l p p' sent : page_run l p = Some (p', sent) ->
  (stopped (pg_net p) = false -> net_ok (pg_net p)) -> stopped (pg_net p') = false -> net_ok (pg_net p').
Proof using Type.
  revert p sent. induction l as [|e l IH]; intros p sent; simpl; [by intros [= <- _]|].
  destruct (page_step e p) as [[p1 s1]|] eqn:E; [|done]. simpl.
  destruct (page_run l p1) as [[p2 s2]|] eqn:E2; [|done]. simpl. intros [= <- _] H0. eapply IH; [done|].
  apply page_step_net in E as [(e' & -> & E)| ->]; [|done]. intros Hs. by eapply net_ok_step.
Qed.

(** ** A stroke *)

Definition drawn_to (d : DrawState) (ms : list (pointer * number)) : DrawState :=
  fold_left (fun d m => move_to m.1 d) ms d.

Definition is_cursor_message (msg : string) : Prop :=
  exists x y, msg = JSON_stringify (envelope_json TypeCursor (cursor_json x y)).

(** Cursors, and only if there is a connection. *)
Definition only_cursors n (msgs : list string) : Prop :=
  Forall is_cursor_message msgs /\ (connected n = false -> msgs = []).

Lemma only_cursors_app n l1 l2 : only_cursors n l1 -> only_cursors n l2 -> only_cursors n (l1 ++ l2).
Proof using Type. intros [H1 E1] [H2 E2]. split; [by apply Forall_app|]. intros H. by rewrite E1, E2. Qed.

Lemma onPointerMove_drawing e now p d : pg_draw p = Some d ->
  exists t cursors, onPointerMove e now p = (set_lastCursorSent t (set_draw (Some (move_to e d)) p), cursors) /\
    only_cursors (pg_net p) cursors.
Proof using Type.
  intros Hd. unfold onPointerMove. destruct (pointerPos e) as [x y]. rewrite Hd. cbn [fmap option_fmap option_map].
  destruct (js_ge _ _).
  - eexists now, _. split; [done|]. unfold send. cbn [pg_net set_lastCursorSent set_draw]. destruct (connected (pg_net p)) eqn:E; [|done].
    split; [|congruence]. apply Forall_singleton. by exists x, y.
  - exists (pg_lastCursorSent p), []. split; [|done]. by destruct p.
Qed.

Lemma page_run_moves ms p d : stopped (pg_net p) = false -> pg_draw p = Some d ->
  exists now cursors, page_run (PMove <$> ms) p =
    Some (set_lastCursorSent now (set_draw (Some (drawn_to d ms)) p), cursors) /\ only_cursors (pg_net p) cursors.
Proof using Type.
  revert p d. induction ms as [|[e now] ms IH]; intros p d Hs Hd.
  - exists (pg_lastCursorSent p), []. split; [|done]. simpl. destruct p. simpl in *. by subst.
  - destruct (onPointerMove_drawing e now p d Hd) as (t & cs & E & Hc).
    destruct (IH (set_lastCursorSent t (set_draw (Some (move_to e d)) p)) (move_to e d)) as (t' & cs' & E' & Hc'); [done..|].
    exists t', (cs ++ cs'). split; [|by apply only_cursors_app]. cbn [fmap list_fmap page_run page_step]. rewrite Hs, E.
    cbn [mbind option_bind]. rewrite E'. done.
Qed.

(** The pointer goes down at [e], moves, and goes up. *)
Definition stroke (e : pointer) (ms : list (pointer * number)) (id : string) : list page_event :=
  PDown e :: (PMove <$> ms) ++ [PUp id].

(** The rectangle it leaves. *)
Definition stroke_rect (e : pointer) (ms : list (pointer * number)) : Rect :=
  let '(x, y) := pointerPos e in normalize (drawn_to {| startX := x; startY := y; d_x := x; d_y := y |} ms).

Definition stroke_text (e : pointer) (ms : list (pointer * number)) p : string :=
  JSON_stringify (shape_json (stroke_rect e ms) (pen p)).

Lemma stroke_run e ms id p : stopped (pg_net p) = false -> tiny (stroke_rect e ms) = false ->
  exists now cursors, only_cursors (pg_net p) cursors /\
    let p' := set_lastCursorSent now (set_draw None (set_app (set_shapes
      (js_set id (0, stroke_text e ms p) (app_shapes (pg_app p))) (pg_app p)) p)) in
    page_run (stroke e ms id) p = Some (p', cursors ++
      if connected (pg_net p) then [JSON_stringify (envelope_json TypeShapeCreate (create_json id (shape_json (stroke_rect e ms) (pen p))))] else []).
Proof using Type.
  intros Hs Ht. unfold stroke_rect, stroke_text, stroke in *. simpl in Ht |- *. rewrite Hs.
  set (d := {| startX := _ |}) in *. cbn [mbind option_bind].
  destruct (page_run_moves ms (onPointerDown e p) d Hs eq_refl) as (now & cs & Em & Hc).
  exists now, cs. split; [done|]. rewrite page_run_app, Em. cbn [mbind option_bind page_run page_step].
  change (stopped (pg_net (set_lastCursorSent _ _))) with (stopped (pg_net p)). rewrite Hs. unfold onPointerUp.
  cbn [pg_draw set_lastCursorSent set_draw]. rewrite Ht. cbn [mbind option_bind]. by rewrite app_nil_r.
Qed.
End page.
