(* ===== verification/LoadClient.v ===== *)
(** One participant of the load generator (cmd/loadtest/main.go): the URL it
    dials, the updates it sends, how it recognises its own operations when they
    come back, and the percentiles the report takes of the round trips. *)

From S2P Require Import Prelude Strconv Utf8 Json JsonFacts JsonLocal Protocol Broker Metrics Board Client Url.
From stdpp Require Import sorting.
From Stdlib Require Import SpecFloat.
Local Open Scope Z_scope.

(** ** Configuration

    [c_rate]: whether the rate is positive; how often the ticker fires is the
    scheduler's business. *)
Record config := {
  c_url : string;
  c_clients : Z;
  c_boards : Z;
  c_rate : bool;
  c_dialConc : Z;
}.

(** [%d] *)
Definition FormatInt (z : Z) : string := if z <? 0 then "-" +:+ FormatUint (- z) else FormatUint z.

(** ** Dialling *)

Definition shapeID (idx : Z) : string := "c" +:+ FormatInt idx.

(** [idx % cfg.boards]: [None] is a division by zero. *)
Definition board_of (cfg : config) (idx : Z) : option string :=
  if c_boards cfg =? 0 then None else Some ("board" +:+ FormatInt (Z.rem idx (c_boards cfg))).

(** The path and the raw query [dial] appends to the base URL. *)
Definition dial_target (board : string) (idx : Z) : string * string := ("/ws/" +:+ board, "name=c" +:+ FormatInt idx).

Definition dial_url (cfg : config) (idx : Z) : option string :=
  board ← board_of cfg idx;
  Some (c_url cfg +:+ "/ws/" +:+ board +:+ "?name=c" +:+ FormatInt idx).

(** ** Sending *)

(** [json.Marshal] of the map: its keys sorted. *)
Definition update_body (ts x y : Z) : result string :=
  enc_obj [("ts", Ok (FormatInt ts)); ("x", Ok (FormatInt x)); ("y", Ok (FormatInt y))].

(** What [sendUpdate] writes; the error of the first [Marshal] is dropped. *)
Definition sendUpdate (id : string) (ts x y : Z) : result string :=
  let shape := match update_body ts x y with Ok s => Some s | Err _ => None end in
  Marshal TypeShapeUpdate 0 {| ID := id; Shape := shape |}.

(** ** Recognising an operation *)

(** [strconv.ParseInt(s, 10, 64)] *)
Definition ParseInt (s : string) : Z * option error :=
  match s with
  | String c s' =>
      if ceq c "-" then
        let '(n, err) := ParseUint s' in
        match err with
        | Some e => (0, Some e)
        | None => if 2 ^ 63 <? n then (- 2 ^ 63, Some ErrRange) else (- n, None)
        end
      else
        let '(n, err) := ParseUint s in
        match err with
        | Some e => (0, Some e)
        | None => if 2 ^ 63 <=? n then (2 ^ 63 - 1, Some ErrRange) else (n, None)
        end
  | "" => (0, Some ErrSyntax)
  end.

Definition dec_int64 (old : Z) (j : json) : Z * bool :=
  match j with
  | JNum lit => match ParseInt lit with (z, None) => (z, true) | (_, Some _) => (old, false) end
  | JNull => (old, true)
  | _ => (old, false)
  end.

(** [var body struct { TS int64 }] *)
Definition dec_body : Z -> json -> Z * bool := dec_struct ["ts"] (fun v f raw j => dec_int64 v j).

Definition ownOpTimestamp (id : string) (data : string) : option Z :=
  match Unmarshal dec_Envelope data Envelope_zero with
  | (_, Some _) => None
  | (env, None) =>
      if bool_decide (Type_ env <> TypeShapeUpdate) then None
      else
        match DecodePayload dec_ShapeOp env ShapeOp_zero with
        | (_, Some _) => None
        | (op, None) =>
            if bool_decide (ID op <> id) then None
            else
              match Unmarshal dec_body (bytes_text (Shape op)) 0 with
              | (_, Some _) => None
              | (ts, None) => Some ts
              end
        end
  end.

(** ** Percentiles

    A [float64] between zero and one as a 53-bit numerator over [2^53]; the
    product with an integer is rounded to 53 bits, to the nearest, ties to
    even, and converting to [int] truncates. *)

(** Round a nonnegative integer to 53 significant bits. *)
Definition round53 (m : Z) : Z :=
  let k := Z.max 0 (Z.log2 m + 1 - 53) in
  let q := Z.shiftr m k in
  let r := m - Z.shiftl q k in
  let up := (Z.shiftl 1 k <? 2 * r) || ((2 * r =? Z.shiftl 1 k) && Z.odd q) in
  Z.shiftl (if up then q + 1 else q) k.

(** [int(p * float64(n))], [p] given by its numerator. *)
Definition float_index (p n : Z) : Z := Z.shiftr (round53 (p * n)) 53.

(** The numerators of the doubles nearest to 0.50, 0.95 and 0.99. *)
Definition p50 : Z := 2 ^ 52.
Definition p95 : Z := 8556839292003942.
Definition p99 : Z := 8917127262193582.

(** [None] is an index out of range. *)
Definition pct (sorted : list Z) (p : Z) : option Z :=
  match sorted with
  | [] => Some 0
  | _ =>
      let n := Z.of_nat (length sorted) in
      let i := float_index p n in
      let i := if n <=? i then n - 1 else i in
      if i <? 0 then None else sorted !! Z.to_nat i
  end.

Record summary := { su_p50 : Z; su_p95 : Z; su_p99 : Z; su_max : Z; su_n : Z }.

(** The line about round trips: [Some None] when there are no samples. *)
Definition report (latencies : list Z) : option (option summary) :=
  match latencies with
  | [] => Some None
  | _ =>
      let sorted := merge_sort Z.le latencies in
      a ← pct sorted p50; b ← pct sorted p95; c ← pct sorted p99;
      m ← sorted !! (length sorted - 1)%nat;
      Some (Some {| su_p50 := a; su_p95 := b; su_p99 := c; su_max := m; su_n := Z.of_nat (length latencies) |})
  end.

(** The standard's own arithmetic gives the numerators, and agrees with
    [round53] where a product is rounded down, up, and at a tie. *)
Definition double (m : Z) : spec_float := binary_normalize 53 1024 m 0 false.

Lemma numerators :
  SFdiv 53 1024 (double 50) (double 100) = S754_finite false (Z.to_pos p50) (-53) /\
  SFdiv 53 1024 (double 95) (double 100) = S754_finite false (Z.to_pos p95) (-53) /\
  SFdiv 53 1024 (double 99) (double 100) = S754_finite false (Z.to_pos p99) (-53).
Proof. by vm_compute. Qed.

Lemma round53_standard :
  Forall (fun m => SFmul 53 1024 (double m) (double 1) = double (round53 m))
    [0; 2 ^ 53 + 1; 2 ^ 53 + 3; 2 ^ 54 + 2; 2 ^ 54 + 3; p95 * 20; p99 * 1000; p95 * 123457].
Proof. repeat constructor; by vm_compute. Qed.

(** ** The float arithmetic of the percentiles is exact *)

Lemma round53_spec m : 0 <= m -> exists k q, 0 <= k /\ round53 m = q * 2 ^ k /\
  - 2 ^ k <= 2 * (q * 2 ^ k - m) <= 2 ^ k /\ (k = 0 \/ 2 ^ (k + 52) <= m) /\ m < 2 ^ (k + 53).
Proof.
  intros Hm. unfold round53. set (k := Z.max 0 (Z.log2 m + 1 - 53)). rewrite Z.shiftr_div_pow2 by lia.
  rewrite !Z.shiftl_mul_pow2, Z.mul_1_l by lia.
  assert (0 < 2 ^ k) as HP by (apply Z.pow_pos_nonneg; lia).
  pose proof (Z.mod_pos_bound m (2 ^ k) HP) as H2. pose proof (Z.div_mod m (2 ^ k) ltac:(lia)) as H3.
  set (q := m / 2 ^ k) in *. set (up := _ || _). exists k, (if up then q + 1 else q). split_and!; [lia|done| | | |].
  - destruct up eqn:Hup; [nia|]. apply orb_false_iff in Hup as [Hup _]. nia.
  - destruct up eqn:Hup; [|nia]. apply orb_true_iff in Hup as [Hup|[Hup _]%andb_true_iff]; nia.
  - destruct (Z.eq_dec m 0) as [->|Hne]; [by left|]. destruct (Z.eq_dec k 0); [by left|right].
    replace (k + 52) with (Z.log2 m) by lia. by apply Z.log2_spec; lia.
  - destruct (Z.eq_dec m 0) as [->|Hne]; [apply Z.pow_pos_nonneg; lia|].
    eapply Z.lt_le_trans; [apply Z.log2_spec; lia|]. apply Z.pow_le_mono_r; lia.
Qed.

(** Rounding [p * n] to a multiple of [P], which divides [2^53], does not move
    it across a multiple of [2^53]. *)
Lemma nearest_floor a p n P R T r q : 0 < a < 100 -> 0 <= p < 2 ^ 53 ->
  - 49 <= a * 2 ^ 53 - 100 * p -> 2 * (a * 2 ^ 53 - 100 * p) < a -> 1 <= n < 2 ^ 45 ->
  a * n = 100 * T + r -> 0 <= r < 100 -> 0 < P -> P * R = 2 ^ 53 -> (P = 1 \/ P * 2 ^ 52 <= p * n) -> p * n < P * 2 ^ 53 ->
  - P <= 2 * (q * P - p * n) <= P -> T * 2 ^ 53 <= q * P < (T + 1) * 2 ^ 53.
Proof.
  intros Ha Hp Hd1 Hd2 Hn HT Hr HP HR Hlo Hhi Hq. set (d := a * 2 ^ 53 - 100 * p) in *.
  assert (100 * (p * n) = 100 * (T * 2 ^ 53) + r * 2 ^ 53 - d * n) as Hm.
  { replace (100 * (T * 2 ^ 53) + r * 2 ^ 53) with (a * n * 2 ^ 53) by (rewrite HT; ring). unfold d. ring. }
  assert (- 49 * n <= d * n <= 49 * n) as Hdn by (split; apply Z.mul_le_mono_nonneg_r; lia).
  clearbody d.
  split.
  - assert (2 * (T * 2 ^ 53 - p * n) < P) as Hlt.
    { destruct (Z.eq_dec r 0) as [->|Hr0]; [|lia].
      assert (d * n < 2 ^ 53) by lia. assert (a * n * 2 ^ 53 - 2 ^ 53 < 100 * P * 2 ^ 53) by nia.
      assert (2 * (d * n) <= (a - 1) * n) by nia. nia. }
    rewrite <-HR. assert (T * R <= q); [|nia]. rewrite <-HR in Hlt. nia.
  - assert (P <= 2 * n) by (destruct Hlo; nia). nia.
Qed.

(** The numerator [p] of the double nearest to [a/100]: what [int(p * n)]
    gives is the integer part of [a * n / 100] itself. *)
Lemma float_index_exact a p n : 0 < a < 100 -> 0 <= p < 2 ^ 53 ->
  - 49 <= a * 2 ^ 53 - 100 * p -> 2 * (a * 2 ^ 53 - 100 * p) < a ->
  0 <= n < 2 ^ 45 -> float_index p n = a * n / 100.
Proof.
  intros Ha Hp Hd1 Hd2 Hn. unfold float_index. destruct (Z.eq_dec n 0) as [->|Hn0]; [by rewrite !Z.mul_0_r|].
  destruct (round53_spec (p * n) ltac:(nia)) as (k & q & Hk & -> & Hr & Hlo & Hhi).
  assert (k <= 53) as Hk53.
  { destruct (Z.le_gt_cases k 53); [done|]. destruct Hlo as [?|Hlo]; [lia|].
    assert (2 ^ 98 <= 2 ^ (k + 52)) by (apply Z.pow_le_mono_r; lia). nia. }
  rewrite Z.pow_add_r in Hlo, Hhi by lia.
  rewrite Z.shiftr_div_pow2 by lia. symmetry. apply (Z.div_unique_pos _ _ _ (q * 2 ^ k - a * n / 100 * 2 ^ 53)); [|lia].
  pose proof (Z.div_mod (a * n) 100 ltac:(lia)) as Hdiv. pose proof (Z.mod_pos_bound (a * n) 100 ltac:(lia)) as Hmod.
  destruct (nearest_floor a p n (2 ^ k) (2 ^ (53 - k)) (a * n / 100) ((a * n) mod 100) q); try done; try lia.
  - rewrite <-Z.pow_add_r by lia. f_equal. lia.
  - destruct Hlo as [->|Hlo]; [by left|by right].
Qed.

Lemma pct_rank a p (l : list Z) : l <> [] -> 0 < a < 100 -> 0 <= p < 2 ^ 53 ->
  - 49 <= a * 2 ^ 53 - 100 * p -> 2 * (a * 2 ^ 53 - 100 * p) < a -> Z.of_nat (length l) < 2 ^ 45 ->
  pct l p = l !! Z.to_nat (a * Z.of_nat (length l) / 100).
Proof.
  intros Hl Ha Hp Hd1 Hd2 Hn. unfold pct. destruct l as [|x l]; [done|]. set (n := Z.of_nat (length (x :: l))) in *.
  assert (1 <= n) by (unfold n; simpl; lia). rewrite (float_index_exact a) by (done || lia).
  pose proof (Z.div_lt_upper_bound (a * n) 100 n ltac:(lia) ltac:(nia)). pose proof (Z.div_pos (a * n) 100 ltac:(nia) ltac:(lia)).
  destruct (Z.leb_spec n (a * n / 100)); [lia|]. by destruct (Z.ltb_spec (a * n / 100) 0); [lia|].
Qed.

Lemma sorted_le (l : list Z) i j x y : StronglySorted Z.le l -> (i <= j)%nat -> l !! i = Some x -> l !! j = Some y -> x <= y.
Proof.
  intros Hs. revert i j. induction Hs as [|z l Hs IH Hf]; intros i j Hij; [done|].
  destruct i as [|i], j as [|j]; simpl; [intros [= <-] [= <-]; lia| |lia|].
  - intros [= <-] Hj. by eapply Forall_lookup_1 in Hf.
  - apply IH. lia.
Qed.

(** The percentiles of a run: elements of the sorted samples, at the rank of
    the percentile. *)
Lemma report_spec l : l <> [] -> Z.of_nat (length l) < 2 ^ 45 ->
  let n := Z.of_nat (length l) in
  exists sorted s, sorted ≡ₚ l /\ StronglySorted Z.le sorted /\ report l = Some (Some s) /\
    sorted !! Z.to_nat (50 * n / 100) = Some (su_p50 s) /\ sorted !! Z.to_nat (95 * n / 100) = Some (su_p95 s) /\
    sorted !! Z.to_nat (99 * n / 100) = Some (su_p99 s) /\ sorted !! (length sorted - 1)%nat = Some (su_max s) /\
    su_n s = n.
Proof.
  intros Hl Hn n. set (sorted := merge_sort Z.le l).
  assert (sorted ≡ₚ l) as Hp by apply merge_sort_Permutation.
  assert (StronglySorted Z.le sorted) as Hs by (apply StronglySorted_merge_sort; [intros x y z; lia|intros x y; lia]).
  pose proof (Permutation_length Hp) as Hlen. assert (sorted <> []) as Hne by (intros E; by rewrite E in Hlen; destruct l).
  assert (1 <= n) as Hn1 by (unfold n; destruct l; [done|simpl; lia]).
  assert (forall a, 0 < a < 100 -> is_Some (sorted !! Z.to_nat (a * n / 100))) as Hin.
  { intros a Ha. apply lookup_lt_is_Some. pose proof (Z.div_lt_upper_bound (a * n) 100 n ltac:(lia) ltac:(nia)).
    rewrite Hlen. pose proof (Z.div_pos (a * n) 100 ltac:(nia) ltac:(lia)). unfold n in *. lia. }
  destruct (Hin 50 ltac:(lia)) as [x5 E5]. destruct (Hin 95 ltac:(lia)) as [x95 E95]. destruct (Hin 99 ltac:(lia)) as [x99 E99].
  destruct (lookup_lt_is_Some_2 sorted (length sorted - 1)) as [m Em]; [destruct sorted; [done|simpl; lia]|].
  exists sorted, {| su_p50 := x5; su_p95 := x95; su_p99 := x99; su_max := m; su_n := n |}. split_and!; try done.
  unfold report. destruct l as [|x l']; [done|]. cbv zeta. fold sorted.
  rewrite (pct_rank 50 p50), (pct_rank 95 p95), (pct_rank 99 p99), Hlen by (first [exact Hne|rewrite Hlen; exact Hn|unfold p50, p95, p99; lia]).
  fold n. rewrite E5, E95, E99. cbn [mbind option_bind]. by rewrite <-Hlen, Em.
Qed.

(** ** Dialling reaches the board *)

Lemma encode_unreserved s : str_forall unreserved s = true -> encodeURIComponent s = s.
Proof.
  induction s as [|c s IH]; [done|]. cbn [str_forall encodeURIComponent]. intros [Hc Hs]%andb_true_iff.
  unfold encode_char. by rewrite Hc, IH.
Qed.

Lemma digit_unreserved c : is_digit c = true -> unreserved c = true.
Proof. unfold is_digit, unreserved, is_alnum, Utf8.between. intros H. by rewrite H. Qed.

Lemma FormatInt_nonneg z : 0 <= z -> FormatInt z = FormatUint z.
Proof. intros Hz. unfold FormatInt. by destruct (Z.ltb_spec z 0); [lia|]. Qed.

Lemma FormatInt_digits z : 0 <= z < 2 ^ 63 -> str_forall is_digit (FormatInt z) = true.
Proof. intros Hz. rewrite FormatInt_nonneg by lia. apply FormatUint_digits. unfold is_u64, two64. lia. Qed.

Lemma encode_numbered (p : string) z : str_forall unreserved p = true -> 0 <= z < 2 ^ 63 ->
  encodeURIComponent (p +:+ FormatInt z) = p +:+ FormatInt z.
Proof.
  intros Hp Hz. apply encode_unreserved. rewrite str_forall_app, Hp.
  eapply str_forall_impl; [apply digit_unreserved|by apply FormatInt_digits].
Qed.

(** What [dial] appends to the base URL is what a browser would for the same
    board and name. *)
Lemma dial_target_browser n idx : 0 <= n < 2 ^ 63 -> 0 <= idx < 2 ^ 63 ->
  dial_target ("board" +:+ FormatInt n) idx = wsURL ("board" +:+ FormatInt n) (shapeID idx).
Proof.
  intros Hn Hi. unfold dial_target, wsURL, shapeID. rewrite (encode_numbered "board"), (encode_numbered "c") by done. done.
Qed.

Lemma shapeID_inj i j : 0 <= i < 2 ^ 63 -> 0 <= j < 2 ^ 63 -> shapeID i = shapeID j -> i = j.
Proof.
  intros Hi Hj. unfold shapeID. rewrite !FormatInt_nonneg by lia. str_norm. intros [= E].
  apply FormatUint_inj; [unfold is_u64, two64; lia..|done].
Qed.

Lemma shapeID_utf8 i : 0 <= i < 2 ^ 63 -> utf8 (shapeID i).
Proof.
  intros Hi. apply utf8_plain. unfold shapeID. rewrite str_forall_app. simpl.
  eapply str_forall_impl; [|by apply FormatInt_digits]. unfold is_digit. intros c Hc. lia.
Qed.

(** ** An operation comes back *)

(** A sample: what [time.Now().UnixNano] and [rand.Intn(1000)] return. *)
Definition sample_ok (ts x y : Z) : Prop := 0 <= ts < 2 ^ 63 /\ 0 <= x < 1000 /\ 0 <= y < 1000.

Lemma ParseInt_format z : 0 <= z < 2 ^ 63 -> ParseInt (FormatUint z) = (z, None).
Proof.
  intros Hz. assert (is_u64 z) as Hu by (unfold is_u64, two64; lia). pose proof (FormatUint_digits z Hu) as Hd.
  pose proof (ParseUint_FormatUint z Hu) as Hp. unfold ParseInt. destruct (FormatUint z) as [|c s]; [done|].
  cbn [str_forall] in Hd. apply andb_true_iff in Hd as [Hc _]. rewrite (digit_not c "-") by done.
  rewrite Hp. by destruct (Z.leb_spec (2 ^ 63) z); [lia|].
Qed.

Lemma update_body_doc ts x y : sample_ok ts x y -> exists body j, update_body ts x y = Ok body /\ doc 1 body j /\
  dec_body 0 (canon j) = (ts, true).
Proof.
  intros (Hts & Hx & Hy). unfold update_body. rewrite !FormatInt_nonneg by lia.
  assert (is_u64 ts /\ is_u64 x /\ is_u64 y) as (H1 & H2 & H3) by (unfold is_u64, two64; lia).
  destruct (enc_obj_doc 0 [("ts", FormatUint ts); ("x", FormatUint x); ("y", FormatUint y)]
    [("ts", ("", JNum (FormatUint ts))); ("x", ("", JNum (FormatUint x))); ("y", ("", JNum (FormatUint y)))])
    as (body & E & Hd); [done|fields_tac; auto using doc_uint|].
  exists body. eexists. split_and!; [done|done|]. simpl. unfold dec_body, dec_struct. simpl.
  unfold dec_member at 3. unfold dec_member, find_field. simpl. by rewrite ParseInt_format.
Qed.

(** The update a client sends, as the server decodes it. *)
Definition update_op (id body : string) : ShapeOp := {| ID := id; Shape := Some body |}.

Lemma sendUpdate_decodes id ts x y : utf8 id -> sample_ok ts x y -> exists msg env op,
  sendUpdate id ts x y = Ok msg /\ Unmarshal dec_Envelope msg Envelope_zero = (env, None) /\
  Type_ env = TypeShapeUpdate /\ DecodePayload dec_ShapeOp env ShapeOp_zero = (op, None) /\ ID op = id /\
  exists j, doc 1 (bytes_text (Shape op)) j /\ dec_body 0 (canon j) = (ts, true) /\ bytes_empty (Shape op) = false.
Proof.
  intros Hid Hs. destruct (update_body_doc ts x y Hs) as (body & j & Eb & Hd & Hdec).
  pose proof (doc_nonempty _ _ _ Hd) as Hne.
  assert (doc maxNestingDepth body j) as Hdm by (eapply doc_mono; [done|unfold maxNestingDepth; lia]).
  assert (parse body = Some (canon j)) as Hp by by apply doc_parse.
  assert (c_valid (maxNestingDepth - 1) (update_op id body)) as Hv.
  { split_and!; [unfold maxNestingDepth; lia|done|]. intros _. exists (canon j). split; [done|].
    apply wf_canon. destruct Hd as [Hwf _]. eapply wf_mono; [done|unfold maxNestingDepth; lia]. }
  destruct (Marshal_two_stage TypeShapeUpdate 0 (update_op id body)) as (msg & env & Em & Hu & Ht & _ & Hp2);
    [by apply utf8_plain|done|done|].
  exists msg, env, (c_wire (update_op id body)). unfold sendUpdate. rewrite Eb. split_and!; try done.
  exists j. simpl. rewrite Hne. simpl. rewrite (doc_compact body j Hdm). by split_and!.
Qed.

Lemma own_op_message id id' seq msg op j ts : is_shape_msg msg TypeShapeUpdate seq op -> ID op = id ->
  doc 1 (bytes_text (Shape op)) j -> bytes_empty (Shape op) = false -> dec_body 0 (canon j) = (ts, true) ->
  ownOpTimestamp id' msg = if bool_decide (id = id') then Some ts else None.
Proof.
  intros (env & Hu & Ht & _ & Hp) <- Hd Hne Hdec. unfold ownOpTimestamp. rewrite Hu, bool_decide_false by (intros Hn; by apply Hn).
  change (c_dec (A := ShapeOp)) with dec_ShapeOp in Hp. change (c_zero (A := ShapeOp)) with ShapeOp_zero in Hp.
  rewrite Hp. simpl ID. destruct (decide (ID op = id')) as [->|Hid]; [|by rewrite bool_decide_true, bool_decide_false by done].
  rewrite bool_decide_false, (bool_decide_true (id' = id')) by (done || (intros Hn; by apply Hn)).
  assert (doc maxNestingDepth (bytes_text (Shape op)) j) as Hdm by (eapply doc_mono; [done|unfold maxNestingDepth; lia]).
  simpl. rewrite Hne. destruct (Shape op) as [body|]; [|done]. simpl in *. rewrite (doc_compact body j Hdm). simpl.
  unfold Unmarshal. by rewrite (doc_parse _ j Hdm), Hdec.
Qed.
