(* ===== verification/LoadRun.v ===== *)
(** A whole run of the load generator ([run] in cmd/loadtest/main.go): the
    ramp-up behind a semaphore, the measurement window, cancellation, and the
    join of all clients, as a step relation over the main goroutine, one
    goroutine per client, and one reader per connected client. *)

From S2P Require Import Prelude Strconv Utf8 Json JsonFacts JsonLocal Protocol Broker Metrics Board Client Url LoadClient.
Local Open Scope Z_scope.

(** ** State *)

(** Where a client's goroutine is; from [GSend] on the calls of [client.run]
    until [GDone], the deferred [wg.Done]. *)
Inductive gpc :=
  | GAcquire      (* sending on dialSem *)
  | GDial
  | GFree         (* receiving from dialSem *)
  | GCount        (* one of the two counters *)
  | GReady        (* sending on ready *)
  | GSend         (* the select of the send loop *)
  | GJoin         (* receiving from readerDone *)
  | GRecord       (* addLatencies *)
  | GClose        (* the deferred calls of client.run *)
  | GDone
  | GEnd.

#[export] Instance gpc_eq_dec : EqDecision gpc.
Proof. solve_decision. Defined.

(** [g_ok]: what [dial] returned; [g_reader]: the reader goroutine is running;
    [g_lat]: the slice the two share. *)
Record Gor := { g_pc : gpc; g_ok : option bool; g_reader : bool; g_lat : list Z }.

Definition gor_start : Gor := {| g_pc := GAcquire; g_ok := None; g_reader := false; g_lat := [] |}.

Definition g_at (p : gpc) (g : Gor) : Gor :=
  {| g_pc := p; g_ok := g_ok g; g_reader := g_reader g; g_lat := g_lat g |}.
Definition g_dialled (ok : bool) (g : Gor) : Gor :=
  {| g_pc := GFree; g_ok := Some ok; g_reader := g_reader g; g_lat := g_lat g |}.
Definition g_reading (b : bool) (g : Gor) : Gor :=
  {| g_pc := g_pc g; g_ok := g_ok g; g_reader := b; g_lat := g_lat g |}.
Definition g_sample (d : Z) (g : Gor) : Gor :=
  {| g_pc := g_pc g; g_ok := g_ok g; g_reader := g_reader g; g_lat := g_lat g ++ [d] |}.

(** The main goroutine: starting clients, receiving from [ready] for the n-th
    time, resetting the two counters, asleep,
    having read one of them back, at [cancel], at [wg.Wait], done;
    [seen] are the connections it has read off the counter. *)
Inductive mpc :=
  | MSpawn
  | MReady (n : Z)
  | MResetSent (seen : Z)
  | MResetReceived (seen : Z)
  | MSleep (seen : Z)
  | MLoad (seen sent : Z)
  | MCancel (seen sent received : Z)
  | MWait (seen sent received : Z)
  | MReport (seen sent received : Z).

Record Load := {
  l_main : mpc;
  l_spawned : Z;
  l_gs : gmap nat Gor;
  l_sem : Z;              (* tokens in dialSem *)
  l_ready : Z;            (* tokens in ready *)
  l_wg : Z;
  l_connected : Z;
  l_dialErrors : Z;
  l_sent : Z;
  l_received : Z;
  l_cancelled : bool;
  l_latencies : list Z;   (* of stats *)
}.

Definition set_main (p : mpc) (s : Load) : Load :=
  {| l_main := p; l_spawned := l_spawned s; l_gs := l_gs s; l_sem := l_sem s; l_ready := l_ready s; l_wg := l_wg s;
     l_connected := l_connected s; l_dialErrors := l_dialErrors s; l_sent := l_sent s; l_received := l_received s;
     l_cancelled := l_cancelled s; l_latencies := l_latencies s |}.
Definition set_gs (m : gmap nat Gor) (s : Load) : Load :=
  {| l_main := l_main s; l_spawned := l_spawned s; l_gs := m; l_sem := l_sem s; l_ready := l_ready s; l_wg := l_wg s;
     l_connected := l_connected s; l_dialErrors := l_dialErrors s; l_sent := l_sent s; l_received := l_received s;
     l_cancelled := l_cancelled s; l_latencies := l_latencies s |}.
Definition put (i : nat) (g : Gor) (s : Load) : Load := set_gs (<[i := g]> (l_gs s)) s.
Definition add_sem (n : Z) (s : Load) : Load :=
  {| l_main := l_main s; l_spawned := l_spawned s; l_gs := l_gs s; l_sem := l_sem s + n; l_ready := l_ready s; l_wg := l_wg s;
     l_connected := l_connected s; l_dialErrors := l_dialErrors s; l_sent := l_sent s; l_received := l_received s;
     l_cancelled := l_cancelled s; l_latencies := l_latencies s |}.
Definition add_ready (n : Z) (s : Load) : Load :=
  {| l_main := l_main s; l_spawned := l_spawned s; l_gs := l_gs s; l_sem := l_sem s; l_ready := l_ready s + n; l_wg := l_wg s;
     l_connected := l_connected s; l_dialErrors := l_dialErrors s; l_sent := l_sent s; l_received := l_received s;
     l_cancelled := l_cancelled s; l_latencies := l_latencies s |}.
Definition count_dial (ok : bool) (s : Load) : Load :=
  {| l_main := l_main s; l_spawned := l_spawned s; l_gs := l_gs s; l_sem := l_sem s; l_ready := l_ready s; l_wg := l_wg s;
     l_connected := l_connected s + b2z ok; l_dialErrors := l_dialErrors s + b2z (negb ok);
     l_sent := l_sent s; l_received := l_received s; l_cancelled := l_cancelled s; l_latencies := l_latencies s |}.
Definition set_traffic (sent received : Z) (s : Load) : Load :=
  {| l_main := l_main s; l_spawned := l_spawned s; l_gs := l_gs s; l_sem := l_sem s; l_ready := l_ready s; l_wg := l_wg s;
     l_connected := l_connected s; l_dialErrors := l_dialErrors s; l_sent := sent; l_received := received;
     l_cancelled := l_cancelled s; l_latencies := l_latencies s |}.
Definition do_cancel (s : Load) : Load :=
  {| l_main := l_main s; l_spawned := l_spawned s; l_gs := l_gs s; l_sem := l_sem s; l_ready := l_ready s; l_wg := l_wg s;
     l_connected := l_connected s; l_dialErrors := l_dialErrors s; l_sent := l_sent s; l_received := l_received s;
     l_cancelled := true; l_latencies := l_latencies s |}.

(** [st.addLatencies(ls)] *)
Definition addLatencies (ls : list Z) (s : Load) : Load :=
  {| l_main := l_main s; l_spawned := l_spawned s; l_gs := l_gs s; l_sem := l_sem s; l_ready := l_ready s; l_wg := l_wg s;
     l_connected := l_connected s; l_dialErrors := l_dialErrors s; l_sent := l_sent s; l_received := l_received s;
     l_cancelled := l_cancelled s; l_latencies := l_latencies s ++ ls |}.

(** [wg.Add(1)] and the [go] statement after it. *)
Definition spawn (s : Load) : Load :=
  {| l_main := l_main s; l_spawned := l_spawned s + 1; l_gs := <[Z.to_nat (l_spawned s) := gor_start]> (l_gs s);
     l_sem := l_sem s; l_ready := l_ready s; l_wg := l_wg s + 1;
     l_connected := l_connected s; l_dialErrors := l_dialErrors s; l_sent := l_sent s; l_received := l_received s;
     l_cancelled := l_cancelled s; l_latencies := l_latencies s |}.

(** [wg.Done()]: [None] is the panic of a negative counter. *)
Definition wg_done (s : Load) : option Load :=
  if l_wg s <=? 0 then None
  else Some
    {| l_main := l_main s; l_spawned := l_spawned s; l_gs := l_gs s; l_sem := l_sem s; l_ready := l_ready s; l_wg := l_wg s - 1;
       l_connected := l_connected s; l_dialErrors := l_dialErrors s; l_sent := l_sent s; l_received := l_received s;
       l_cancelled := l_cancelled s; l_latencies := l_latencies s |}.

Definition load_start : Load :=
  {| l_main := MSpawn; l_spawned := 0; l_gs := ∅; l_sem := 0; l_ready := 0; l_wg := 0; l_connected := 0;
     l_dialErrors := 0; l_sent := 0; l_received := 0; l_cancelled := false; l_latencies := [] |}.

(** The start of [run]: [make] panics on a negative capacity. *)
Definition start (cfg : config) : option Load :=
  if (c_dialConc cfg <? 0) || (c_clients cfg <? 0) then None else Some load_start.

(** ** Steps

    A step is the program's own, one the scheduler owes it sooner or later, or
    a fault of a connection, or traffic: a tick of a sender or a message of a
    reader. The outcome of [dial] is the server's. *)

Inductive kind := Own | Fault | Traffic.

Section steps.
Variable cfg : config.

(** The main goroutine. *)
Inductive main_step : Load -> option Load -> Prop :=
  | ms_spawn s : l_main s = MSpawn -> l_spawned s < c_clients cfg -> main_step s (Some (spawn s))
  | ms_spawned s : l_main s = MSpawn -> c_clients cfg <= l_spawned s -> main_step s (Some (set_main (MReady 0) s))
  | ms_ready s n : l_main s = MReady n -> n < c_clients cfg -> 0 < l_ready s ->
      main_step s (Some (set_main (MReady (n + 1)) (add_ready (-1) s)))
  | ms_all_ready s n : l_main s = MReady n -> c_clients cfg <= n ->
      main_step s (Some (set_main (MResetSent (l_connected s)) s))
  | ms_reset_sent s seen : l_main s = MResetSent seen ->
      main_step s (Some (set_main (MResetReceived seen) (set_traffic 0 (l_received s) s)))
  | ms_reset_received s seen : l_main s = MResetReceived seen ->
      main_step s (Some (set_main (MSleep seen) (set_traffic (l_sent s) 0 s)))
  | ms_wake s seen : l_main s = MSleep seen -> main_step s (Some (set_main (MLoad seen (l_sent s)) s))
  | ms_load s seen sent : l_main s = MLoad seen sent -> main_step s (Some (set_main (MCancel seen sent (l_received s)) s))
  | ms_cancel s seen sent received : l_main s = MCancel seen sent received ->
      main_step s (Some (set_main (MWait seen sent received) (do_cancel s)))
  | ms_wait s seen sent received : l_main s = MWait seen sent received -> l_wg s = 0 ->
      main_step s (Some (set_main (MReport seen sent received) s)).

(** The goroutine of client [i]. *)
Inductive gor_step (i : nat) (g : Gor) : kind -> Load -> option Load -> Prop :=
  | gs_acquire s : g_pc g = GAcquire -> l_sem s < c_dialConc cfg ->
      gor_step i g Own s (Some (put i (g_at GDial g) (add_sem 1 s)))
  | gs_dial s ok : g_pc g = GDial ->
      gor_step i g Own s (_ ← board_of cfg (Z.of_nat i); Some (put i (g_dialled ok g) s))
  | gs_free s : g_pc g = GFree -> 0 < l_sem s -> gor_step i g Own s (Some (put i (g_at GCount g) (add_sem (-1) s)))
  | gs_count s ok : g_pc g = GCount -> g_ok g = Some ok -> gor_step i g Own s (Some (put i (g_at GReady g) (count_dial ok s)))
  | gs_ready s : g_pc g = GReady -> g_ok g = Some false -> l_ready s < c_clients cfg ->
      gor_step i g Own s (Some (put i (g_at GDone g) (add_ready 1 s)))
  | gs_run s : g_pc g = GReady -> g_ok g = Some true -> l_ready s < c_clients cfg ->
      gor_step i g Own s (Some (put i (g_reading true (g_at (if c_rate cfg then GSend else GJoin) g)) (add_ready 1 s)))
  | gs_tick s : g_pc g = GSend -> gor_step i g Traffic s (Some (set_traffic (l_sent s + 1) (l_received s) s))
  | gs_write_error s : g_pc g = GSend -> gor_step i g Fault s (Some (put i (g_at GJoin g) s))
  | gs_cancelled s : g_pc g = GSend -> l_cancelled s = true -> gor_step i g Own s (Some (put i (g_at GJoin g) s))
  | gs_join s : g_pc g = GJoin -> g_reader g = false -> gor_step i g Own s (Some (put i (g_at GRecord g) s))
  | gs_record s : g_pc g = GRecord -> gor_step i g Own s (Some (put i (g_at GClose g) (addLatencies (g_lat g) s)))
  | gs_close s : g_pc g = GClose -> gor_step i g Own s (Some (put i (g_at GDone g) s))
  | gs_done s : g_pc g = GDone -> gor_step i g Own s (put i (g_at GEnd g) <$> wg_done s).

(** The reader of client [i]: [own] is the latency of one of its own
    operations; a read fails at any time, and has to once it is cancelled. *)
Inductive reader_step (i : nat) (g : Gor) : kind -> Load -> option Load -> Prop :=
  | rs_message s own : g_reader g = true ->
      reader_step i g Traffic s (Some (put i (match own with Some d => g_sample d g | None => g end)
        (set_traffic (l_sent s) (l_received s + 1) s)))
  | rs_error s : g_reader g = true -> reader_step i g Fault s (Some (put i (g_reading false g) s))
  | rs_cancelled s : g_reader g = true -> l_cancelled s = true -> reader_step i g Own s (Some (put i (g_reading false g) s)).

Inductive step : kind -> Load -> option Load -> Prop :=
  | st_main s o : main_step s o -> step Own s o
  | st_gor k i g s o : l_gs s !! i = Some g -> gor_step i g k s o -> step k s o
  | st_reader k i g s o : l_gs s !! i = Some g -> reader_step i g k s o -> step k s o.

Inductive lreachable : Load -> Prop :=
  | lr_start s : start cfg = Some s -> lreachable s
  | lr_step k s s' : lreachable s -> step k s (Some s') -> lreachable s'.

(** A step that is not traffic. *)
Definition moves (s s' : Load) : Prop := exists k, k <> Traffic /\ step k s (Some s').

(** ** Counting goroutines *)

Definition holding (g : Gor) : bool := match g_pc g with GDial | GFree => true | _ => false end.
Definition past_count (g : Gor) : bool := match g_pc g with GAcquire | GDial | GFree | GCount => false | _ => true end.
Definition past_ready (g : Gor) : bool := past_count g && match g_pc g with GReady => false | _ => true end.
Definition counted (ok : bool) (g : Gor) : bool :=
  past_count g && match g_ok g with Some b => Bool.eqb b ok | None => false end.
Definition live (g : Gor) : bool := match g_pc g with GEnd => false | _ => true end.
Definition recorded (g : Gor) : list Z := match g_pc g with GClose | GDone | GEnd => g_lat g | _ => [] end.
Definition anyone (g : Gor) : bool := true.

(** How often the main goroutine has received from [ready]. *)
Definition taken (p : mpc) : Z := match p with MSpawn => 0 | MReady n => n | _ => c_clients cfg end.
Definition was_cancelled (p : mpc) : bool := match p with MWait _ _ _ | MReport _ _ _ => true | _ => false end.
Definition seen_of (p : mpc) : option Z :=
  match p with
  | MSpawn | MReady _ => None
  | MResetSent n | MResetReceived n | MSleep n | MLoad n _ | MCancel n _ _ | MWait n _ _ | MReport n _ _ => Some n
  end.

Definition samples (m : gmap nat Gor) : list Z := flat_map (fun p => recorded p.2) (map_to_list m).

(** What a goroutine's own fields say about where it is. *)
Definition gor_ok (g : Gor) : Prop :=
  (g_ok g = None <-> g_pc g ∈ [GAcquire; GDial]) /\
  (g_reader g = true -> g_pc g ∈ [GSend; GJoin]) /\
  (g_pc g ∈ [GSend; GJoin; GRecord; GClose] -> g_ok g = Some true) /\
  (g_pc g ∉ [GSend; GJoin; GRecord; GClose; GDone; GEnd] \/ g_ok g = Some false -> g_lat g = []).

Record linv (s : Load) : Prop := {
  li_gs : forall i g, l_gs s !! i = Some g -> gor_ok g;
  li_fresh : forall i, l_spawned s <= Z.of_nat i -> l_gs s !! i = None;
  li_spawned : mcount anyone (l_gs s) = l_spawned s /\ 0 <= l_spawned s <= c_clients cfg;
  li_main : l_main s <> MSpawn -> l_spawned s = c_clients cfg;
  li_sem : l_sem s = mcount holding (l_gs s) /\ l_sem s <= c_dialConc cfg;
  li_ready : l_ready s + taken (l_main s) = mcount past_ready (l_gs s) /\ 0 <= l_ready s /\ 0 <= taken (l_main s) <= c_clients cfg;
  li_counted : l_connected s = mcount (counted true) (l_gs s) /\ l_dialErrors s = mcount (counted false) (l_gs s);
  li_seen : forall n, seen_of (l_main s) = Some n -> l_connected s = n;
  li_wg : l_wg s = mcount live (l_gs s);
  li_done : forall a b c, l_main s = MReport a b c -> l_wg s = 0;
  li_cancelled : l_cancelled s = was_cancelled (l_main s);
  li_lat : l_latencies s ≡ₚ samples (l_gs s);
}.
End steps.

(** ** The invariant *)

Lemma samples_insert_new m i g : m !! i = None -> samples (<[i := g]> m) ≡ₚ recorded g ++ samples m.
Proof.
  intros Hi. unfold samples. rewrite (Permutation_flat_map _ (map_to_list_insert m i g Hi)). done.
Qed.

Lemma samples_insert m i g g' ls : m !! i = Some g -> recorded g' = recorded g ++ ls ->
  samples (<[i := g']> m) ≡ₚ samples m ++ ls.
Proof.
  intros Hi Hr. rewrite <-(insert_delete_eq m i g'), samples_insert_new by apply lookup_delete_eq.
  rewrite <-(insert_delete_id m i g Hi) at 2. rewrite samples_insert_new by apply lookup_delete_eq.
  rewrite Hr, <-!(assoc_L (++)). by rewrite (Permutation_app_comm ls).
Qed.

Section invariant.
Context (cfg : config).

(** Once the main goroutine has heard from everyone, everyone is through. *)
Lemma all_past s i g : linv cfg s -> is_Some (seen_of (l_main s)) -> l_gs s !! i = Some g -> past_ready g = true.
Proof.
  intros Hi [n Hn] Hg. destruct (li_ready _ _ Hi) as (H1 & H2 & _). destruct (li_spawned _ _ Hi) as [H3 _].
  assert (l_spawned s = c_clients cfg) as Hsp by (apply (li_main _ _ Hi); by destruct (l_main s)).
  assert (taken cfg (l_main s) = c_clients cfg) as Ht by (by destruct (l_main s)).
  eapply mcount_full; [|exact Hg]. pose proof (mcount_all (l_gs s) past_ready). unfold anyone in H3. lia.
Qed.

Lemma none_live s i g : linv cfg s -> l_wg s = 0 -> l_gs s !! i = Some g -> g_pc g = GEnd.
Proof.
  intros Hi Hw Hg. rewrite (li_wg _ _ Hi) in Hw. destruct (decide (g_pc g = GEnd)) as [|Hne]; [done|].
  pose proof (mcount_pos live (l_gs s) i g Hg ltac:(unfold live; by destruct (g_pc g))). lia.
Qed.

(** One goroutine moves from [g] to [g'], the counters with it. *)
Lemma linv_put s i g g' s1 ls : linv cfg s -> l_gs s !! i = Some g -> gor_ok g' ->
  l_gs s1 = l_gs s -> l_spawned s1 = l_spawned s -> l_main s1 = l_main s -> l_cancelled s1 = l_cancelled s ->
  l_sem s1 = l_sem s - b2z (holding g) + b2z (holding g') -> l_sem s1 <= c_dialConc cfg ->
  l_ready s1 = l_ready s - b2z (past_ready g) + b2z (past_ready g') -> (past_ready g = true -> past_ready g' = true) ->
  l_connected s1 = l_connected s - b2z (counted true g) + b2z (counted true g') ->
  l_dialErrors s1 = l_dialErrors s - b2z (counted false g) + b2z (counted false g') ->
  (past_ready g = true -> counted true g = counted true g') ->
  l_wg s1 = l_wg s - b2z (live g) + b2z (live g') -> (live g = false -> live g' = false) ->
  l_latencies s1 = l_latencies s ++ ls -> recorded g' = recorded g ++ ls ->
  linv cfg (put i g' s1).
Proof.
  intros Hi Hg Hok Egs Esp Emn Ec Hsem Hsem' Hrd Hmono Hcn Hde Hsame Hwg Hlive Hlat Hrec.
  assert (forall P, mcount P (<[i := g']> (l_gs s)) = mcount P (l_gs s) - b2z (P g) + b2z (P g')) as Hmc
    by (intros P; by apply mcount_insert).
  destruct Hi as [H1 H2 H3 H4 H5 H6 H7 H8 H9 H10 H11 H12].
  constructor; unfold put; simpl; rewrite ?Egs, ?Esp, ?Emn, ?Ec, ?Hmc.
  - intros j g0. rewrite lookup_insert. case_decide; [by intros [= <-]|apply H1].
  - intros j Hj. rewrite lookup_insert_ne; [by apply H2|]. intros ->. rewrite H2 in Hg by done. done.
  - simpl. lia.
  - done.
  - lia.
  - destruct H6 as (H6 & H6' & ?). split; [lia|]. split; [|done]. rewrite Hrd. unfold b2z.
    destruct (past_ready g) eqn:E; [rewrite Hmono by done; lia|]. destruct (past_ready g'); lia.
  - lia.
  - intros n Hn. rewrite <-(H8 n Hn), Hcn. assert (past_ready g = true) as Hp.
    { apply (all_past s i g); [by constructor|by eexists|done]. }
    rewrite (Hsame Hp). lia.
  - lia.
  - intros a b c Hm. assert (live g = false) as Hl.
    { unfold live. rewrite (none_live s i g); [done|by constructor|by eapply H10|done]. }
    rewrite Hwg, Hl, (Hlive Hl), (H10 a b c Hm). done.
  - done.
  - rewrite Hlat, (samples_insert _ i g g' ls), H12 by done. done.
Qed.

(** The main goroutine moves, the goroutines do not. *)
Lemma linv_main s s1 p : linv cfg s -> l_gs s1 = l_gs s -> l_spawned s1 = l_spawned s -> l_sem s1 = l_sem s ->
  l_connected s1 = l_connected s -> l_dialErrors s1 = l_dialErrors s -> l_wg s1 = l_wg s -> l_latencies s1 = l_latencies s ->
  l_spawned s = c_clients cfg ->
  l_ready s1 + taken cfg p = l_ready s + taken cfg (l_main s) -> 0 <= l_ready s1 -> 0 <= taken cfg p <= c_clients cfg ->
  (forall n, seen_of p = Some n -> l_connected s = n) -> l_cancelled s1 = was_cancelled p ->
  (forall a b c, p = MReport a b c -> l_wg s = 0) -> linv cfg (set_main p s1).
Proof.
  intros Hi Egs Esp Esm Ecn Ede Ewg Elat Hcl Hrd Hrd' Htk Hseen Hc Hdone.
  destruct Hi as [H1 H2 H3 H4 H5 H6 H7 H8 H9 H10 H11 H12].
  constructor; simpl; rewrite ?Egs, ?Esp, ?Esm, ?Ecn, ?Ede, ?Ewg, ?Elat; try done. split_and!; lia.
Qed.

Lemma linv_spawn s : linv cfg s -> l_main s = MSpawn -> l_spawned s < c_clients cfg -> linv cfg (spawn s).
Proof.
  intros Hi Hm Hlt. destruct Hi as [H1 H2 H3 H4 H5 H6 H7 H8 H9 H10 H11 H12].
  assert (l_gs s !! Z.to_nat (l_spawned s) = None) as Hn by (apply H2; lia).
  constructor; simpl; rewrite ?mcount_insert_new by done;
    change (b2z (anyone gor_start)) with 1; change (b2z (holding gor_start)) with 0;
    change (b2z (past_ready gor_start)) with 0; change (b2z (counted true gor_start)) with 0;
    change (b2z (counted false gor_start)) with 0; change (b2z (live gor_start)) with 1; try done; try lia.
  - intros i g. rewrite lookup_insert. case_decide; [|apply H1]. intros [= <-].
    split_and!; simpl; [split; [set_solver|done]|done|set_solver|done].
  - intros i Hi. rewrite lookup_insert_ne by lia. apply H2. lia.
  - by rewrite Hm.
  - rewrite samples_insert_new by done. done.
Qed.

Ltac put_tac s i g ls Hi Hg :=
  refine (linv_put s i g _ _ ls Hi Hg _ _ _ _ _ _ _ _ _ _ _ _ _ _ _ _); simpl;
  try done; try lia; rewrite ?app_nil_r; try done; try (unfold counted; simpl; lia).

Ltac gor_ok_tac := unfold gor_ok in *; simpl in *; rewrite ?elem_of_cons, ?elem_of_nil in *; naive_solver.

Lemma linv_gor i g k s o : c_boards cfg <> 0 -> linv cfg s -> l_gs s !! i = Some g -> gor_step cfg i g k s o ->
  exists s', o = Some s' /\ linv cfg s'.
Proof.
  intros Hb Hi Hg Hst. pose proof (li_gs _ _ Hi i g Hg) as Hok. destruct (li_sem _ _ Hi) as [Hsem Hcap].
  destruct g as [pc ok rd lat]. inversion Hst; subst; simpl in *; subst.
  - eexists. split; [done|]. put_tac s i {| g_pc := GAcquire; g_ok := ok; g_reader := rd; g_lat := lat |} (@nil Z) Hi Hg.
    gor_ok_tac.
  - unfold board_of. rewrite (proj2 (Z.eqb_neq _ _) Hb). eexists. split; [done|].
    put_tac s i {| g_pc := GDial; g_ok := ok; g_reader := rd; g_lat := lat |} (@nil Z) Hi Hg. gor_ok_tac.
  - eexists. split; [done|]. put_tac s i {| g_pc := GFree; g_ok := ok; g_reader := rd; g_lat := lat |} (@nil Z) Hi Hg.
    gor_ok_tac.
  - eexists. split; [done|].
    put_tac s i {| g_pc := GCount; g_ok := Some ok0; g_reader := rd; g_lat := lat |} (@nil Z) Hi Hg;
      [gor_ok_tac|destruct ok0; simpl; lia..].
  - eexists. split; [done|].
    put_tac s i {| g_pc := GReady; g_ok := Some false; g_reader := rd; g_lat := lat |} (@nil Z) Hi Hg; gor_ok_tac.
  - eexists. split; [done|].
    destruct (c_rate cfg); put_tac s i {| g_pc := GReady; g_ok := Some true; g_reader := rd; g_lat := lat |} (@nil Z) Hi Hg; gor_ok_tac.
  - eexists. split; [done|]. destruct Hi. by constructor.
  - eexists. split; [done|]. put_tac s i {| g_pc := GSend; g_ok := ok; g_reader := rd; g_lat := lat |} (@nil Z) Hi Hg.
    gor_ok_tac.
  - eexists. split; [done|]. put_tac s i {| g_pc := GSend; g_ok := ok; g_reader := rd; g_lat := lat |} (@nil Z) Hi Hg.
    gor_ok_tac.
  - eexists. split; [done|]. put_tac s i {| g_pc := GJoin; g_ok := ok; g_reader := false; g_lat := lat |} (@nil Z) Hi Hg.
    gor_ok_tac.
  - eexists. split; [done|]. put_tac s i {| g_pc := GRecord; g_ok := ok; g_reader := rd; g_lat := lat |} lat Hi Hg.
    gor_ok_tac.
  - eexists. split; [done|]. put_tac s i {| g_pc := GClose; g_ok := ok; g_reader := rd; g_lat := lat |} (@nil Z) Hi Hg.
    gor_ok_tac.
  - assert (0 < l_wg s) as Hwg by (rewrite (li_wg _ _ Hi); by eapply mcount_pos).
    unfold wg_done. destruct (Z.leb_spec (l_wg s) 0); [lia|]. eexists. split; [done|].
    put_tac s i {| g_pc := GDone; g_ok := ok; g_reader := rd; g_lat := lat |} (@nil Z) Hi Hg. gor_ok_tac.
Qed.

Lemma linv_reader i g k s o : linv cfg s -> l_gs s !! i = Some g -> reader_step i g k s o ->
  exists s', o = Some s' /\ linv cfg s'.
Proof.
  intros Hi Hg Hst. pose proof (li_gs _ _ Hi i g Hg) as Hok. destruct (li_sem _ _ Hi) as [Hsem Hcap].
  assert (g_reader g = true) as Hr by (by inversion Hst).
  assert (g_pc g = GSend \/ g_pc g = GJoin) as Hpc.
  { destruct Hok as (_ & H & _). apply H in Hr. rewrite !elem_of_cons, elem_of_nil in Hr. naive_solver. }
  assert (forall s1 g', l_gs s1 = l_gs s -> l_spawned s1 = l_spawned s -> l_main s1 = l_main s ->
    l_cancelled s1 = l_cancelled s -> l_sem s1 = l_sem s -> l_ready s1 = l_ready s -> l_connected s1 = l_connected s ->
    l_dialErrors s1 = l_dialErrors s -> l_wg s1 = l_wg s -> l_latencies s1 = l_latencies s ->
    g_pc g' = g_pc g -> g_ok g' = g_ok g -> gor_ok g' -> linv cfg (put i g' s1)) as Hput.
  { intros s1 [pc' ok' rd' lat'] ? ? ? ? ? ? ? ? ? ? Ep Eo Hok'. destruct g as [pc ok rd lat]. simpl in *. subst pc' ok'.
    destruct Hpc as [-> | ->].
    - put_tac s i {| g_pc := GSend; g_ok := ok; g_reader := rd; g_lat := lat |} (@nil Z) Hi Hg.
    - put_tac s i {| g_pc := GJoin; g_ok := ok; g_reader := rd; g_lat := lat |} (@nil Z) Hi Hg. }
  inversion Hst; subst; eexists; (split; [done|]).
  - apply Hput; try done; [by destruct own|by destruct own|]. destruct g as [pc ok rd lat]. destruct own; [|done].
    simpl in *. destruct Hpc as [-> | ->]; gor_ok_tac.
  - apply Hput; try done. destruct g as [pc ok rd lat]. simpl in *. destruct Hpc as [-> | ->]; gor_ok_tac.
  - apply Hput; try done. destruct g as [pc ok rd lat]. simpl in *. destruct Hpc as [-> | ->]; gor_ok_tac.
Qed.

Lemma linv_main_step s o : linv cfg s -> main_step cfg s o -> exists s', o = Some s' /\ linv cfg s'.
Proof.
  intros Hi Hst. destruct (li_spawned _ _ Hi) as [_ Hsp]. destruct (li_ready _ _ Hi) as (Hrd & Hrd' & Htk).
  pose proof (li_main _ _ Hi) as Hmain. pose proof (li_cancelled _ _ Hi) as Hc. pose proof (li_seen _ _ Hi) as Hseen.
  inversion Hst as [? Hm Hlt|? Hm Hlt|? n Hm Hlt Hn|? n Hm Hn|? n Hm|? n Hm|? n Hm|? n sent Hm|? n sent rc Hm|? n sent rc Hm Hz];
    subst; rewrite Hm in *; eexists; (split; [done|]); [by apply linv_spawn|..].
  all: apply (linv_main s); rewrite ?Hm; simpl in *; try done; try lia; try (by apply Hmain).
  by intros ? [= <-].
Qed.

Lemma linv_start s : start cfg = Some s -> linv cfg s.
Proof.
  unfold start. intros Hs. destruct ((c_dialConc cfg <? 0) || (c_clients cfg <? 0)) eqn:E; [done|].
  apply orb_false_iff in E as [E1 E2]. injection Hs as <-.
  constructor; simpl; try done; rewrite ?mcount_empty; try lia; split_and!; lia.
Qed.

Lemma linv_step k s o : c_boards cfg <> 0 -> linv cfg s -> step cfg k s o -> exists s', o = Some s' /\ linv cfg s'.
Proof.
  intros Hb Hi Hst. inversion Hst; subst; [by eapply linv_main_step|by eapply linv_gor|by eapply linv_reader].
Qed.

Lemma lreachable_inv s : c_boards cfg <> 0 -> lreachable cfg s -> linv cfg s.
Proof.
  intros Hb Hr. induction Hr as [s Hs|k s s' Hr IH Hst]; [by apply linv_start|].
  destruct (linv_step k s _ Hb IH Hst) as (s1 & [= <-] & Hi). done.
Qed.

(** ** Progress *)

Definition can_move (s : Load) : Prop := exists s', step cfg Own s (Some s').

Lemma can_gor s i g s' : l_gs s !! i = Some g -> gor_step cfg i g Own s (Some s') -> can_move s.
Proof. intros Hg Hs. exists s'. by eapply st_gor. Qed.

Lemma can_dial s i g : c_boards cfg <> 0 -> l_gs s !! i = Some g -> g_pc g = GDial -> can_move s.
Proof.
  intros Hb Hg Hp. pose proof (gs_dial cfg i g s true Hp) as Hs. unfold board_of in Hs.
  rewrite (proj2 (Z.eqb_neq _ _) Hb) in Hs. by eapply can_gor.
Qed.

(** Somebody still on the way to [ready] can move, or somebody else lets them. *)
Lemma progress_ramp s i g : c_boards cfg <> 0 -> 0 < c_dialConc cfg -> linv cfg s -> l_ready s < c_clients cfg ->
  l_gs s !! i = Some g -> past_ready g = false -> can_move s.
Proof.
  intros Hb Hc Hi Hr Hg Hp. destruct (li_sem _ _ Hi) as [Hsem Hcap]. destruct (li_gs _ _ Hi i g Hg) as (Hok & _).
  assert (forall j x, l_gs s !! j = Some x -> holding x = true -> can_move s) as Hhold.
  { intros j x Hx Hh. destruct (g_pc x) eqn:Ex; unfold holding in Hh; rewrite Ex in Hh; try done.
    - by eapply can_dial.
    - eapply can_gor; [done|]. apply gs_free; [done|]. rewrite Hsem. eapply mcount_pos; [exact Hx|]. unfold holding. by rewrite Ex. }
  assert (g_pc g ∉ [GAcquire; GDial] -> exists ok, g_ok g = Some ok) as Hsome.
  { intros Hn. destruct (g_ok g) eqn:E; [by eexists|]. destruct Hn. by apply Hok. }
  destruct (g_pc g) eqn:Ep; unfold past_ready, past_count in Hp; rewrite Ep in Hp; try done.
  - destruct (Z.lt_ge_cases (l_sem s) (c_dialConc cfg)); [eapply can_gor; [done|by apply gs_acquire]|].
    destruct (mcount_exists (l_gs s) holding) as (j & x & Hx & Hh); [lia|]. by eapply Hhold.
  - by eapply can_dial.
  - eapply Hhold; [exact Hg|]. unfold holding. by rewrite Ep.
  - destruct (Hsome ltac:(set_solver)) as [ok Eo]. eapply can_gor; [done|]. by eapply gs_count.
  - destruct (Hsome ltac:(set_solver)) as [[] Eo]; eapply can_gor; [done|by apply gs_run|done|by apply gs_ready].
Qed.

(** Somebody still running after the cancellation can move. *)
Lemma progress_join s i g : linv cfg s -> l_cancelled s = true -> l_gs s !! i = Some g ->
  past_ready g = true -> live g = true -> can_move s.
Proof.
  intros Hi Hc Hg Hp Hl. destruct (g_pc g) eqn:Ep; unfold past_ready, past_count, live in *; rewrite Ep in *; try done.
  - eapply can_gor; [done|]. by apply gs_cancelled.
  - destruct (g_reader g) eqn:Er; [eexists; by eapply st_reader, rs_cancelled|]. eapply can_gor; [done|]. by apply gs_join.
  - eapply can_gor; [done|]. by apply gs_record.
  - eapply can_gor; [done|]. by apply gs_close.
  - assert (0 < l_wg s) as Hw by (rewrite (li_wg _ _ Hi); eapply mcount_pos; [exact Hg|]; unfold live; by rewrite Ep).
    pose proof (gs_done cfg i g s Ep) as Hs. unfold wg_done in Hs. destruct (Z.leb_spec (l_wg s) 0); [lia|]. by eapply can_gor.
Qed.

Lemma progress s : c_boards cfg <> 0 -> 0 < c_dialConc cfg -> linv cfg s ->
  (exists a b c, l_main s = MReport a b c) \/ can_move s.
Proof.
  intros Hb Hc Hi. destruct (li_ready _ _ Hi) as (Hrd & Hrd' & Htk). destruct (li_spawned _ _ Hi) as [Hn Hsp].
  assert (forall s', main_step cfg s (Some s') -> can_move s) as Hmain by (intros s' Hs; exists s'; by apply st_main).
  destruct (l_main s) eqn:Em; simpl in *; [| |right..|left; by eauto].
  - right. destruct (Z.lt_ge_cases (l_spawned s) (c_clients cfg)); eapply Hmain; [by apply ms_spawn|by apply ms_spawned].
  - right. destruct (Z.lt_ge_cases n (c_clients cfg)) as [Hlt|]; [|eapply Hmain; by eapply ms_all_ready].
    destruct (Z.lt_ge_cases 0 (l_ready s)); [eapply Hmain; by eapply ms_ready|].
    assert (l_spawned s = c_clients cfg) as Hs by (apply (li_main _ _ Hi); by rewrite Em).
    destruct (mcount_lacks (l_gs s) past_ready) as (i & g & Hg & Hp); [unfold anyone in Hn; lia|].
    pose proof (mcount_nonneg past_ready (l_gs s)). apply (progress_ramp s i g); try done. lia.
  - eapply Hmain; by eapply ms_reset_sent.
  - eapply Hmain; by eapply ms_reset_received.
  - eapply Hmain; by eapply ms_wake.
  - eapply Hmain; by eapply ms_load.
  - eapply Hmain; by eapply ms_cancel.
  - destruct (Z.eq_dec (l_wg s) 0) as [Hz|Hz]; [eapply Hmain; by eapply ms_wait|].
    pose proof (mcount_nonneg live (l_gs s)) as Hnn. rewrite (li_wg _ _ Hi) in Hz.
    destruct (mcount_exists (l_gs s) live) as (i & g & Hg & Hl); [lia|].
    eapply (progress_join s i g); try done; [by rewrite (li_cancelled _ _ Hi), Em|].
    eapply all_past; [done|rewrite Em; by eexists|done].
Qed.
End invariant.

(** ** How much there is left to do, besides traffic *)

Definition pc_work (p : gpc) : Z :=
  match p with
  | GAcquire => 11 | GDial => 10 | GFree => 9 | GCount => 8 | GReady => 7 | GSend => 5
  | GJoin => 4 | GRecord => 3 | GClose => 2 | GDone => 1 | GEnd => 0
  end.

Definition gor_work (g : Gor) : Z := pc_work (g_pc g) + b2z (g_reader g).

Definition main_work (cfg : config) (s : Load) : Z :=
  match l_main s with
  | MSpawn => 12 * (c_clients cfg - l_spawned s) + c_clients cfg + 9
  | MReady n => c_clients cfg - n + 8
  | MResetSent _ => 6 | MResetReceived _ => 5 | MSleep _ => 4 | MLoad _ _ => 3
  | MCancel _ _ _ => 2 | MWait _ _ _ => 1 | MReport _ _ _ => 0
  end.

Definition gors_work (m : gmap nat Gor) : Z := map_fold (fun _ g n => gor_work g + n) 0 m.

Definition work (cfg : config) (s : Load) : Z := main_work cfg s + gors_work (l_gs s).

Lemma gors_work_new m i g : m !! i = None -> gors_work (<[i := g]> m) = gor_work g + gors_work m.
Proof. intros Hi. unfold gors_work. rewrite map_fold_insert_L; [done| |done]. intros. lia. Qed.

Lemma gors_work_insert m i g g' : m !! i = Some g -> gors_work (<[i := g']> m) = gors_work m - gor_work g + gor_work g'.
Proof.
  intros Hi. rewrite <-(insert_delete_eq m i g'), gors_work_new by apply lookup_delete_eq.
  rewrite <-(insert_delete_id m i g Hi) at 2. rewrite gors_work_new by apply lookup_delete_eq. lia.
Qed.

Lemma gor_work_nonneg g : 0 <= gor_work g.
Proof. unfold gor_work, b2z. destruct (g_pc g), (g_reader g); simpl; lia. Qed.

Lemma gors_work_nonneg m : 0 <= gors_work m.
Proof.
  induction m as [|i g m Hi IH] using map_ind; [done|]. rewrite gors_work_new by done.
  pose proof (gor_work_nonneg g). lia.
Qed.

Section termination.
Context (cfg : config).

Lemma load_work_nonneg s : linv cfg s -> 0 <= work cfg s.
Proof.
  intros Hi. pose proof (gors_work_nonneg (l_gs s)). destruct (li_spawned _ _ Hi) as [_ Hsp].
  destruct (li_ready _ _ Hi) as (_ & _ & Ht). unfold work, main_work. destruct (l_main s); simpl in *; lia.
Qed.

Lemma put_work s i g g' s1 : l_gs s !! i = Some g -> l_gs s1 = l_gs s -> l_main s1 = l_main s -> l_spawned s1 = l_spawned s ->
  work cfg (put i g' s1) = work cfg s - gor_work g + gor_work g'.
Proof.
  intros Hg Eg Em Es. unfold work, main_work, put. simpl. rewrite Eg, Em, Es, (gors_work_insert _ i g) by done. lia.
Qed.

Lemma gor_step_work i g k s s' : linv cfg s -> l_gs s !! i = Some g -> gor_step cfg i g k s (Some s') ->
  work cfg s' + (match k with Traffic => 0 | _ => 1 end) <= work cfg s.
Proof.
  intros Hi Hg Hst.
  assert (forall g' s1 d, l_gs s1 = l_gs s -> l_main s1 = l_main s -> l_spawned s1 = l_spawned s ->
    gor_work g' + d <= gor_work g -> work cfg (put i g' s1) + d <= work cfg s) as Hput.
  { intros g' s1 d H1 H2 H3 H4. rewrite (put_work s i g) by done. lia. }
  inversion Hst; subst; match goal with H : g_pc g = _ |- _ => rename H into Hp end;
    try (apply Hput; [done..|]; unfold gor_work; simpl; rewrite ?Hp; simpl; lia).
  - unfold board_of in *. destruct (c_boards cfg =? 0); [done|]. simplify_eq/=. apply Hput; [done..|].
    unfold gor_work. simpl. rewrite Hp. simpl. lia.
  - apply Hput; [done..|]. unfold gor_work, b2z. simpl. rewrite Hp. destruct (c_rate cfg), (g_reader g); simpl; lia.
  - unfold work, main_work. simpl. lia.
  - unfold wg_done in *. destruct (l_wg s <=? 0); [done|]. simplify_eq/=. apply Hput; [done..|].
    unfold gor_work. simpl. rewrite Hp. simpl. lia.
Qed.

Lemma reader_step_work i g k s s' : linv cfg s -> l_gs s !! i = Some g -> reader_step i g k s (Some s') ->
  work cfg s' + (match k with Traffic => 0 | _ => 1 end) <= work cfg s.
Proof.
  intros Hi Hg Hst. assert (g_reader g = true) as Hr by (by inversion Hst).
  assert (forall g', g_pc g' = g_pc g -> gor_work g' = pc_work (g_pc g) + b2z (g_reader g')) as Hw
    by (intros g' Hp; unfold gor_work; by rewrite Hp).
  inversion Hst; subst; rewrite (put_work s i g), !Hw by (try done; by destruct own); simpl; rewrite ?Hr; simpl; try lia.
  destruct own; simpl; rewrite Hr; simpl; lia.
Qed.

Lemma main_step_work s s' : linv cfg s -> main_step cfg s (Some s') -> work cfg s' + 1 <= work cfg s.
Proof.
  intros Hi Hst. pose proof (li_fresh _ _ Hi (Z.to_nat (l_spawned s))) as Hf. destruct (li_spawned _ _ Hi) as [_ Hsp].
  destruct (li_ready _ _ Hi) as (_ & _ & Htk).
  inversion Hst; subst; match goal with H : l_main s = _ |- _ => unfold work, main_work; simpl; rewrite H in * end; simpl in *;
    try lia.
  rewrite gors_work_new by (apply Hf; lia). change (gor_work gor_start) with 11. lia.
Qed.

Lemma step_work k s s' : linv cfg s -> step cfg k s (Some s') ->
  work cfg s' + (match k with Traffic => 0 | _ => 1 end) <= work cfg s.
Proof.
  intros Hi Hst. inversion Hst; subst; [by apply main_step_work|by eapply gor_step_work|by eapply reader_step_work].
Qed.
End termination.

(** ** What a report accounts for *)

Section accounts.
Context (cfg : config).

Lemma ready_never_full s i g : linv cfg s -> l_gs s !! i = Some g -> g_pc g = GReady -> l_ready s < c_clients cfg.
Proof.
  intros Hi Hg Hp. destruct (li_ready _ _ Hi) as (Hrd & _ & Ht). destruct (li_spawned _ _ Hi) as [Hn Hsp].
  destruct (Z.lt_ge_cases (l_ready s) (c_clients cfg)); [done|].
  pose proof (mcount_all (l_gs s) past_ready). assert (past_ready g = true) as Hpr; [|unfold past_ready in Hpr; by rewrite Hp, andb_false_r in Hpr].
  eapply mcount_full; [|exact Hg]. unfold anyone in Hn. lia.
Qed.

Lemma counted_split m : (forall i g, m !! i = Some g -> gor_ok g /\ g_pc g = GEnd) ->
  mcount (counted true) m + mcount (counted false) m = mcount anyone m.
Proof.
  induction m as [|i g m Hi IH] using map_ind; intros Hall; [by rewrite !mcount_empty|].
  rewrite !mcount_insert_new by done. destruct (Hall i g) as [Hok Hp]; [apply lookup_insert_eq|].
  assert (b2z (counted true g) + b2z (counted false g) = b2z (anyone g)) as E.
  { unfold counted, past_count. rewrite Hp. destruct (g_ok g) as [[]|] eqn:Eo; [done..|].
    destruct Hok as [[Hn _] _]. specialize (Hn Eo). rewrite Hp in Hn. set_solver. }
  rewrite <-E, <-IH; [lia|]. intros j h Hj. apply (Hall j h). rewrite lookup_insert_ne; [done|]. intros <-. congruence.
Qed.

Lemma report_accounts s seen sent received : linv cfg s -> l_main s = MReport seen sent received ->
  mcount anyone (l_gs s) = c_clients cfg /\ (forall i g, l_gs s !! i = Some g -> g_pc g = GEnd) /\
  seen + l_dialErrors s = c_clients cfg /\
  l_latencies s ≡ₚ flat_map (fun p => g_lat p.2) (map_to_list (l_gs s)).
Proof.
  intros Hi Hm. destruct (li_spawned _ _ Hi) as [Hn _]. destruct (li_counted _ _ Hi) as [Hc Hd].
  assert (forall i g, l_gs s !! i = Some g -> g_pc g = GEnd) as Hend.
  { intros i g. apply (none_live cfg s i g Hi). by eapply (li_done cfg s Hi). }
  assert (mcount anyone (l_gs s) = c_clients cfg) as Hall by (rewrite Hn; apply (li_main _ _ Hi); by rewrite Hm).
  split_and!; [done|done| |].
  - rewrite <-(li_seen _ _ Hi seen) by (by rewrite Hm). rewrite Hc, Hd, <-Hall. apply counted_split.
    intros i g Hg. split; [by eapply li_gs|by eapply Hend].
  - rewrite (li_lat _ _ Hi). unfold samples. rewrite !flat_map_concat_map. erewrite map_ext_in; [reflexivity|]. intros [i g] Hin.
    unfold recorded. simpl. rewrite (Hend i g); [done|]. by apply elem_of_map_to_list, list_elem_of_In.
Qed.

(** ** Two settings it does not survive *)

Lemma lreachable_stuck s : c_dialConc cfg = 0 -> 0 < c_clients cfg -> lreachable cfg s ->
  (forall i g, l_gs s !! i = Some g -> g = gor_start) /\ (l_main s = MSpawn \/ l_main s = MReady 0) /\
  l_sem s = 0 /\ l_ready s = 0.
Proof.
  intros Hc Hn Hr. induction Hr as [s Hs|k s s' Hr IH Hst].
  - unfold start in Hs. case_match; simplify_eq/=. split_and!; [set_solver|by left|done|done].
  - destruct IH as (H1 & H2 & H3 & H4). inversion Hst as [? ? Hm|? ? g ? ? Hg Hm|? ? g ? ? Hg Hm]; subst.
    + inversion Hm; subst; destruct H2 as [H2|H2]; rewrite H2 in *; simplify_eq; simpl; try lia; split_and!; try done; try (by right).
      * intros i g. rewrite lookup_insert. case_decide; [by intros [= <-]|apply H1].
      * by left.
    + rewrite (H1 _ _ Hg) in Hm. inversion Hm; subst; simpl in *; try done. rewrite H3 in *. lia.
    + rewrite (H1 _ _ Hg) in Hm. by inversion Hm.
Qed.

Lemma zero_boards_reach : c_boards cfg = 0 -> 0 < c_clients cfg -> 0 < c_dialConc cfg ->
  exists s, lreachable cfg s /\ step cfg Own s None.
Proof.
  intros Hb Hn Hc. destruct (start cfg) as [s0|] eqn:E; [|unfold start in E; case_match; [bool_hyps; lia|done]].
  assert (lreachable cfg s0) as H0 by by apply lr_start. unfold start in E. case_match; [done|]. injection E as <-.
  set (s0 := load_start) in *.
  assert (lreachable cfg (spawn s0)) as H1 by (eapply lr_step; [exact H0|apply st_main, ms_spawn; [done|simpl; lia]]).
  assert (l_gs (spawn s0) !! 0%nat = Some gor_start) as Hg by done.
  set (s2 := put 0 (g_at GDial gor_start) (add_sem 1 (spawn s0))).
  assert (lreachable cfg s2) as H2
    by (eapply lr_step; [exact H1|eapply st_gor; [exact Hg|apply gs_acquire; [done|simpl; lia]]]).
  exists s2. split; [done|]. eapply (st_gor cfg Own 0 (g_at GDial gor_start)); [done|].
  pose proof (gs_dial cfg 0 (g_at GDial gor_start) s2 true eq_refl) as Hd. unfold board_of in Hd. by rewrite Hb in Hd.
Qed.
End accounts.

(** ** An executable schedule

    [AMain] and [AGor] let the main goroutine and a client's take their next
    step ([ok] is what a dial returns), [ARead] is a message of a client's
    reader, [AReadEnd] its end. *)
Inductive laction := AMain | AGor (i : nat) (ok : bool) | ARead (i : nat) (own : option Z) | AReadEnd (i : nat).

Section schedule.
Context (cfg : config).

Definition main_next (s : Load) : option Load :=
  match l_main s with
  | MSpawn => Some (if l_spawned s <? c_clients cfg then spawn s else set_main (MReady 0) s)
  | MReady n =>
      if n <? c_clients cfg
      then if 0 <? l_ready s then Some (set_main (MReady (n + 1)) (add_ready (-1) s)) else None
      else Some (set_main (MResetSent (l_connected s)) s)
  | MResetSent seen => Some (set_main (MResetReceived seen) (set_traffic 0 (l_received s) s))
  | MResetReceived seen => Some (set_main (MSleep seen) (set_traffic (l_sent s) 0 s))
  | MSleep seen => Some (set_main (MLoad seen (l_sent s)) s)
  | MLoad seen sent => Some (set_main (MCancel seen sent (l_received s)) s)
  | MCancel seen sent received => Some (set_main (MWait seen sent received) (do_cancel s))
  | MWait seen sent received => if l_wg s =? 0 then Some (set_main (MReport seen sent received) s) else None
  | MReport _ _ _ => None
  end.

Definition gor_next (i : nat) (ok : bool) (s : Load) : option Load :=
  g ← l_gs s !! i;
  match g_pc g with
  | GAcquire => if l_sem s <? c_dialConc cfg then Some (put i (g_at GDial g) (add_sem 1 s)) else None
  | GDial => _ ← board_of cfg (Z.of_nat i); Some (put i (g_dialled ok g) s)
  | GFree => if 0 <? l_sem s then Some (put i (g_at GCount g) (add_sem (-1) s)) else None
  | GCount => ok ← g_ok g; Some (put i (g_at GReady g) (count_dial ok s))
  | GReady =>
      ok ← g_ok g;
      if l_ready s <? c_clients cfg
      then Some (put i (if ok : bool then g_reading true (g_at (if c_rate cfg then GSend else GJoin) g) else g_at GDone g)
             (add_ready 1 s))
      else None
  | GSend => if l_cancelled s then Some (put i (g_at GJoin g) s) else None
  | GJoin => if g_reader g then None else Some (put i (g_at GRecord g) s)
  | GRecord => Some (put i (g_at GClose g) (addLatencies (g_lat g) s))
  | GClose => Some (put i (g_at GDone g) s)
  | GDone => put i (g_at GEnd g) <$> wg_done s
  | GEnd => None
  end.

Definition lact (a : laction) (s : Load) : option Load :=
  match a with
  | AMain => main_next s
  | AGor i ok => gor_next i ok s
  | ARead i own =>
      g ← l_gs s !! i;
      if g_reader g then Some (put i (match own with Some d => g_sample d g | None => g end) (set_traffic (l_sent s) (l_received s + 1) s))
      else None
  | AReadEnd i => g ← l_gs s !! i; if g_reader g then Some (put i (g_reading false g) s) else None
  end.

Fixpoint lrun (l : list laction) (s : Load) : option Load :=
  match l with [] => Some s | a :: l' => s' ← lact a s; lrun l' s' end.

Lemma main_next_sound s s' : main_next s = Some s' -> main_step cfg s (Some s').
Proof.
  unfold main_next. destruct (l_main s) eqn:Em.
  - destruct (Z.ltb_spec (l_spawned s) (c_clients cfg)); intros [= <-]; by constructor.
  - destruct (Z.ltb_spec n (c_clients cfg)); [|intros [= <-]; by eapply ms_all_ready].
    destruct (Z.ltb_spec 0 (l_ready s)); intros [= <-]. by apply ms_ready.
  - intros [= <-]. by apply ms_reset_sent.
  - intros [= <-]. by apply ms_reset_received.
  - intros [= <-]. by apply ms_wake.
  - intros [= <-]. by apply ms_load.
  - intros [= <-]. by apply ms_cancel.
  - destruct (Z.eqb_spec (l_wg s) 0); intros [= <-]. by apply ms_wait.
  - done.
Qed.

Lemma gor_next_sound i ok s s' : gor_next i ok s = Some s' -> exists g, l_gs s !! i = Some g /\ gor_step cfg i g Own s (Some s').
Proof.
  unfold gor_next. intros (g & Hg & Hs)%bind_Some. exists g. split; [done|]. destruct (g_pc g) eqn:Ep.
  - destruct (Z.ltb_spec (l_sem s) (c_dialConc cfg)); simplify_eq. by constructor.
  - pose proof (gs_dial cfg i g s ok Ep) as Hd. destruct (board_of cfg (Z.of_nat i)); [|done]. simplify_eq/=. done.
  - destruct (Z.ltb_spec 0 (l_sem s)); simplify_eq. by constructor.
  - apply bind_Some in Hs as (ok' & Eo & Hs). simplify_eq. by constructor.
  - apply bind_Some in Hs as (ok' & Eo & Hs). destruct (Z.ltb_spec (l_ready s) (c_clients cfg)); simplify_eq.
    destruct ok'; by constructor.
  - destruct (l_cancelled s) eqn:Ec; simplify_eq. by constructor.
  - destruct (g_reader g) eqn:Er; simplify_eq. by constructor.
  - simplify_eq. by constructor.
  - simplify_eq. by constructor.
  - rewrite <-Hs. by constructor.
  - done.
Qed.

Lemma lact_sound a s s' : lact a s = Some s' -> exists k, step cfg k s (Some s').
Proof.
  destruct a as [|i ok|i own|i]; simpl.
  - intros Hs%main_next_sound. exists Own. by apply st_main.
  - intros (g & Hg & Hs)%gor_next_sound. exists Own. by eapply st_gor.
  - intros (g & Hg & Hs)%bind_Some. destruct (g_reader g) eqn:Er; simplify_eq. exists Traffic. eapply st_reader; [done|]. by constructor.
  - intros (g & Hg & Hs)%bind_Some. destruct (g_reader g) eqn:Er; simplify_eq. exists Fault. eapply st_reader; [done|]. by constructor.
Qed.

Lemma lrun_reachable l s s' : lreachable cfg s -> lrun l s = Some s' -> lreachable cfg s'.
Proof.
  revert s. induction l as [|a l IH]; intros s Hr; simpl; [by intros [= <-]|].
  intros (s1 & Ha & Hl)%bind_Some. destruct (lact_sound a s s1 Ha) as [k Hst]. eapply IH; [|done]. by eapply lr_step.
Qed.
End schedule.
