(* ===== verification/Examples.v ===== *)
(** Concrete instances of the parameters, on which the witnesses evaluate: a
    float64 restricted to unsigned integers, a Redis server kept in a map, a
    JSONB column that keeps its text, a socket, and exact Prometheus counters. *)

From S2P Require Import Prelude Strconv Utf8 Json JsonFacts JsonLocal Protocol Broker MemoryBroker RedisBroker Store Postgres Persistence Metrics Board Conn Client Hub System Lifecycle Schedule.
Local Open Scope Z_scope.

(** ** Floats that happen to be unsigned integers *)

Record int_float := { fz : Z; fz_ok : bool_decide (0 <= fz < two64) = true }.

Lemma int_float_eq (x y : int_float) : fz x = fz y -> x = y.
Proof. destruct x, y. simpl. intros ->. f_equal. apply (proof_irrel _ _). Qed.

Definition mk_float (z : Z) : option int_float :=
  match bool_decide (0 <= z < two64) as b return bool_decide (0 <= z < two64) = b -> option int_float with
  | true => fun E => Some {| fz := z; fz_ok := E |}
  | false => fun _ => None
  end eq_refl.

#[export] Instance IntFloat : Float64 := {|
  float64 := int_float;
  float_zero := {| fz := 0; fz_ok := eq_refl |};
  ParseFloat lit := match ParseUint lit with (z, None) => mk_float z | _ => None end;
  FormatFloat f := FormatUint (fz f);
|}.

Lemma fz_range f : is_u64 (fz f).
Proof. destruct f as [z H]. simpl. by apply bool_decide_eq_true in H. Qed.

#[export] Instance IntFloat_laws : Float64Laws.
Proof.
  split; intros f; simpl.
  - apply num_ok_uint, fz_range.
  - rewrite ParseUint_FormatUint by apply fz_range. unfold mk_float.
    generalize (eq_refl (bool_decide (0 <= fz f < two64))).
    destruct (bool_decide (0 <= fz f < two64)) eqn:E at 2 3.
    + intros E'. f_equal. by apply int_float_eq.
    + destruct f as [z H]. simpl in *. congruence.
Qed.

(** ** A Redis server in a map *)

Inductive redis_value := RStr (s : string) | RHash (h : gmap string string).

Abbreviation redis := (gmap string redis_value).

Definition sim_get (k : string) (r : redis) : option string :=
  match r !! k with Some (RStr s) => Some s | _ => None end.
Definition sim_hgetall (k : string) (r : redis) : gmap string string :=
  match r !! k with Some (RHash h) => h | _ => ∅ end.

(** A hash without fields is no key. *)
Definition sim_put_hash (k : string) (h : gmap string string) (r : redis) : redis :=
  if bool_decide (h = ∅) then delete k r else <[k := RHash h]> r.

#[export] Instance SimRedis : RedisServer redis := {|
  GET := sim_get;
  SET k v r := <[k := RStr v]> r;
  EXISTS k r :=
    match r !! k with Some (RStr _) => true | Some (RHash h) => bool_decide (h <> ∅) | None => false end;
  INCR k r :=
    match r !! k with
    | None => (<[k := RStr "1"]> r, Some 1)
    | Some (RStr s) =>
        match ParseUint s with
        | (z, None) => if z <? two63 - 1 then (<[k := RStr (FormatUint (z + 1))]> r, Some (z + 1)) else (r, None)
        | _ => (r, None)
        end
    | Some (RHash h) => if bool_decide (h = ∅) then (<[k := RStr "1"]> r, Some 1) else (r, None)
    end;
  HSET k f v r := sim_put_hash k (<[f := v]> (sim_hgetall k r)) r;
  HDEL k f r := sim_put_hash k (delete f (sim_hgetall k r)) r;
  HGETALL := sim_hgetall;
  PUBLISH _ _ r := r;
  lua_tostring z := if z <? lua_exact then FormatUint z else "1e+14";
|}.

Lemma sim_put_get k h r k' : sim_get k r = None -> sim_get k' (sim_put_hash k h r) = sim_get k' r.
Proof.
  unfold sim_get, sim_put_hash. intros H. destruct (decide (k = k')) as [<-|Hne].
  - rewrite H. case_bool_decide; [by rewrite lookup_delete_eq|by rewrite lookup_insert_eq].
  - case_bool_decide; [by rewrite lookup_delete_ne|by rewrite lookup_insert_ne].
Qed.

Lemma sim_put_hgetall k h r k' : sim_hgetall k' (sim_put_hash k h r) =
  if decide (k = k') then h else sim_hgetall k' r.
Proof.
  unfold sim_hgetall, sim_put_hash. case_decide as E; [subst k'|].
  - case_bool_decide; [by rewrite lookup_delete_eq|by rewrite lookup_insert_eq].
  - case_bool_decide; [by rewrite lookup_delete_ne|by rewrite lookup_insert_ne].
Qed.

#[export] Instance SimRedis_laws : RedisLaws redis.
Proof.
  split; simpl.
  - intros k v k' r. unfold sim_get. rewrite lookup_insert. by case_decide.
  - intros k v k' r Hne. unfold sim_hgetall. by rewrite lookup_insert_ne.
  - intros k v r. unfold sim_hgetall. by rewrite lookup_insert_eq.
  - intros k r. unfold sim_get, sim_hgetall. destruct (r !! k) as [[s|h]|]; simpl; try done.
  - intros k z r Hz Hh Hg. unfold sim_get, sim_hgetall in *. destruct (r !! k) as [[s|h]|].
    + destruct Hg as [[= ->]|[? _]]; [|done]. rewrite ParseUint_FormatUint by (unfold is_u64, two63, two64 in *; lia).
      by replace (z <? two63 - 1) with true by lia.
    + destruct Hg as [?|[_ ->]]; [done|]. by rewrite bool_decide_true.
    + by destruct Hg as [?|[_ ->]].
  - intros k f v k' r H. by apply sim_put_get.
  - intros k f v k' r H. rewrite sim_put_hgetall. by case_decide; subst.
  - intros k f k' r H. by apply sim_put_get.
  - intros k f k' r H. rewrite sim_put_hgetall. by case_decide; subst.
  - done.
  - done.
  - intros z Hz. by replace (z <? lua_exact) with true by lia.
Qed.

Lemma sim_redis_inv : red_inv (∅ : redis).
Proof.
  intros bid. split; simpl; try done.
  - by right.
Qed.

(** ** A JSONB column that keeps its text

    It refuses the documents in which some object has two equal keys. *)

Fixpoint nodup_keys (j : json) : bool :=
  match j with
  | JArr l => forallb (fun e => nodup_keys e.2) l
  | JObj ms => bool_decide (NoDup (map (fun m => string_value m.1) ms)) && forallb (fun m => nodup_keys m.2.2) ms
  | _ => true
  end.

Lemma jsim_refl b j : wf b j -> nodup_keys j = true -> jsim j j.
Proof.
  induction 1 as [b|b x|b lit H|b raw H|b l Hb Hwf IH|b l Hb Hk Hwf IH]; intros Hn; try by constructor.
  - simpl in Hn. rewrite forallb_forall in Hn. constructor. apply Forall_Forall2_diag, Forall_forall.
    intros e He. apply IH; [done|]. apply Hn. by apply list_elem_of_In.
  - simpl in Hn. apply andb_true_iff in Hn as [Hd Hn]. apply bool_decide_eq_true in Hd.
    rewrite forallb_forall in Hn. constructor; [done| |by eauto].
    intros k j Hj. exists j. split; [done|]. apply last_member_elem in Hj as (m & Hm & _ & <-).
    apply IH; [done|]. apply Hn. by apply list_elem_of_In.
Qed.

#[export] Instance IdJsonb : Jsonb := {|
  jsonb t := match parse t with Some j => if nodup_keys j then Some t else None | None => None end;
|}.

#[export] Instance IdJsonb_laws : JsonbLaws.
Proof.
  split. simpl. intros t t' j Hp Hj. rewrite Hp in Hj. destruct (nodup_keys j) eqn:Hn; [|done].
  injection Hj as <-. exists j. split; [done|]. eapply jsim_refl; [by eapply parse_wf|done].
Qed.

(** ** A concrete socket

    A peer that answers at once, or one that has gone silent: then a call only
    returns when its context expires. *)

Record Wire := { wi_frames : list (MessageType * string); wi_limit : Z; wi_alive : bool; wi_in : list string }.

Definition until (ctx : Ctx) (now : Z) : Z := match cx_deadline ctx with Some d => Z.max now d | None => now end.

#[export] Instance wire_websocket : Websocket Wire := {|
  ws_Read ctx now w :=
    match wi_in w with
    | m :: q => if Z.of_nat (String.length m) <=? wi_limit w
        then ({| wi_frames := wi_frames w; wi_limit := wi_limit w; wi_alive := wi_alive w; wi_in := q |}, now, Ok (MessageText, m))
        else (w, now, Err ErrRange)
    | [] => (w, until ctx now, Err ErrContext)
    end;
  ws_Write ctx now ty data w :=
    if wi_alive w
    then ({| wi_frames := wi_frames w ++ [(ty, data)]; wi_limit := wi_limit w; wi_alive := true; wi_in := wi_in w |}, now, Ok tt)
    else (w, until ctx now, Err ErrContext);
  ws_Ping ctx now w := if wi_alive w then (w, now, Ok tt) else (w, until ctx now, Err ErrContext);
  ws_CloseNow w := (w, Ok tt);
  ws_SetReadLimit n w := {| wi_frames := wi_frames w; wi_limit := n; wi_alive := wi_alive w; wi_in := wi_in w |};
|}.

Lemma until_in_time ctx now : in_time ctx now (until ctx now).
Proof. unfold in_time, until. destruct (cx_deadline ctx); split; [lia|intros ? [= <-]; lia|lia|done]. Qed.

Lemma now_in_time ctx now : in_time ctx now now.
Proof. split; [lia|]. intros d _. lia. Qed.

#[export] Program Instance wire_laws : WebsocketLaws Wire := {| ws_frames := wi_frames; ws_limit := wi_limit |}.
Next Obligation. intros ctx now ty data w. simpl. destruct (wi_alive w); [apply now_in_time|apply until_in_time]. Qed.
Next Obligation. intros ctx now w. simpl. destruct (wi_alive w); [apply now_in_time|apply until_in_time]. Qed.
Next Obligation. intros ctx now ty data w. simpl. destruct (wi_alive w); simpl; auto. Qed.
Next Obligation. intros ctx now w. simpl. by destruct (wi_alive w). Qed.
Next Obligation. intros ctx now w. simpl. destruct (wi_in w); [done|]. by case_match. Qed.
Next Obligation. intros ctx now ty data w. simpl. by destruct (wi_alive w). Qed.
Next Obligation. intros ctx now w. simpl. by destruct (wi_alive w). Qed.
Next Obligation. intros ctx now w. simpl. destruct (wi_in w); [done|]. by case_match. Qed.
Next Obligation. done. Qed.
Next Obligation.
  intros ctx now w w' t ty data. simpl. destruct (wi_in w); [done|]. case_match eqn:E; [|done]. intros [= _ _ _ <-]. lia.
Qed.

Definition socket (alive : bool) : conn Wire := {| ws := {| wi_frames := []; wi_limit := 1048576; wi_alive := alive; wi_in := ["{}"] |} |}.

(** ** Prometheus counters that are integers *)

(** A metric is its name and its value; a registry panics on duplicates. *)
#[export] Instance IntProm : PromClient := {|
  Gauge := string * Z; Counter := string * Z; Registry := list string;
  NewGauge o := (o_Namespace o +:+ "_" +:+ o_Name o, 0); NewCounter o := (o_Namespace o +:+ "_" +:+ o_Name o, 0);
  Gauge_Inc g := (g.1, g.2 + 1); Gauge_Dec g := (g.1, g.2 - 1);
  Counter_Inc c := (c.1, c.2 + 1); Counter_Add n c := (c.1, c.2 + n);
  gauge_name g := g.1; counter_name c := c.1; gauge_value g := g.2; counter_value c := c.2;
  NewRegistry := [];
  MustRegister cs r := if bool_decide (NoDup (r ++ mjoin cs)) then Some (r ++ mjoin cs) else None;
  registered r := r;
  NewGoCollector := ["go_goroutines"; "go_threads"]; NewProcessCollector := ["process_open_fds"];
|}.

#[export] Instance IntProm_laws : PromLaws.
Proof.
  split; try done.
  - intros cs r Hn. exists (r ++ mjoin cs). split; [|done]. simpl. by rewrite bool_decide_true.
  - split; [by apply (bool_decide_unpack _)|]. intros n. simpl. rewrite !elem_of_cons, elem_of_nil.
    by intros [->|[->|[->|[]]]].
Qed.

(** ** Runs of the hub *)

Definition mem_hub (st : option MemoryStore.Memory) : Hub Memory MemoryStore.Memory := New NewMemory st.

(** A join overtaken by Shutdown: the session has been admitted, but its board
    is closed before it registers. *)
Definition overtaken : list action :=
  [AServe "b" "" "" []; AStart 0; AShutdown; AShutQuit; AQuit 0; APersist 0].

Definition shape_message : string :=
  "{" +:+ quoted "type" +:+ ":" +:+ quoted "shape.create" +:+ "," +:+ quoted "payload" +:+ ":{" +:+
  quoted "id" +:+ ":" +:+ quoted "s" +:+ "," +:+ quoted "shape" +:+ ":{}}}".

(** A session that draws a shape, disconnects, and is the last to leave; then
    Shutdown, while the board's goroutine has yet to see its quit signal. *)
Definition missed : list action :=
  [AServe "b" "" "" []; AStart 0; ARegister 1;
   ARequest 1; ARequest 1; ARequest 1; ADirect 1; ARequest 1; ADirect 1; AOnboarded 1;
   ARead 1 shape_message; ARequest 1; ARequest 1; ARequest 1; AHandled 1;
   AReadError 1; AStop 1; APumpEnd 1; AWait 1; ARequest 1; ARequest 1; ALeft 1;
   ARelease 1; ACloseQuit 1; AEnd 1;
   AShutdown; AShutWait; AShutBoards; AShutSessions].

Example overtaken_runs : is_Some (run overtaken (mem_hub None)).
Proof. vm_compute. by eexists. Qed.

Example missed_runs : is_Some (run missed (mem_hub (Some MemoryStore.NewMemory))).
Proof. vm_compute. by eexists. Qed.
