(* ===== verification/BrokerTheorems.v ===== *)
(** What the two brokers guarantee: last-write-wins, agreement with each other,
    snapshots and hydration, fan-out, and where Redis falls short. *)

From S2P Require Import Prelude Strconv Utf8 Json JsonFacts JsonLocal Protocol Broker MemoryBroker RedisBroker Examples.
Local Open Scope Z_scope.

(** ** A log of operations, on any broker *)

Section log.
Context {B : Type} `{Broker B}.

(** The answers to a log of operations, one after the other. *)
Fixpoint apply_all (f : fault) (bid : string) (ops : list op) (b : B) : B * list (result Z) :=
  match ops with
  | [] => (b, [])
  | o :: ops' =>
      let '(b, r) := br_ApplyShape f bid (o_id o) (Some (o_blob o)) (o_del o) b in
      let '(b, rs) := apply_all f bid ops' b in (b, r :: rs)
  end.

(** The sequence numbers [n+1], [n+2], ... *)
Definition numbered (n : Z) (ops : list op) : list (result Z) :=
  imap (fun i _ => Ok (n + Z.of_nat i + 1)) ops.

Lemma numbered_cons n o ops : numbered n (o :: ops) = Ok (n + 1) :: numbered (n + 1) ops.
Proof using Type.
  unfold numbered. simpl. f_equal; [f_equal; lia|]. apply imap_ext. intros i x _. simpl. f_equal. lia.
Qed.
End log.

(** What last-write-wins says of a log and the snapshot after it. *)
Definition lww_snapshot (ops : list op) (snap : Protocol.Snapshot) : Prop :=
  sn_Seq snap = Z.of_nat (length ops) /\ sorted_by Z.le ss_Seq (sn_Shapes snap) /\
  NoDup (map ss_ID (sn_Shapes snap)) /\
  forall id e, (id, e) ∈ map shape_entry (sn_Shapes snap) <->
    exists i o, last_on ops id i o /\ o_del o = false /\ e = Entry (Z.of_nat i + 1) (o_blob o).

Section generic.
Context {B : Type} {BR : Broker B} {BL : BrokerLaws B}.

Lemma apply_all_spec bid ops (b : B) : br_inv b ->
  v_seq (br_view b bid) + Z.of_nat (length ops) <= br_limit ->
  let '(b', rs) := apply_all Delivered bid ops b in
  br_inv b' /\ rs = numbered (v_seq (br_view b bid)) ops /\
  br_view b' bid = fold_left spec_op ops (br_view b bid) /\
  forall o, o <> bid -> br_view b' o = br_view b o.
Proof using Type.
  revert b. induction ops as [|o ops IH]; intros b Hb Hlim; [done|]. cbn [apply_all].
  simpl length in Hlim.
  pose proof (ApplyShape_law Delivered bid (o_id o) (Some (o_blob o)) (o_del o) b Hb ltac:(lia)) as H.
  destruct (br_ApplyShape _ _ _ _ _ b) as [b1 r]. destruct H as (Hb1 & Ho & Hf).
  apply outcome_delivered in Ho as [-> Hv]. simpl in Hv.
  assert (v_seq (br_view b1 bid) = v_seq (br_view b bid) + 1) as Hs by (by rewrite Hv).
  specialize (IH b1 Hb1 ltac:(lia)). destruct (apply_all Delivered bid ops b1) as [b2 rs].
  destruct IH as (Hb2 & -> & Hv2 & Hf2). rewrite numbered_cons, Hs. split_and!; [done|done| |].
  - rewrite Hv2. simpl. rewrite Hv. done.
  - intros o' Ho'. rewrite Hf2 by done. exact (proj1 (Hf o' Ho')).
Qed.

Lemma apply_all_snapshot bid ops (b : B) : br_inv b -> br_view b bid = view_empty ->
  Z.of_nat (length ops) <= br_limit ->
  let '(b', rs) := apply_all Delivered bid ops b in
  rs = numbered 0 ops /\ exists snap, (br_Snapshot Delivered bid b').2 = Ok snap /\ lww_snapshot ops snap.
Proof using Type.
  intros Hb He Hlim. pose proof (apply_all_spec bid ops b Hb) as H. rewrite He in H. simpl in H.
  specialize (H ltac:(lia)). destruct (apply_all Delivered bid ops b) as [b' rs].
  destruct H as (Hb' & -> & Hv & _). split; [done|].
  pose proof (Snapshot_law Delivered bid b' Hb') as Hs. destruct (br_Snapshot Delivered bid b') as [b2 [snap|e]];
    destruct Hs as (_ & _ & Hs); [|by destruct Hs].
  exists snap. split; [done|]. simpl in Hs. pose proof (is_snapshot_ids _ _ Hs) as Hids.
  change (fold_left spec_op ops view_empty) with (replay ops) in Hv. rewrite Hv in Hs.
  destruct Hs as (Es & Hsort & Hp). split_and!; [by rewrite Es, replay_seq|done|done|].
  intros id e. rewrite Hp, elem_of_map_to_list. apply replay_lww.
Qed.
End generic.

(** ** Last-write-wins *)

(** C4: after any log of operations on a board of a new in-process broker, the
    operations were numbered 1, 2, ... without a gap, and the board's snapshot
    holds, sorted by sequence, exactly the shapes whose last operation in the
    log was not a delete, each with the blob and the number of that operation. *)
Theorem memory_last_write_wins bid ops : Z.of_nat (length ops) <= mem_limit ->
  let '(m, rs) := apply_all Delivered bid ops NewMemory in
  rs = numbered 0 ops /\ exists snap, (MemoryBroker.Snapshot bid m).2 = Ok snap /\ lww_snapshot ops snap.
Proof. intros H. exact (apply_all_snapshot bid ops NewMemory mem_inv_new eq_refl H). Qed.

Definition sample_ops : list op :=
  [Op "a" "1" false; Op "b" "2" false; Op "a" "" true; Op "b" "3" false; Op "c" "4" false].

Lemma memory_last_write_wins_witness :
  Z.of_nat (length sample_ops) <= mem_limit /\
  let '(m, rs) := apply_all Delivered "board" sample_ops NewMemory in
  rs = numbered 0 sample_ops /\
  exists snap, (MemoryBroker.Snapshot "board" m).2 = Ok snap /\ lww_snapshot sample_ops snap.
Proof.
  assert (Z.of_nat (length sample_ops) <= mem_limit) as H by (vm_compute; discriminate).
  exact (conj H (memory_last_write_wins "board" sample_ops H)).
Defined.



(** ** Redis under faults *)


(** A server on which shape [s] of the board was drawn. *)
Definition drawn : redis := (RedisBroker.ApplyShape Delivered "board" "s" (Some "{}") false (∅ : redis)).1.

Lemma drawn_inv : red_inv drawn.
Proof.
  pose proof (ApplyShape_law Delivered "board" "s" (Some "{}") false (∅ : redis) sim_redis_inv ltac:(done)) as H.
  unfold drawn. simpl br_ApplyShape in H. destruct (RedisBroker.ApplyShape _ _ _ _ _ _) as [r a]. apply H.
Qed.


(** ** Hydration *)

(** Of any number of instances that hydrate the same cold board at Redis,
    the first loads its snapshot and the others load nothing: the board is
    exactly the first snapshot, and reading it back gives that snapshot. *)
Theorem redis_hydrate_once {R} {RS : RedisServer R} {RL : @RedisLaws R RS} (r : R) bid s1 s2 :
  red_inv r -> red_fresh r bid = true -> snap_ok s1 -> sn_Seq s1 <= red_limit ->
  sorted_by Z.le ss_Seq (sn_Shapes s1) -> snap_ok s2 -> sn_Seq s2 <= red_limit ->
  let '(r1, a1) := RedisBroker.Hydrate Delivered bid s1 r in
  let '(r2, a2) := RedisBroker.Hydrate Delivered bid s2 r1 in
  a1 = Ok true /\ a2 = Ok false /\ red_view r2 bid = red_view r1 bid /\
  exists s, (RedisBroker.Snapshot Delivered bid r2).2 = Ok s /\ sn_Seq s = sn_Seq s1 /\
    map shape_entry (sn_Shapes s) = map shape_entry (sn_Shapes s1).
Proof.
  intros Hr Hf H1 L1 Hsort H2 L2. destruct (@br_fresh_view R Redis_broker Redis_laws r bid Hr Hf) as [E1 E2].
  assert (red_view r bid = View 0 ∅ (v_presence (red_view r bid))) as Ev.
  { change (v_seq (red_view r bid) = 0) in E1. change (v_shapes (red_view r bid) = ∅) in E2.
    destruct (red_view r bid) as [q m p]. simpl in E1, E2. by subst. }
  pose proof (Hydrate_law Delivered bid s1 r Hr H1 L1) as Ha. simpl in Ha.
  destruct (RedisBroker.Hydrate Delivered bid s1 r) as [r1 a1] eqn:Eh. destruct Ha as (Hr1 & Ho1 & _).
  rewrite Hf in Ho1. apply outcome_delivered in Ho1 as [-> Hv1].
  assert (red_fresh r1 bid = false) as Hf1.
  { unfold RedisBroker.Hydrate, round_trip, hydrateScript in Eh.
    unfold red_fresh in *. apply negb_true_iff in Hf. rewrite Hf in Eh. injection Eh as <-.
    destruct (board_holds r bid (Hr bid)) as (seq & shapes & pres & Hh & Hz & He & Hst & Hv & Hok).
    destruct (hydrate_pairs_spec bid (sn_Shapes s1) (SET (seqKey bid) (FormatUint (sn_Seq s1)) r)
      (Some (sn_Seq s1)) shapes pres) as (shapes' & G1 & _).
    - by eapply holds_SET.
    - done.
    - intros s Hs. apply limit_u64. pose proof (so_range _ H1 s Hs). lia.
    - apply negb_false_iff. unfold hydrate_argv. fold stored in G1.
      pose proof (holds_fresh _ bid _ _ _ G1) as Hfr. unfold red_fresh in Hfr. simpl in Hfr.
      by apply negb_false_iff in Hfr. }
  pose proof (Hydrate_law Delivered bid s2 r1 Hr1 H2 L2) as Hb. simpl in Hb.
  destruct (RedisBroker.Hydrate Delivered bid s2 r1) as [r2 a2]. destruct Hb as (Hr2 & Ho2 & _).
  rewrite Hf1 in Ho2. apply outcome_delivered in Ho2 as [-> Hv2]. split_and!; [done|done|done|].
  pose proof (Snapshot_law Delivered bid r2 Hr2) as Hs. simpl br_Snapshot in Hs. simpl br_view in Hs.
  destruct (RedisBroker.Snapshot Delivered bid r2) as [r3 [s|e]]; destruct Hs as (_ & _ & Hs); [|by destruct Hs].
  simpl in Hs. exists s. split; [done|]. rewrite Hv2, Hv1, Ev in Hs.
  apply (is_snapshot_unique (spec_load s1 (View 0 ∅ (v_presence (red_view r bid))))); [by apply load_ok|done|by apply snapshot_load].
Qed.

Definition saved : Protocol.Snapshot :=
  {| sn_Seq := 7; sn_Shapes := [{| ss_Seq := 2; ss_ID := "a"; ss_Shape := Some "{}" |};
                                {| ss_Seq := 5; ss_ID := "b"; ss_Shape := Some "[1]" |}] |}.

Lemma saved_ok : snap_ok saved.
Proof.
  split; simpl; [by apply (bool_decide_unpack _); vm_compute..| |done].
  intros s. rewrite !elem_of_cons, elem_of_nil. intros [->|[->|[]]]; simpl; lia.
Qed.

Lemma saved_sorted : sorted_by Z.le ss_Seq (sn_Shapes saved).
Proof. repeat constructor; unfold by_key; simpl; lia. Qed.

Lemma redis_hydrate_once_witness :
  red_inv (∅ : redis) /\ red_fresh (∅ : redis) "board" = true /\ snap_ok saved /\ sn_Seq saved <= red_limit /\
  let '(r1, a1) := RedisBroker.Hydrate Delivered "board" saved (∅ : redis) in
  let '(r2, a2) := RedisBroker.Hydrate Delivered "board" saved r1 in
  a1 = Ok true /\ a2 = Ok false /\ red_view r2 "board" = red_view r1 "board" /\
  exists s, (RedisBroker.Snapshot Delivered "board" r2).2 = Ok s /\ sn_Seq s = sn_Seq saved /\
    map shape_entry (sn_Shapes s) = map shape_entry (sn_Shapes saved).
Proof.
  assert (red_fresh (∅ : redis) "board" = true) as Hf by reflexivity.
  assert (sn_Seq saved <= red_limit) as H by (vm_compute; discriminate).
  exact (conj sim_redis_inv (conj Hf (conj saved_ok (conj H
    (redis_hydrate_once (∅ : redis) "board" saved saved sim_redis_inv Hf saved_ok H saved_sorted saved_ok H))))).
Defined.

(** ** Stored values *)

(** The value a shape is stored under, its number, a newline and its blob,
    gives both back, whatever bytes the blob holds, newlines included. *)
Theorem redis_stored_roundtrip id seq blob : is_u64 seq ->
  RedisBroker.snapshot_shape (id, stored seq blob) =
    Some {| ss_Seq := seq; ss_ID := id; ss_Shape := Some blob |}.
Proof.
  intros H. unfold RedisBroker.snapshot_shape. simpl. rewrite cut_stored by done. simpl.
  by rewrite ParseUint_FormatUint.
Qed.

Lemma redis_stored_roundtrip_witness : is_u64 18446744073709551615 /\
  RedisBroker.snapshot_shape ("s", stored 18446744073709551615 (String nl (String nl "x"))) =
    Some {| ss_Seq := 18446744073709551615; ss_ID := "s"; ss_Shape := Some (String nl (String nl "x")) |}.
Proof.
  assert (is_u64 18446744073709551615) as H by (split; vm_compute; [discriminate|reflexivity]).
  exact (conj H (redis_stored_roundtrip "s" _ (String nl (String nl "x")) H)).
Defined.

(** ** Fan-out in process *)

(** A published message reaches every subscriber of the board that has
    room in its buffer, once and at the end of its queue; a subscriber whose
    buffer is full misses it; nobody else's queue changes, and neither does any
    board. *)
Theorem memory_publish bid msg m : mem_inv m ->
  let '(m', r) := MemoryBroker.Publish bid msg m in
  r = Ok tt /\ mem_inv m' /\ (forall o, mem_view m' o = mem_view m o) /\
  forall s q, m_chans m !! s = Some q ->
    m_chans m' !! s = Some (
      if bool_decide (s ∈ default ∅ (mb_subs <$> m_boards m !! bid)) && (length q <? sub_buffer)%nat
      then q ++ [msg] else q).
Proof.
  intros Hm. pose proof (Publish_mem bid msg m Hm) as Hp. unfold MemoryBroker.Publish, publish_targets in *.
  destruct (MemoryBroker.board bid m) as [m1 b] eqn:Hb.
  destruct (MemoryBroker.board_spec _ _ _ _ Hm Hb) as (Hm1 & _ & _ & Hc & _ & _ & _ & Hsubs).
  destruct (publish_all_spec msg (elements (mb_subs b)) m1 Hm1) as (H1 & _ & H3); [apply NoDup_elements|].
  destruct Hp as (? & ? & ?). split_and!; [done|done|done|]. intros s q Hs. rewrite H3, Hc, Hs. simpl. f_equal.
  assert (default ∅ (mb_subs <$> m_boards m !! bid) = mb_subs b) as ->.
  { destruct Hsubs as [->|[-> ->]]; done. }
  case_decide as Hd.
  - destruct Hd as [Hin Hq]. rewrite bool_decide_true by (by apply elem_of_elements).
    by replace (length q <? sub_buffer)%nat with true by (symmetry; by apply Nat.ltb_lt).
  - case_bool_decide as Hin; [|done]. simpl. destruct (length q <? sub_buffer)%nat eqn:Hq; [|done].
    apply Nat.ltb_lt in Hq. destruct Hd. split; [by apply elem_of_elements|done].
Qed.

Definition two_subscribers : Memory := (MemoryBroker.Subscribe "board" (MemoryBroker.Subscribe "board" NewMemory).1).1.

Lemma two_subscribers_inv : mem_inv two_subscribers.
Proof. apply Subscribe_mem, Subscribe_mem, mem_inv_new. Qed.

Lemma memory_publish_witness : mem_inv two_subscribers /\
  let '(m', r) := MemoryBroker.Publish "board" "m" two_subscribers in
  r = Ok tt /\ mem_inv m' /\ (forall o, mem_view m' o = mem_view two_subscribers o) /\
  forall s q, m_chans two_subscribers !! s = Some q ->
    m_chans m' !! s = Some (
      if bool_decide (s ∈ default ∅ (mb_subs <$> m_boards two_subscribers !! "board")) && (length q <? sub_buffer)%nat
      then q ++ ["m"] else q).
Proof. exact (conj two_subscribers_inv (memory_publish "board" "m" two_subscribers two_subscribers_inv)). Defined.

(** ** What Redis does not guarantee *)

(** The Redis Snapshot reads the shapes and then the counter, in two round
    trips; an operation in between is counted but absent: the snapshot's
    sequence is ahead of its shapes, although no board ever looked like that. *)
Theorem redis_snapshot_not_atomic :
  exists (r1 r2 : redis) snap, red_inv r1 /\ red_inv r2 /\
    (exists id shape, r2 = (RedisBroker.ApplyShape Delivered "board" id shape false r1).1) /\
    Snapshot_at Delivered Delivered "board" r1 r2 = Ok snap /\
    ~ is_snapshot (red_view r1 "board") snap /\ ~ is_snapshot (red_view r2 "board") snap.
Proof.
  exists ∅, drawn, {| sn_Seq := 1; sn_Shapes := [] |}. split_and!.
  - apply sim_redis_inv.
  - apply drawn_inv.
  - by exists "s", (Some "{}").
  - by vm_compute.
  - intros (E & _). by vm_compute in E.
  - intros (_ & _ & Hp). apply Permutation_length in Hp. by vm_compute in Hp.
Qed.

(** A shape operation without a shape poisons a board at Redis: it is
    accepted and stored, and from then on the board's snapshot cannot be encoded,
    neither for a client that joins nor for the durable store, where the
    in-process broker gives one that can. *)
Theorem redis_empty_shape_poisons :
  let r := (RedisBroker.ApplyShape Delivered "board" "s" None false (∅ : redis)).1 in
  let m := (MemoryBroker.ApplyShape "board" "s" None false NewMemory).1 in
  (exists snap, (RedisBroker.Snapshot Delivered "board" r).2 = Ok snap /\
     (exists e, Marshal TypeSnapshot 0 snap = Err e) /\ (exists e, MarshalJSON (sn_Shapes snap) = Err e)) /\
  exists snap, (MemoryBroker.Snapshot "board" m).2 = Ok snap /\
     is_ok (Marshal TypeSnapshot 0 snap) = true /\ is_ok (MarshalJSON (sn_Shapes snap)) = true.
Proof.
  split.
  - eexists. split; [by vm_compute|]. split; eexists; by vm_compute.
  - eexists. split; [by vm_compute|]. split; by vm_compute.
Qed.
