(* ===== verification/ProtocolTheorems.v ===== *)
(** What the wire protocol guarantees: messages survive both decoding stages,
    whatever decodes can be relayed, and relaying is canonical. *)

From S2P Require Import Prelude Strconv Utf8 Json JsonFacts JsonLocal Protocol Broker Metrics Board Client Examples.
Local Open Scope Z_scope.

(** ** Helpers *)

(** The wire form of an operation is encoded like the operation. *)
Lemma ShapeOp_wire_marshal b (op : ShapeOp) : c_valid b op -> MarshalJSON (c_wire op) = MarshalJSON op.
Proof.
  destruct op as [id shape]. intros (_ & _ & Hs). simpl in *. unfold MarshalJSON, ShapeOp_marshaler. simpl.
  destruct (bytes_empty shape) eqn:He; [done|]. destruct shape as [s|]; [|done].
  destruct (Hs eq_refl) as (j & Hp & _). simpl.
  assert (compact s = Ok (print (html j))) as Ec by (unfold compact; by rewrite Hp). rewrite Ec.
  pose proof (compact_parse _ _ Ec) as (j' & Hp' & E' & Ht). rewrite Hp in Hp'. injection Hp' as <-.
  destruct (print (html j)) as [|c t] eqn:Et; [done|]. cbn. by rewrite (compact_idem _ _ Ec).
Qed.

Lemma u64_refl z : bool_decide (0 <= z < two64) = true -> is_u64 z.
Proof. apply bool_decide_eq_true. Qed.

(** ** Round trips *)

(** C20: a shape operation survives encoding and both decoding stages: the
    envelope comes back with its type and sequence number, and the payload with
    its identifier and with the client's own shape data, byte for byte up to the
    white space and the HTML escapes that [encoding/json] normalises. *)
Theorem shape_op_roundtrip t seq id s j :
  utf8 t -> is_u64 seq -> utf8 id -> parse s = Some j -> depth j <= maxNestingDepth - 2 ->
  exists msg e s', Marshal t seq {| ID := id; Shape := Some s |} = Ok msg /\
    Unmarshal dec_Envelope msg Envelope_zero = (e, None) /\ Type_ e = t /\ Seq e = seq /\
    compact s = Ok s' /\
    DecodePayload dec_ShapeOp e ShapeOp_zero = ({| ID := id; Shape := Some s' |}, None).
Proof.
  intros Ht Hseq Hid Hp Hw%(parse_wf_depth _ _ _ Hp).
  destruct (Marshal_two_stage t seq {| ID := id; Shape := Some s |}) as (msg & e & Em & He & Et & Es & Ed); [done|done| |].
  { split_and!; [done|done|]. intros _. exists j. by replace (maxNestingDepth - 1 - 1) with (maxNestingDepth - 2) by lia. }
  assert (compact s = Ok (print (html j))) as Ec by (unfold compact; by rewrite Hp).
  exists msg, e, (print (html j)). split_and!; [done..|]. simpl in Ed. rewrite Ec in Ed.
  destruct s; [done|exact Ed].
Qed.

Definition sample_shape : string := "{ " +:+ quoted "x" +:+ ": [1, 2.5e3 ], " +:+ quoted "t" +:+ " : " +:+ quoted "a<b" +:+ "}".

Lemma shape_op_roundtrip_witness : exists j,
  utf8 TypeShapeUpdate /\ is_u64 7 /\ utf8 "s1" /\ parse sample_shape = Some j /\ depth j <= maxNestingDepth - 2 /\
  exists msg e s', Marshal TypeShapeUpdate 7 {| ID := "s1"; Shape := Some sample_shape |} = Ok msg /\
    Unmarshal dec_Envelope msg Envelope_zero = (e, None) /\ Type_ e = TypeShapeUpdate /\ Seq e = 7 /\
    compact sample_shape = Ok s' /\
    DecodePayload dec_ShapeOp e ShapeOp_zero = ({| ID := "s1"; Shape := Some s' |}, None).
Proof.
  destruct (parse sample_shape) as [j|] eqn:Hp; [|by vm_compute in Hp]. exists j.
  assert (utf8 TypeShapeUpdate) as H1 by (by apply utf8_plain).
  assert (is_u64 7) as H2 by (by apply u64_refl).
  assert (utf8 "s1") as H3 by (by apply utf8_plain).
  assert (depth j <= maxNestingDepth - 2) as H4 by (vm_compute in Hp; injection Hp as <-; vm_compute; discriminate).
  exact (conj H1 (conj H2 (conj H3 (conj eq_refl (conj H4 (shape_op_roundtrip _ 7 _ _ j H1 H2 H3 Hp H4)))))).
Defined.

(** ** Relaying *)

(** No sequence number is spent on a message that cannot be published:
    whatever bytes a client sends, if they decode to a shape message with a
    decodable operation, then the operation is encoded again under any number it
    may be given, and what is published decodes to the same type, that number,
    the same identifier and the same shape. *)
Theorem decoded_op_can_be_relayed data env op seq :
  Unmarshal dec_Envelope data Envelope_zero = (env, None) -> Type_ env ∈ shape_types ->
  DecodePayload dec_ShapeOp env ShapeOp_zero = (op, None) -> is_u64 seq ->
  exists msg, Marshal (Type_ env) seq op = Ok msg /\ is_shape_msg msg (Type_ env) seq op.
Proof. apply applyShapeOp_marshals. Qed.

(** The message the runs below use, and what it decodes to. *)
Definition shape_envelope : Envelope := (Unmarshal dec_Envelope shape_message Envelope_zero).1.
Definition shape_op : ShapeOp := (DecodePayload dec_ShapeOp shape_envelope ShapeOp_zero).1.

Lemma decoded_op_can_be_relayed_witness :
  Unmarshal dec_Envelope shape_message Envelope_zero = (shape_envelope, None) /\
  Type_ shape_envelope ∈ shape_types /\
  DecodePayload dec_ShapeOp shape_envelope ShapeOp_zero = (shape_op, None) /\ is_u64 41 /\
  exists msg, Marshal (Type_ shape_envelope) 41 shape_op = Ok msg /\
    is_shape_msg msg (Type_ shape_envelope) 41 shape_op.
Proof.
  assert (Unmarshal dec_Envelope shape_message Envelope_zero = (shape_envelope, None)) as H1 by (by vm_compute).
  assert (Type_ shape_envelope ∈ shape_types) as H2 by (by apply (bool_decide_unpack _); vm_compute).
  assert (DecodePayload dec_ShapeOp shape_envelope ShapeOp_zero = (shape_op, None)) as H3 by (by vm_compute).
  assert (is_u64 41) as H4 by (by apply u64_refl).
  exact (conj H1 (conj H2 (conj H3 (conj H4
    (decoded_op_can_be_relayed shape_message shape_envelope shape_op 41 H1 H2 H3 H4))))).
Defined.

(** A relayed operation is in canonical form: whoever decodes it and encodes
    it again, in this or another instance, gets the same bytes. *)
Theorem relay_canonical t seq (op : ShapeOp) msg : utf8 t -> is_u64 seq -> c_valid (maxNestingDepth - 1) op ->
  Marshal t seq op = Ok msg ->
  exists e op', Unmarshal dec_Envelope msg Envelope_zero = (e, None) /\
    DecodePayload dec_ShapeOp e ShapeOp_zero = (op', None) /\ Marshal (Type_ e) (Seq e) op' = Ok msg.
Proof.
  intros Ht Hseq Hop Em. destruct (Marshal_two_stage t seq op Ht Hseq Hop) as (msg' & e & Em' & He & Et & Es & Ed).
  rewrite Em in Em'. injection Em' as <-. exists e, (c_wire op). split_and!; [done|done|].
  rewrite Et, Es. unfold Marshal. by rewrite (ShapeOp_wire_marshal _ _ Hop).
Qed.

Definition relayed : string :=
  match Marshal TypeShapeCreate 3 shape_op with Ok msg => msg | Err _ => "" end.

Lemma relay_canonical_witness :
  utf8 TypeShapeCreate /\ is_u64 3 /\ c_valid (maxNestingDepth - 1) shape_op /\
  Marshal TypeShapeCreate 3 shape_op = Ok relayed /\
  exists e op', Unmarshal dec_Envelope relayed Envelope_zero = (e, None) /\
    DecodePayload dec_ShapeOp e ShapeOp_zero = (op', None) /\ Marshal (Type_ e) (Seq e) op' = Ok relayed.
Proof.
  assert (utf8 TypeShapeCreate) as H1 by (by apply utf8_plain).
  assert (is_u64 3) as H2 by (by apply u64_refl).
  assert (c_valid (maxNestingDepth - 1) shape_op) as H3.
  { assert (Unmarshal dec_Envelope shape_message Envelope_zero = (shape_envelope, None)) as E by (by vm_compute).
    apply (DecodePayload_ShapeOp shape_envelope _ None); [by eapply dec_Envelope_ok|by vm_compute]. }
  assert (Marshal TypeShapeCreate 3 shape_op = Ok relayed) as H4 by (by vm_compute).
  exact (conj H1 (conj H2 (conj H3 (conj H4 (relay_canonical _ 3 _ _ H1 H2 H3 H4))))).
Defined.

(** The payload of a decoded envelope is itself well-formed JSON, so the
    second decoding stage can fail on the type of a value but never on syntax,
    whatever the payload type. *)
Theorem payload_never_malformed {A} (dec : A -> json -> A * bool) data env v v' err :
  Unmarshal dec_Envelope data Envelope_zero = (env, None) ->
  DecodePayload dec env v = (v', err) -> err <> Some ErrSyntax.
Proof. intros He. apply DecodePayload_no_syntax. by eapply dec_Envelope_ok. Qed.

(** A shape message whose identifier is a number. *)
Definition mistyped : string :=
  "{" +:+ quoted "type" +:+ ":" +:+ quoted "shape.create" +:+ "," +:+ quoted "payload" +:+ ":{" +:+
  quoted "id" +:+ ":5}}".
Definition mistyped_envelope : Envelope := (Unmarshal dec_Envelope mistyped Envelope_zero).1.

Lemma payload_never_malformed_witness :
  Unmarshal dec_Envelope mistyped Envelope_zero = (mistyped_envelope, None) /\
  DecodePayload dec_ShapeOp mistyped_envelope ShapeOp_zero = (ShapeOp_zero, Some ErrType) /\
  Some ErrType <> Some ErrSyntax.
Proof.
  assert (Unmarshal dec_Envelope mistyped Envelope_zero = (mistyped_envelope, None)) as H1 by (by vm_compute).
  assert (DecodePayload dec_ShapeOp mistyped_envelope ShapeOp_zero = (ShapeOp_zero, Some ErrType)) as H2
    by (by vm_compute).
  exact (conj H1 (conj H2 (payload_never_malformed dec_ShapeOp mistyped _ _ _ _ H1 H2))).
Defined.
