(* ===== verification/StoreTheorems.v ===== *)
(** What the durable tier guarantees: saves never go backwards, what was saved
    comes back, hydration overwrites nothing, and where signed columns end. *)

From S2P Require Import Prelude Strconv Utf8 Json JsonFacts JsonLocal Protocol Broker MemoryBroker RedisBroker Store Postgres Persistence Examples BrokerTheorems.
Local Open Scope Z_scope.

(** ** Sequences of saves *)

Section saves.
Context {S : Type} {ST : Store S}.

(** A list of saves, each with its fate, one after the other. *)
Definition save_all (bid : string) (l : list (fault * Protocol.Snapshot)) (s : S) : S :=
  fold_left (fun s x => (st_SaveSnapshot x.1 bid x.2 s).1) l s.
End saves.

(** The newest of a list of snapshots, the last of those that are newest. *)
Definition newest (l : list Protocol.Snapshot) (best : Protocol.Snapshot) : Prop :=
  exists i, l !! i = Some best /\
    forall j s, l !! j = Some s -> sn_Seq s <= sn_Seq best /\ ((i < j)%nat -> sn_Seq s < sn_Seq best).

Lemma newest_snoc l best s : newest l best -> newest (l ++ [s]) (save_guard (Some best) s).
Proof.
  intros (i & Hi & Hbest). unfold save_guard. destruct (Z.ltb_spec (sn_Seq s) (sn_Seq best)) as [Hlt|Hge].
  - exists i. split; [by apply lookup_app_l_Some|]. intros j s' [Hj|[Hj Hs]]%lookup_app_Some; [by apply Hbest|].
    apply list_lookup_singleton_Some in Hs as [_ <-]. split; [lia|done].
  - exists (length l). split; [by apply list_lookup_middle|].
    intros j s' [Hj|[Hj Hs]]%lookup_app_Some.
    + pose proof (Hbest j s' Hj) as [? _]. apply lookup_lt_Some in Hj. split; lia.
    + apply list_lookup_singleton_Some in Hs as [? <-]. split; lia.
Qed.

Lemma memory_saves bid l : l <> [] -> exists best,
  MemoryStore.snaps (fold_left (fun m s => (MemoryStore.SaveSnapshot bid s m).1) l MemoryStore.NewMemory) !! bid = Some best /\
  newest l best.
Proof.
  induction l as [|s l IH] using rev_ind; [done|]. intros _. rewrite fold_left_app. simpl.
  set (m := fold_left _ l _) in *. pose proof (MemoryStore.SaveSnapshot_spec bid s m) as Hs.
  destruct (MemoryStore.SaveSnapshot bid s m) as [m' r]. destruct Hs as [_ Hs]. simpl. rewrite Hs, lookup_insert_eq.
  eexists. split; [done|]. destruct (decide (l = [])) as [->|Hne].
  - subst m. simpl. rewrite lookup_empty. exists 0%nat. split; [done|].
    intros [|j] s' E; simpl in E; [|done]. injection E as <-. simpl; lia.
  - destruct (IH Hne) as (best & -> & Hb). by apply newest_snoc.
Qed.

(** The in-process store keeps exactly the newest snapshot it was given:
    after any saves of a board, in any order, a load finds one of them, none of
    the others has a higher sequence, and of equal ones it is the last. *)
Theorem memory_store_keeps_newest bid l : l <> [] ->
  exists best, newest l best /\
    MemoryStore.LoadSnapshot bid (fold_left (fun m s => (MemoryStore.SaveSnapshot bid s m).1) l MemoryStore.NewMemory)
      = Ok (best, true).
Proof.
  intros Hl. destruct (memory_saves bid l Hl) as (best & Hb & Hn). exists best. split; [done|].
  unfold MemoryStore.LoadSnapshot. by rewrite Hb.
Qed.

Definition out_of_order : list Protocol.Snapshot :=
  [{| sn_Seq := 3; sn_Shapes := [] |}; saved; {| sn_Seq := 5; sn_Shapes := [] |}].

Lemma memory_store_keeps_newest_witness : out_of_order <> [] /\
  exists best, newest out_of_order best /\
    MemoryStore.LoadSnapshot "b"
      (fold_left (fun m s => (MemoryStore.SaveSnapshot "b" s m).1) out_of_order MemoryStore.NewMemory)
      = Ok (best, true).
Proof.
  assert (out_of_order <> []) as H by done. exact (conj H (memory_store_keeps_newest "b" out_of_order H)).
Defined.

(** ** Postgres *)

Lemma save_all_mono {S} {ST : Store S} {SL : StoreLaws S} bid l (s : S) : st_inv s ->
  Forall (fun x : fault * Protocol.Snapshot => st_valid x.2 /\ 0 <= sn_Seq x.2) l ->
  st_inv (save_all bid l s) /\ stored_seq (st_view s bid) <= stored_seq (st_view (save_all bid l s) bid) /\
  forall o, o <> bid -> st_view (save_all bid l s) o = st_view s o.
Proof.
  intros Hs Hl. revert s Hs. induction Hl as [|[f snap] l [Hv H0] _ IH]; intros s Hs; [split_and!; done|].
  unfold save_all. simpl. fold (save_all bid l (st_SaveSnapshot f bid snap s).1). simpl in Hv, H0.
  pose proof (SaveSnapshot_law f bid snap s Hs Hv) as H. destruct (st_SaveSnapshot f bid snap s) as [s1 r].
  destruct H as (Hs1 & Hf & Hor & _). destruct (IH s1 Hs1) as (Hs2 & Hle & Hf2). split_and!; [done| |].
  - etrans; [|exact Hle]. destruct Hor as [->|(stored & [Hsim _] & ->)]; [done|].
    apply save_guard_mono. by rewrite <-Hsim.
  - intros o Ho. by rewrite Hf2, Hf.
Qed.

(** whatever order the saves of several instances reach Postgres in, and
    whichever of them are lost on the way or lose their answer, the stored
    sequence of a board never goes down and no other board's row changes. *)
Theorem postgres_saves_monotone {JB : Jsonb} {JL : JsonbLaws} bid (l : list (fault * Protocol.Snapshot)) (p : gmap string row) :
  pg_inv p -> Forall (fun x => snap_storable x.2) l ->
  let p' := fold_left (fun p x => (Postgres.SaveSnapshot x.1 bid x.2 p).1) l p in
  pg_inv p' /\ stored_seq (pg_view p bid) <= stored_seq (pg_view p' bid) /\
  forall o, o <> bid -> pg_view p' o = pg_view p o.
Proof.
  intros Hp Hl. apply (@save_all_mono (gmap string row) Postgres_store Postgres_laws bid l p Hp).
  eapply Forall_impl; [exact Hl|]. intros [f snap] Hs. split; [done|]. by destruct Hs as [[? _] _].
Qed.

Definition big : Protocol.Snapshot := {| sn_Seq := 9; sn_Shapes := [{| ss_Seq := 9; ss_ID := "a"; ss_Shape := Some "[{}]" |}] |}.

Lemma big_storable : snap_storable big.
Proof.
  split; [by split; vm_compute|]. apply Forall_singleton. split_and!.
  - by vm_compute.
  - by split; vm_compute.
  - by apply utf8_plain.
  - eexists. split; [by vm_compute|]. apply (parse_wf_depth "[{}]"); by vm_compute.
Qed.

Lemma pg_inv_empty {JB : Jsonb} : pg_inv ∅.
Proof. intros b r. by rewrite lookup_empty. Qed.

Definition reordered : list (fault * Protocol.Snapshot) :=
  [(Delivered, big); (ReplyLost, {| sn_Seq := 4; sn_Shapes := [] |}); (RequestLost, big)].

Lemma reordered_storable : Forall (fun x : fault * Protocol.Snapshot => snap_storable x.2) reordered.
Proof.
  repeat apply Forall_cons_2; try apply Forall_nil_2; try apply big_storable.
  split; [by split; vm_compute|by constructor].
Qed.

Lemma postgres_saves_monotone_witness :
  pg_inv (∅ : gmap string row) /\ Forall (fun x : fault * Protocol.Snapshot => snap_storable x.2) reordered /\
  let p' := fold_left (fun p x => (Postgres.SaveSnapshot x.1 "b" x.2 p).1) reordered (∅ : gmap string row) in
  pg_inv p' /\ stored_seq (pg_view ∅ "b") <= stored_seq (pg_view p' "b") /\
  forall o, o <> "b" -> pg_view p' o = pg_view ∅ o.
Proof.
  exact (conj pg_inv_empty (conj reordered_storable
    (postgres_saves_monotone "b" reordered ∅ pg_inv_empty reordered_storable))).
Defined.

(** C30: what Postgres acknowledges, it returns: after a successful save that is
    not older than the stored snapshot, a load finds the same sequence, the same
    shapes in the same order under the same identifiers and numbers, and blobs
    that are the same JSON values; an older save leaves what a load finds. *)
Theorem postgres_save_load {JB : Jsonb} {JL : JsonbLaws} bid snap (p p' : gmap string row) :
  pg_inv p -> snap_storable snap -> Postgres.SaveSnapshot Delivered bid snap p = (p', Ok tt) ->
  if sn_Seq snap <? stored_seq (pg_view p bid)
  then Postgres.LoadSnapshot Delivered bid p' = Postgres.LoadSnapshot Delivered bid p
  else exists stored, Postgres.LoadSnapshot Delivered bid p' = Ok (stored, true) /\ snap_sim blob_sim snap stored.
Proof.
  intros Hp Hs E. pose proof (@SaveSnapshot_law _ Postgres_store Postgres_laws Delivered bid snap p Hp Hs) as H.
  unfold st_SaveSnapshot, Postgres_store in H. rewrite E in H. destruct H as (Hp' & _ & _ & Hok).
  destruct (Hok eq_refl) as (stored & Hsim & Hv). simpl st_view in Hv.
  pose proof (@LoadSnapshot_law _ Postgres_store Postgres_laws Delivered bid p Hp) as L. unfold st_LoadSnapshot, Postgres_store in L.
  pose proof (@LoadSnapshot_law _ Postgres_store Postgres_laws Delivered bid p' Hp') as L'. unfold st_LoadSnapshot, Postgres_store in L'.
  simpl st_view in L, L'. rewrite Hv in L'. destruct (Postgres.LoadSnapshot Delivered bid p') as [r'|]; [|done]. simpl in L'. subst r'.
  destruct Hsim as [Eseq Hshapes]. unfold save_guard. rewrite Eseq.
  destruct (pg_view p bid) as [cur|]; simpl stored_seq.
  - destruct (Z.ltb_spec (sn_Seq stored) (sn_Seq cur)); [|by exists stored].
    destruct (Postgres.LoadSnapshot Delivered bid p); [|done]. simpl in L. by subst.
  - destruct Hs as [[H0 _] _]. replace (sn_Seq stored <? 0) with false by lia. by exists stored.
Qed.

Definition one_row : gmap string row := (Postgres.SaveSnapshot Delivered "b" big ∅).1.

Lemma postgres_save_load_witness :
  pg_inv (∅ : gmap string row) /\ snap_storable big /\
  Postgres.SaveSnapshot Delivered "b" big ∅ = (one_row, Ok tt) /\
  if sn_Seq big <? stored_seq (pg_view ∅ "b")
  then Postgres.LoadSnapshot Delivered "b" one_row = Postgres.LoadSnapshot Delivered "b" ∅
  else exists stored, Postgres.LoadSnapshot Delivered "b" one_row = Ok (stored, true) /\ snap_sim blob_sim big stored.
Proof.
  assert (Postgres.SaveSnapshot Delivered "b" big ∅ = (one_row, Ok tt)) as H by (by vm_compute).
  exact (conj pg_inv_empty (conj big_storable (conj H
    (postgres_save_load "b" big ∅ one_row pg_inv_empty big_storable H)))).
Defined.

(** The guard of Postgres is signed: a sequence of 2^63 or more is stored
    as a negative number, so a snapshot with such a sequence is silently
    discarded although it is newer, where the in-process store keeps it. *)
Theorem postgres_guard_is_signed :
  let newer := {| sn_Seq := two63; sn_Shapes := [] |} in
  let load p := match Postgres.LoadSnapshot Delivered "b" p with Ok (s, _) => sn_Seq s | Err _ => -1 end in
  (Postgres.SaveSnapshot Delivered "b" newer one_row).2 = Ok tt /\
  load (Postgres.SaveSnapshot Delivered "b" newer one_row).1 = 9 /\
  MemoryStore.LoadSnapshot "b" (MemoryStore.SaveSnapshot "b" newer
    (MemoryStore.SaveSnapshot "b" big MemoryStore.NewMemory).1).1 = Ok (newer, true).
Proof. split_and!; by vm_compute. Qed.

(** ** Cold start *)

(** Durability across the loss of the hot tier: once a board's snapshot has
    been saved by the coordinator, hydrating the board on any broker where it is
    fresh gives the saved board back: its sequence, its shapes, their numbers,
    and blobs up to the way the store represents them. *)
Theorem save_then_hydrate {B S} {BR : Broker B} {BL : BrokerLaws B} {ST : Store S} {SL : StoreLaws S}
    bid (b b2 : B) (s : S) :
  br_inv b -> st_inv s -> br_inv b2 -> br_fresh b2 bid = true ->
  (forall snap, is_snapshot (br_view b bid) snap ->
     st_valid snap /\ (st_SaveSnapshot Delivered bid snap s).2 = Ok tt) ->
  v_seq (br_view b bid) <= br_limit -> stored_seq (st_view s bid) <= v_seq (br_view b bid) ->
  let s' := (save Delivered Delivered bid b s).2 in
  view_sim st_sim (br_view b bid) (br_view (hydrate Delivered Delivered bid b2 s') bid).
Proof.
  intros Hb Hs Hb2 Hf Hsave Hlim Hold. unfold save. pose proof (Snapshot_law Delivered bid b Hb) as Hl.
  destruct (br_Snapshot Delivered bid b) as [b0 [snap|e]] eqn:Eb; destruct Hl as (_ & _ & Hsnap); [|by destruct Hsnap].
  simpl in Hsnap. destruct (Hsave snap Hsnap) as [_ Hok].
  destruct (st_SaveSnapshot Delivered bid snap s) as [s' r] eqn:Es. simpl in Hok |- *. subst r.
  apply (save_hydrate Delivered bid b b2 s Hb Hs Hb2) with (b' := b0) (u := tt); try done.
  - intros sn Hsn. by apply Hsave.
  - rewrite Eb. by exists snap.
Qed.

Lemma save_then_hydrate_witness :
  br_inv drawn /\ br_inv (∅ : redis) /\ br_fresh (∅ : redis) "board" = true /\
  v_seq (br_view drawn "board") <= br_limit (B := redis) /\
  let s' := (save Delivered Delivered "board" drawn MemoryStore.NewMemory).2 in
  view_sim st_sim (br_view drawn "board") (br_view (hydrate Delivered Delivered "board" (∅ : redis) s') "board").
Proof.
  assert (br_fresh (∅ : redis) "board" = true) as H1 by reflexivity.
  assert (v_seq (br_view drawn "board") <= br_limit (B := redis)) as H2 by (vm_compute; discriminate).
  assert (stored_seq (st_view MemoryStore.NewMemory "board") <= v_seq (br_view drawn "board")) as H3
    by (vm_compute; discriminate).
  assert (forall snap, is_snapshot (br_view drawn "board") snap ->
    st_valid (S := MemoryStore.Memory) snap /\
    (st_SaveSnapshot Delivered "board" snap MemoryStore.NewMemory).2 = Ok tt) as H4 by (by intros).
  exact (conj drawn_inv (conj sim_redis_inv (conj H1 (conj H2
    (save_then_hydrate "board" drawn (∅ : redis) MemoryStore.NewMemory drawn_inv I sim_redis_inv H1 H4 H2 H3))))).
Defined.

(** The snapshots a store holds can be loaded by the broker. *)
Definition loadable {B S} {BR : Broker B} {BL : BrokerLaws B} {ST : Store S} {SL : StoreLaws S} (bid : string) (s : S) : Prop :=
  forall snap, st_view s bid = Some snap -> snap_ok snap /\ sn_Seq snap <= br_limit.

Lemma load_again snap v : v_seq v = 0 -> v_shapes v = ∅ -> v_seq (spec_load snap v) = 0 ->
  v_shapes (spec_load snap v) = ∅ -> spec_load snap (spec_load snap v) = spec_load snap v.
Proof. intros H1 H2 H3 H4. unfold spec_load in *. simpl in *. by rewrite H4, H2 in *; rewrite H4. Qed.

(** Hydration loses nothing that is live: on a board that has taken an
    operation, in this instance or another, it changes nothing, whatever is
    stored and whatever fails. *)
Theorem hydrate_never_overwrites {B S} {BR : Broker B} {BL : BrokerLaws B} {ST : Store S} {SL : StoreLaws S}
    f1 f2 bid (b : B) (s : S) : br_inv b -> st_inv s -> loadable (B := B) bid s -> 0 < v_seq (br_view b bid) ->
  forall o, br_view (hydrate f1 f2 bid b s) o = br_view b o.
Proof. intros Hb Hs Hl Hseq. apply hydrate_used; [done..|]. by apply br_fresh_seq. Qed.

Definition stale_store : MemoryStore.Memory := (MemoryStore.SaveSnapshot "board" saved MemoryStore.NewMemory).1.

Lemma stale_loadable : loadable (B := redis) "board" stale_store.
Proof.
  intros snap E. assert (snap = saved) as ->; [|split; [apply saved_ok|by vm_compute]].
  change (MemoryStore.snaps stale_store !! "board" = Some snap) in E. vm_compute in E. by injection E as <-.
Qed.

Lemma hydrate_never_overwrites_witness :
  br_inv drawn /\ loadable (B := redis) "board" stale_store /\ 0 < v_seq (br_view drawn "board") /\
  forall o, br_view (hydrate Delivered Delivered "board" drawn stale_store) o = br_view drawn o.
Proof.
  assert (0 < v_seq (br_view drawn "board")) as H by (by vm_compute).
  exact (conj drawn_inv (conj stale_loadable (conj H
    (hydrate_never_overwrites Delivered Delivered "board" drawn stale_store drawn_inv I stale_loadable H)))).
Defined.

(** Hydration is idempotent: after one that succeeds, any further one, of
    any instance and under any fault, changes no board. *)
Theorem hydrate_idempotent {B S} {BR : Broker B} {BL : BrokerLaws B} {ST : Store S} {SL : StoreLaws S}
    f1 f2 bid (b : B) (s : S) : br_inv b -> st_inv s -> loadable (B := B) bid s ->
  let b' := hydrate Delivered Delivered bid b s in
  forall o, br_view (hydrate f1 f2 bid b' s) o = br_view b' o.
Proof.
  intros Hb Hs Hl b' o. destruct (hydrate_spec Delivered Delivered bid b s Hb Hs Hl) as (Hb' & _ & Hor & Hload).
  fold b' in Hb', Hor, Hload. destruct (br_fresh b' bid) eqn:Hf'; [|by apply hydrate_used].
  destruct (hydrate_spec f1 f2 bid b' s Hb' Hs Hl) as (_ & Hne & Hor2 & _).
  destruct (decide (o = bid)) as [->|Ho]; [|by apply Hne].
  destruct Hor2 as [?|(_ & snap & Hsnap & ->)]; [done|].
  destruct (br_fresh_view b' bid Hb' Hf') as [F1 F2]. destruct (br_fresh b bid) eqn:Hf.
  - rewrite (Hload eq_refl eq_refl eq_refl snap Hsnap) in F1, F2 |- *.
    destruct (br_fresh_view b bid Hb Hf). by apply load_again.
  - assert (br_fresh b' bid = false) as E; [|congruence]. unfold b', hydrate.
    destruct (st_LoadSnapshot _ _ _) as [[sn []]|e]; [by apply Hydrate_used_law|done..].
Qed.

Lemma hydrate_idempotent_witness :
  br_inv (∅ : redis) /\ loadable (B := redis) "board" stale_store /\
  let b' := hydrate Delivered Delivered "board" (∅ : redis) stale_store in
  forall o, br_view (hydrate Delivered ReplyLost "board" b' stale_store) o = br_view b' o.
Proof.
  exact (conj sim_redis_inv (conj stale_loadable
    (hydrate_idempotent Delivered ReplyLost "board" (∅ : redis) stale_store sim_redis_inv I stale_loadable))).
Defined.

(** Saving is harmless: whatever fails on the way, it changes no board, no
    other board's stored snapshot, and never moves a stored sequence back; the
    stored snapshot is afterwards the old one or one of the board as it is. *)
Theorem save_harmless {B S} {BR : Broker B} {BL : BrokerLaws B} {ST : Store S} {SL : StoreLaws S}
    f1 f2 bid (b : B) (s : S) : br_inv b -> st_inv s ->
  (forall snap, is_snapshot (br_view b bid) snap -> st_valid snap) ->
  let '(b', s') := save f1 f2 bid b s in
  (forall o, br_view b' o = br_view b o) /\ (forall o, o <> bid -> st_view s' o = st_view s o) /\
  stored_seq (st_view s bid) <= stored_seq (st_view s' bid) /\
  (st_view s' bid = st_view s bid \/ exists snap stored, is_snapshot (br_view b bid) snap /\
  snap_sim st_sim snap stored /\ st_view s' bid = Some (save_guard (st_view s bid) stored)).
Proof.
  intros Hb Hs Hv. pose proof (save_spec f1 f2 bid b s Hb Hs Hv) as H.
  destruct (save f1 f2 bid b s) as [b' s']. destruct H as (_ & H1 & _ & H2 & H3 & H4).
  split_and!; [by intros o; apply H1|done..].
Qed.

Lemma save_harmless_witness :
  br_inv drawn /\ (forall snap, is_snapshot (br_view drawn "board") snap -> st_valid (S := MemoryStore.Memory) snap) /\
  let '(b', s') := save Delivered ReplyLost "board" drawn stale_store in
  (forall o, br_view b' o = br_view drawn o) /\ (forall o, o <> "board" -> st_view s' o = st_view stale_store o) /\
  stored_seq (st_view stale_store "board") <= stored_seq (st_view s' "board") /\
  (st_view s' "board" = st_view stale_store "board" \/ exists snap stored, is_snapshot (br_view drawn "board") snap /\
  snap_sim st_sim snap stored /\ st_view s' "board" = Some (save_guard (st_view stale_store "board") stored)).
Proof.
  assert (forall snap, is_snapshot (br_view drawn "board") snap -> st_valid (S := MemoryStore.Memory) snap) as H by (by intros).
  exact (conj drawn_inv (conj H (save_harmless Delivered ReplyLost "board" drawn stale_store drawn_inv I H))).
Defined.
