(* ===== verification/DurableTheorems.v ===== *)
(** What the durable tier guarantees a deployment: boards survive the loss of
    processes and of the broker, up to their last checkpoint; and what a failed
    hydration costs. *)

From S2P Require Import Prelude Strconv Utf8 Json JsonFacts JsonLocal Protocol Broker MemoryBroker RedisBroker Store Postgres Persistence Ledger Durable Metrics Board Client Hub System Sessions Lifecycle Liveness Fleet Schedule Examples BrokerTheorems StoreTheorems.
Local Open Scope Z_scope.

(** ** The deployment *)


(** A board drawn on by one process, checkpointed when its last client leaves;
    that process dies, Redis is lost, and another process opens the board. *)





Abbreviation redis_fleet := (Fleet (B := redis) (S := MemoryStore.Memory)).







(** ** The calls of hydration and checkpoint, interleaved *)


(** Two instances open a board; one draws, starts a checkpoint, and draws again
    before it reads the sequence. *)
Abbreviation redis_tier := (Tier redis MemoryStore.Memory nat).















(** ** What a failed hydration costs *)

(** C40: a hydration that fails forks the board. When the load of a board times
    out, the board is served empty; its operations are numbered from 1 again and
    acknowledged; no later hydration brings the stored board back; its checkpoints
    are acknowledged and dropped while the stored sequence is ahead, and the first
    one that is not replaces the stored board, all of whose shapes are lost. *)
Theorem failed_hydration_forks {B S} {BR : Broker B} {BL : BrokerLaws B} {ST : Store S} {SL : StoreLaws S} {SD : StoreDomain S}
    f1 f2 f3 f4 bid e ops (b : B) (s : S) : br_inv b -> st_inv s -> loadable (B := B) bid s ->
  v_seq (br_view b bid) = 0 -> v_shapes (br_view b bid) = ∅ -> st_LoadSnapshot f1 bid s = Err e ->
  ops <> [] -> Z.of_nat (length ops) <= br_limit (B := B) -> holdable (replay ops) ->
  let '(b', rs) := apply_all Delivered bid ops (hydrate f1 f2 bid b s) in
  (forall snap, is_snapshot (br_view b' bid) snap -> (st_SaveSnapshot Delivered bid snap s).2 = Ok tt) ->
  rs = numbered 0 ops /\
  (forall o, br_view (hydrate f3 f4 bid b' s) o = br_view b' o) /\
  let s' := (save Delivered Delivered bid b' s).2 in
  if Z.of_nat (length ops) <? stored_seq (st_view s bid) then st_view s' bid = st_view s bid
  else exists stored, st_view s' bid = Some stored /\ view_like (replay ops) (snap_view stored).
Proof.
  intros Hb Hs Hld E0 Em El Hne Hlim Hh. assert (hydrate f1 f2 bid b s = b) as -> by (unfold hydrate; by rewrite El).
  pose proof (apply_all_spec bid ops b Hb) as Ha. rewrite E0 in Ha. specialize (Ha ltac:(lia)).
  destruct (apply_all Delivered bid ops b) as [b' rs]. destruct Ha as (Hb' & -> & Hv & _). intros Hack.
  assert (view_like (replay ops) (br_view b' bid)) as Hl.
  { rewrite Hv. unfold replay. assert (view_like view_empty (br_view b bid)) as H0.
    { split; [done|]. intros id. rewrite Em. constructor. }
    revert H0. clear. generalize view_empty, (br_view b bid). induction ops as [|o ops IH]; intros v w H0; [done|]. by apply IH, like_op. }
  assert (v_seq (br_view b' bid) = Z.of_nat (length ops)) as Eseq by (destruct Hl as [<- _]; apply replay_seq).
  split; [done|]. split.
  { intros o. apply hydrate_used; [done..|]. apply br_fresh_seq; [done|]. rewrite Eseq. destruct ops; [done|simpl; lia]. }
  unfold save. pose proof (Snapshot_law Delivered bid b' Hb') as L. destruct (br_Snapshot Delivered bid b') as [b2 [snap|e2]]; destruct L as (_ & _ & L); [|by destruct L].
  simpl in L. assert (snap_like (Some <$> ops) snap) as Hsl.
  { apply (snap_like_read _ (br_view b' bid)); [by rewrite replay_slots_ops|by apply br_view_ok| |done]. by eapply holdable_like. }
  pose proof (SaveSnapshot_law Delivered bid snap s Hs (snap_like_valid _ _ Hsl)) as Lv. specialize (Hack snap L).
  destruct (st_SaveSnapshot Delivered bid snap s) as [s' r]. simpl in Hack |- *. subst r. destruct Lv as (_ & _ & _ & Lv).
  destruct (Lv eq_refl) as (stored & Hsim & Ev). pose proof (snap_like_stored _ _ _ Hsl Hsim) as Hst.
  pose proof (snap_like_seq _ _ Hst) as Eq. rewrite length_fmap in Eq. unfold save_guard in Ev.
  destruct (st_view s bid) as [cur|]; simpl.
  - rewrite Eq in Ev. destruct (Z.of_nat (length ops) <? sn_Seq cur); [done|]. exists stored. split; [done|]. rewrite <-replay_slots_ops. apply Hst.
  - replace (Z.of_nat (length ops) <? 0) with false by lia. exists stored. split; [done|]. rewrite <-replay_slots_ops. apply Hst.
Qed.

(** Nine strokes on a board whose stored snapshot, of sequence 9, failed to load. *)
Definition strokes : list op := replicate 9 (Op "t" "{}" false).
Definition forked : redis * list (result Z) := apply_all Delivered "b" strokes (hydrate RequestLost Delivered "b" (∅ : redis) one_row).

Lemma forked_view : br_view forked.1 "b" = View 9 {[ "t" := Entry 9 "{}" ]} ∅.
Proof. by vm_compute. Qed.

Lemma forked_snapshot snap : is_snapshot (br_view forked.1 "b") snap ->
  snap = {| sn_Seq := 9; sn_Shapes := [{| ss_Seq := 9; ss_ID := "t"; ss_Shape := Some "{}" |}] |}.
Proof.
  rewrite forked_view. intros (Eq & _ & Hp). simpl in Eq, Hp. rewrite map_to_list_singleton in Hp.
  apply Permutation_singleton_r in Hp. destruct snap as [q l]. simpl in *. subst q. f_equal.
  unfold shape_entry, bytes_text in Hp. destruct l as [|[q i [t|]] [|? ?]]; simpl in Hp; by simplify_eq.
Qed.

Lemma one_row_loadable : loadable (B := redis) "b" one_row.
Proof.
  intros snap E. assert (st_view one_row "b" = Some big) as E' by (by vm_compute). rewrite E in E'. injection E' as ->.
  split; [|by vm_compute]. split; simpl; [apply NoDup_singleton..| |done].
  intros s ->%list_elem_of_singleton. by split; vm_compute.
Qed.

Lemma strokes_holdable : holdable (S := gmap string row) (replay strokes).
Proof.
  assert (replay strokes = View 9 {[ "t" := Entry 9 "{}" ]} ∅) as -> by (by vm_compute). split; [by vm_compute|].
  intros id e; simpl; intros [<- <-]%lookup_singleton_Some. split; [by apply utf8_plain|]. eexists. split; [by vm_compute|].
  apply (parse_wf_depth "{}"); by vm_compute.
Qed.

Lemma failed_hydration_forks_witness :
  loadable (B := redis) "b" one_row /\ st_LoadSnapshot RequestLost "b" one_row = Err ErrTransport /\
  holdable (S := gmap string row) (replay strokes) /\
  (forall snap, is_snapshot (br_view forked.1 "b") snap -> (st_SaveSnapshot Delivered "b" snap one_row).2 = Ok tt) /\
  st_view one_row "b" = Some big /\
  exists stored, st_view (save Delivered Delivered "b" forked.1 one_row).2 "b" = Some stored /\
    view_like (S := gmap string row) (replay strokes) (snap_view stored) /\ v_shapes (replay strokes) !! "a" = None.
Proof.
  assert (st_LoadSnapshot RequestLost "b" one_row = Err ErrTransport) as H1 by reflexivity.
  assert (forall snap, is_snapshot (br_view forked.1 "b") snap -> (st_SaveSnapshot Delivered "b" snap one_row).2 = Ok tt) as H2.
  { intros snap ->%forked_snapshot. by vm_compute. }
  assert (st_inv one_row) as H3 by (apply (@postgres_saves_monotone IdJsonb IdJsonb_laws "b" [(Delivered, big)] ∅ pg_inv_empty); apply Forall_singleton, big_storable).
  assert (br_inv (∅ : redis)) as H4 by apply sim_redis_inv.
  assert (Z.of_nat (length strokes) <= br_limit (B := redis)) as H5 by (by vm_compute).
  pose proof (failed_hydration_forks RequestLost Delivered Delivered Delivered "b" ErrTransport strokes (∅ : redis) one_row
    H4 H3 one_row_loadable eq_refl eq_refl H1 ltac:(done) H5 strokes_holdable) as H. fold forked in H.
  destruct forked as [b' rs] eqn:Ef. simpl in H2 |- *. specialize (H H2).
  split; [exact one_row_loadable|]. split; [exact H1|]. split; [exact strokes_holdable|]. split; [exact H2|]. split; [by vm_compute|].
  destruct H as (_ & _ & H). assert ((Z.of_nat (length strokes) <? stored_seq (st_view one_row "b")) = false) as E by (by vm_compute).
  rewrite E in H. destruct H as (stored & H6 & H7). exists stored. split; [exact H6|]. split; [exact H7|by vm_compute].
Defined.
