(* ===== verification/BoardTheorems.v ===== *)
(** What a board's goroutine guarantees: every client gets what it should and
    only slow ones are dropped, in any iteration order and without a panic. *)

From S2P Require Import Prelude Strconv Utf8 Json JsonFacts Protocol Metrics Board Examples.
Local Open Scope Z_scope.

(** ** A board with two clients, the second of them slow *)

Definition member (id : string) (q : list string) : Client :=
  {| c_id := id; c_name := "n"; c_color := "#e6194b"; c_board := 0; c_send := q; c_closed := false;
     c_conn := false; c_present := true |}.

Definition pair_heap : gmap nat Client := {[ 1%nat := member "a1" []; 2%nat := member "b2" (replicate sendBuffer "m") ]}.

Definition pair_state : state nopMetrics :=
  {| clients := {[1%nat; 2%nat]}; byID := {[ "a1" := 1%nat; "b2" := 2%nat ]}; heap := pair_heap; metrics := NopMetrics |}.

Lemma pair_lookup c cl : heap pair_state !! c = Some cl ->
  c = 1%nat /\ cl = member "a1" [] \/ c = 2%nat /\ cl = member "b2" (replicate sendBuffer "m").
Proof.
  simpl. unfold pair_heap. intros [[<- <-]|[_ H]]%lookup_insert_Some; [by left|].
  apply lookup_singleton_Some in H as [<- <-]. by right.
Qed.

Lemma pair_client c : c ∈ clients pair_state -> c = 1%nat \/ c = 2%nat.
Proof. simpl. set_solver. Qed.

Lemma pair_inv : board_inv 0 pair_state.
Proof.
  split.
  - intros c [->| ->]%pair_client; eexists; by split_and!.
  - intros c cl [[-> ->]|[-> ->]]%pair_lookup _ Hn; simpl in Hn; set_solver.
  - intros id c. simpl. intros [[<- <-]|[_ H]]%lookup_insert_Some.
    + split; [set_solver|]. by eexists.
    + apply lookup_singleton_Some in H as [<- <-]. split; [set_solver|]. by eexists.
Qed.

Lemma pair_complete : index_complete pair_state.
Proof. by intros c cl _ [[-> ->]|[-> ->]]%pair_lookup. Qed.

(** ** Fan-out *)

(** C17: whatever bytes the broker delivers, the board relays them without a
    panic, in any iteration order: each of its clients with room in its queue
    has a reliable message appended exactly once, each without is dropped, its
    queue and its connection closed; a cursor is appended where there is room
    and dropped elsewhere, costs nobody the connection, and is not given to the
    client it names; nobody else is touched. *)
Theorem board_relays {M} {Me : Metrics M} {F : Float64} b order msg (st : state M) :
  board_inv b st -> enumerates order st ->
  exists st', dispatch order msg st = Some st' /\ board_inv b st' /\ clients st' ⊆ clients st /\
    (forall c, heap st' !! c = (fun cl => if bool_decide (c ∈ clients st)
      then receive msg (bool_decide (byID st !! cursor_origin msg = Some c)) cl else cl) <$> heap st !! c) /\
    (forall c cl, c ∈ clients st -> heap st !! c = Some cl ->
       c ∈ clients st' <-> is_cursor msg = true \/ room cl = true).
Proof. apply dispatch_spec. Qed.

Lemma board_relays_witness :
  board_inv 0 pair_state /\ enumerates [2%nat; 1%nat] pair_state /\
  exists st', dispatch [2%nat; 1%nat] "not json" pair_state = Some st' /\ board_inv 0 st' /\
    clients st' ⊆ clients pair_state /\
    (forall c, heap st' !! c = (fun cl => if bool_decide (c ∈ clients pair_state)
      then receive "not json" (bool_decide (byID pair_state !! cursor_origin "not json" = Some c)) cl else cl)
      <$> heap pair_state !! c) /\
    (forall c cl, c ∈ clients pair_state -> heap pair_state !! c = Some cl ->
       c ∈ clients st' <-> is_cursor "not json" = true \/ room cl = true).
Proof.
  assert (enumerates [2%nat; 1%nat] pair_state) as H.
  { split; [by apply (bool_decide_unpack _); vm_compute|]. simpl. set_solver. }
  exact (conj pair_inv (conj H (board_relays 0 [2%nat; 1%nat] "not json" pair_state pair_inv H))).
Defined.

Lemma deliverBestEffort_order {M} {Me : Metrics M} b order1 order2 data exclude (st : state M) : board_inv b st ->
  enumerates order1 st -> enumerates order2 st ->
  deliverBestEffort order1 data exclude st = deliverBestEffort order2 data exclude st.
Proof.
  intros Hi H1 H2.
  destruct (deliverBestEffort_spec b order1 data exclude st Hi H1) as (s1 & -> & _ & A1 & A2 & A3 & A4).
  destruct (deliverBestEffort_spec b order2 data exclude st Hi H2) as (s2 & -> & _ & B1 & B2 & B3 & B4).
  pose proof (enumerates_perm _ _ _ H1 H2) as Hp.
  assert (quick_of order1 exclude st ≡ₚ quick_of order2 exclude st) as Hq by (unfold quick_of, targets; by rewrite Hp).
  destruct s1 as [c1 i1 h1 m1], s2 as [c2 i2 h2 m2]. simpl in *. subst c1 c2 i1 i2. do 2 f_equal.
  - apply map_eq. intros c. by rewrite A1, B1.
  - by rewrite A4, B4, (Permutation_length Hq).
Qed.

(** The board is deterministic although Go's map iteration is not: two
    deliveries of a message that visit the clients in different orders end in
    the same state, the same clients kicked and the same counts recorded. *)
Theorem delivery_order_irrelevant {M} {Me : Metrics M} {F : Float64} b order1 order2 msg (st : state M) :
  board_inv b st -> enumerates order1 st -> enumerates order2 st ->
  dispatch order1 msg st = dispatch order2 msg st.
Proof.
  intros Hi H1 H2. rewrite !dispatch_eq. destruct (is_cursor msg).
  - by apply (deliverBestEffort_order b).
  - by apply (deliverReliable_order b).
Qed.

Lemma delivery_order_irrelevant_witness :
  board_inv 0 pair_state /\ enumerates [2%nat; 1%nat] pair_state /\ enumerates [1%nat; 2%nat] pair_state /\
  dispatch [2%nat; 1%nat] "m" pair_state = dispatch [1%nat; 2%nat] "m" pair_state.
Proof.
  assert (enumerates [2%nat; 1%nat] pair_state) as H1.
  { split; [by apply (bool_decide_unpack _); vm_compute|]. simpl. set_solver. }
  assert (enumerates [1%nat; 2%nat] pair_state) as H2.
  { split; [by apply (bool_decide_unpack _); vm_compute|]. simpl. set_solver. }
  exact (conj pair_inv (conj H1 (conj H2
    (delivery_order_irrelevant 0 [2%nat; 1%nat] [1%nat; 2%nat] "m" pair_state pair_inv H1 H2)))).
Defined.

(** ** Removal *)

(** A client is dropped exactly once: detaching it, from whichever of the
    paths that do (slow delivery, disconnect), never panics, takes it out of the
    client set, and doing it again, in whatever way, changes nothing: its queue
    is closed once and nothing is sent to it any more. *)
Theorem detach_once {M} {Me : Metrics M} b c k1 k2 data (st : state M) :
  board_inv b st -> is_Some (heap st !! c) -> (forall cl, heap st !! c = Some cl -> c_board cl = b) ->
  exists st', detach c k1 st = Some st' /\ board_inv b st' /\ c ∉ clients st' /\
    detach c k2 st' = Some st' /\ direct c data st' = Some st' /\
    forall c', c' <> c -> heap st' !! c' = heap st !! c'.
Proof.
  intros Hi [cl Hcl] Hb. destruct (detach_relays b c cl k1 st Hi Hcl (Hb cl Hcl)) as (st' & E & Hr & Hn).
  destruct (re_inv b st st' Hr) as [I1 I2 I3] eqn:Ei. clear Ei.
  exists st'. split_and!; [done|by destruct Hr|done|by eapply detach_twice| |].
  - pose proof (re_heap b st st' Hr c) as Ht. rewrite Hcl in Ht. destruct (heap st' !! c) as [cl'|] eqn:Ec; [|done].
    destruct Ht as [(_ & _ & _ & Eb) _]. apply (direct_absent c cl'); [done|].
    apply (I2 c); [done| |done]. rewrite Eb. by apply Hb.
  - intros c' Hne. destruct (c_present cl) eqn:Hp.
    + assert (c ∈ clients st) as Hin.
      { destruct (decide (c ∈ clients st)) as [|Hx]; [done|]. by rewrite (bi_out b st Hi c cl Hcl (Hb cl Hcl) Hx) in Hp. }
      destruct (bi_in b st Hi c Hin) as (cl0 & Hc0 & _ & _ & Ho). rewrite Hcl in Hc0. injection Hc0 as <-.
      rewrite (detach_spec c k1 cl) in E by done. injection E as <-. simpl. by rewrite lookup_insert_ne.
    + rewrite (detach_absent c k1 cl) in E by done. by injection E as <-.
Qed.

Lemma detach_once_witness :
  board_inv 0 pair_state /\ is_Some (heap pair_state !! 2%nat) /\
  (forall cl, heap pair_state !! 2%nat = Some cl -> c_board cl = 0%nat) /\
  exists st', detach 2%nat true pair_state = Some st' /\ board_inv 0 st' /\ 2%nat ∉ clients st' /\
    detach 2%nat false st' = Some st' /\ direct 2%nat "m" st' = Some st' /\
    forall c', c' <> 2%nat -> heap st' !! c' = heap pair_state !! c'.
Proof.
  assert (is_Some (heap pair_state !! 2%nat)) as H1 by (by eexists).
  assert (forall cl, heap pair_state !! 2%nat = Some cl -> c_board cl = 0%nat) as H2 by (by intros cl [= <-]).
  exact (conj pair_inv (conj H1 (conj H2 (detach_once 0 2%nat true false "m" pair_state pair_inv H1 H2)))).
Defined.

(** A stopping board lets everybody go: in any iteration order and without a
    panic its client set becomes empty, every client it had has its queue and
    its connection closed but keeps what was queued, and nobody else changes. *)
Theorem shutdown_drops_everyone {M} {Me : Metrics M} b order (st : state M) :
  board_inv b st -> enumerates order st ->
  exists st', shutdown order st = Some st' /\ board_inv b st' /\ clients st' = ∅ /\ metrics st' = metrics st /\
    forall c, heap st' !! c =
      (fun cl => if bool_decide (c ∈ clients st) then set_conn (set_closed (set_present false cl)) else cl) <$> heap st !! c.
Proof.
  intros Hi He. pose proof He as [Hn Hin].
  destruct (shutdown_spec order st Hn) as (st' & E & Hd & Hm).
  { intros c Hc%Hin. by apply (inv_live b). }
  exists st'. pose proof (dropped_inv b order true st st' Hi Hd) as Hi'. destruct Hd as [D1 D2 D3].
  split_and!; [done|done| |done|].
  - apply set_eq. intros c. rewrite D1, elem_of_difference, elem_of_list_to_set, Hin. set_solver.
  - intros c. rewrite D2. destruct (heap st !! c) as [cl|]; [|done]. simpl. f_equal.
    by rewrite (bool_decide_ext (c ∈ order) (c ∈ clients st)) by apply Hin.
Qed.

Lemma shutdown_drops_everyone_witness :
  board_inv 0 pair_state /\ enumerates [2%nat; 1%nat] pair_state /\
  exists st', shutdown [2%nat; 1%nat] pair_state = Some st' /\ board_inv 0 st' /\ clients st' = ∅ /\
    metrics st' = metrics pair_state /\
    forall c, heap st' !! c =
      (fun cl => if bool_decide (c ∈ clients pair_state) then set_conn (set_closed (set_present false cl)) else cl)
      <$> heap pair_state !! c.
Proof.
  assert (enumerates [2%nat; 1%nat] pair_state) as H.
  { split; [by apply (bool_decide_unpack _); vm_compute|]. simpl. set_solver. }
  exact (conj pair_inv (conj H (shutdown_drops_everyone 0 [2%nat; 1%nat] pair_state pair_inv H))).
Defined.
