(* ===== verification/ClientTheorems.v ===== *)
(** What a connection's goroutine guarantees: valid operations are sequenced and
    relayed, everything else is contained, nobody can speak for another client,
    and a client that joins is brought up to date. *)

From S2P Require Import Prelude Strconv Utf8 Json JsonFacts JsonLocal Protocol Broker MemoryBroker RedisBroker Metrics Board Client Typing Examples BrokerTheorems ProtocolTheorems.
Local Open Scope Z_scope.

Definition alice : Client :=
  {| c_id := "a1"; c_name := "Alice"; c_color := "#e6194b"; c_board := 0; c_send := []; c_closed := false;
     c_conn := false; c_present := false |}.

(** ** One turn of the read loop *)

(** C6: a shape message is applied once and relayed once: on any broker, a
    message that decodes to a shape operation with an identifier changes the
    client's board by exactly that operation, under the next sequence number,
    publishes exactly one message, which carries that number, and touches no
    other board. *)
Theorem shape_message_sequenced {B} {BR : Broker B} {BL : BrokerLaws B} {F : Float64} bid c data env op (b : B) :
  br_inv b -> v_seq (br_view b bid) < br_limit ->
  Unmarshal dec_Envelope data Envelope_zero = (env, None) -> Type_ env ∈ shape_types ->
  DecodePayload dec_ShapeOp env ShapeOp_zero = (op, None) -> ID op <> "" ->
  let v := br_view b bid in
  exists b' msg, exec (handle bid c data) b = (b', [msg], []) /\ br_inv b' /\
    br_view b' bid = spec_apply (ID op) (bytes_text (Shape op)) (bool_decide (Type_ env = TypeShapeDelete)) v /\
    is_shape_msg msg (Type_ env) (v_seq v + 1) op /\
    forall o, o <> bid -> br_view b' o = br_view b o.
Proof. apply handle_shape_op. Qed.

Lemma shape_message_sequenced_witness :
  br_inv drawn /\ v_seq (br_view drawn "board") < br_limit (B := redis) /\
  exists b' msg, exec (handle "board" alice shape_message) drawn = (b', [msg], []) /\ br_inv b' /\
    br_view b' "board" = spec_apply (ID shape_op) (bytes_text (Shape shape_op))
      (bool_decide (Type_ shape_envelope = TypeShapeDelete)) (br_view drawn "board") /\
    is_shape_msg msg (Type_ shape_envelope) (v_seq (br_view drawn "board") + 1) shape_op /\
    forall o, o <> "board" -> br_view b' o = br_view drawn o.
Proof.
  assert (v_seq (br_view drawn "board") < br_limit (B := redis)) as H0 by (vm_compute; reflexivity).
  assert (Unmarshal dec_Envelope shape_message Envelope_zero = (shape_envelope, None)) as H1 by (by vm_compute).
  assert (Type_ shape_envelope ∈ shape_types) as H2 by (by apply (bool_decide_unpack _); vm_compute).
  assert (DecodePayload dec_ShapeOp shape_envelope ShapeOp_zero = (shape_op, None)) as H3 by (by vm_compute).
  assert (ID shape_op <> "") as H4 by (by vm_compute).
  exact (conj drawn_inv (conj H0 (shape_message_sequenced "board" alice shape_message shape_envelope shape_op drawn
    drawn_inv H0 H1 H2 H3 H4))).
Defined.

(** Everything that is neither a shape operation with an identifier nor a
    cursor is dropped without a trace: malformed JSON, unknown types, undecodable
    payloads and empty identifiers change nothing, publish nothing and are not
    answered. *)
Theorem other_messages_ignored {B} {BR : Broker B} {F : Float64} bid c data (b : B) :
  (forall env op, Unmarshal dec_Envelope data Envelope_zero = (env, None) -> Type_ env ∈ shape_types ->
     DecodePayload dec_ShapeOp env ShapeOp_zero = (op, None) -> ID op = "") ->
  (forall env, Unmarshal dec_Envelope data Envelope_zero = (env, None) -> Type_ env <> TypeCursor) ->
  exec (handle bid c data) b = (b, [], []).
Proof. apply handle_ignored. Qed.

Lemma other_messages_ignored_witness :
  exec (handle "board" alice mistyped) drawn = (drawn, [], []) /\
  exec (handle "board" alice "{}}") drawn = (drawn, [], []).
Proof.
  split; apply other_messages_ignored.
  - intros env op E _ Ed. assert (Unmarshal dec_Envelope mistyped Envelope_zero = (mistyped_envelope, None)) as E'
      by (by vm_compute). rewrite E' in E. injection E as <-. by vm_compute in Ed.
  - intros env E. assert (Unmarshal dec_Envelope mistyped Envelope_zero = (mistyped_envelope, None)) as E'
      by (by vm_compute). rewrite E' in E. by injection E as <-.
  - intros env op E. by vm_compute in E.
  - intros env E. by vm_compute in E.
Defined.

(** C19: a connection is confined to its board and its identity: whatever bytes
    it reads and whatever the broker answers, it asks only its own board for
    anything, applies operations under nonempty valid UTF-8 identifiers only,
    and publishes only messages that are no cursors or cursors that carry its
    own identifier: nobody can move another client's cursor. *)
Theorem connection_confined {F : Float64} {FL : Float64Laws} bid c data : utf8 (c_id c) ->
  all_requests (reader_request bid c) (handle bid c data).
Proof. apply handle_requests. Qed.

(** A cursor that claims to be somebody else's. *)
Definition forged : string :=
  "{" +:+ quoted "type" +:+ ":" +:+ quoted "cursor" +:+ "," +:+ quoted "payload" +:+ ":{" +:+
  quoted "clientId" +:+ ":" +:+ quoted "b2" +:+ "," +:+ quoted "x" +:+ ":1," +:+ quoted "y" +:+ ":2}}".

Lemma connection_confined_witness : utf8 (c_id alice) /\
  all_requests (reader_request "board" alice) (handle "board" alice forged) /\
  (exec (handle "board" alice forged) NewMemory).1.2 <> [].
Proof.
  assert (utf8 (c_id alice)) as H by (by apply utf8_plain).
  split; [exact H|]. split; [exact (connection_confined "board" alice forged H)|]. by vm_compute.
Defined.

(** C18: the language of a board's channel: over its whole life, whatever it reads
    and whatever the broker answers, a connection publishes only well-typed
    messages, and only on its own board: each decodes, envelope and payload, to
    a shape operation with an identifier, to a cursor with its origin, or to the
    arrival or departure of a client, the last three without a sequence number.
    Nothing else ever reaches the other instances: no snapshot, no roster, no
    unknown type, no payload of the wrong shape. *)
Theorem publications_typed {F : Float64} {FL : Float64Laws} bid c data : utf8 (c_id c) -> c_id c <> "" ->
  all_requests (typed_request bid) (onboard bid c) /\
  all_requests (typed_request bid) (handle bid c data) /\
  all_requests (typed_request bid) (leavePresence bid c).
Proof. intros Hu Hne. split_and!; [by apply onboard_typed|by apply handle_typed|by apply leavePresence_typed]. Qed.

Lemma publications_typed_witness :
  utf8 (c_id alice) /\ c_id alice <> "" /\
  all_requests (typed_request "board") (handle "board" alice forged) /\
  typed (hd "" (exec (handle "board" alice forged) NewMemory).1.2) = true /\ typed forged = true /\ typed mistyped = false.
Proof.
  assert (utf8 (c_id alice)) as H1 by (by apply utf8_plain). assert (c_id alice <> "") as H2 by done.
  split; [exact H1|]. split; [exact H2|]. split; [exact (proj1 (proj2 (publications_typed "board" alice forged H1 H2)))|].
  split_and!; by vm_compute.
Defined.

(** ** Joining and leaving *)

Lemma roster_elem v out cid data p : is_roster v out -> v_presence v !! cid = Some data ->
  decode_presence data = Some p -> p ∈ out.
Proof.
  intros [_ Hp] Hl Hd. rewrite Hp. apply list_elem_of_omap. exists (cid, data). split; [|done].
  by apply elem_of_map_to_list.
Qed.

(** What a client is sent when it joins. *)
Definition welcome (bid : string) (c : Client) (v : view) (snap_msg state_msg : string) : Prop :=
  (exists e snap, is_snapshot v snap /\ Unmarshal dec_Envelope snap_msg Envelope_zero = (e, None) /\
     Type_ e = TypeSnapshot /\ DecodePayload dec_Snapshot e Snapshot_zero = (c_wire snap, None)) /\
  (exists e roster, is_roster v roster /\ presence c ∈ roster /\
     Unmarshal dec_Envelope state_msg Envelope_zero = (e, None) /\ Type_ e = TypePresenceState /\
     DecodePayload (c_dec (A := PresenceState)) e c_zero =
       ({| Self := presence c; Others := others (c_id c) roster |}, None)).

(** The whole of what [Serve] does for a newcomer before it reads. *)
Lemma onboard_welcome {B} {BR : Broker B} {BL : BrokerLaws B} {F : Float64} bid c (b : B) :
  br_inv b -> v_seq (br_view b bid) < two64 -> blobs_ok (maxNestingDepth - 4) (br_view b bid) ->
  c_valid 1 (presence c) ->
  exists b' data join_msg snap_msg state_msg,
    exec (onboard bid c) b = (b', [join_msg], [snap_msg; state_msg]) /\ br_inv b' /\
    MarshalJSON (presence c) = Ok data /\ Marshal TypePresenceJoin 0 (presence c) = Ok join_msg /\
    br_view b' bid = spec_set_presence (c_id c) data (br_view b bid) /\
    welcome bid c (br_view b' bid) snap_msg state_msg /\
    forall o, o <> bid -> br_view b' o = br_view b o.
Proof.
  intros Hb Hlim Hblobs Hc. unfold onboard. rewrite exec_andThen.
  destruct (joinPresence_exec bid c b Hb) as (b1 & data & join_msg & -> & Hb1 & Ed & Ej & Hv1 & Hf1).
  cbv beta iota. rewrite exec_andThen.
  destruct (sendSnapshot_exec bid b1 Hb1) as (b2 & m2 & e2 & snap & -> & Hb2 & Hf2 & Hsnap & Hu2 & Ht2 & Hd2);
    [by rewrite Hv1|by rewrite Hv1|]. cbv beta iota.
  destruct (sendPresenceState_exec bid c b2 Hb2 Hc) as (b3 & m3 & e3 & roster & -> & Hb3 & Hf3 & Hr & Hu3 & Ht3 & Hd3).
  exists b3, data, join_msg, m2, m3. split_and!; [done..| | |].
  - by rewrite Hf3, Hf2.
  - split.
    + exists e2, snap. split_and!; [by rewrite Hf3, Hf2|done..].
    + exists e3, roster. split_and!; [by rewrite Hf3| |done..].
      apply (roster_elem _ _ (c_id c) data _ Hr); [|by apply presence_stored].
      rewrite Hf2, Hv1. apply lookup_insert_eq.
  - intros o Ho. by rewrite Hf3, Hf2, Hf1.
Qed.

(** A client that joins a board is brought up to date: it is added to the
    board's roster, one join message is published, and the client alone is sent
    two messages, first a snapshot that decodes to the board's sequence and all
    its shapes, then the roster, with itself in it and everybody else listed as
    the others; shapes and sequence do not change, and no other board does. *)
Theorem newcomer_brought_up_to_date {B} {BR : Broker B} {BL : BrokerLaws B} {F : Float64} bid c (b : B) :
  br_inv b -> v_seq (br_view b bid) < two64 -> blobs_ok (maxNestingDepth - 4) (br_view b bid) ->
  c_valid 1 (presence c) ->
  exists b' data join_msg snap_msg state_msg,
    exec (onboard bid c) b = (b', [join_msg], [snap_msg; state_msg]) /\ br_inv b' /\
    MarshalJSON (presence c) = Ok data /\ Marshal TypePresenceJoin 0 (presence c) = Ok join_msg /\
    br_view b' bid = spec_set_presence (c_id c) data (br_view b bid) /\
    welcome bid c (br_view b' bid) snap_msg state_msg /\
    forall o, o <> bid -> br_view b' o = br_view b o.
Proof. apply onboard_welcome. Qed.

Lemma newcomer_brought_up_to_date_witness :
  br_inv drawn /\ v_seq (br_view drawn "board") < two64 /\
  blobs_ok (maxNestingDepth - 4) (br_view drawn "board") /\ c_valid 1 (presence alice) /\
  exists b' data join_msg snap_msg state_msg,
    exec (onboard "board" alice) drawn = (b', [join_msg], [snap_msg; state_msg]) /\ br_inv b' /\
    MarshalJSON (presence alice) = Ok data /\ Marshal TypePresenceJoin 0 (presence alice) = Ok join_msg /\
    br_view b' "board" = spec_set_presence (c_id alice) data (br_view drawn "board") /\
    welcome "board" alice (br_view b' "board") snap_msg state_msg /\
    forall o, o <> "board" -> br_view b' o = br_view drawn o.
Proof.
  assert (v_seq (br_view drawn "board") < two64) as H1 by (by vm_compute).
  assert (blobs_ok (maxNestingDepth - 4) (br_view drawn "board")) as H2.
  { intros id e E. assert (v_shapes (br_view drawn "board") = {[ "s" := Entry 1 "{}" ]}) as E' by (by vm_compute).
    rewrite E' in E. apply lookup_singleton_Some in E as [<- <-]. split; [by apply utf8_plain|].
    eexists. split; [by vm_compute|]. apply (parse_wf_depth "{}"); by vm_compute. }
  assert (c_valid 1 (presence alice)) as H3 by (split_and!; [done|by apply utf8_plain..]).
  exact (conj drawn_inv (conj H1 (conj H2 (conj H3
    (newcomer_brought_up_to_date "board" alice drawn drawn_inv H1 H2 H3))))).
Defined.

(** A client that leaves is taken off the roster, whatever it put there, and
    one leave message that names it, and decodes, is published; nothing else of
    any board changes. *)
Theorem leaver_taken_off_roster {B} {BR : Broker B} {BL : BrokerLaws B} {F : Float64} bid c (b : B) :
  br_inv b -> utf8 (c_id c) ->
  exists b' msg e, exec (leavePresence bid c) b = (b', [msg], []) /\ br_inv b' /\
    br_view b' bid = spec_remove_presence (c_id c) (br_view b bid) /\
    (forall o, o <> bid -> br_view b' o = br_view b o) /\
    Unmarshal dec_Envelope msg Envelope_zero = (e, None) /\ Type_ e = TypePresenceLeave /\
    DecodePayload dec_Presence e Presence_zero = ({| ClientID := c_id c; Name := ""; Color := "" |}, None).
Proof.
  intros Hb Hu. destruct (leavePresence_exec bid c b Hb) as (b' & msg & He & Hb' & Em & Hv & Hf).
  destruct (Marshal_two_stage TypePresenceLeave 0 {| ClientID := c_id c; Name := ""; Color := "" |})
    as (msg' & e & Em' & Hd & Ht & _ & Hp); [by apply utf8_plain|done|split_and!; [done|done|constructor..]|].
  rewrite Em in Em'. injection Em' as <-. by exists b', msg, e.
Qed.

(** A board with one client on it. *)
Definition with_alice : Memory := (exec (onboard "board" alice) NewMemory).1.1.

Lemma leaver_taken_off_roster_witness :
  br_inv with_alice /\ utf8 (c_id alice) /\
  exists b' msg e, exec (leavePresence "board" alice) with_alice = (b', [msg], []) /\ br_inv b' /\
    br_view b' "board" = spec_remove_presence (c_id alice) (br_view with_alice "board") /\
    (forall o, o <> "board" -> br_view b' o = br_view with_alice o) /\
    Unmarshal dec_Envelope msg Envelope_zero = (e, None) /\ Type_ e = TypePresenceLeave /\
    DecodePayload dec_Presence e Presence_zero = ({| ClientID := c_id alice; Name := ""; Color := "" |}, None).
Proof.
  assert (br_inv with_alice) as H1.
  { unfold with_alice, onboard. rewrite exec_andThen.
    destruct (joinPresence_exec (BL := Memory_laws) "board" alice NewMemory mem_inv_new) as (b1 & d & m & -> & Hb1 & _ & _ & Hv & _).
    cbv beta iota. rewrite exec_andThen.
    assert (br_view b1 "board" = spec_set_presence "a1" d view_empty) as Hv1 by exact Hv.
    destruct (sendSnapshot_exec "board" b1 Hb1) as (b2 & m2 & e2 & sn & -> & Hb2 & _).
    { rewrite Hv1. by vm_compute. }
    { rewrite Hv1. intros id e. simpl. by rewrite lookup_empty. }
    destruct (sendPresenceState_exec "board" alice b2 Hb2) as (b3 & m3 & e3 & ro & -> & Hb3 & _);
      [split_and!; [done|by apply utf8_plain..]|exact Hb3]. }
  assert (utf8 (c_id alice)) as H2 by (by apply utf8_plain).
  exact (conj H1 (conj H2 (leaver_taken_off_roster "board" alice with_alice H1 H2))).
Defined.

(** ** Identity *)

(** Identity is total and faithful: the random bytes of an identifier can be
    read back from it, so different draws are different clients, it is plain
    ASCII of twice their number, and whatever it is, choosing a colour never
    indexes outside the palette; a colour the client brings is kept. *)
Theorem identity_faithful color rnd :
  (forall rnd', newID rnd' = newID rnd -> rnd' = rnd) /\
  utf8 (newID rnd) /\ String.length (newID rnd) = (2 * length rnd)%nat /\
  exists col, defaultColor color (newID rnd) = Some col /\
    if bool_decide (color <> "") then col = color else col ∈ palette.
Proof.
  split_and!; [intros rnd'; apply newID_inj|apply newID_utf8| |apply defaultColor_spec].
  induction rnd as [|c rnd IH]; [done|]. simpl. rewrite IH. lia.
Qed.

(** ** Nesting *)

(** A number inside [k] arrays, and its tree. *)
Fixpoint nested (k : nat) : string := match k with O => "1" | S k => "[" +:+ nested k +:+ "]" end.
Fixpoint nested_tree (k : nat) : json := match k with O => JNum "1" | S k => JArr [("", nested_tree k)] end.

Lemma nested_print k : print (nested_tree k) = nested k.
Proof. induction k as [|k IH]; [done|]. simpl. by rewrite IH. Qed.

Lemma nested_html k : html (nested_tree k) = nested_tree k.
Proof. induction k as [|k IH]; [done|]. simpl. by rewrite IH. Qed.

Lemma nested_wf k : wf (Z.of_nat k) (nested_tree k).
Proof.
  induction k as [|k IH]; simpl; constructor; [by apply (num_ok_uint 1)|lia|].
  intros p ->%list_elem_of_singleton. simpl. eapply wf_mono; [exact IH|lia].
Qed.

Lemma nested_head k t : exists c s, nested k +:+ t = String c s /\ is_ws c = false /\ ceq c "]" = false.
Proof. destruct k; simpl; str_norm; by eexists _, _. Qed.

(** Arrays that nest beyond the limit are refused, whatever follows. *)
Lemma pvalue_too_deep k n d t : d <= maxNestingDepth -> maxNestingDepth < d + Z.of_nat k ->
  pvalue n d (nested k +:+ t) = None.
Proof.
  revert n d t. induction k as [|k IH]; intros n d t Hd Hk; [lia|]. destruct n as [|n]; [done|].
  simpl nested. str_norm. simpl. destruct (Z.leb_spec maxNestingDepth d) as [|Hlt]; [done|].
  destruct (nested_head k (String "]" t)) as (c & s & E & Hw & Hc).
  rewrite E. simpl. rewrite Hw, Hc, <-E.
  destruct n as [|n]; [done|]. simpl. by rewrite IH by lia.
Qed.

(** The snapshot of a board with one such shape. *)
Definition nested_snapshot (k : nat) : Protocol.Snapshot :=
  {| sn_Seq := 1; sn_Shapes := [{| ss_Seq := 1; ss_ID := "s"; ss_Shape := Some (nested k) |}] |}.

Lemma nested_compact k : Z.of_nat k <= maxNestingDepth -> compact (nested k) = Ok (nested k).
Proof.
  intros Hk. unfold compact. rewrite <-nested_print at 1.
  rewrite parse_print by (eapply wf_mono; [apply nested_wf|done]). f_equal.
  rewrite (print_html_canon _ _ (nested_wf k)). by rewrite nested_html, nested_print.
Qed.

(** Its encoding. *)
Definition nested_text (k : nat) : string :=
  "{" +:+ quoted "seq" +:+ ":1," +:+ quoted "shapes" +:+ ":[{" +:+ quoted "seq" +:+ ":1," +:+
  quoted "id" +:+ ":" +:+ quoted "s" +:+ "," +:+ quoted "shape" +:+ ":" +:+ nested k +:+ "}]}".

Lemma nested_snapshot_text k : Z.of_nat k <= maxNestingDepth -> MarshalJSON (nested_snapshot k) = Ok (nested_text k).
Proof.
  intros Hk. unfold MarshalJSON, Snapshot_marshaler, nested_snapshot, SnapshotShapes_marshaler, MarshalJSON,
    SnapshotShape_marshaler. simpl. rewrite nested_compact by done. simpl. unfold nested_text.
  change (FormatUint 1) with "1". change (enc_string "s") with (quoted "s"). unfold enc_arr, enc_obj, quoted, str1. simpl.
  f_equal. by str_norm.
Qed.

Lemma nested_text_refused k : maxNestingDepth - 3 < Z.of_nat k -> parse (nested_text k) = None.
Proof.
  intros Hk. pose proof (fun n => pvalue_too_deep k n 3 "}]}" ltac:(by vm_compute) ltac:(lia)) as Hd.
  assert (skip_ws (nested k +:+ "}]}") = nested k +:+ "}]}") as Hw.
  { destruct (nested_head k "}]}") as (c & t & -> & Hw & _). simpl. by rewrite Hw. }
  unfold parse, nested_text, quoted, str1. str_norm. revert Hd Hw. generalize (nested k +:+ "}]}"). intros tl Hd Hw.
  match goal with |- context [pvalue ?m 0 ?s] => assert (forall n, pvalue n 0 s = None) as -> end; [|done].
  intros n. do 9 (destruct n as [|n]; [by simpl; rewrite ?Hw, ?Hd|]). simpl. by rewrite Hw, Hd.
Qed.

Lemma nested_snapshot_fails k : maxNestingDepth - 3 < Z.of_nat k <= maxNestingDepth ->
  Marshal TypeSnapshot 0 (nested_snapshot k) = Err ErrSyntax.
Proof.
  intros Hk. unfold Marshal. rewrite nested_snapshot_text by lia. simpl.
  unfold MarshalJSON, Envelope_marshaler. simpl.
  unfold compact. by rewrite nested_text_refused by lia.
Qed.

Lemma nested_snapshot_unique k snap :
  is_snapshot (spec_apply "s" (nested k) false view_empty) snap -> snap = nested_snapshot k.
Proof.
  intros (E & _ & Hp). destruct snap as [seq shapes]. simpl in *. subst seq.
  rewrite insert_empty, map_to_list_singleton in Hp. apply Permutation_singleton_r in Hp.
  destruct shapes as [|[q id sh] [|? ?]]; [done| |done]. unfold shape_entry in Hp. simpl in Hp.
  injection Hp as -> -> Et. unfold nested_snapshot. do 3 f_equal. destruct sh as [t|]; [by rewrite <-Et|].
  destruct (nested_head k "") as (x & u & Eh & _). rewrite app_nil_r' in Eh. by rewrite Eh in Et.
Qed.

(** As deep as a shape can be: the envelope and its payload are two levels more. *)
Definition deepest : nat := Z.to_nat (maxNestingDepth - 2).

Lemma deepest_range : Z.of_nat deepest = maxNestingDepth - 2.
Proof. by apply Z2Nat.id. Qed.

#[local] Opaque deepest.

Definition deep_op : ShapeOp := {| ID := "s"; Shape := Some (nested deepest) |}.

Lemma deep_op_valid : c_valid (maxNestingDepth - 1) deep_op.
Proof.
  split_and!; [by vm_compute|by apply utf8_plain|]. intros _. simpl.
  assert (wf (maxNestingDepth - 2) (nested_tree deepest)) as Hw by (rewrite <-deepest_range; apply nested_wf).
  exists (canon (nested_tree deepest)). rewrite <-nested_print, parse_print by (by eapply wf_mono).
  split; [done|]. by apply wf_canon.
Qed.

(** Deep nesting poisons a board: a shape nested as deep as the decoder
    accepts is sequenced and relayed like any other, but the snapshot of the
    board it is on nests a level deeper than the encoder can check: encoding it
    fails, so a client that joins is sent no snapshot; on either broker, for as
    long as the shape is there. *)
Theorem deep_shape_poisons {B} {BR : Broker B} {BL : BrokerLaws B} {F : Float64} bid c (b : B) :
  br_inv b -> br_view b bid = view_empty ->
  exists data b' msg, Marshal TypeShapeCreate 0 deep_op = Ok data /\
    exec (handle bid c data) b = (b', [msg], []) /\ is_shape_msg msg TypeShapeCreate 1 deep_op /\
    (exec (sendSnapshot bid) b').2 = [].
Proof.
  intros Hb He.
  destruct (Marshal_two_stage TypeShapeCreate 0 deep_op) as (data & env & Em & Hd & Ht & _ & Hp);
    [by apply utf8_plain|done|exact deep_op_valid|].
  assert (c_wire deep_op = deep_op) as Hwire.
  { assert (bytes_empty (Some (nested deepest)) = false) as E.
    { destruct (nested_head deepest "") as (x & t & E & _). rewrite app_nil_r' in E. unfold bytes_empty.
      simpl. by rewrite E. }
    simpl. rewrite E. simpl. rewrite nested_compact; [done|]. rewrite deepest_range. lia. }
  rewrite Hwire in Hp. rewrite <-Ht in Em.
  destruct (handle_shape_op bid c data env deep_op b Hb) as (b' & msg & Hx & Hb' & Hv & Hm & _); [|done| |done|done|].
  { rewrite He. simpl. apply br_limit_u64. }
  { rewrite Ht. left. }
  exists data, b', msg. rewrite He, Ht in *. split_and!; [done..|].
  unfold sendSnapshot. simpl. pose proof (Snapshot_law Delivered bid b' Hb') as Hs.
  destruct (br_Snapshot Delivered bid b') as [b2 [snap|e]]; destruct Hs as (_ & _ & Hs); [|done]. simpl in Hs |- *.
  rewrite Hv in Hs. apply nested_snapshot_unique in Hs as ->.
  by rewrite nested_snapshot_fails by (rewrite deepest_range; lia).
Qed.

Lemma deep_shape_poisons_witness : br_inv NewMemory /\ br_view NewMemory "board" = view_empty /\
  exists data b' msg, Marshal TypeShapeCreate 0 deep_op = Ok data /\
    exec (handle "board" alice data) NewMemory = (b', [msg], []) /\ is_shape_msg msg TypeShapeCreate 1 deep_op /\
    (exec (sendSnapshot "board") b').2 = [].
Proof.
  assert (br_view NewMemory "board" = view_empty) as H by reflexivity.
  exact (conj mem_inv_new (conj H (deep_shape_poisons (BL := Memory_laws) "board" alice NewMemory mem_inv_new H))).
Defined.
