(* ===== verification/HubTheorems.v ===== *)
(** What the hub guarantees over all interleavings of its goroutines, and the
    two races in Shutdown that it does not exclude. *)

From S2P Require Import Prelude Strconv Utf8 Json JsonFacts JsonLocal Protocol Broker MemoryBroker Store Persistence Metrics Board Client Hub System Sessions Identity Lifecycle Liveness Schedule Examples.
Local Open Scope Z_scope.

Abbreviation mhub := (Hub.Hub Memory MemoryStore.Memory).

(** ** Concrete runs *)

(** The state a schedule leads to from an empty hub. *)
Definition after (st : option MemoryStore.Memory) (l : list action) : mhub := default (mem_hub st) (run l (mem_hub st)).

(** Every action of the schedule is enabled. *)
Definition runs (st : option MemoryStore.Memory) (l : list action) : bool :=
  match run l (mem_hub st) with Some _ => true | None => false end.

Lemma after_reachable st l : runs st l = true -> reachable NewMemory st (after st l).
Proof.
  unfold runs, after. destruct (run l (mem_hub st)) as [h|] eqn:Hr; [|done]. intros _. simpl.
  eapply run_reachable; [apply reachable_new|exact Hr].
Qed.

(** The schedule runs, and no identifier is drawn twice. *)
Definition apart (h h' : mhub) : bool :=
  bool_decide (map_Forall (fun k cl' => h_clients h !! k = None -> map_Forall (fun _ cl => c_id cl <> c_id cl') (h_clients h))
    (h_clients h')).

Fixpoint runs_apart (l : list action) (h : mhub) : bool :=
  match l with
  | [] => true
  | x :: l' => match act x h with Some h' => apart h h' && runs_apart l' h' | None => false end
  end.

Lemma runs_apart_sound l (h : mhub) : runs_apart l h = true -> rtc goes_apart h (default h (run l h)).
Proof.
  revert h. induction l as [|x l IH]; intros h; [by left|]. simpl. destruct (act x h) as [h1|] eqn:Ex; [|done].
  intros [Ha Hr]%andb_true_iff. apply bool_decide_eq_true in Ha. simpl. eapply (rtc_l _ _ h1).
  - split; [by apply (act_sound x)|]. intros k cl' Hk Hn j cl Hj. by apply (Ha k cl' Hk Hn j cl).
  - specialize (IH h1 Hr). destruct (run l h1) as [h2|] eqn:E; [done|]. simpl in *.
    exfalso. clear -Hr E. revert h1 Hr E. induction l as [|y l IH]; intros h1; [done|]. simpl.
    destruct (act y h1) as [h2|]; [|done]. intros [_ Hr]%andb_true_iff. by apply IH.
Qed.

(** A session on its way in. *)
Definition joining : mhub := after None [AServe "b" "" "" []; AStart 0].

Lemma joining_reachable : reachable NewMemory None joining.
Proof. apply after_reachable. by vm_compute. Qed.

(** Two sessions on a board, the first of which leaves. *)
Definition pair_leaving : mhub := after None
  [AServe "b" "" "" []; AStart 0; ARegister 1; AServe "b" "" "" ["a"%char]; ARegister 2;
   ARequest 1; ARequest 1; ARequest 1; ADirect 1; ARequest 1; ADirect 1; AOnboarded 1;
   AReadError 1; AStop 1; APumpEnd 1; AWait 1; ARequest 1; ARequest 1; ALeft 1; ARelease 1].

Lemma pair_leaving_reachable : reachable NewMemory None pair_leaving.
Proof. apply after_reachable. by vm_compute. Qed.

(** ** Safety *)

Section generic.
Context {B S : Type} {BR : Broker B} {ST : Store S} {F : Float64}.

(** Every board's client set is its present clients, open and with their
    queues, and empty unless the board is in its loop. *)
Definition consistent (h : Hub.Hub B S) : Prop :=
  forall a bo, h_objects h !! a = Some bo -> board_inv a (board_state bo h) /\ (bo_phase bo <> Running -> bo_clients bo = ∅).
End generic.

(** C1: no goroutine of the hub ever panics: in every interleaving of any number
    of connections, boards, shutdown calls and the snapshot coordinator, with
    whatever messages, disconnects, timeouts and broker or store faults, no
    channel is closed twice or sent on after it is closed, and every board's
    client set is exactly its present clients with open queues. *)
Theorem hub_never_panics {B S} {BR : Broker B} {ST : Store S} {F : Float64} (b : B) (st : option S) h o :
  reachable b st h -> step h o -> exists h', o = Some h' /\ consistent h'.
Proof.
  intros Hre Hst. destruct (step_inv h o (reachable_inv b st h Hre) Hst) as (h' & -> & Hi).
  exists h'. split; [done|]. intros a bo Ha. by apply (i_board h' Hi).
Qed.

Lemma enabled_step x (h : mhub) : (match act x h with Some _ => true | None => false end) = true ->
  exists h1, step h (Some h1).
Proof. destruct (act x h) as [h1|] eqn:E; [|done]. intros _. exists h1. by apply (act_sound x). Qed.

Lemma hub_never_panics_witness : exists h1,
  reachable NewMemory None joining /\ step joining (Some h1) /\ exists h', Some h1 = Some h' /\ consistent h'.
Proof.
  destruct (enabled_step (ARegister 1) joining) as [h1 Hst]; [by vm_compute|]. exists h1.
  exact (conj joining_reachable (conj Hst (hub_never_panics NewMemory None joining _ joining_reachable Hst))).
Defined.

(** C15: the hub's books balance in every reachable state: the wait group counts
    the live sessions, each registered board is open and its entry counts
    exactly the sessions that hold it, always at least one, until Shutdown a
    session's board stays registered as long as the session holds it, and the
    events emitted so far count the connected sessions and the live boards. *)
Theorem registry_counts {B S} {BR : Broker B} {ST : Store S} {F : Float64} (b : B) (st : option S) h :
  reachable b st h ->
  h_sessions h = mcount (fun _ => true) (h_serve h) /\
  (forall id e, h_boards h !! id = Some e -> 0 < be_count e /\ exists bo,
     h_objects h !! be_board e = Some bo /\ bo_id bo = id /\ bo_quit bo = false /\
     be_count e = mcount (holds (be_board e)) (h_serve h)) /\
  (h_closing h = false -> forall k s, h_serve h !! k = Some s -> holding (s_pc s) = true ->
     exists bo e, h_objects h !! s_board s = Some bo /\ h_boards h !! bo_id bo = Some e /\ be_board e = s_board s) /\
  total event_conns (h_trace h) = mcount (fun s => connected (s_pc s)) (h_serve h) /\
  total event_boards (h_trace h) = mcount alive (h_objects h).
Proof.
  intros Hre. pose proof (reachable_inv b st h Hre) as Hi. split_and!; [apply Hi| |apply Hi|apply Hi|apply Hi].
  intros id e He. split; [by eapply reachable_positive|by apply (i_entry h Hi)].
Qed.

Lemma registry_counts_witness : reachable NewMemory None joining /\
  h_sessions joining = mcount (fun _ => true) (h_serve joining) /\
  (forall id e, h_boards joining !! id = Some e -> 0 < be_count e /\ exists bo,
     h_objects joining !! be_board e = Some bo /\ bo_id bo = id /\ bo_quit bo = false /\
     be_count e = mcount (holds (be_board e)) (h_serve joining)) /\
  (h_closing joining = false -> forall k s, h_serve joining !! k = Some s -> holding (s_pc s) = true ->
     exists bo e, h_objects joining !! s_board s = Some bo /\ h_boards joining !! bo_id bo = Some e /\
       be_board e = s_board s) /\
  total event_conns (h_trace joining) = mcount (fun s => connected (s_pc s)) (h_serve joining) /\
  total event_boards (h_trace joining) = mcount alive (h_objects joining).
Proof. exact (conj joining_reachable (registry_counts NewMemory None joining joining_reachable)). Defined.

(** ** Progress *)

(** Until Shutdown, a join is never lost: a session that is about to
    register finds its board alive, whoever else leaves meanwhile, and at most
    two steps of the board later it is in the board's client set and goes on. *)
Theorem join_never_lost {B S} {BR : Broker B} {ST : Store S} {F : Float64} (b : B) (st : option S) h k s :
  reachable b st h -> h_closing h = false -> h_serve h !! k = Some s -> s_pc s = SRegister ->
  exists h' s' p, rtc goes h h' /\ h_serve h' !! k = Some s' /\ s_pc s' = SOnboard p /\
    exists bo, h_objects h' !! s_board s = Some bo /\ k ∈ bo_clients bo.
Proof. apply register_completes. Qed.

Definition first_session : Session := {| s_board := 0; s_pc := SRegister; s_pump := WNone |}.

Lemma join_never_lost_witness :
  reachable NewMemory None joining /\ h_closing joining = false /\
  h_serve joining !! 1%nat = Some first_session /\ s_pc first_session = SRegister /\
  exists h' s' p, rtc goes joining h' /\ h_serve h' !! 1%nat = Some s' /\ s_pc s' = SOnboard p /\
    exists bo, h_objects h' !! s_board first_session = Some bo /\ 1%nat ∈ bo_clients bo.
Proof.
  assert (h_closing joining = false) as H1 by (by vm_compute).
  assert (h_serve joining !! 1%nat = Some first_session) as H2 by (by vm_compute).
  exact (conj joining_reachable (conj H1 (conj H2 (conj eq_refl
    (join_never_lost NewMemory None joining 1%nat first_session joining_reachable H1 H2 eq_refl))))).
Defined.

(** A leave never blocks for good: whatever state the board is in, starting,
    running, closing or gone, and also during Shutdown, a session that hands in
    its client is past that after at most two steps. *)
Theorem leave_never_stuck {B S} {BR : Broker B} {ST : Store S} {F : Float64} (b : B) (st : option S) h k s :
  reachable b st h -> h_serve h !! k = Some s -> s_pc s = SUnregister ->
  exists h' s', rtc goes h h' /\ h_serve h' !! k = Some s' /\ s_pc s' = SEnd.
Proof. apply unregister_completes. Qed.

Lemma leave_never_stuck_witness : exists s,
  reachable NewMemory None pair_leaving /\ h_serve pair_leaving !! 1%nat = Some s /\ s_pc s = SUnregister /\
  exists h' s', rtc goes pair_leaving h' /\ h_serve h' !! 1%nat = Some s' /\ s_pc s' = SEnd.
Proof.
  exists {| s_board := 0; s_pc := SUnregister; s_pump := WEnd |}.
  assert (h_serve pair_leaving !! 1%nat = Some {| s_board := 0; s_pc := SUnregister; s_pump := WEnd |}) as H
    by (by vm_compute).
  exact (conj pair_leaving_reachable (conj H (conj eq_refl
    (leave_never_stuck NewMemory None pair_leaving 1%nat _ pair_leaving_reachable H eq_refl)))).
Defined.

(** Nothing leaks: when the last session has gone, however it went, no board
    is left in the registry, every board ever made has been told to quit, and the
    wait group and the connection gauge are back to zero. *)
Theorem no_board_leaks {B S} {BR : Broker B} {ST : Store S} {F : Float64} (b : B) (st : option S) h :
  reachable b st h -> h_closing h = false -> h_serve h = ∅ ->
  h_boards h = ∅ /\ (forall a bo, h_objects h !! a = Some bo -> bo_quit bo = true) /\
  h_sessions h = 0 /\ total event_conns (h_trace h) = 0.
Proof. apply quiescent. Qed.

(** Everybody has left, and the board's goroutine has not noticed yet. *)
Definition all_left : mhub := after (Some MemoryStore.NewMemory) (take 25 missed).

Lemma all_left_reachable : reachable NewMemory (Some MemoryStore.NewMemory) all_left.
Proof. apply after_reachable. by vm_compute. Qed.

Lemma no_board_leaks_witness :
  reachable NewMemory (Some MemoryStore.NewMemory) all_left /\ h_closing all_left = false /\ h_serve all_left = ∅ /\
  h_boards all_left = ∅ /\ (forall a bo, h_objects all_left !! a = Some bo -> bo_quit bo = true) /\
  h_sessions all_left = 0 /\ total event_conns (h_trace all_left) = 0.
Proof.
  assert (h_closing all_left = false) as H1 by (by vm_compute).
  assert (h_serve all_left = ∅) as H2 by (by vm_compute).
  exact (conj all_left_reachable (conj H1 (conj H2
    (no_board_leaks NewMemory _ all_left all_left_reachable H1 H2)))).
Defined.

(** ** The life of a board and of the hub *)

Section runs.
Context {B S : Type} {BR : Broker B} {ST : Store S} {F : Float64}.
Implicit Types h : Hub.Hub B S.

Lemma reachable_rtc (b : B) (st : option S) h h' : reachable b st h -> rtc goes h h' -> reachable b st h'.
Proof using Type.
  intros Hre Hr. induction Hr as [|h h1 h2 Hg _ IH]; [done|]. apply IH. by eapply reachable_step.
Qed.

Lemma rtc_ageing (b : B) (st : option S) h h' a bo : reachable b st h -> rtc goes h h' ->
  h_objects h !! a = Some bo -> exists bo', h_objects h' !! a = Some bo' /\ ages bo bo'.
Proof using Type.
  intros Hre Hr. revert bo. induction Hr as [h|h h1 h2 Hg _ IH]; intros bo Ha.
  - exists bo. split; [done|]. split_and!; [done|lia|done].
  - destruct (step_ageing h h1 (reachable_inv b st h Hre) Hg a bo Ha) as (bo1 & Ha1 & E1 & R1 & Q1).
    destruct (IH (reachable_step b st h h1 Hre Hg) bo1 Ha1) as (bo2 & Ha2 & E2 & R2 & Q2).
    exists bo2. split; [done|]. split_and!; [congruence|lia|auto].
Qed.

Lemma rtc_closing h h' : rtc goes h h' -> h_closing h = true ->
  h_closing h' = true /\ forall k, h_serve h !! k = None -> h_serve h' !! k = None.
Proof using Type.
  induction 1 as [h|h h1 h2 Hg _ IH]; intros Hc; [done|].
  destruct (closing_step h h1 Hg Hc) as [Hc1 Hk]. destruct (IH Hc1) as [? Hk2]. auto.
Qed.
End runs.

(** Boards only grow older: from any reachable state, in any later one a
    board has the same identifier, a phase no earlier in the order starting,
    running, closing, stopped, and its quit signal, once given, stands; in
    particular a stopped board never runs again. *)
Theorem boards_only_age {B S} {BR : Broker B} {ST : Store S} {F : Float64} (b : B) (st : option S) h h' a bo :
  reachable b st h -> rtc goes h h' -> h_objects h !! a = Some bo ->
  exists bo', h_objects h' !! a = Some bo' /\ bo_id bo' = bo_id bo /\ rank (bo_phase bo) <= rank (bo_phase bo') /\
    (bo_quit bo = true -> bo_quit bo' = true).
Proof. apply rtc_ageing. Qed.

Lemma boards_only_age_witness : exists bo,
  reachable NewMemory None joining /\ rtc goes joining joining /\ h_objects joining !! 0%nat = Some bo /\
  exists bo', h_objects joining !! 0%nat = Some bo' /\ bo_id bo' = bo_id bo /\
    rank (bo_phase bo) <= rank (bo_phase bo') /\ (bo_quit bo = true -> bo_quit bo' = true).
Proof.
  exists (set_phase Running (newBoard "b")).
  assert (h_objects joining !! 0%nat = Some (set_phase Running (newBoard "b"))) as H by (by vm_compute).
  exact (conj joining_reachable (conj (rtc_refl goes joining) (conj H
    (boards_only_age NewMemory None joining joining 0%nat _ joining_reachable (rtc_refl goes joining) H)))).
Defined.

(** After Shutdown has begun no session is admitted any more: the hub stays
    closing, and no session that was not there appears, whatever connects. *)
Theorem closing_admits_nobody {B S} {BR : Broker B} {ST : Store S} {F : Float64} (h h' : Hub.Hub B S) :
  rtc goes h h' -> h_closing h = true ->
  h_closing h' = true /\ forall k, h_serve h !! k = None -> h_serve h' !! k = None.
Proof. apply rtc_closing. Qed.

(** A hub that is shutting down, and another connection. *)
Definition closed : mhub := after None [AShutdown].
Definition refused : mhub := after None [AShutdown; AServe "b" "" "" []].

Lemma closed_refused : rtc goes closed refused.
Proof. apply rtc_once. apply (act_sound (AServe "b" "" "" [])). by vm_compute. Qed.

Lemma closing_admits_nobody_witness :
  rtc goes closed refused /\ h_closing closed = true /\
  h_closing refused = true /\ forall k, h_serve closed !! k = None -> h_serve refused !! k = None.
Proof.
  assert (h_closing closed = true) as H by (by vm_compute).
  exact (conj closed_refused (conj H (closing_admits_nobody closed refused closed_refused H))).
Defined.





(** ** Cursors *)

(** C12: a cursor is shared with everybody else: in every run of the hub whose
    random draws do not collide, when a running board relays the cursor that
    one of its clients has published, whatever identifier that client claimed
    in it, the board does not panic, the client itself gets nothing back, and
    every other client of the board gets it at the end of its queue if there is
    room; none is removed for lack of it. *)
Theorem cursor_shared {B S} {BR : Broker B} {ST : Store S} {F : Float64} {FL : Float64Laws} (b : B) (st : option S)
    h a bo k cl bid env msg order :
  rtc goes_apart (New b st) h -> h_objects h !! a = Some bo -> bo_phase bo = Running ->
  k ∈ bo_clients bo -> h_clients h !! k = Some cl -> publishCursor bid cl env = request_ (RPublish bid msg) ->
  enumerates order (board_state bo h) ->
  exists h', on_board a (dispatch order msg) h = Some (Some h') /\ h_clients h' !! k = Some cl /\
    forall k' cl', k' <> k -> k' ∈ bo_clients bo -> h_clients h !! k' = Some cl' ->
      h_clients h' !! k' = Some (if room cl' then enqueue msg cl' else cl').
Proof.
  intros Hr. destruct (apart_identified b st h Hr) as [Hre Hid].
  apply cursor_shared_with_others; [by eapply reachable_inv|done].
Qed.

(** Two members, the first of which sends a cursor under the other's name. *)
Definition two_members : mhub := default (mem_hub None) (run
  [AServe "b" "" "" []; AStart 0; ARegister 1; AServe "b" "" "" ["a"%char]; ARegister 2] (mem_hub None)).

Definition stray_cursor : Envelope :=
  (Unmarshal dec_Envelope ("{" +:+ quoted "type" +:+ ":" +:+ quoted "cursor" +:+ "," +:+ quoted "payload" +:+ ":{" +:+
     quoted "clientId" +:+ ":" +:+ quoted "61" +:+ "," +:+ quoted "x" +:+ ":1," +:+ quoted "y" +:+ ":2}}") Envelope_zero).1.

Definition first_member : Client := default
  {| c_id := ""; c_name := ""; c_color := ""; c_board := 0; c_send := []; c_closed := false; c_conn := false; c_present := false |}
  (h_clients two_members !! 1%nat).
Definition their_board : Hub.Board := default (newBoard "") (h_objects two_members !! 0%nat).
Definition its_cursor : string := default "" (head (first_publication (publishCursor "b" first_member stray_cursor))).

Lemma cursor_shared_witness :
  rtc goes_apart (New NewMemory None) two_members /\ h_objects two_members !! 0%nat = Some their_board /\
  bo_phase their_board = Running /\ 1%nat ∈ bo_clients their_board /\ 2%nat ∈ bo_clients their_board /\
  h_clients two_members !! 1%nat = Some first_member /\
  publishCursor "b" first_member stray_cursor = request_ (RPublish "b" its_cursor) /\
  enumerates (elements (bo_clients their_board)) (board_state their_board two_members) /\
  exists h', on_board 0 (dispatch (elements (bo_clients their_board)) its_cursor) two_members = Some (Some h') /\
    h_clients h' !! 1%nat = Some first_member /\
    forall k' cl', k' <> 1%nat -> k' ∈ bo_clients their_board -> h_clients two_members !! k' = Some cl' ->
      h_clients h' !! k' = Some (if room cl' then enqueue its_cursor cl' else cl').
Proof.
  assert (rtc goes_apart (New NewMemory None) two_members) as H1 by (apply runs_apart_sound; by vm_compute).
  assert (h_objects two_members !! 0%nat = Some their_board) as H2 by (by vm_compute).
  assert (bo_phase their_board = Running) as H3 by (by vm_compute).
  assert (1%nat ∈ bo_clients their_board) as H4 by (apply (bool_decide_unpack _); by vm_compute).
  assert (2%nat ∈ bo_clients their_board) as H4' by (apply (bool_decide_unpack _); by vm_compute).
  assert (h_clients two_members !! 1%nat = Some first_member) as H5 by (by vm_compute).
  assert (publishCursor "b" first_member stray_cursor = request_ (RPublish "b" its_cursor)) as H6 by (by vm_compute).
  assert (enumerates (elements (bo_clients their_board)) (board_state their_board two_members)) as H7
    by exact (enumerates_elements (board_state their_board two_members)).
  exact (conj H1 (conj H2 (conj H3 (conj H4 (conj H4' (conj H5 (conj H6 (conj H7
    (cursor_shared NewMemory None two_members 0 their_board 1 first_member "b" stray_cursor its_cursor _ H1 H2 H3 H4 H5 H6 H7))))))))).
Defined.

(** ** Coming to rest *)

(** C2: nobody waits for ever: from every reachable state before Shutdown, if
    nothing new happens (no connection, message, delivery, timer or call),
    then after finitely many steps of the hub's own goroutines, however they are
    scheduled, whatever the broker and the store answer and whichever
    connections break or calls give up meanwhile, every session that is left
    reads from an open connection, is in the client set of its running board and
    has been sent all that is queued for it (unless its write pump has failed),
    and every other board has stopped; until then some goroutine can always go
    on without help from outside. *)
Theorem hub_serves_everybody {B S} {BR : Broker B} {ST : Store S} {F : Float64} (b : B) (st : option S) h :
  reachable b st h -> h_closing h = false -> inevitably can_go works served h.
Proof. apply serves. Qed.

Lemma hub_serves_everybody_witness : reachable NewMemory None pair_leaving /\ h_closing pair_leaving = false /\
  inevitably can_go works served pair_leaving.
Proof.
  assert (h_closing pair_leaving = false) as H by (by vm_compute).
  exact (conj pair_leaving_reachable (conj H (hub_serves_everybody NewMemory None pair_leaving pair_leaving_reachable H))).
Defined.





(** A session whose write pump has failed, and a message for it. *)
Definition lingering : mhub := after None
  [AServe "b" "" "" []; AStart 0; ARegister 1;
   ARequest 1; ARequest 1; ARequest 1; ADirect 1; ARequest 1; ADirect 1; AOnboarded 1;
   AWrite 1; AWrite 1; APumpEnd 1; ADispatch 0 "{}"].

(** The end of the write pump does not end the session: after a failed
    heartbeat or write the session keeps reading, its client stays in the
    board's set and on the roster, and what the board queues for it is never
    sent; the process is at rest then, so only the peer, a queue that overflows
    or Shutdown can change that. *)
Theorem failed_pump_lingers :
  reachable NewMemory None lingering /\ settled lingering /\ (forall h', ~ can_go lingering h') /\
  (exists s cl bo, h_serve lingering !! 1%nat = Some s /\ s_pc s = SRead /\ s_pump s = WEnd /\
     h_clients lingering !! 1%nat = Some cl /\ c_send cl = ["{}"] /\ c_conn cl = false /\
     h_objects lingering !! 0%nat = Some bo /\ 1%nat ∈ bo_clients bo /\
     v_presence (mem_view (h_broker lingering) "b") !! c_id cl <> None).
Proof.
  assert (reachable NewMemory None lingering) as Hre by (apply after_reachable; by vm_compute).
  assert (settled lingering) as Hset.
  { assert (h_serve lingering = {[1%nat := {| s_board := 0; s_pc := SRead; s_pump := WEnd |}]}) as Es by (by vm_compute).
    split; [intros k s|intros a bo|by vm_compute].
    - rewrite Es. intros [<- <-]%lookup_singleton_Some. left. split.
      + exact eq_refl.
      + eexists. split; [by vm_compute|]. split; [by vm_compute|]. apply (bool_decide_unpack _). by vm_compute.
      + eexists. split; [by vm_compute|]. split; [by vm_compute|discriminate].
    - intros Ha. left. assert (map_Forall (fun _ bo => bo_phase bo = Running /\ bo_quit bo = false) (h_objects lingering)) as Hall.
      { replace (h_objects lingering) with ({[0%nat := default (newBoard "") (h_objects lingering !! 0%nat)]} : gmap nat Board)
          by (by vm_compute).
        apply map_Forall_singleton. vm_compute; split; exact eq_refl. }
      exact (Hall a bo Ha). }
  split; [exact Hre|split; [exact Hset|split]].
  - intros h' Hg. apply (settled_rests lingering);
      [exact (reachable_inv _ _ _ Hre)|exact (reachable_live _ _ _ Hre)|exact Hset|by exists h'].
  - eexists _, _, _. split_and!; try (apply (bool_decide_unpack _)); by vm_compute.
Qed.

(** ** Metrics *)



(** ** Two races in Shutdown *)


(** Shutdown can return without an error before a board has written its
    final snapshot: a board whose last client has just left is no longer in the
    registry, so Shutdown does not wait for its goroutine; the shape that was
    drawn on it is not in the store when Shutdown returns. *)
Theorem shutdown_misses_a_board :
  let h := after (Some MemoryStore.NewMemory) missed in
  reachable NewMemory (Some MemoryStore.NewMemory) h /\ h_shut h = HReturned true [] /\
  (exists bo, h_objects h !! 0%nat = Some bo /\ bo_phase bo = Running /\ bo_quit bo = true) /\
  h_store h = Some MemoryStore.NewMemory /\ 0 < v_seq (mem_view (h_broker h) "b").
Proof.
  intros h. split_and!; [apply after_reachable; by vm_compute|by vm_compute| |by vm_compute|by vm_compute].
  eexists. split; [by vm_compute|]. by vm_compute.
Qed.
