(* ===== verification/PumpTheorems.v ===== *)
(** What the write pump guarantees: the order and completeness of what it
    sends, how soon it notices that its peer is gone, that it ends, and that
    the hub's model of it allows for all it does. *)

From S2P Require Import Prelude Strconv Utf8 Json JsonFacts JsonLocal Protocol Broker MemoryBroker Store Persistence Metrics Board Conn Client Pump Hub System PumpHub Sessions Lifecycle Liveness Schedule Examples HubTheorems.
Local Open Scope Z_scope.

(** ** Theorems *)

Section theorems.
Context {C : Type} {CN : Conn C} {CL : ConnLaws C}.

Lemma pump_accounted (c : C) now queue p : rtc pump_step (start c now queue) p -> accounted (sent c) p.
Proof using Type.
  intros Hr. assert (accounted (sent c) (start c now queue)) as Ha by apply start_accounted.
  induction Hr as [p|p1 p2 p3 Hs _ IH]; [done|]. apply IH. by eapply step_accounted.
Qed.

Lemma pump_ticking (c : C) now queue p : rtc pump_step (start c now queue) p -> ticking p.
Proof using Type CL.
  intros Hr. pose proof (start_ticking c now queue) as Ht.
  induction Hr as [p|p1 p2 p3 Hs _ IH]; [done|]. apply IH. by eapply step_ticking.
Qed.
End theorems.

(** C13: the write pump sends what the board queues, in that order, each message
    once and nothing else: at any time what the peer has been handed are the
    first messages ever queued, all the others are still in the queue but for
    one whose write failed, and a pump that has ended because its queue was
    closed has sent everything. *)
Theorem pump_sends_in_order {C} {CN : Conn C} {CL : ConnLaws C} (c : C) now queue p :
  rtc pump_step (start c now queue) p ->
  exists out lost, sent (p_conn p) = sent c ++ out /\ p_in p = out ++ lost ++ p_queue p /\
    (length lost <= 1)%nat /\ (lost <> [] -> p_end p = Some WriteFailed) /\
    (p_end p = Some QueueClosed -> out = p_in p).
Proof.
  intros Hr. destruct (pump_accounted c now queue p Hr) as [(out & lost & Es & Ei & Hl & Hf) He].
  exists out, lost. split_and!; [done..|]. intros E. destruct (He E) as [_ Eq].
  destruct lost; [|by rewrite Hf in E]. by rewrite Ei, Eq, app_nil_r.
Qed.

(** Two messages for a live peer, then the end. *)
Definition sending : Pump (conn Wire) := start (socket true) 0 ["a"; "b"].
Definition has_sent : Pump (conn Wire) := turn CSend (close_queue (turn CSend (turn CSend sending))).

Lemma has_sent_steps : rtc pump_step sending has_sent.
Proof.
  eapply rtc_l; [left; by apply (os_turn sending CSend)|]. eapply rtc_l; [left; by apply (os_turn _ CSend)|].
  eapply rtc_l; [right; by apply ot_close|]. apply rtc_once. left. by apply (os_turn _ CSend).
Qed.

Lemma pump_sends_in_order_witness : rtc pump_step sending has_sent /\
  sent (p_conn has_sent) = ["a"; "b"] /\ p_end has_sent = Some QueueClosed /\
  exists out lost, sent (p_conn has_sent) = sent (socket true) ++ out /\ p_in has_sent = out ++ lost ++ p_queue has_sent /\
    (length lost <= 1)%nat /\ (lost <> [] -> p_end has_sent = Some WriteFailed) /\
    (p_end has_sent = Some QueueClosed -> out = p_in has_sent).
Proof. exact (conj has_sent_steps (conj eq_refl (conj eq_refl (pump_sends_in_order (socket true) 0 ["a"; "b"] has_sent has_sent_steps)))). Defined.

(** C26: a silent peer is noticed: if the peer answers no heartbeat and there is
    nothing to send, then the write pump ends, whatever else happens to it,
    within the period of the heartbeat and the time one may take, forty seconds
    in all. *)
Theorem silent_peer_noticed {C} {CN : Conn C} {CL : ConnLaws C} (c : C) now queue p :
  rtc pump_step (start c now queue) p -> p_end p = None -> p_queue p = [] -> silent (p_conn p) ->
  inevitably own_step idle_step (fun p' => p_end p' <> None /\ p_now p' <= p_now p + 40 * second) p.
Proof.
  intros Hr E Hq Hs. assert (pingInterval + pingTimeout = 40 * second) as Ei by done.
  eapply inevitably_mono, (silence_noticed p); [|done|by eapply pump_ticking|done|done].
  intros p' [He Ht]. split; [done|lia].
Qed.

Lemma socket_silent : silent (socket false).
Proof. intros ctx now. by eexists. Qed.

Lemma silent_peer_noticed_witness :
  rtc pump_step (start (socket false) 5 []) (start (socket false) 5 []) /\ silent (socket false) /\
  inevitably own_step idle_step (fun p' => p_end p' <> None /\ p_now p' <= 5 + 40 * second) (start (socket false) 5 []).
Proof.
  exact (conj (rtc_refl _ _) (conj socket_silent
    (silent_peer_noticed (socket false) 5 [] (start (socket false) 5 []) (rtc_refl _ _) eq_refl eq_refl socket_silent))).
Defined.

(** C25: a removed client's pump ends: once the board has closed its queue, the
    write pump returns after finitely many steps, whatever the peer does and
    whichever of its ready cases each select chooses, heartbeats included; and
    if neither a write nor a heartbeat failed and nobody cancelled it, it has
    sent all that was queued before. *)
Theorem closed_queue_drains {C} {CN : Conn C} {CL : ConnLaws C} (c : C) now queue p :
  rtc pump_step (start c now queue) p -> p_closed p = true ->
  inevitably own_step pump_step (fun p' => p_end p' <> None /\
    (p_end p' = Some QueueClosed -> sent (p_conn p') = sent c ++ p_in p')) p.
Proof.
  intros Hr Hc. set (I := fun p => rtc pump_step (start c now queue) p).
  assert (forall p1 p2, I p1 -> pump_step p1 p2 -> I p2) as Hinv by (intros p1 p2 H1 H2; by eapply rtc_r).
  eapply inevitably_mono, (inevitably_inv _ _ I Hinv _ _ Hr), (closed_ends p Hc (pump_ticking c now queue p Hr)).
  intros p' [Hr' He]. split; [done|]. intros E. destruct (pump_accounted c now queue p' Hr') as [(out & lost & Es & Ei & _ & Hf) Hq].
  destruct (Hq E) as [_ Eq]. destruct lost; [|by rewrite Hf in E]. by rewrite Es, Ei, Eq, !app_nil_r.
Qed.

Lemma closed_queue_drains_witness : rtc pump_step sending (close_queue sending) /\
  inevitably own_step pump_step (fun p' => p_end p' <> None /\
    (p_end p' = Some QueueClosed -> sent (p_conn p') = sent (socket true) ++ p_in p')) (close_queue sending).
Proof.
  assert (rtc pump_step sending (close_queue sending)) as H by (apply rtc_once; right; by apply ot_close).
  exact (conj H (closed_queue_drains (socket true) 0 ["a"; "b"] (close_queue sending) H eq_refl)).
Defined.





