(* ===== verification/CoordinatorTheorems.v ===== *)
(** What the snapshot coordinator and [Close] guarantee: they add nothing to
    what the hub may do, [Close] always returns and stops the coordinator for
    good, and a pass checkpoints every board. *)

From S2P Require Import Prelude Strconv Utf8 Json JsonFacts JsonLocal Protocol Broker MemoryBroker Store Persistence Metrics Board Client Hub System Lifecycle Schedule Examples Coordinator.
Local Open Scope Z_scope.

Abbreviation mstate := (Hub.Hub Memory MemoryStore.Memory * Coord)%type.

(** A hub with a store, a shape drawn on its one board, and its coordinator
    after the tick. *)
Definition drawing : option (Hub.Hub Memory MemoryStore.Memory) :=
  run [AServe "b" "" "" []; AStart 0; ARegister 1;
       ARequest 1; ARequest 1; ARequest 1; ADirect 1; ARequest 1; ADirect 1; AOnboarded 1;
       ARead 1 shape_message; ARequest 1; ARequest 1; ARequest 1; AHandled 1] (mem_hub (Some MemoryStore.NewMemory)).

Definition drawn_hub : Hub.Hub Memory MemoryStore.Memory := default (mem_hub (Some MemoryStore.NewMemory)) drawing.

Definition ticked : Coord := set_loop (LSave ["b"]) (start (Some MemoryStore.NewMemory)).

(** And with a caller of [Close] besides. *)
Definition closing : Coord := set_closer 7 KOnce ticked.

Lemma creachable_rtc {B S} {BR : Broker B} {ST : Store S} {F : Float64} (b : B) (st : option S) s s' :
  creachable b st s -> rtc cgoes s s' -> creachable b st s'.
Proof. intros Hc Hr. induction Hr as [|s s1 s' Hg _ IH]; [done|]. apply IH. by eapply creachable_step. Qed.

Lemma run_creachable {B S} {BR : Broker B} {ST : Store S} {F : Float64} (b : B) (st : option S) l (h h' : Hub.Hub B S) c :
  creachable b st (h, c) -> run l h = Some h' -> creachable b st (h', c).
Proof.
  revert h. induction l as [|x l IH]; intros h Hc; simpl; [by intros [= <-]|].
  intros (h1 & Ha & Hr)%bind_Some. eapply IH; [|done]. eapply creachable_step; [done|].
  apply (cs_hub h c (Some h1)). by apply (act_sound x).
Qed.

Lemma drawn_hub_run : drawing = Some drawn_hub.
Proof. by vm_compute. Qed.

Lemma closing_reachable : creachable NewMemory (Some MemoryStore.NewMemory) (drawn_hub, closing).
Proof.
  eapply (creachable_step _ _ (drawn_hub, ticked)).
  - eapply (creachable_step _ _ (drawn_hub, start (Some MemoryStore.NewMemory))).
    + eapply run_creachable; [apply creachable_new|exact drawn_hub_run].
    + apply cs_tick; [done|]. unfold board_ids. by vm_compute.
  - exact (cs_call drawn_hub ticked 7 ltac:(by vm_compute)).
Qed.

(** C16: the coordinator adds nothing to the hub: in every interleaving of the
    process with its snapshot coordinator and any number of callers of Close,
    no step panics (the stop channel is closed once, the wait group never
    goes negative), and each is a step of the hub by itself, or none; so
    whatever holds of the hub's reachable states holds with its coordinator. *)
Theorem coordinator_refines_hub {B S} {BR : Broker B} {ST : Store S} {F : Float64} (b : B) (st : option S) h c :
  creachable b st (h, c) ->
  reachable b st h /\
  (forall r, cstep (h, c) r -> exists h' c', r = Some (h', c') /\ (h' = h \/ goes h h')).
Proof.
  intros Hre. destruct (creachable_inv b st _ Hre) as [Hi Hc]. split; [exact (creachable_hub b st _ Hre)|].
  intros r Hst. destruct (cstep_inv h c r Hi Hc Hst) as (h' & c' & -> & _). exists h', c'. split; [done|].
  by eapply cstep_hub.
Qed.

Lemma coordinator_refines_hub_witness :
  creachable NewMemory (Some MemoryStore.NewMemory) (drawn_hub, closing) /\
  reachable NewMemory (Some MemoryStore.NewMemory) drawn_hub /\
  (forall r, cstep (drawn_hub, closing) r -> exists h' c', r = Some (h', c') /\ (h' = drawn_hub \/ goes drawn_hub h')).
Proof. exact (conj closing_reachable (coordinator_refines_hub _ _ drawn_hub closing closing_reachable)). Defined.

(** When a call of Close has returned, the coordinator has stopped for
    good: in every later state its goroutine has ended and it has saved no
    further board. *)
Theorem close_stops_coordinator {B S} {BR : Broker B} {ST : Store S} {F : Float64} (b : B) (st : option S)
    (s s' : Hub.Hub B S * Coord) k :
  creachable b st s -> co_closers s.2 !! k = Some KReturned -> rtc cgoes s s' ->
  co_loop s'.2 = LEnd /\ co_saved s'.2 = co_saved s.2.
Proof.
  intros Hre Hk Hr. destruct (creachable_inv b st s Hre) as [_ Hc].
  apply stopped_rtc; [by apply (ci_returned s.2 Hc k)|done].
Qed.

(** The rest of that run: the board is saved, and Close returns. *)
Definition quiet_trace (s : mstate) : mstate * mstate :=
  let h := persist_board Delivered Delivered "b" s.1 in
  let c := saved_one "b" (set_loop (LSave []) s.2) in
  let c := set_loop LSelect c in
  let c := set_closer 7 KClose (set_once OnceBusy c) in
  let c := default c (close_stop c) in
  let c := set_closer 7 KWait (set_once OnceDone c) in
  let c := default c (wg_done c) in
  let c := set_loop LEnd c in
  ((h, c), (h, set_closer 7 KReturned c)).

Lemma close_quiet {B S} {BR : Broker B} {ST : Store S} {F : Float64} (h : Hub.Hub B S) c c' k :
  co_closers c !! k = Some KClose -> close_stop c = Some c' ->
  quiet (h, c) (h, set_closer k KWait (set_once OnceDone c')).
Proof. intros Hk E. right. pose proof (ks_close h c k Hk) as H. by rewrite E in H. Qed.

Lemma stop_quiet {B S} {BR : Broker B} {ST : Store S} {F : Float64} (h : Hub.Hub B S) c c' :
  co_loop c = LSelect -> co_stop c = Some true -> wg_done c = Some c' -> quiet (h, c) (h, set_loop LEnd c').
Proof. intros El Es E. left. pose proof (ls_stop h c El Es) as H. by rewrite E in H. Qed.

Lemma quiet_trace_rtc : rtc quiet (drawn_hub, closing) (quiet_trace (drawn_hub, closing)).2.
Proof.
  eapply rtc_l; [left; by apply (ls_save drawn_hub closing "b" [] Delivered Delivered)|].
  eapply rtc_l; [left; by apply ls_pass|].
  eapply rtc_l; [right; by apply (ks_once _ _ 7)|].
  eapply rtc_l; [by eapply (close_quiet _ _ _ 7)|].
  eapply rtc_l; [by eapply stop_quiet|].
  eapply rtc_l; [right; by apply (ks_wait _ _ 7)|]. apply rtc_refl.
Qed.

Lemma quiet_rtc_cgoes {B S} {BR : Broker B} {ST : Store S} {F : Float64} (s s' : Hub.Hub B S * Coord) :
  rtc quiet s s' -> rtc cgoes s s'.
Proof. apply (rtc_congruence id). intros x y. apply quiet_cgoes. Qed.

Lemma close_stops_coordinator_witness :
  let s := (quiet_trace (drawn_hub, closing)).2 in
  creachable NewMemory (Some MemoryStore.NewMemory) s /\ co_closers s.2 !! 7%nat = Some KReturned /\
  co_loop s.2 = LEnd /\ co_saved s.2 = co_saved s.2.
Proof.
  intros s.
  assert (creachable NewMemory (Some MemoryStore.NewMemory) s) as Hre.
  { eapply creachable_rtc; [apply closing_reachable|]. apply quiet_rtc_cgoes, quiet_trace_rtc. }
  assert (co_closers s.2 !! 7%nat = Some KReturned) as Hk by (by vm_compute).
  exact (conj Hre (conj Hk (close_stops_coordinator _ _ s s 7 Hre Hk (rtc_refl _ _)))).
Defined.

(** C24: Close terminates, without a deadlock: in every reachable state with a
    caller of Close, runs in which no further tick or call comes in have
    at most [work] more steps, and as long as that caller has not returned
    there is a next step, whoever takes it. *)
Theorem close_returns {B S} {BR : Broker B} {ST : Store S} {F : Float64} (b : B) (st : option S)
    (s : Hub.Hub B S * Coord) k p :
  creachable b st s -> co_closers s.2 !! k = Some p ->
  (forall n s', nsteps quiet n s s' -> Z.of_nat n <= work s.2) /\
  (forall s', rtc quiet s s' -> co_closers s'.2 !! k = Some KReturned \/ exists s'', quiet s' s'').
Proof.
  intros Hre Hk. split.
  - intros n s' Hn. pose proof (quiet_bounded n s s' Hn). pose proof (work_nonneg s'.2). lia.
  - intros s' Hr. assert (is_Some (co_closers s'.2 !! k)) as [p' Hk'].
    { assert (is_Some (co_closers s.2 !! k)) as H by eauto. clear Hre Hk.
      induction Hr as [|s s1 s' Hq _ IH]; [done|]. apply IH. by eapply quiet_closer. }
    destruct (creachable_inv b st s' (creachable_rtc b st s s' Hre (quiet_rtc_cgoes _ _ Hr))) as [_ Hc].
    destruct s' as [h' c']. destruct p'; try (right; by eapply quiet_progress). by left.
Qed.

Lemma close_returns_witness :
  creachable NewMemory (Some MemoryStore.NewMemory) (drawn_hub, closing) /\
  co_closers closing !! 7%nat = Some KOnce /\ work closing = 6 /\
  (forall n s', nsteps quiet n (drawn_hub, closing) s' -> Z.of_nat n <= work closing) /\
  (forall s', rtc quiet (drawn_hub, closing) s' -> co_closers s'.2 !! 7%nat = Some KReturned \/ exists s'', quiet s' s'').
Proof.
  assert (co_closers closing !! 7%nat = Some KOnce) as Hk by (by vm_compute).
  assert (work closing = 6) as Hw by (by vm_compute).
  exact (conj closing_reachable (conj Hk (conj Hw (close_returns _ _ (drawn_hub, closing) 7 KOnce closing_reachable Hk)))).
Defined.

(** A pass checkpoints every board: from the tick, the coordinator's steps
    by themselves end the pass after one save per registered board, having
    changed no board; each board is then stored as it was, unless the
    store already held a newer snapshot of it, and what is stored of the other
    boards is untouched. *)
Theorem pass_checkpoints {B S} {BR : Broker B} {BL : BrokerLaws B} {ST : Store S} {SL : StoreLaws S} {F : Float64}
    ids (h : Hub.Hub B S) c s :
  co_loop c = LSave ids -> board_ids ids h -> h_store h = Some s ->
  br_inv (h_broker h) -> st_inv s -> accepts ids (h_broker h) ->
  exists b' s' c', nsteps quiet (Datatypes.S (length ids)) (h, c) (set_services b' (Some s') h, c') /\
    co_loop c' = LSelect /\ co_saved c' = co_saved c ++ ids /\
    (forall o, br_view b' o = br_view (h_broker h) o) /\
    (forall id, is_Some (h_boards h !! id) -> checkpointed (h_broker h) s s' id) /\
    (forall id, h_boards h !! id = None -> st_view s' id = st_view s id).
Proof.
  intros El Hids Es Hb Hs Ha. assert (NoDup ids) as Hn by (rewrite Hids; apply NoDup_fst_map_to_list).
  assert (forall id, id ∈ ids <-> is_Some (h_boards h !! id)) as Hin.
  { intros id. rewrite Hids, list_elem_of_fmap. split.
    - intros ([k e] & -> & He%elem_of_map_to_list). by exists e.
    - intros [e He]. exists (id, e). split; [done|]. by apply elem_of_map_to_list. }
  destruct (pass_steps h c ids El) as (c' & Hst & H1 & H2 & _).
  destruct (pass_spec ids h s Es Hn Hb Hs Ha) as (b' & s' & E & Hv & Hc & Ho). rewrite E in Hst.
  exists b', s', c'. split_and!; [done..| |].
  - intros id Hid. by apply Hc, Hin.
  - intros id Hid. apply Ho. rewrite Hin, Hid. by intros [].
Qed.

Lemma memory_accepts ids (b : Memory) : accepts (S := MemoryStore.Memory) ids b.
Proof.
  intros id snap s _ _ _. split; [done|]. simpl. pose proof (MemoryStore.SaveSnapshot_spec id snap s) as H.
  by destruct (MemoryStore.SaveSnapshot id snap s), H.
Qed.

(** That hub, its broker holding one shape. *)
Definition one_shape : Memory := (MemoryBroker.ApplyShape "b" "s" (Some "{}") false NewMemory).1.

Lemma one_shape_inv : br_inv one_shape.
Proof.
  pose proof (ApplyShape_law Delivered "b" "s" (Some "{}") false NewMemory mem_inv_new ltac:(done)) as H.
  unfold one_shape. change MemoryBroker.ApplyShape with (br_ApplyShape (B := Memory) Delivered).
  by destruct (br_ApplyShape _ _ _ _ _ NewMemory), H.
Qed.

Definition saving_hub : Hub.Hub Memory MemoryStore.Memory := set_services one_shape (Some MemoryStore.NewMemory) drawn_hub.

Lemma saving_ids : board_ids ["b"] saving_hub.
Proof. unfold board_ids. by vm_compute. Qed.

Lemma pass_checkpoints_witness :
  co_loop ticked = LSave ["b"] /\ board_ids ["b"] saving_hub /\
  exists b' s' c', nsteps quiet 2 (saving_hub, ticked) (set_services b' (Some s') saving_hub, c') /\
    co_loop c' = LSelect /\ co_saved c' = co_saved ticked ++ ["b"] /\
    (forall o, br_view b' o = br_view one_shape o) /\
    (forall id, is_Some (h_boards saving_hub !! id) -> checkpointed one_shape MemoryStore.NewMemory s' id) /\
    (forall id, h_boards saving_hub !! id = None -> st_view s' id = st_view MemoryStore.NewMemory id).
Proof.
  exact (conj eq_refl (conj saving_ids (pass_checkpoints ["b"] saving_hub ticked MemoryStore.NewMemory
    eq_refl saving_ids eq_refl one_shape_inv I (memory_accepts ["b"] one_shape)))).
Defined.
