(* ===== verification/DeliveryTheorems.v ===== *)
(** What a publication is guaranteed: over Redis the board reads the library's
    stream unaltered until its context is done and the copying goroutine then
    ends; over the in-process broker every client of every instance is
    written each reliable message once. *)

From S2P Require Import Prelude Strconv Utf8 Json JsonFacts Protocol Broker MemoryBroker Metrics Board Subscription Delivery Stream Relay Examples.
Local Open Scope nat_scope.

(** ** The Redis subscription *)

(** C28: the Redis subscription is faithful: in every reachable state, whatever
    the library delivers and whenever the context is cancelled, no step
    panics; what the board has received and what waits in its buffer is an
    initial part of what the library delivered, in order, and while the
    goroutine runs the rest is in its hand or still in the library's channel;
    the buffer is bounded; the channel is closed only after the context is done
    or the library has closed its own. *)
Theorem redis_stream_faithful s : sub_reachable s ->
  (forall r, sub_step s r -> r <> None) /\
  su_got s ++ su_out s `prefix_of` su_pushed s /\
  (leaving (su_pc s) = false -> su_pushed s = su_got s ++ su_out s ++ held (su_pc s) ++ su_in s) /\
  length (su_out s) <= out_buffer /\
  (su_out_closed s = true -> su_pubsub_closed s = true /\ (su_done s = true \/ su_in_closed s = true)).
Proof.
  intros Hre. pose proof (sub_reachable_inv s Hre) as Hs. pose proof Hs as [(lost & Hf & _ & Hd) Hb Ho Hp Hl].
  split_and!; [|rewrite Hf, app_assoc; by eexists| |done|].
  - intros r Hst. by destruct (sub_step_inv s r Hs Hst) as (s' & -> & _).
  - intros El. destruct lost; [exact Hf|]. destruct Hd as [_ E]; [done|congruence].
  - intros E%Ho. rewrite Hp. split; [by right|]. apply Hl. by rewrite E.
Qed.

(** A subscription that has copied one message and holds another when its
    context is cancelled. *)
Definition cancelled_sub : Sub :=
  cancel (set_pc (PSend "b") (set_in [] (push_in "b" (set_pc PSelect (set_out ["a"]
    (set_pc (PSend "a") (set_in [] (push_in "a" sub_start)))))))).

Lemma cancelled_reachable : sub_reachable cancelled_sub.
Proof.
  assert (forall s s', sub_reachable s -> sub_step s (Some s') -> sub_reachable s') as Hgo by (intros; by eapply sub_reachable_step).
  eapply Hgo; [|apply ss_cancel]. eapply Hgo; [|apply ss_pump; by eapply ps_recv].
  eapply Hgo; [|by apply ss_push].
  eapply Hgo; [|apply ss_pump; apply (ps_send (set_pc (PSend "a") (set_in [] (push_in "a" sub_start))) "a"); [done|simpl; unfold out_buffer; lia]].
  eapply Hgo; [|apply ss_pump; by eapply ps_recv]. eapply Hgo; [|by apply ss_push]. apply sub_reachable_start.
Qed.

Lemma redis_stream_faithful_witness : sub_reachable cancelled_sub /\
  (forall r, sub_step cancelled_sub r -> r <> None) /\
  su_got cancelled_sub ++ su_out cancelled_sub `prefix_of` su_pushed cancelled_sub /\
  (leaving (su_pc cancelled_sub) = false ->
   su_pushed cancelled_sub = su_got cancelled_sub ++ su_out cancelled_sub ++ held (su_pc cancelled_sub) ++ su_in cancelled_sub) /\
  length (su_out cancelled_sub) <= out_buffer /\
  (su_out_closed cancelled_sub = true -> su_pubsub_closed cancelled_sub = true /\
    (su_done cancelled_sub = true \/ su_in_closed cancelled_sub = true)).
Proof. exact (conj cancelled_reachable (redis_stream_faithful cancelled_sub cancelled_reachable)). Defined.

(** The subscription's goroutine does not leak: once its context is done,
    it takes at most two steps per message waiting in the library's channel
    and four more, is blocked in none of its states, whether or not the board
    still reads, and can only stop having closed the library's subscription
    and its own channel, once each. *)
Theorem redis_stream_ends s : sub_reachable s -> su_done s = true ->
  (forall n s', nsteps pump_goes n s s' -> n <= 2 * length (su_in s) + 4) /\
  (forall s', rtc pump_goes s s' ->
     (exists s'', pump_goes s' s'') \/ (su_pc s' = PEnd /\ su_out_closed s' = true /\ su_pubsub_closed s' = true)).
Proof.
  intros Hre Hd. split.
  - intros n s' Hn%pump_bounded. unfold pump_work in *. destruct (su_pc s); lia.
  - intros s' Hr. pose proof (sub_reachable_inv s' (sub_reachable_rtc s s' Hre Hr)) as Hs.
    destruct (decide (su_pc s' = PEnd)) as [E|Hne].
    + right. split_and!; [done|by apply (si_out s' Hs)|apply (si_pubsub s' Hs); by right].
    + left. apply pump_progress; [done| |done]. by rewrite (pump_keeps_done s s' Hr).
Qed.

Lemma redis_stream_ends_witness : sub_reachable cancelled_sub /\ su_done cancelled_sub = true /\
  (forall n s', nsteps pump_goes n cancelled_sub s' -> n <= 2 * length (su_in cancelled_sub) + 4) /\
  (forall s', rtc pump_goes cancelled_sub s' ->
     (exists s'', pump_goes s' s'') \/ (su_pc s' = PEnd /\ su_out_closed s' = true /\ su_pubsub_closed s' = true)).
Proof. exact (conj cancelled_reachable (conj eq_refl (redis_stream_ends cancelled_sub cancelled_reachable eq_refl))). Defined.

(** ** Delivery over the in-process broker *)

(** C8: delivery is exactly once and in order: with any number of instances of
    a board on one broker, any publishers, joins, leaves, messages handed over
    directly and write pumps, interleaved in any way, no step panics, and for
    every client [c] of every instance: the reliable messages it has been
    written or has queued are exactly those it was due, in order; of these the
    relayed ones are exactly the reliable messages its instance has dispatched
    since it joined; and its instance has dispatched, has buffered, is about
    to be sent, or has lost to a full buffer, each publication since it
    subscribed once. So a client there from the start that nothing is in
    flight for, and whose instance has lost nothing, has got every reliable
    publication exactly once. *)
Theorem delivery_exactly_once {M} {Me : Metrics M} {F : Float64} bid (fa : Fan M) :
  fan_reachable bid fa ->
  (forall r, fan_step bid fa r -> r <> None) /\
  forall i x c cl, fa_inst fa !! i = Some x -> c ∈ clients (in_board x) -> heap (in_board x) !! c = Some cl ->
    exists due w n, in_due x !! c = Some due /\ in_written x !! c = Some w /\ in_since x !! c = Some n /\
      filter reliable (w ++ c_send cl) = due.*2 /\
      relayed due = filter reliable (drop n (in_log x)) /\
      stream_ok fa x /\
      (n = 0 -> buffered (fa_broker fa) (in_sub x) = [] -> for_sub (in_sub x) (fa_pending fa) = [] ->
       for_sub (in_sub x) (fa_lost fa) = [] -> relayed due ≡ₚ filter reliable (drop (in_from x) (fa_published fa))).
Proof.
  intros Hre. pose proof (fan_reachable_inv bid fa Hre) as Hi. split.
  - intros r Hst. by destruct (fan_step_inv bid fa r Hi Hst) as (fa' & -> & _).
  - intros i x c cl Hx Hc Hcl. destruct (fi_inst bid fa Hi i x Hx) as [_ _ _ _ Hst Hok].
    destruct (Hok c Hc) as (cl' & due & w & n & H1 & H2 & H3 & H4 & _ & H6 & H7).
    rewrite Hcl in H1. injection H1 as <-. exists due, w, n. split_and!; [done..|].
    intros -> E1 E2 E3. unfold stream_ok in Hst. rewrite E1, E2, E3, !app_nil_r in Hst. rewrite H7, Hst. done.
Qed.

(** A run: two instances with a client each, one publication, delivered to
    both boards and written to the first client. *)
Definition visitor (i : nat) : Client :=
  {| c_id := "v"; c_name := "n"; c_color := "#e6194b"; c_board := i; c_send := []; c_closed := false;
     c_conn := false; c_present := false |}.

Inductive move := MSubscribe (i : nat) | MJoin (i c : nat) | MPublish (msg : string) | MSend | MDispatch (i : nat) | MWrite (i c : nat).

Definition move_step {F : Float64} (mv : move) (fa : Fan nopMetrics) : option (Fan nopMetrics) :=
  match mv with
  | MSubscribe i =>
      match fa_inst fa !! i, MemoryBroker.Subscribe "board" (fa_broker fa) with
      | None, (m, Ok s) => Some (put_inst i (new_inst s (length (fa_published fa)) NopMetrics) (put_broker m fa))
      | _, _ => None
      end
  | MJoin i c =>
      x ← fa_inst fa !! i;
      match heap (in_board x) !! c with
      | None => (fun st => put_inst i (joined c st x) fa) <$> join c (set_heap (<[c := visitor i]> (heap (in_board x))) (in_board x))
      | Some _ => None
      end
  | MPublish msg =>
      let '(m, subs) := publish_targets "board" (fa_broker fa) in
      Some {| fa_broker := m; fa_inst := fa_inst fa; fa_pending := fa_pending fa ++ ((fun s => (s, msg)) <$> subs);
              fa_published := fa_published fa ++ [msg]; fa_lost := fa_lost fa |}
  | MSend =>
      match fa_pending fa with
      | (s, msg) :: l => Some {| fa_broker := publish_one msg (fa_broker fa) s; fa_inst := fa_inst fa; fa_pending := l;
          fa_published := fa_published fa; fa_lost := if full (fa_broker fa) s then fa_lost fa ++ [(s, msg)] else fa_lost fa |}
      | [] => None
      end
  | MDispatch i =>
      x ← fa_inst fa !! i; '(msg, m) ← MemoryBroker.receive (in_sub x) (fa_broker fa);
      (fun st => put_inst i (dispatched msg st x) (put_broker m fa)) <$>
        dispatch (elements (clients (in_board x))) msg (in_board x)
  | MWrite i c =>
      x ← fa_inst fa !! i; cl ← heap (in_board x) !! c;
      match c_send cl with
      | msg :: q => Some (put_inst i (wrote c msg (set_heap (<[c := set_send q cl]> (heap (in_board x))) (in_board x)) x) fa)
      | [] => None
      end
  end.

Lemma move_sound {F : Float64} mv fa fa' : move_step mv fa = Some fa' -> fan_step "board" fa (Some fa').
Proof.
  destruct mv as [i|i c|msg| |i|i c]; cbn [move_step]; intros E.
  - destruct (fa_inst fa !! i) eqn:Hi; [done|].
    destruct (MemoryBroker.Subscribe "board" (fa_broker fa)) as [m [s|]] eqn:Es; [|done]. injection E as <-. by apply fs_subscribe.
  - apply bind_Some in E as (x & Hx & E). destruct (heap (in_board x) !! c) eqn:Hc; [done|]. rewrite <-E. by apply fs_join.
  - destruct (publish_targets "board" (fa_broker fa)) as [m subs] eqn:Ep. injection E as <-. by apply fs_publish.
  - destruct (fa_pending fa) as [|[s msg] l] eqn:Ep; [done|]. injection E as <-. exact (fs_send "board" fa [] l s msg Ep).
  - apply bind_Some in E as (x & Hx & E). apply bind_Some in E as ([msg m] & Hr & E). rewrite <-E.
    apply fs_dispatch; [done|apply enumerates_elements|done].
  - apply bind_Some in E as (x & Hx & E). apply bind_Some in E as (cl & Hc & E). destruct (c_send cl) as [|msg q] eqn:Eq; [done|].
    injection E as <-. by eapply fs_write.
Qed.

Definition moves {F : Float64} (l : list move) : option (Fan nopMetrics) := foldl (fun r mv => r ≫= move_step mv) (Some fan_start) l.

Lemma moves_reachable {F : Float64} l fa : moves l = Some fa -> fan_reachable "board" fa.
Proof.
  unfold moves. revert fa. induction l as [|mv l IH] using rev_ind; intros fa; simpl.
  - intros [= <-]. apply fan_reachable_start.
  - rewrite foldl_snoc. intros (fa1 & H1 & H2)%bind_Some. eapply fan_reachable_step; [by apply IH|by apply (move_sound mv)].
Qed.

Definition one_publication : list move :=
  [MSubscribe 0; MSubscribe 1; MJoin 0 5; MJoin 1 6; MPublish "m"; MSend; MSend; MDispatch 0; MDispatch 1; MWrite 0 5].

Definition delivered_fan : Fan nopMetrics := default fan_start (moves one_publication).

Lemma delivered_reachable : fan_reachable "board" delivered_fan.
Proof. apply (moves_reachable one_publication). by vm_compute. Qed.

Lemma delivery_exactly_once_witness : fan_reachable "board" delivered_fan /\
  (exists x, fa_inst delivered_fan !! 0 = Some x /\ in_written x !! 5 = Some ["m"]) /\
  (forall r, fan_step "board" delivered_fan r -> r <> None) /\
  forall i x c cl, fa_inst delivered_fan !! i = Some x -> c ∈ clients (in_board x) -> heap (in_board x) !! c = Some cl ->
    exists due w n, in_due x !! c = Some due /\ in_written x !! c = Some w /\ in_since x !! c = Some n /\
      filter reliable (w ++ c_send cl) = due.*2 /\
      relayed due = filter reliable (drop n (in_log x)) /\
      stream_ok delivered_fan x /\
      (n = 0 -> buffered (fa_broker delivered_fan) (in_sub x) = [] -> for_sub (in_sub x) (fa_pending delivered_fan) = [] ->
       for_sub (in_sub x) (fa_lost delivered_fan) = [] ->
       relayed due ≡ₚ filter reliable (drop (in_from x) (fa_published delivered_fan))).
Proof.
  split; [exact delivered_reachable|]. split; [by vm_compute; eexists|].
  exact (delivery_exactly_once "board" delivered_fan delivered_reachable).
Defined.

(** ** Delivery over any broker *)

Lemma sublist_filter_mono {A} (P : A -> Prop) `{forall x, Decision (P x)} (l1 l2 : list A) :
  l1 `sublist_of` l2 -> filter P l1 `sublist_of` filter P l2.
Proof.
  induction 1 as [|x l1 l2 _ IH|x l1 l2 _ IH]; [done|rewrite !filter_cons; case_decide; [by apply sublist_skip|done]|].
  rewrite filter_cons. case_decide; [by apply sublist_cons|done].
Qed.

(** C9: whatever the broker, its subscription delivers in order: the loop of a
    board on any stream that keeps the contract of [Subscribe], interleaved in
    any way with publishers, joins, leaves, messages handed over directly, write
    pumps, the end of the stream and its own shutdown, never panics; what it has
    dispatched, followed by what waits for it, is a subsequence of what was sent
    to it, so nothing is invented, repeated or reordered; and every client on
    the board has been written or has queued exactly what it was due, in order,
    the relayed part of which is every reliable message dispatched since it
    joined. *)
Theorem any_subscription_relayed {S M} {ST : Stream S} {SL : StreamLaws S} {Me : Metrics M} {F : Float64} b (s : S) (re : Relay S M) :
  str_inv s -> str_received s = [] -> relay_reachable b s re ->
  (forall r, relay_step b re r -> r <> None) /\
  in_log (re_board re) ++ str_waiting (re_stream re) `sublist_of` str_sent (re_stream re) /\
  forall c cl, c ∈ clients (in_board (re_board re)) -> heap (in_board (re_board re)) !! c = Some cl ->
    exists due w n, in_due (re_board re) !! c = Some due /\ in_written (re_board re) !! c = Some w /\
      in_since (re_board re) !! c = Some n /\ filter reliable (w ++ c_send cl) = due.*2 /\
      relayed due = filter reliable (drop n (in_log (re_board re))) /\
      relayed due `sublist_of` filter reliable (str_sent (re_stream re)).
Proof.
  intros Hs Er Hre. pose proof (relay_reachable_inv b s re Hs Er Hre) as Hi. pose proof Hi as [H1 H2 _ _ H5].
  pose proof (str_fifo _ H1) as Hf. rewrite <-H2 in Hf. split_and!; [|done|].
  - intros r Hst. by destruct (relay_step_inv b re r Hi Hst) as (? & -> & _).
  - intros c cl Hc Hcl. destruct (H5 c Hc) as (cl' & due & w & n & E1 & E2 & E3 & E4 & _ & E6 & E7).
    rewrite Hcl in E1. injection E1 as <-. exists due, w, n. split_and!; [done..|]. rewrite E7.
    apply sublist_filter_mono. etrans; [apply sublist_drop|]. etrans; [|exact Hf]. by apply sublist_inserts_r.
Qed.

(** Over Redis: a client joins, one message comes through the copying
    goroutine, and is dispatched and written. *)
Definition relay0 : Relay Sub nopMetrics := relay_start sub_start true NopMetrics.
Definition relay1 : Relay Sub nopMetrics := default relay0
  ((fun st => on_inst (joined 5 st (re_board relay0)) relay0) <$>
    join 5 (set_heap (<[5 := visitor 0]> ∅) (in_board (re_board relay0)))).
Definition relay2 : Relay Sub nopMetrics :=
  on_stream (set_pc PSelect (set_out ["m"] (set_pc (PSend "m") (set_in [] (push_in "m" sub_start))))) relay1.
Definition relay3 {F : Float64} : Relay Sub nopMetrics := default relay2
  ((fun st => on_stream (take_out "m" [] (re_stream relay2)) (on_inst (dispatched "m" st (re_board relay2)) relay2)) <$>
    dispatch [5] "m" (in_board (re_board relay2))).

Lemma relay3_reachable : relay_reachable 0 sub_start relay3.
Proof.
  assert (forall re r re', relay_reachable 0 sub_start re -> relay_step 0 re r -> r = Some re' ->
    relay_reachable (M := nopMetrics) 0 sub_start re') as Hgo by (intros re r re' H1 H2 ->; by eapply relay_reachable_step).
  eapply Hgo; [|eapply (rs_msg 0 relay2 [5]); [done|done|reflexivity|]|by vm_compute].
  2: { split; [apply NoDup_singleton|]. intros c. rewrite list_elem_of_singleton.
       assert (clients (in_board (re_board relay2)) = {[5]}) as -> by (by vm_compute). by rewrite elem_of_singleton. }
  eapply (Hgo (on_stream (set_pc (PSend "m") (set_in [] (push_in "m" sub_start))) relay1));
    [|apply rs_stream, so_pump; apply (ps_send (set_pc (PSend "m") (set_in [] (push_in "m" sub_start))) "m");
    [done|simpl; unfold out_buffer; lia]|reflexivity].
  eapply (Hgo (on_stream (push_in "m" sub_start) relay1)); [|apply rs_stream, so_pump; by eapply (ps_recv (push_in "m" sub_start))|reflexivity].
  eapply (Hgo relay1); [|by apply rs_stream, so_push|reflexivity].
  eapply (Hgo relay0); [apply relay_reachable_start|by apply (rs_join 0 relay0 5 (visitor 0))|by vm_compute].
Qed.

Lemma any_subscription_relayed_witness :
  str_inv sub_start /\ str_received sub_start = [] /\ relay_reachable 0 sub_start relay3 /\ in_log (re_board relay3) = ["m"] /\
  (forall r, relay_step 0 relay3 r -> r <> None) /\
  in_log (re_board relay3) ++ str_waiting (re_stream relay3) `sublist_of` str_sent (re_stream relay3) /\
  forall c cl, c ∈ clients (in_board (re_board relay3)) -> heap (in_board (re_board relay3)) !! c = Some cl ->
    exists due w n, in_due (re_board relay3) !! c = Some due /\ in_written (re_board relay3) !! c = Some w /\
      in_since (re_board relay3) !! c = Some n /\ filter reliable (w ++ c_send cl) = due.*2 /\
      relayed due = filter reliable (drop n (in_log (re_board relay3))) /\
      relayed due `sublist_of` filter reliable (str_sent (re_stream relay3)).
Proof.
  assert (in_log (re_board relay3) = ["m"]) as H by (by vm_compute).
  exact (conj sub_inv_start (conj eq_refl (conj relay3_reachable (conj H
    (any_subscription_relayed 0 sub_start relay3 sub_inv_start eq_refl relay3_reachable))))).
Defined.
