(* ===== verification/ServerTheorems.v ===== *)
(** What the server process guarantees: nothing it opens outlives it and the
    hub never outlives its broker or store, its exit status, that a browser's
    URL leads to the board and the name it was made from, and what an upgraded
    connection may carry. *)

From S2P Require Import Prelude Strconv Utf8 Json JsonFacts JsonLocal Protocol Broker MemoryBroker Store Persistence Metrics Board Conn Client Hub System Lifecycle Schedule Examples Url Server.
Local Open Scope Z_scope.


(** C34: the process exits with status 0 exactly when the services it is
    configured for were reached and either the HTTP server ended without an
    error or a signal came and the hub drained in time; a failed shutdown of
    the HTTP server does not count. The hub is drained exactly when a signal
    ended a process that had started, and then the HTTP server has been shut
    down before. *)
Theorem server_exit_status env w :
  (main env w = 0 <->
    started (loadConfig env) w = true /\
    match w_served w with Some r => r = Ok tt | None => w_hub w = Ok tt end) /\
  (HubShutdown ∈ (run env w).1 <-> started (loadConfig env) w = true /\ w_served w = None) /\
  (HubShutdown ∈ (run env w).1 -> exists l1 l2, (run env w).1 = l1 ++ HTTPShutdown :: HubShutdown :: l2).
Proof.
  split_and!; [|apply run_drains|intros Hin; by apply shut_first_split, run_drain_order].
  rewrite <-run_ok. unfold main. by destruct ((run env w).2) as [[]|].
Qed.

Lemma server_exit_status_witness :
  let w := {| w_ping := Ok tt; w_pool := Ok tt; w_schema := Ok tt; w_served := None;
              w_http := Err ErrContext; w_hub := Ok tt |} in
  let env := {["WB_REDIS_ADDR" := "redis:6379"]} in
  HubShutdown ∈ (run env w).1 /\ exists l1 l2, (run env w).1 = l1 ++ HTTPShutdown :: HubShutdown :: l2.
Proof.
  intros w env. destruct (server_exit_status env w) as (_ & H2 & H3).
  assert (HubShutdown ∈ (run env w).1) as Hin by (apply H2; split; by vm_compute). exact (conj Hin (H3 Hin)).
Defined.

Section generic.
Context {B S W : Type} {BR : Broker B} {ST : Store S} {WS : Websocket W} {F : Float64}.

(** C31: the URL the browser builds for a board and a name leads there: the
    router picks the upgrade handler with exactly that board, and on a hub that
    is not closing, in any reachable state, an accepted upgrade opens a session
    on the registry's board of that identifier, under that name ("Anonymous"
    for none) and a palette colour, counted once; only a board called ".", ".."
    or "/", which the router takes for something else, is out of its reach. *)
Theorem browser_url_reaches_board (b : B) (st : option S) board name (w : W) rnd (h : Hub.Hub B S) :
  reachable b st h -> h_closing h = false -> board ∉ [""; "/"; "."; ".."] ->
  let url := wsURL board name in
  route "GET" url.1 = HWs board /\
  exists k h', Handler {| rq_board := board; rq_query := url.2; rq_accept := Ok w |} rnd h =
      (Upgraded {| ws := ws_SetReadLimit maxMessageBytes w |}, Some h') /\
    h_serve h !! k = None /\ admitted board name "" rnd k h' /\ h_sessions h' = h_sessions h + 1.
Proof.
  intros Hre Hcl Hb url. destruct (Get_wsURL board name) as [Hn Hc]. split; [apply route_wsURL; set_solver|].
  destruct (serve_admits b st board name "" rnd h Hre Hcl) as (k & h' & Hs & Hrest). exists k, h'. split; [|done].
  unfold Handler, url. cbn [rq_board rq_query rq_accept]. rewrite bool_decide_false by set_solver. by rewrite Hn, Hc, Hs.
Qed.

(** The handler admits nobody else: without a board, or without a
    successful upgrade, it leaves the hub as it was, and on a closing hub even
    an upgraded connection gets no session; on a hub in a reachable state it
    never panics. *)
Theorem upgrade_guarded (b : B) (st : option S) (r : request W) rnd (h : Hub.Hub B S) : reachable b st h ->
  (exists h', (Handler r rnd h).2 = Some h') /\
  (rq_board r = "" -> Handler r rnd h = (BadRequest, Some h)) /\
  ((exists e, rq_accept r = Err e) -> (Handler r rnd h).2 = Some h) /\
  (h_closing h = true -> (Handler r rnd h).2 = Some h).
Proof.
  intros Hre. unfold Handler. split_and!.
  - case_bool_decide; [by eexists|]. destruct (rq_accept r); simpl; [|by eexists].
    destruct (Inv_serve (rq_board r) (Get (Query (rq_query r)) "name") (Get (Query (rq_query r)) "color") rnd h
      (reachable_inv b st h Hre)) as (h' & -> & _). by exists h'.
  - intros ->. done.
  - intros [e ->]. by case_bool_decide.
  - intros Hcl. case_bool_decide; [done|]. destruct (rq_accept r); [|done]. simpl. unfold serve, beginSession.
    by rewrite Hcl.
Qed.
End generic.

(** A hub with a board and a connection on it already, as a browser's upgrade
    finds it, and the one that is closing. *)
Definition one_joining : Hub.Hub Memory MemoryStore.Memory :=
  default (mem_hub None) (Schedule.run [AServe "a b/é" "" "" []] (mem_hub None)).

Lemma one_joining_reachable : reachable NewMemory None one_joining.
Proof.
  eapply (run_reachable NewMemory None [AServe "a b/é" "" "" []]); [apply reachable_new|]. by vm_compute.
Qed.

Lemma browser_url_reaches_board_witness : exists k h',
  reachable NewMemory None one_joining /\ h_closing one_joining = false /\ "a b/é" ∉ [""; "/"; "."; ".."] /\
  Handler {| rq_board := "a b/é"; rq_query := (wsURL "a b/é" "A+B & C").2; rq_accept := Ok (ws (socket true)) |} ["x"%char] one_joining
    = (Upgraded (socket true), Some h') /\ admitted "a b/é" "A+B & C" "" ["x"%char] k h'.
Proof.
  assert ("a b/é" ∉ [""; "/"; "."; ".."]) as Hn by (by apply (bool_decide_unpack _)).
  assert (h_closing one_joining = false) as Hc by (by vm_compute).
  destruct (browser_url_reaches_board NewMemory None "a b/é" "A+B & C" (ws (socket true)) ["x"%char] one_joining one_joining_reachable Hc Hn)
    as (_ & k & h' & Hh & _ & Ha & _).
  exists k, h'. exact (conj one_joining_reachable (conj Hc (conj Hn (conj Hh Ha)))).
Defined.

Lemma upgrade_guarded_witness :
  reachable NewMemory None one_joining /\
  Handler {| rq_board := ""; rq_query := "name=Ada"; rq_accept := Ok (ws (socket true)) |} [] one_joining = (BadRequest, Some one_joining).
Proof.
  split; [exact one_joining_reachable|].
  exact (proj1 (proj2 (upgrade_guarded NewMemory None
    {| rq_board := ""; rq_query := "name=Ada"; rq_accept := Ok (ws (socket true)) |} [] one_joining one_joining_reachable)) eq_refl).
Defined.

(** ** The connection *)

(** C32: an upgraded connection is safe on both sides: whatever calls the hub has
    made on the connection the handler gave it, every frame sent since the
    upgrade is a text frame, and no message longer than one mebibyte is ever
    handed to the hub. *)
Theorem upgraded_connection {B S W} {BR : Broker B} {ST : Store S} {WS : Websocket W} {WL : WebsocketLaws W} {F : Float64}
    (r : request W) rnd (h : Hub.Hub B S) c0 c :
  (Handler r rnd h).1 = Upgraded c0 -> rtc called c0 c ->
  (exists l, ws_frames (ws c) = ws_frames (ws c0) ++ ((fun d => (MessageText, d)) <$> l)) /\
  forall ctx now c' t data, Read ctx now c = (c', t, Ok data) -> Z.of_nat (String.length data) <= 1048576.
Proof.
  unfold Handler. case_bool_decide; [done|]. destruct (rq_accept r) as [w|e]; [|done]. intros E Hr.
  assert (c0 = {| ws := ws_SetReadLimit maxMessageBytes w |}) as -> by (simpl in E; congruence).
  pose proof (called_well_used _ _ _ (limited_well_used w) Hr) as Hw.
  split; [by destruct Hw|]. intros ctx now c' t data Er. exact (Read_bounded _ ctx now c c' t data Hw Er).
Qed.

Lemma upgraded_connection_witness :
  let r := {| rq_board := "b"; rq_query := ""; rq_accept := Ok (ws (socket true)) |} in
  let c := (Write (WithTimeout {| cx_cancelled := false; cx_deadline := None |} 0 1) 0 "x" (socket true)).1.1 in
  (Handler r [] one_joining).1 = Upgraded (socket true) /\ rtc called (socket true) c /\ ws_frames (ws c) = [(MessageText, "x")] /\
  (exists l, ws_frames (ws c) = ws_frames (ws (socket true)) ++ ((fun d => (MessageText, d)) <$> l)) /\
  (exists c' t, Read {| cx_cancelled := false; cx_deadline := None |} 0 c = (c', t, Ok "{}")) /\
  forall ctx now c' t data, Read ctx now c = (c', t, Ok data) -> Z.of_nat (String.length data) <= 1048576.
Proof.
  intros r c. assert ((Handler r [] one_joining).1 = Upgraded (socket true)) as H0 by (by vm_compute).
  assert (rtc called (socket true) c) as H by (apply rtc_once; constructor).
  pose proof (upgraded_connection r [] one_joining (socket true) c H0 H) as [H1 H2].
  split; [exact H0|]. split; [exact H|]. split; [reflexivity|]. split; [exact H1|]. split; [by eexists _, _|exact H2].
Defined.
