(* ===== verification/BrowserTheorems.v ===== *)
(** What the browser's replica is worth: it agrees with the board as long as
    its messages come in order, and where they do not. *)

From S2P Require Import Prelude Strconv Utf8 Json JsonFacts JsonLocal Protocol Broker MemoryBroker RedisBroker Store Metrics Board Client Hub System Schedule JsMap Browser Roster Examples BrokerTheorems ProtocolTheorems ClientTheorems HubTheorems.
Local Open Scope Z_scope.

(** ** In order *)

(** C22: in order, the replica converges: a browser that gets a snapshot of the
    board after the operations [old] and [between], and then the relayed
    messages of the operations from [between] on, in the order of their
    sequence numbers, ends with exactly the board after all of them, whatever it
    showed before; the messages the snapshot already reflects do no harm. *)
Theorem replica_converges {F : Float64} old between later snap a :
  is_snapshot (replay (old ++ between)) snap ->
  contents (app_shapes (handle_all (wire_of_snapshot snap :: wires (length old) (between ++ later)) a)) =
    canvas_of (replay (old ++ between ++ later)).
Proof.
  intros Hs. rewrite handle_all_shapes. cbn [draw_all fold_left]. change (fold_left _ ?ms ?c) with (draw_all ms c).
  rewrite (snapshot_canvas _ _ _ Hs), wires_app, draw_all_app, catches_up_old, <-length_app, catches_up_new.
  by rewrite app_assoc.
Qed.

Definition draw (id blob : string) : op := {| o_id := id; o_blob := blob; o_del := false |}.
Definition erase (id : string) : op := {| o_id := id; o_blob := ""; o_del := true |}.

Definition mid_snapshot : Protocol.Snapshot := {| sn_Seq := 3; sn_Shapes := [{| ss_Seq := 3; ss_ID := "s"; ss_Shape := Some "{}" |}] |}.

Lemma mid_is_snapshot : is_snapshot (replay ([draw "s" "[]"] ++ [erase "s"; draw "s" "{}"])) mid_snapshot.
Proof.
  split; [by vm_compute|]. split; [repeat constructor|].
  assert (map_to_list (v_shapes (replay ([draw "s" "[]"] ++ [erase "s"; draw "s" "{}"]))) = [("s", Entry 3 "{}")]) as -> by (by vm_compute).
  done.
Qed.

Lemma replica_converges_witness :
  is_snapshot (replay ([draw "s" "[]"] ++ [erase "s"; draw "s" "{}"])) mid_snapshot /\
  contents (app_shapes (handle_all
    (wire_of_snapshot mid_snapshot :: wires 1 ([erase "s"; draw "s" "{}"] ++ [draw "t" "{}"])) app_start)) =
    canvas_of (replay ([draw "s" "[]"] ++ [erase "s"; draw "s" "{}"] ++ [draw "t" "{}"])).
Proof.
  exact (conj mid_is_snapshot
    (replica_converges [draw "s" "[]"] [erase "s"; draw "s" "{}"] [draw "t" "{}"] mid_snapshot app_start mid_is_snapshot)).
Defined.

(** ** From the hub's bytes *)



(** JavaScript's test, on the documents the browser draws: objects. *)
Definition js_object (s : string) : bool := match parse s with Some (JObj _) => true | _ => false end.

Definition delete_message : string :=
  "{" +:+ quoted "type" +:+ ":" +:+ quoted "shape.delete" +:+ "," +:+ quoted "payload" +:+ ":{" +:+
  quoted "id" +:+ ":" +:+ quoted "s" +:+ "}}".

Definition delete_envelope : Envelope := (Unmarshal dec_Envelope delete_message Envelope_zero).1.
Definition delete_op : ShapeOp := (DecodePayload dec_ShapeOp delete_envelope ShapeOp_zero).1.



Definition bob : Client :=
  {| c_id := "b2"; c_name := "Bob"; c_color := ""; c_board := 0; c_send := []; c_closed := false;
     c_conn := false; c_present := false |}.

Definition carol : Client :=
  {| c_id := "c3"; c_name := ""; c_color := ""; c_board := 0; c_send := []; c_closed := false;
     c_conn := false; c_present := false |}.



(** ** Out of order

    Sessions 1 and 2 on one board of an in-process broker; [relay1] and
    [relay2] are what the second session's and the first one's operations
    are published as. *)

Definition relay (t : string) (seq : Z) (op : ShapeOp) : string :=
  match Marshal t seq op with Ok msg => msg | Err _ => "" end.

(** The first session has its snapshot of the empty board in hand when the
    second draws a shape; the board relays that before it takes the snapshot. *)
Definition late : list action :=
  [AServe "b" "" "" []; AStart 0; ARegister 1; ARequest 1; ARequest 1; ARequest 1;
   AServe "b" "" "" ["a"%char]; ARegister 2; ARequest 2; ARequest 2; ARequest 2; ADirect 2; ARequest 2; ADirect 2; AOnboarded 2;
   ARead 2 shape_message; ARequest 2; ARequest 2; ARequest 2;
   ADispatch 0 (relay TypeShapeCreate 1 shape_op); ADirect 1].

(** The messages queued for a session. *)
Definition queue_of (h : mhub) (k : nat) : list string := default [] (c_send <$> h_clients h !! k).

(** A snapshot that arrives late erases what is newer: there is an
    interleaving in which a newcomer's queue holds the relay of an operation
    numbered 1 and behind it the snapshot numbered 0; the browser, which clears
    its shapes on a snapshot and does not look at its number, then shows
    nothing, while the board has the shape, and nothing is left in flight. *)
Theorem late_snapshot_erases :
  let h := after None late in
  reachable NewMemory None h /\
  is_shape_msg (relay TypeShapeCreate 1 shape_op) TypeShapeCreate 1 shape_op /\
  head (queue_of h 1) = Some (relay TypeShapeCreate 1 shape_op) /\
  contents (app_shapes (handle_all (wire_of_bytes js_object <$> queue_of h 1) app_start)) = ∅ /\
  canvas_of (mem_view (h_broker h) "b") = {[ "s" := (1, "{}") ]}.
Proof.
  intros h. split_and!; [apply after_reachable; by vm_compute| |by vm_compute|by vm_compute|by vm_compute].
  exists (Unmarshal dec_Envelope (relay TypeShapeCreate 1 shape_op) Envelope_zero).1. split_and!; by vm_compute.
Qed.

(** Both sessions are on the board; the first draws a shape, which is numbered
    1, the second deletes it, which is numbered 2 and published first. *)
Definition overtaken_publish : list action :=
  [AServe "b" "" "" []; AStart 0; ARegister 1; ARequest 1; ARequest 1; ARequest 1; ADirect 1; ARequest 1; ADirect 1; AOnboarded 1;
   AServe "b" "" "" ["a"%char]; ARegister 2; ARequest 2; ARequest 2; ARequest 2; ADirect 2; ARequest 2; ADirect 2; AOnboarded 2;
   ARead 1 shape_message; ARequest 1; ARequest 1;
   ARead 2 delete_message; ARequest 2; ARequest 2; ARequest 2; ADispatch 0 (relay TypeShapeDelete 2 delete_op); AHandled 2;
   ARequest 1; ADispatch 0 (relay TypeShapeCreate 1 shape_op); AHandled 1].

(** Operations that overtake each other between their numbering and their
    publication leave the replicas wrong: there is an interleaving in which a
    board with two clients gets the delete numbered 2 before the create
    numbered 1; the browser keeps no trace of the delete, so both clients
    show a shape that the board no longer has. *)
Theorem overtaken_delete_resurrects :
  let h := after None overtaken_publish in
  reachable NewMemory None h /\
  is_shape_msg (relay TypeShapeDelete 2 delete_op) TypeShapeDelete 2 delete_op /\
  (forall k, k ∈ [1%nat; 2%nat] -> contents (app_shapes (handle_all (wire_of_bytes js_object <$> queue_of h k) app_start)) = {[ "s" := (1, "{}") ]}) /\
  canvas_of (mem_view (h_broker h) "b") = ∅.
Proof.
  intros h. split_and!; [apply after_reachable; by vm_compute| | |by vm_compute].
  - exists (Unmarshal dec_Envelope (relay TypeShapeDelete 2 delete_op) Envelope_zero).1. split_and!; by vm_compute.
  - intros k Hk. apply elem_of_cons in Hk as [->|Hk%list_elem_of_singleton]; [by vm_compute|subst; by vm_compute].
Qed.

(** ** What the browser does not keep *)

(** A message that draws the shape [id]. *)
Definition drawing (id : string) : string :=
  "{" +:+ quoted "type" +:+ ":" +:+ quoted "shape.create" +:+ "," +:+ quoted "payload" +:+ ":{" +:+
  quoted "id" +:+ ":" +:+ quoted id +:+ "," +:+ quoted "shape" +:+ ":{}}}".

(** The page of a client that joins at [b] and is there for what follows. *)
Definition page (c : Client) (l : list activity) (a : App) (b : Memory) : App * Memory :=
  let '(b1, _, welcome_msgs) := exec (onboard "board" c) b in
  let '(b2, msgs) := act_all "board" l b1 in
  (handle_all (wire_of_bytes js_object <$> welcome_msgs ++ msgs) a, b2).

(** The order of drawing depends on when one came: the snapshot lists the
    shapes by sequence number, "later writes on top", but a browser that was
    there keeps a shape that is written again in its old place; two clients
    with the same shapes under the same numbers then show them in different
    orders. *)
Theorem draw_orders_differ :
  let '(old, b) := page alice [Says alice (drawing "s"); Says alice (drawing "t"); Says alice (drawing "s")] app_start NewMemory in
  let '(new, _) := page bob [] app_start b in
  contents (app_shapes old) = contents (app_shapes new) /\
  js_keys (app_shapes old) = ["s"; "t"] /\ js_keys (app_shapes new) = ["t"; "s"].
Proof. vm_compute. split_and!; reflexivity. Qed.

(** A cursor can outlive its client: a browser that misses a departure, because
    it was disconnected meanwhile, is sent a fresh roster when it is back,
    but clears its cursors only one by one, when their clients leave; the
    cursor of the client that is gone stays, now without an entry in the
    roster. *)
Theorem cursor_outlives_client :
  let '(before, b) := page alice [Joins bob; Says bob forged] app_start NewMemory in
  let (b1, _) := act_all "board" [Leaves alice; Leaves bob] b in
  let (after, _) := page carol [] before b1 in
  js_keys (app_cursors after) = ["b2"] /\ js_keys (app_presence after) = ["c3"].
Proof. vm_compute. split; reflexivity. Qed.
