(* ===== verification/PageTheorems.v ===== *)
(** What the page promises its user: a stroke is shared with everybody, one
    connection at a time, and what a lost connection costs. *)

From S2P Require Import Prelude Strconv Utf8 Json JsonFacts JsonLocal Protocol Broker MemoryBroker RedisBroker Metrics Board Client JsMap Browser JsJson Page Examples BrokerTheorems ClientTheorems BrowserTheorems.
From Stdlib Require Import SpecFloat.
Local Open Scope Z_scope.

(** ** From the pointer to everybody's canvas *)

Section stroke.
Context {JN : JsNumber} {JL : JsNumberLaws}.

Lemma shape_value d r color : 1 <= d -> js_value d (shape_json r color).
Proof using JL. intros Hd. apply js_value_record; [done|]. js_members. Qed.

Lemma create_value d id r color : 2 <= d -> js_value d (create_json id (shape_json r color)).
Proof using JL. intros Hd. apply js_value_record; [lia|]. js_members. apply shape_value. lia. Qed.

Lemma envelope_value d t payload : 1 <= d -> js_value (d - 1) payload -> js_value d (envelope_json t payload).
Proof using Type. intros Hd Hp. apply js_value_record; [lia|]. js_members. Qed.

(** Go decodes the envelope the browser writes, *)
Lemma envelope_decodes t payload : utf8 t -> js_value (maxNestingDepth - 1) payload ->
  Unmarshal dec_Envelope (JSON_stringify (envelope_json t payload)) Envelope_zero =
    ({| Type_ := t; Seq := 0; Payload := Some (JSON_stringify payload) |}, None).
Proof using Type.
  intros Ht Hp. unfold Unmarshal. rewrite parse_stringify by (by apply envelope_value).
  unfold envelope_json, js_record, dec_Envelope, dec_struct. cbn [map fold_left fst snd].
  unfold dec_member. cbn [fst snd].
  assert (find_field ["type"; "seq"; "payload"] (string_value (js_quote "type")) = Some "type") as -> by (by vm_compute).
  assert (find_field ["type"; "seq"; "payload"] (string_value (js_quote "payload")) = Some "payload") as -> by (by vm_compute).
  unfold js_string at 1. simpl. by rewrite string_value_js_quote.
Qed.

(** and the operation in it. *)
Lemma create_decodes t id r color : utf8 id ->
  let shape := shape_json r color in
  DecodePayload dec_ShapeOp {| Type_ := t; Seq := 0; Payload := Some (JSON_stringify (create_json id shape)) |} ShapeOp_zero =
    ({| ID := id; Shape := Some (JSON_stringify shape) |}, None).
Proof using JL.
  intros Hid shape. unfold DecodePayload. cbn [Payload].
  assert (bytes_empty (Some (JSON_stringify (create_json id shape))) = false) as -> by done.
  unfold Unmarshal. change (bytes_text (Some ?s)) with s. rewrite parse_stringify by (by apply create_value).
  unfold create_json, js_record, dec_ShapeOp, dec_struct. cbn [map fold_left fst snd].
  unfold dec_member. cbn [fst snd].
  assert (find_field ["id"; "shape"] (string_value (js_quote "id")) = Some "id") as -> by (by vm_compute).
  assert (find_field ["id"; "shape"] (string_value (js_quote "shape")) = Some "shape") as -> by (by vm_compute).
  unfold js_string at 1. simpl. by rewrite string_value_js_quote.
Qed.

(** What arrives is an object again. *)
Lemma normal_object l : js_value maxNestingDepth (js_record l) -> js_object (normal (JSON_stringify (js_record l))) = true.
Proof using Type.
  intros Hv. unfold normal, compact. rewrite parse_stringify by done. unfold js_object.
  destruct Hv as [Hw _]. rewrite parse_print by (by apply wf_html). by unfold js_record.
Qed.
End stroke.

(** C7: a stroke is shared. On a connected page, a drag of the pointer that is
    not an accidental click sends, after nothing but cursors, one message; on any
    broker, the server makes one operation of it, for the user's board and under
    the next sequence number, and publishes it once; and every browser that
    showed the board before, the author's with its own early copy of the shape
    among them, shows the new board after this message, whatever the drag, the
    colour and the coordinates. *)
Theorem stroke_shared {B} {BR : Broker B} {BL : BrokerLaws B} {F : Float64} {JN : JsNumber} {JL : JsNumberLaws}
    truthy bid c (b : B) p e ms id :
  br_inv b -> v_seq (br_view b bid) < br_limit -> stopped (pg_net p) = false -> connected (pg_net p) = true ->
  utf8 id -> id <> "" -> tiny (stroke_rect e ms) = false -> (forall s, js_object s = true -> truthy s = true) ->
  let shows a b := contents (app_shapes a) = norm <$> canvas_of (br_view b bid) in
  exists p' cursors data b' msg,
    page_run truthy (stroke e ms id) p = Some (p', cursors ++ [data]) /\ Forall is_cursor_message cursors /\
    js_get id (app_shapes (pg_app p')) = Some (0, stroke_text e ms p) /\
    exec (handle bid c data) b = (b', [msg], []) /\ br_inv b' /\
    br_view b' bid = spec_apply id (stroke_text e ms p) false (br_view b bid) /\
    (forall a, shows a b -> shows (handleMessage (wire_of_bytes truthy msg) a) b') /\
    (shows (pg_app p) b -> shows (handleMessage (wire_of_bytes truthy msg) (pg_app p')) b').
Proof.
  intros Hb Hlim Hs Hcon Hid Hne Ht Htr shows. destruct (stroke_run truthy e ms id p Hs Ht) as (now & cursors & Hc & Erun).
  cbn zeta in Erun. rewrite Hcon in Erun. eexists _, cursors, _.
  destruct (handle_shape_op bid c _ _ _ b Hb Hlim (envelope_decodes TypeShapeCreate (create_json id (shape_json (stroke_rect e ms) (pen p)))
      ltac:(by apply utf8_plain) (create_value (maxNestingDepth - 1) _ _ _ ltac:(done))) ltac:(by apply (bool_decide_unpack _); vm_compute)
    (create_decodes _ id _ _ Hid) Hne) as (b' & msg & Eh & Hb' & Hv & Hm & _).
  cbn [Type_ ID Shape] in Hv, Hm. change (bytes_text (Some ?s)) with s in Hv. fold (stroke_text e ms p) in Hv, Hm.
  exists b', msg. split; [exact Erun|]. split; [apply Hc|].
  split; [cbn; by rewrite contents_get, contents_set, lookup_insert_eq|]. split; [exact Eh|]. split; [done|]. split; [done|].
  pose proof (parse_stringify _ (shape_value maxNestingDepth (stroke_rect e ms) (pen p) ltac:(done))) as Hp.
  assert (wire_of_bytes truthy msg = WSet (v_seq (br_view b bid) + 1) id (Some (normal (stroke_text e ms p)))) as Ew.
  { refine (relayed_wire truthy msg _ _ _ (stroke_text e ms p) _ Hm _ eq_refl Hp _).
    - by apply (bool_decide_unpack _); vm_compute.
    - apply Htr, normal_object, (shape_value maxNestingDepth). done. }
  assert (forall m, m = norm <$> canvas_of (br_view b bid) -> draw_step (wire_of_bytes truthy msg) m = norm <$> canvas_of (br_view b' bid)) as Hstep.
  { intros m ->. rewrite Ew, Hv. apply (replica_step _ _ _ false), br_view_ok, Hb. }
  unfold shows. split.
  - intros a Ha. rewrite handleMessage_shapes. by apply Hstep.
  - intros Ha. rewrite handleMessage_shapes. rewrite <-(Hstep _ Ha), Ew. cbn [pg_app set_app set_draw set_lastCursorSent app_shapes set_shapes]. rewrite contents_set.
    pose proof (vo_seq _ (br_view_ok b bid Hb)). cbn [draw_step]. rewrite lookup_insert_eq. cbn [fst].
    replace (0 <=? v_seq (br_view b bid) + 1) with true by lia. rewrite insert_insert_eq, Ha, lookup_fmap.
    unfold canvas_of. rewrite lookup_fmap. destruct (v_shapes (br_view b bid) !! id) as [x|] eqn:Ex; [|done]. simpl.
    apply (vo_range _ (br_view_ok b bid Hb)) in Ex. by replace (e_seq x <=? v_seq (br_view b bid) + 1) with true by lia.
Qed.

(** Coordinates that are integers. *)
#[export] Instance int_text : JsNumber := fun x =>
  match x with S754_finite _ m e => FormatUint (Z.shiftl (Zpos m) e mod two64) | _ => FormatUint 0 end.

#[export] Instance int_text_laws : JsNumberLaws.
Proof. intros [s| | |s m e] _; simpl; apply num_ok_uint; [done..|]. apply Z.mod_pos_bound. done. Qed.

Definition at_xy (x y : Z) : pointer :=
  {| clientX := js_int x; clientY := js_int y; canvas_left := js_int 0; canvas_top := js_int 50 |}.

(** A page whose connection is established, and a drag on it. *)
Definition page1 : Page := set_net (onopen (set_socket 0 OPEN net_start)) page_start.
Definition drag : list (pointer * number) := [(at_xy 30 90, js_int 1000); (at_xy 40 95, js_int 1016); (at_xy 20 110, js_int 1050)].

Lemma stroke_shared_witness :
  page_run js_object [PNet (NOpen 0)] page_start = Some (page1, []) /\ br_inv drawn /\
  v_seq (br_view drawn "board") < br_limit (B := redis) /\ tiny (stroke_rect (at_xy 50 60) drag) = false /\
  stroke_text (at_xy 50 60) drag page1 =
    "{" +:+ quoted "type" +:+ ":" +:+ quoted "rect" +:+ "," +:+ quoted "x" +:+ ":20," +:+ quoted "y" +:+ ":10," +:+
    quoted "w" +:+ ":30," +:+ quoted "h" +:+ ":50," +:+ quoted "color" +:+ ":" +:+ quoted "#334155" +:+ "}" /\
  let shows a b := contents (app_shapes a) = norm <$> canvas_of (br_view b "board") in
  exists p' cursors data b' msg,
    page_run js_object (stroke (at_xy 50 60) drag "t") page1 = Some (p', cursors ++ [data]) /\ Forall is_cursor_message cursors /\
    js_get "t" (app_shapes (pg_app p')) = Some (0, stroke_text (at_xy 50 60) drag page1) /\
    exec (handle "board" alice data) drawn = (b', [msg], []) /\ br_inv b' /\
    br_view b' "board" = spec_apply "t" (stroke_text (at_xy 50 60) drag page1) false (br_view drawn "board") /\
    (forall a, shows a drawn -> shows (handleMessage (wire_of_bytes js_object msg) a) b') /\
    (shows (pg_app page1) drawn -> shows (handleMessage (wire_of_bytes js_object msg) (pg_app p')) b').
Proof.
  assert (v_seq (br_view drawn "board") < br_limit (B := redis)) as H0 by (vm_compute; reflexivity).
  assert (tiny (stroke_rect (at_xy 50 60) drag) = false) as H1 by (by vm_compute).
  assert (utf8 "t") as H2 by (by apply utf8_plain).
  split; [reflexivity|]. split; [exact drawn_inv|]. split; [exact H0|]. split; [exact H1|]. split; [by vm_compute|].
  exact (stroke_shared js_object "board" alice drawn page1 (at_xy 50 60) drag "t" drawn_inv H0 eq_refl eq_refl H2
    ltac:(discriminate) H1 (fun s Hs => Hs)).
Defined.

(** ** The rectangle *)

Lemma js_min_comm x y : js_min x y = js_min y x.
Proof.
  destruct x as [sx|sx| |sx mx ex], y as [sy|sy| |sy my ey]; try done; try (by destruct sx, sy); try (by destruct sx); try (by destruct sy).
  simpl. unfold SFltb, SFcompare. destruct sx, sy; try done; rewrite (Z.compare_antisym ex ey); destruct (Z.compare_spec ex ey); simpl; try done;
    subst; change (Pos.compare_cont Eq ?a ?b) with (Pos.compare a b); rewrite (Pos.compare_antisym mx my);
    destruct (Pos.compare_spec mx my); simpl; by subst.
Qed.

Lemma round_abs sx mx ex lx : js_abs (binary_round_aux 53 1024 sx mx ex lx) = js_abs (binary_round_aux 53 1024 false mx ex lx).
Proof.
  unfold binary_round_aux. destruct (shr_fexp _ _ mx ex lx) as [r e]. destruct (shr_fexp _ _ _ e _) as [r' e'].
  destruct (shr_m r'); [done| |done]. by destruct (_ <=? _).
Qed.

Lemma normalize_abs m e s : js_abs (binary_normalize 53 1024 (- m) e s) = js_abs (binary_normalize 53 1024 m e s).
Proof.
  destruct m as [|m|m]; simpl; [done|..]; unfold binary_round; destruct (shl_align _ _ _) as [mz ez];
    by rewrite (round_abs true).
Qed.

Lemma js_sub_abs x y : js_abs (js_sub x y) = js_abs (js_sub y x).
Proof.
  destruct x as [sx|sx| |sx mx ex], y as [sy|sy| |sy my ey]; try done; try (by destruct sx, sy).
  unfold js_sub, SFsub. rewrite (Z.min_comm ey ex). rewrite <-normalize_abs. do 2 f_equal. lia.
Qed.

(** A stroke leaves the same rectangle whichever corner it starts from. *)
Theorem any_corner_first d : normalize {| startX := d_x d; startY := d_y d; d_x := startX d; d_y := startY d |} = normalize d.
Proof. unfold normalize. simpl. by rewrite (js_min_comm (d_x d)), (js_min_comm (d_y d)), (js_sub_abs (startX d)), (js_sub_abs (startY d)). Qed.

(** ** Off line *)

(** A stroke drawn without a connection is lost: the page shows it, but gives
    nothing to the socket, then or later, and the snapshot of the next connection
    takes it away. *)
Theorem offline_stroke_lost {F : Float64} {JN : JsNumber} truthy p e ms id shapes :
  stopped (pg_net p) = false -> connected (pg_net p) = false -> tiny (stroke_rect e ms) = false ->
  exists p', page_run truthy (stroke e ms id) p = Some (p', []) /\
    js_get id (app_shapes (pg_app p')) = Some (0, stroke_text e ms p) /\
    (id ∉ shapes.*1 -> js_get id (app_shapes (handleMessage (WSnapshot shapes) (pg_app p'))) = None).
Proof.
  intros Hs Hcon Ht. destruct (stroke_run truthy e ms id p Hs Ht) as (now & cursors & Hc & Erun). cbn zeta in Erun.
  destruct Hc as [_ Hc].
  rewrite Hcon, (Hc Hcon) in Erun. eexists. split; [exact Erun|].
  split; [cbn; by rewrite contents_get, contents_set, lookup_insert_eq|]. intros Hid.
  rewrite contents_get, handleMessage_shapes. generalize (contents (app_shapes (pg_app (set_lastCursorSent now
    (set_draw None (set_app (set_shapes (js_set id (0, stroke_text e ms p) (app_shapes (pg_app p))) (pg_app p)) p)))))). intros m.
  simpl. clear -Hid. assert (forall m : canvas, m !! id = None -> fold_left (fun c s => <[s.1 := s.2]> c) shapes m !! id = None) as H.
  { induction shapes as [|s l IH]; intros c Hc; [done|]. apply not_elem_of_cons in Hid as [H1 H2]. simpl. apply IH; [done|].
    by rewrite lookup_insert_ne. }
  by apply H, lookup_empty.
Qed.

(** ** One connection *)

(** C38: one connection at a time. In every run of the page, and as long as it is
    mounted, it has either exactly one socket that is not closed, which is the one
    it sends on and the only one it hears from, or none and exactly one reconnect
    pending; and it reports itself connected exactly while that socket is
    established. *)
Theorem one_connection {F : Float64} {JN : JsNumber} truthy evs p sent :
  page_run truthy evs page_start = Some (p, sent) -> let n := pg_net p in stopped n = false ->
  exists s, ws_all n !! wsRef n = Some s /\ timers n = (if decide (s = CLOSED) then 1%nat else 0%nat) /\
    (status n = Sconnected <-> s = OPEN \/ s = CLOSING) /\
    (forall i t, ws_all n !! i = Some t -> i <> wsRef n -> t = CLOSED) /\
    (forall i data, is_Some (page_step truthy (PMessage i data) p) -> i = wsRef n /\ connected n = true).
Proof.
  intros Hrun n Hs. destruct (page_run_net truthy evs page_start p sent Hrun) as [(s & Hc & Ht & Hst) Ho]; [by intros _; apply net_ok_start|done|].
  exists s. split_and!; [done..|]. intros i data. simpl. fold n. destruct (ws_all n !! i) as [[]|] eqn:Hi; intros [? E]; try done.
  destruct (decide (i = wsRef n)) as [->|Hne]; [|by apply Ho in Hi]. split; [done|]. by apply bool_decide_eq_true.
Qed.

(** Connected, drawing, cut off, drawing on, and back. *)
Definition outage : list page_event :=
  [PNet (NOpen 0); PDown (at_xy 50 60); PMove (at_xy 20 110, js_int 1000); PNet (NClosing 0); PNet (NClose 0); PUp "t";
   PNet NTimer; PNet (NOpen 1); PMove (at_xy 0 50, js_int 2500)].

Definition after_outage : Page * list string :=
  match page_run js_object outage page_start with Some r => r | None => (page_start, []) end.

Lemma one_connection_witness :
  page_run js_object outage page_start = Some (after_outage.1, after_outage.2) /\ length after_outage.2 = 2%nat /\
  let n := pg_net after_outage.1 in ws_all n = [CLOSED; OPEN] /\ stopped n = false /\
  exists s, ws_all n !! wsRef n = Some s /\ timers n = (if decide (s = CLOSED) then 1%nat else 0%nat) /\
    (status n = Sconnected <-> s = OPEN \/ s = CLOSING) /\
    (forall i t, ws_all n !! i = Some t -> i <> wsRef n -> t = CLOSED) /\
    (forall i data, is_Some (page_step js_object (PMessage i data) after_outage.1) -> i = wsRef n /\ connected n = true).
Proof.
  assert (page_run js_object outage page_start = Some (after_outage.1, after_outage.2)) as H.
  { assert (bool_decide (is_Some (page_run js_object outage page_start)) = true) as H0 by (vm_compute; exact eq_refl).
    unfold after_outage. by destruct (page_run js_object outage page_start) as [[p sent]|]. }
  split; [exact H|]. split; [by vm_compute|]. split; [by vm_compute|]. split; [by vm_compute|].
  exact (one_connection js_object outage _ _ H ltac:(by vm_compute)).
Defined.

(** Until it is unmounted the page comes back by itself: whatever has happened,
    at most three events, of which one is an attempt that succeeds (the socket
    closes, the timer fires, the connection is established), lead to a connected
    page, and nothing is forgotten on the way. *)
Theorem page_reconnects {F : Float64} {JN : JsNumber} truthy evs p sent :
  page_run truthy evs page_start = Some (p, sent) -> stopped (pg_net p) = false ->
  exists more p', page_run truthy (PNet <$> more) p = Some (p', []) /\ (length more <= 3)%nat /\ connected (pg_net p') = true /\
    pg_app p' = pg_app p.
Proof.
  intros Hrun Hs. pose proof (page_run_net truthy evs page_start p sent Hrun (fun _ => net_ok_start) Hs) as Hn.
  assert (forall n, net_ok n -> stopped n = false -> ws_all n !! wsRef n = Some CLOSED ->
    exists n1, net_step NTimer n = Some n1 /\ exists n2, net_step (NOpen (wsRef n1)) n1 = Some n2 /\ connected n2 = true) as Hclosed.
  { intros n [(s & Hc & Ht & _) _] _ E. rewrite E in Hc. injection Hc as <-. simpl in Ht |- *. rewrite Ht. eexists. split; [done|]. simpl.
    rewrite lookup_app_r, Nat.sub_diag by done. simpl. eexists. split; [done|]. apply bool_decide_eq_true. simpl.
    apply list_lookup_insert_eq. rewrite length_app. simpl. lia. }
  destruct (no_current _ Hn) as (s & Hc & _). destruct s.
  - exists [NOpen (wsRef (pg_net p))]. simpl. rewrite Hc. simpl. eexists. split; [done|]. split; [lia|]. split; [|done].
    apply bool_decide_eq_true. simpl. apply list_lookup_insert_eq. by eapply lookup_lt_Some.
  - exists [], p. simpl. split_and!; [done|lia|by apply bool_decide_eq_true|done].
  - assert (exists n1, net_step (NClose (wsRef (pg_net p))) (pg_net p) = Some n1) as [n1 E1] by (simpl; rewrite Hc; by eexists).
    assert (stopped n1 = false /\ ws_all n1 !! wsRef n1 = Some CLOSED) as [Hs1 Hc1].
    { simpl in E1. rewrite Hc in E1. injection E1 as <-. rewrite onclose_stopped. split; [done|]. unfold onclose. simpl.
      rewrite Hs. simpl. apply list_lookup_insert_eq. by eapply lookup_lt_Some. }
    destruct (Hclosed n1 ltac:(by eapply net_ok_step) Hs1 Hc1) as (n2 & E2 & n3 & E3 & Hcon).
    exists [NClose (wsRef (pg_net p)); NTimer; NOpen (wsRef n2)]. cbn -[net_step]. rewrite E1. cbn -[net_step]. rewrite E2. cbn -[net_step]. rewrite E3.
    cbn. eexists. by split_and!.
  - destruct (Hclosed (pg_net p) Hn Hs Hc) as (n2 & E2 & n3 & E3 & Hcon).
    exists [NTimer; NOpen (wsRef n2)]. cbn -[net_step]. rewrite E2. cbn -[net_step]. rewrite E3. cbn. eexists. split_and!; [done|lia|done..].
Qed.

(** The cleanup forgets the timer: a page that is unmounted while a reconnect is
    pending connects again, and nothing closes that connection. *)
Theorem unmount_leaks {F : Float64} {JN : JsNumber} truthy :
  exists p, page_run truthy (PNet <$> [NOpen 0; NClose 0; NUnmount; NTimer; NOpen 1]) page_start = Some (p, []) /\
    stopped (pg_net p) = true /\ connected (pg_net p) = true /\ net_step NUnmount (pg_net p) = None.
Proof. eexists. split; [reflexivity|]. by split_and!. Qed.
